(** * MT4fb: a from-scratch Transformer for machine translation

    A shallow embedding of the notebook [MT4fb.ipynb]: the sequence padding
    helper, scaled dot-product and multi-head attention, the feed-forward
    and positional-encoding layers, the Transformer block and full model,
    the teacher-forced training loop and the greedy decoder.

    Tensors of floats are modelled over the real numbers [R]: every
    statement about values is a statement about the exact arithmetic the
    floating-point code approximates.  A tensor carries its shape next to
    its nested-list data, so that tensors with a zero-sized axis keep the
    sizes of their other axes, as they do in the tensor library.  Library
    calls that can raise (shape mismatch, index out of range, a failed
    assertion) return a [result]. *)

From Stdlib Require Import List ZArith Reals Lia Lra Bool Arith.
From Stdlib Require String.
Import ListNotations.
Import String.StringSyntax.

Set Implicit Arguments.

Delimit Scope string_scope with string.
Bind Scope string_scope with String.string.

(** ** Exceptions and the error monad *)

Inductive exn : Type :=
| AssertionError
| ZeroDivisionError
| IndexError
| RuntimeError
| ValueError.

Inductive result (A : Type) : Type :=
| Ok (a : A)
| Raise (e : exn).

Arguments Ok {A} a.
Arguments Raise {A} e.

Definition bind {A B : Type} (c : result A) (k : A -> result B) : result B :=
  match c with
  | Ok a => k a
  | Raise e => Raise e
  end.

Notation "x <- c ;; k" := (bind c (fun x => k))
  (at level 61, c at next level, right associativity).

Definition is_ok {A : Type} (c : result A) : bool :=
  match c with Ok _ => true | Raise _ => false end.

(** Monadic map over a list, left to right. *)
Fixpoint mapM {A B : Type} (f : A -> result B) (l : list A) : result (list B) :=
  match l with
  | [] => Ok []
  | a :: t => b <- f a ;; bs <- mapM f t ;; Ok (b :: bs)
  end.

(** ** Python list helpers *)

(** [[x] * n]: the empty list when [n <= 0]. *)
Definition py_repeat {A : Type} (x : A) (n : Z) : list A :=
  repeat x (Z.to_nat n).

(** [l[:n]]: a negative [n] counts from the end. *)
Definition py_slice_to {A : Type} (l : list A) (n : Z) : list A :=
  if (0 <=? n)%Z then firstn (Z.to_nat n) l
  else firstn (length l - Z.to_nat (- n)) l.

(** [l[n:]]: a negative [n] counts from the end. *)
Definition py_slice_from {A : Type} (l : list A) (n : Z) : list A :=
  if (0 <=? n)%Z then skipn (Z.to_nat n) l
  else skipn (length l - Z.to_nat (- n)) l.

(** [np.array] of a list of rows: a two-dimensional array when the rows
    have one common length; ragged rows are refused (NumPy 1.24 and
    later). *)
Definition same_lengths {A : Type} (rows : list (list A)) : bool :=
  match rows with
  | [] => true
  | r :: t => forallb (fun r' => length r' =? length r) t
  end.

Definition np_array (rows : list (list Z)) : result (list (list Z)) :=
  if same_lengths rows then Ok rows else Raise ValueError.

(** ** pad_sequences *)

Definition pad_row (maxlen padding_value : Z) (seq : list Z) : list Z :=
  if (Z.of_nat (length seq) <? maxlen)%Z
  then seq ++ py_repeat padding_value (maxlen - Z.of_nat (length seq))
  else py_slice_to seq maxlen.

Definition pad_sequences (sequences : list (list Z)) (maxlen : Z)
    (padding_value : Z) : result (list (list Z)) :=
  np_array (map (pad_row maxlen padding_value) sequences).

(** The default [padding_value=0]. *)
Definition default_padding_value : Z := 0.


(** ** Tensors

    A matrix is its list of rows together with its number of columns; a
    three-dimensional tensor of shape (batch, len, width) is a list of
    items, each a list of [len] rows of [width] reals.  Integer tensors
    hold token ids and masks. *)

Abbreviation vec := (list R) (only parsing).

Record Mat : Type := mkMat { ncols : nat; mrows : list vec }.

Definition nrows (m : Mat) : nat := length (mrows m).

Definition wfMat (m : Mat) : bool :=
  forallb (fun r => length r =? ncols m) (mrows m).

Record ZMat : Type := mkZMat { zcols : nat; zrows : list (list Z) }.

Definition znrows (m : ZMat) : nat := length (zrows m).

Definition wfZMat (m : ZMat) : bool :=
  forallb (fun r => length r =? zcols m) (zrows m).

Record T3 : Type := mkT3 { t3_len : nat; t3_width : nat; t3_items : list (list vec) }.

Definition t3_batch (t : T3) : nat := length (t3_items t).

Definition t3_numel (t : T3) : nat := t3_batch t * (t3_len t * t3_width t).

Definition wfItem (len width : nat) (it : list vec) : bool :=
  (length it =? len) && forallb (fun r => length r =? width) it.

Definition wfT3 (t : T3) : bool :=
  forallb (wfItem (t3_len t) (t3_width t)) (t3_items t).

(** The shape of a three-dimensional tensor, as [x.shape] reads it. *)
Definition t3_shape (t : T3) : nat * nat * nat :=
  (t3_batch t, t3_len t, t3_width t).

Definition vsum (l : vec) : R := fold_right Rplus 0%R l.

Definition dot (a b : vec) : R :=
  vsum (map (fun p => (fst p * snd p)%R) (combine a b)).

Definition col (j : nat) (rows : list vec) : vec :=
  map (fun r => nth j r 0%R) rows.

(** [m.transpose(-2, -1)] *)
Definition transpose (m : Mat) : Mat :=
  mkMat (nrows m) (map (fun j => col j (mrows m)) (seq 0 (ncols m))).

(** [torch.matmul] of two matrices: the inner sizes must agree. *)
Definition matmul (a b : Mat) : result Mat :=
  if ncols a =? nrows b
  then Ok (mkMat (ncols b)
             (map (fun r => map (fun j => dot r (col j (mrows b))) (seq 0 (ncols b)))
                  (mrows a)))
  else Raise RuntimeError.

Definition mat_map (f : R -> R) (m : Mat) : Mat :=
  mkMat (ncols m) (map (map f) (mrows m)).

(** *** Broadcasting *)

(** The broadcast of two sizes: equal, or one of them is 1. *)
Definition bdim (a b : nat) : option nat :=
  if a =? b then Some a
  else if a =? 1 then Some b
  else if b =? 1 then Some a
  else None.

(** Expanding an axis of size 1 (or of the right size already) to [n]. *)
Definition expand {A : Type} (d : A) (n : nat) (l : list A) : list A :=
  if length l =? n then l else repeat (hd d l) n.

(** Pairing two lists along a broadcast axis. *)
Definition bcast2 {A B : Type} (xs : list A) (ys : list B) : result (list (A * B)) :=
  if length xs =? length ys then Ok (combine xs ys)
  else match xs, ys with
       | [x], _ => Ok (map (fun y => (x, y)) ys)
       | _, [y] => Ok (map (fun x => (x, y)) xs)
       | _, _ => Raise RuntimeError
       end.

Definition vadd (a b : vec) : vec :=
  map (fun p => (fst p + snd p)%R) (combine a b).

(** [x + y] on three-dimensional tensors, with broadcasting. *)
Definition t3_add (x y : T3) : result T3 :=
  match bdim (t3_len x) (t3_len y), bdim (t3_width x) (t3_width y) with
  | Some L, Some W =>
      items <- bcast2 (t3_items x) (t3_items y) ;;
      Ok (mkT3 L W
            (map (fun p =>
                    map (fun q => vadd (expand 0%R W (fst q)) (expand 0%R W (snd q)))
                        (combine (expand [] L (fst p)) (expand [] L (snd p))))
                 items))
  | _, _ => Raise RuntimeError
  end.

(** [scores.masked_fill(mask == 0, value)]: the mask is a two-dimensional
    integer tensor; [scores] and the mask are broadcast to one common
    shape, which is the shape of the result. *)
Definition masked_fill (scores : Mat) (mask : ZMat) (value : R) : result Mat :=
  match bdim (nrows scores) (znrows mask), bdim (ncols scores) (zcols mask) with
  | Some rows, Some cols =>
      Ok (mkMat cols
            (map (fun p =>
                    map (fun q => if (snd q =? 0)%Z then value else fst q)
                        (combine (expand 0%R cols (fst p)) (expand 0%Z cols (snd p))))
                 (combine (expand [] rows (mrows scores))
                          (expand [] rows (zrows mask)))))
  | _, _ => Raise RuntimeError
  end.

(** [torch.softmax(row, dim=-1)] on one row. *)
Definition softmax (row : vec) : vec :=
  let e := map exp row in
  map (fun x => (x / vsum e)%R) e.

(** *** Views *)

(** Cutting a flat list into [count] consecutive pieces of [k] elements. *)
Fixpoint split_into {A : Type} (count k : nat) (l : list A) : list (list A) :=
  match count with
  | O => []
  | S c => firstn k l :: split_into c k (skipn k l)
  end.

(** The size [view] infers for its [-1] axis, given the number of elements
    and the other sizes: no size may be negative, their product must be
    positive and must divide the number of elements. *)
Definition view_infer (numel : nat) (sizes : list Z) : result nat :=
  if forallb (fun s => (0 <=? s)%Z) sizes
  then
    let newsize := Z.to_nat (fold_right Z.mul 1%Z sizes) in
    if (0 <? newsize) && (numel mod newsize =? 0)
    then Ok (numel / newsize)
    else Raise RuntimeError
  else Raise RuntimeError.

(** ** ScaledDotProductAttention *)

Module ScaledDotProductAttention.

(** The constant that overwrites masked scores. *)
Definition masked_score : R := (- 1e9)%R.

(** [forward] on one (seq_q, d_k) query, (seq_k, d_k) key and (seq_k, d_v)
    value; the leading axes of the source's tensors are handled by
    [forward4] below. *)
Definition forward (query key value : Mat) (mask : option ZMat)
  : result (Mat * Mat) :=
  let d_k := ncols query in
  prod <- matmul query (transpose key) ;;
  let scores := mat_map (fun x => (x / sqrt (INR d_k))%R) prod in
  scores <- match mask with
            | None => Ok scores
            | Some m => masked_fill scores m masked_score
            end ;;
  let attention := mkMat (ncols scores) (map softmax (mrows scores)) in
  output <- matmul attention value ;;
  Ok (output, attention).

(** [forward] on (batch, heads, seq, d) tensors: the batch axes of query,
    key and value broadcast, the head axes are paired. *)
Definition forward4 (query key value : list (list Mat)) (mask : option ZMat)
  : result (list (list (Mat * Mat))) :=
  qk <- bcast2 query key ;;
  qkv <- bcast2 qk value ;;
  mapM (fun e =>
          mapM (fun h => forward (fst (fst h)) (snd (fst h)) (snd h) mask)
               (combine (combine (fst (fst e)) (snd (fst e))) (snd e)))
       qkv.

End ScaledDotProductAttention.

(** ** Library layers: Linear, LayerNorm, Embedding, Dropout *)

(** [nn.Linear]: [weight] has [out_features] rows of [in_features] reals. *)
Record Linear : Type := mkLinear {
  in_features : nat;
  out_features : nat;
  weight : list vec;
  bias : vec
}.

Definition wfLinear (l : Linear) : bool :=
  (length (weight l) =? out_features l)
  && forallb (fun r => length r =? in_features l) (weight l)
  && (length (bias l) =? out_features l).

(** The constructor [nn.Linear(i, o)]: a negative size is refused; the
    initial weights are whatever the random initialisation [draw]s. *)
Definition nn_Linear (draw : nat -> nat -> list vec * vec) (i o : Z) : result Linear :=
  if (i <? 0)%Z || (o <? 0)%Z then Raise RuntimeError
  else
    let w := draw (Z.to_nat i) (Z.to_nat o) in
    Ok (mkLinear (Z.to_nat i) (Z.to_nat o) (fst w) (snd w)).

Definition linear_row (l : Linear) (r : vec) : vec :=
  vadd (map (dot r) (weight l)) (bias l).

Definition Linear_forward (l : Linear) (x : T3) : result T3 :=
  if t3_width x =? in_features l
  then Ok (mkT3 (t3_len x) (out_features l) (map (map (linear_row l)) (t3_items x)))
  else Raise RuntimeError.

(** [nn.LayerNorm(normalized_shape)] over the last axis. *)
Record LayerNorm : Type := mkLayerNorm {
  normalized_shape : nat;
  ln_weight : vec;
  ln_bias : vec;
  ln_eps : R
}.

Definition wfLayerNorm (n : LayerNorm) : bool :=
  (length (ln_weight n) =? normalized_shape n)
  && (length (ln_bias n) =? normalized_shape n).

Definition layer_norm_row (n : LayerNorm) (x : vec) : vec :=
  let len := INR (length x) in
  let mean := (vsum x / len)%R in
  let var := (vsum (map (fun v => (v - mean) * (v - mean)) x) / len)%R in
  map (fun p => ((fst (fst p) - mean) / sqrt (var + ln_eps n) * snd (fst p) + snd p)%R)
      (combine (combine x (ln_weight n)) (ln_bias n)).

Definition LayerNorm_forward (n : LayerNorm) (x : T3) : result T3 :=
  if t3_width x =? normalized_shape n
  then Ok (mkT3 (t3_len x) (t3_width x) (map (map (layer_norm_row n)) (t3_items x)))
  else Raise RuntimeError.

(** [nn.Embedding(num_embeddings, embedding_dim)]: a row lookup that raises
    on an id outside [0, num_embeddings). *)
Record Embedding : Type := mkEmbedding {
  num_embeddings : nat;
  embedding_dim : nat;
  emb_weight : list vec
}.

Definition wfEmbedding (e : Embedding) : bool :=
  (length (emb_weight e) =? num_embeddings e)
  && forallb (fun r => length r =? embedding_dim e) (emb_weight e).

Definition id_in_range (n : nat) (i : Z) : bool :=
  (0 <=? i)%Z && (i <? Z.of_nat n)%Z.

Definition Embedding_forward (e : Embedding) (ids : ZMat) : result T3 :=
  if forallb (forallb (id_in_range (num_embeddings e))) (zrows ids)
  then Ok (mkT3 (zcols ids) (embedding_dim e)
             (map (map (fun i => nth (Z.to_nat i) (emb_weight e) [])) (zrows ids)))
  else Raise IndexError.

(** The mode of a module.  In training mode every dropout call zeroes the
    entries its random draw does not keep and rescales the others; [keep]
    is that draw, indexed by the call (numbered through one forward pass)
    and by the position of the entry. *)
Inductive Mode : Type :=
| Eval
| Train (keep : nat -> nat -> nat -> nat -> bool).

(** The draws seen by the [k]-th block, which makes three dropout calls. *)
Definition sub_mode (k : nat) (m : Mode) : Mode :=
  match m with
  | Eval => Eval
  | Train keep => Train (fun c => keep (3 * k + c))
  end.

Definition mapi {A B : Type} (f : nat -> A -> B) (l : list A) : list B :=
  map (fun p => f (fst p) (snd p)) (combine (seq 0 (length l)) l).

(** [nn.Dropout(p)] at call number [call]. *)
Definition dropout (p : R) (m : Mode) (call : nat) (x : T3) : T3 :=
  match m with
  | Eval => x
  | Train keep =>
      mkT3 (t3_len x) (t3_width x)
        (mapi (fun b it =>
                 mapi (fun i row =>
                         mapi (fun j v => if keep call b i j then (v / (1 - p))%R else 0%R) row)
                      it)
              (t3_items x))
  end.

(** The constructors [nn.LayerNorm(n)], [nn.Embedding(n, d)] and
    [nn.Dropout(p)].  A negative size is refused, and so is a probability
    outside [0, 1].  A layer normalisation starts from weight one and bias
    zero; an embedding table from whatever the initialisation [draw]s. *)
Definition nn_LayerNorm (n : Z) : result LayerNorm :=
  if (n <? 0)%Z then Raise RuntimeError
  else Ok (mkLayerNorm (Z.to_nat n) (repeat 1%R (Z.to_nat n)) (repeat 0%R (Z.to_nat n))
             1e-5%R).

Definition nn_Embedding (draw : nat -> nat -> list vec * vec) (n d : Z) : result Embedding :=
  if (n <? 0)%Z || (d <? 0)%Z then Raise RuntimeError
  else Ok (mkEmbedding (Z.to_nat n) (Z.to_nat d) (fst (draw (Z.to_nat d) (Z.to_nat n)))).

Definition nn_Dropout (p : R) : result R :=
  if Rlt_dec p 0 then Raise ValueError
  else if Rlt_dec 1 p then Raise ValueError
  else Ok p.

Definition relu (x : R) : R := Rmax 0 x.

(** ** MultiHeadAttention *)

Module MultiHeadAttention.

Record t : Type := mk {
  num_heads : Z;
  head_dim : Z;
  query_linear : Linear;
  key_linear : Linear;
  value_linear : Linear;
  fc_out : Linear
}.

(** [__init__]: the assertion comes before any layer is built.  [draw k]
    is the random initialisation of the [k]-th linear layer. *)
Definition init (draw : nat -> nat -> nat -> list vec * vec)
    (embed_size num_heads : Z) : result t :=
  if (num_heads =? 0)%Z then Raise ZeroDivisionError
  else if negb (embed_size mod num_heads =? 0)%Z then Raise AssertionError
  else
    let head_dim := (embed_size / num_heads)%Z in
    q <- nn_Linear (draw 0) embed_size embed_size ;;
    k <- nn_Linear (draw 1) embed_size embed_size ;;
    v <- nn_Linear (draw 2) embed_size embed_size ;;
    o <- nn_Linear (draw 3) embed_size embed_size ;;
    Ok (mk num_heads head_dim q k v o).

(** [x.view(batch_size, -1, num_heads, head_dim).transpose(1, 2)]: the
    row-major data of [x] regrouped, then one (seq, head_dim) matrix per
    example and head. *)
Definition split_heads (batch_size : nat) (H D : Z) (x : T3) : result (list (list Mat)) :=
  n <- view_infer (t3_numel x) [Z.of_nat batch_size; H; D] ;;
  let h := Z.to_nat H in
  let d := Z.to_nat D in
  let flat := concat (concat (t3_items x)) in
  let viewed :=
    map (fun ex => map (split_into h d) (split_into n (h * d) ex))
        (split_into batch_size (n * (h * d)) flat) in
  Ok (map (fun ex => map (fun hd => mkMat d (map (fun pos => nth hd pos []) ex)) (seq 0 h))
          viewed).

(** The sequence length of a (batch, heads, seq, head_dim) tensor. *)
Definition seq_len4 (a : list (list Mat)) : nat :=
  match a with
  | (m :: _) :: _ => nrows m
  | _ => 0
  end.

(** [a.transpose(1, 2).contiguous().view(batch_size, -1, num_heads * head_dim)] *)
Definition merge_heads (batch_size : nat) (H D : Z) (a : list (list Mat)) : result T3 :=
  let h := Z.to_nat H in
  let d := Z.to_nat D in
  let L := seq_len4 a in
  let rows := map (fun ex => map (fun i => concat (map (fun m => nth i (mrows m) []) ex))
                                 (seq 0 L)) a in
  let flat := concat (concat rows) in
  n <- view_infer (length a * (L * (h * d))) [Z.of_nat batch_size; (H * D)%Z] ;;
  let w := Z.to_nat (H * D) in
  Ok (mkT3 n w (map (split_into n w) (split_into batch_size (n * w) flat))).

Definition forward (self : t) (query key value : T3) (mask : option ZMat) : result T3 :=
  let batch_size := t3_batch query in
  query <- Linear_forward (query_linear self) query ;;
  key <- Linear_forward (key_linear self) key ;;
  value <- Linear_forward (value_linear self) value ;;
  query <- split_heads batch_size (num_heads self) (head_dim self) query ;;
  key <- split_heads batch_size (num_heads self) (head_dim self) key ;;
  value <- split_heads batch_size (num_heads self) (head_dim self) value ;;
  oa <- ScaledDotProductAttention.forward4 query key value mask ;;
  let attention_output := map (map fst) oa in
  attention_output <-
    merge_heads batch_size (num_heads self) (head_dim self) attention_output ;;
  Linear_forward (fc_out self) attention_output.

End MultiHeadAttention.

(** ** FeedForward *)

Module FeedForward.

Record t : Type := mk {
  linear1 : Linear;
  dropout_p : R;
  linear2 : Linear
}.

Definition t3_map (f : R -> R) (x : T3) : T3 :=
  mkT3 (t3_len x) (t3_width x) (map (map (map f)) (t3_items x)).

(** [__init__]; [draw 4] and [draw 5] initialise the two linear layers. *)
Definition init (draw : nat -> nat -> nat -> list vec * vec)
    (embed_size ff_hidden_size : Z) (dropout : R) : result t :=
  l1 <- nn_Linear (draw 4) embed_size ff_hidden_size ;;
  p <- nn_Dropout dropout ;;
  l2 <- nn_Linear (draw 5) ff_hidden_size embed_size ;;
  Ok (mk l1 p l2).

(** [forward]; its dropout is the second dropout call of the block. *)
Definition forward (self : t) (m : Mode) (x : T3) : result T3 :=
  h <- Linear_forward (linear1 self) x ;;
  Linear_forward (linear2 self) (dropout (dropout_p self) m 1 (t3_map relu h)).

End FeedForward.

(** ** PositionalEncoding *)

Module PositionalEncoding.

(** The buffer [pe] of shape (1, max_len, embed_size). *)
Record t : Type := mk {
  max_len : nat;
  embed_size : nat;
  pe : list vec
}.

(** [row[0::2] = vals] *)
Fixpoint assign_even (row vals : vec) : vec :=
  match row, vals with
  | _ :: r1, v :: vs =>
      v :: match r1 with
           | y :: r2 => y :: assign_even r2 vs
           | [] => []
           end
  | _, _ => row
  end.

(** [row[1::2] = vals] *)
Definition assign_odd (row vals : vec) : vec :=
  match row with
  | x :: r => x :: assign_even r vals
  | [] => []
  end.

(** [torch.arange(0, n, 2)] *)
Definition arange2 (n : nat) : list nat :=
  map (fun i => 2 * i) (seq 0 ((n + 1) / 2)).

Definition div_term (E : nat) : vec :=
  map (fun k => exp (INR k * (- ln 10000 / INR E))) (arange2 E).

(** An assignment [pe[:, s::2] = vals]: the right-hand side, of [vw]
    columns, must broadcast to the [lw] columns of the slice. *)
Definition slice_assign (assign : vec -> vec -> vec) (lw vw : nat)
    (rows vals : list vec) : result (list vec) :=
  if (vw =? lw) || (vw =? 1)
  then Ok (map (fun p => assign (fst p) (expand 0%R lw (snd p))) (combine rows vals))
  else Raise RuntimeError.

Definition init (embed_size max_len : Z) : result t :=
  if (embed_size <? 0)%Z || (max_len <? 0)%Z then Raise RuntimeError
  else
    let E := Z.to_nat embed_size in
    let M := Z.to_nat max_len in
    let pe := repeat (repeat 0%R E) M in
    let position := map INR (seq 0 M) in
    let dt := div_term E in
    let sins := map (fun p => map (fun d => sin (p * d)) dt) position in
    let coss := map (fun p => map (fun d => cos (p * d)) dt) position in
    pe <- slice_assign assign_even ((E + 1) / 2) (length dt) pe sins ;;
    pe <- slice_assign assign_odd (E / 2) (length dt) pe coss ;;
    Ok (mk M E pe).

(** The default [max_len=1000]. *)
Definition default_max_len : Z := 1000.

(** [x + self.pe[:, :x.size(1), :]] *)
Definition forward (self : t) (x : T3) : result T3 :=
  t3_add x (mkT3 (Nat.min (t3_len x) (max_len self)) (embed_size self)
                 [firstn (t3_len x) (pe self)]).

End PositionalEncoding.

(** ** TransformerBlock *)

Module TransformerBlock.

Record t : Type := mk {
  attention : MultiHeadAttention.t;
  norm1 : LayerNorm;
  norm2 : LayerNorm;
  feed_forward : FeedForward.t;
  dropout_p : R
}.

(** [__init__]; [draw 0] to [draw 5] initialise the six linear layers. *)
Definition init (draw : nat -> nat -> nat -> list vec * vec)
    (embed_size num_heads ff_hidden_size : Z) (dropout : R) : result t :=
  a <- MultiHeadAttention.init draw embed_size num_heads ;;
  n1 <- nn_LayerNorm embed_size ;;
  n2 <- nn_LayerNorm embed_size ;;
  ff <- FeedForward.init draw embed_size ff_hidden_size dropout ;;
  p <- nn_Dropout dropout ;;
  Ok (mk a n1 n2 ff p).

Definition forward (self : t) (m : Mode) (query key value : T3)
    (mask : option ZMat) : result T3 :=
  attention_output <- MultiHeadAttention.forward (attention self) query key value mask ;;
  s <- t3_add query (dropout (dropout_p self) m 0 attention_output) ;;
  x <- LayerNorm_forward (norm1 self) s ;;
  ff_output <- FeedForward.forward (feed_forward self) m x ;;
  s <- t3_add x (dropout (dropout_p self) m 2 ff_output) ;;
  LayerNorm_forward (norm2 self) s.

End TransformerBlock.

(** ** Transformer *)

Module Transformer.

Record t : Type := mk {
  src_embedding : Embedding;
  tgt_embedding : Embedding;
  positional_encoding : PositionalEncoding.t;
  encoder_layers : list TransformerBlock.t;
  decoder_layers : list TransformerBlock.t;
  fc_out : Linear
}.

(** [__init__]: the [i]-th block of the two stacks takes the draws
    [2 + 6 * i] to [2 + 6 * i + 5]; the positional encoding keeps its
    default [max_len]. *)
Definition init (draw : nat -> nat -> nat -> list vec * vec)
    (src_vocab_size tgt_vocab_size embed_size num_heads num_layers ff_hidden_size : Z)
    (dropout : R) : result t :=
  let n := Z.to_nat num_layers in
  se <- nn_Embedding (draw 0) src_vocab_size embed_size ;;
  te <- nn_Embedding (draw 1) tgt_vocab_size embed_size ;;
  pe <- PositionalEncoding.init embed_size PositionalEncoding.default_max_len ;;
  enc <- mapM (fun i => TransformerBlock.init (fun k => draw (2 + 6 * i + k))
                          embed_size num_heads ff_hidden_size dropout)
              (seq 0 n) ;;
  dec <- mapM (fun i => TransformerBlock.init (fun k => draw (2 + 6 * i + k))
                          embed_size num_heads ff_hidden_size dropout)
              (seq n n) ;;
  fc <- nn_Linear (draw (2 + 12 * n)) embed_size tgt_vocab_size ;;
  Ok (mk se te pe enc dec fc).

(** [for layer in self.encoder_layers: src = layer(src, src, src, src_mask)];
    [k] numbers the blocks for the dropout draws. *)
Fixpoint encoder_loop (m : Mode) (k : nat) (layers : list TransformerBlock.t)
    (src : T3) (src_mask : option ZMat) : result T3 :=
  match layers with
  | [] => Ok src
  | layer :: rest =>
      src <- TransformerBlock.forward layer (sub_mode k m) src src src src_mask ;;
      encoder_loop m (S k) rest src src_mask
  end.

(** [for layer in self.decoder_layers: tgt = layer(tgt, src, src, tgt_mask)] *)
Fixpoint decoder_loop (m : Mode) (k : nat) (layers : list TransformerBlock.t)
    (tgt src : T3) (tgt_mask : option ZMat) : result T3 :=
  match layers with
  | [] => Ok tgt
  | layer :: rest =>
      tgt <- TransformerBlock.forward layer (sub_mode k m) tgt src src tgt_mask ;;
      decoder_loop m (S k) rest tgt src tgt_mask
  end.

Definition forward (self : t) (m : Mode) (src tgt : ZMat)
    (src_mask tgt_mask : option ZMat) : result T3 :=
  src <- Embedding_forward (src_embedding self) src ;;
  src <- PositionalEncoding.forward (positional_encoding self) src ;;
  tgt <- Embedding_forward (tgt_embedding self) tgt ;;
  tgt <- PositionalEncoding.forward (positional_encoding self) tgt ;;
  src <- encoder_loop m 0 (encoder_layers self) src src_mask ;;
  tgt <- decoder_loop m (length (encoder_layers self)) (decoder_layers self)
           tgt src tgt_mask ;;
  Linear_forward (fc_out self) tgt.

End Transformer.

(** ** greedy_decode *)

(** The index of the first maximum of a row. *)
Fixpoint argmax_from (best_i : nat) (best : R) (i : nat) (l : vec) : nat :=
  match l with
  | [] => best_i
  | x :: t =>
      if Rlt_dec best x then argmax_from i x (S i) t
      else argmax_from best_i best (S i) t
  end.

Definition argmax (l : vec) : nat :=
  match l with
  | [] => 0
  | x :: t => argmax_from 0 x 1 t
  end.

(** [output[:, -1, :]] *)
Definition last_position (output : T3) : result Mat :=
  if t3_len output =? 0 then Raise IndexError
  else Ok (mkMat (t3_width output) (map (fun it => last it []) (t3_items output))).

(** [.argmax(dim=-1)]: the reduced axis may not be empty. *)
Definition argmax_rows (m : Mat) : result (list nat) :=
  if ncols m =? 0 then Raise IndexError else Ok (map argmax (mrows m)).

(** [.item()]: exactly one element. *)
Definition item (l : list nat) : result Z :=
  match l with
  | [x] => Ok (Z.of_nat x)
  | _ => Raise RuntimeError
  end.

(** The (1, L) tensor holding one sequence. *)
Definition row_tensor (l : list Z) : ZMat := mkZMat (length l) [l].

(** One forward pass and the token it selects:
    [model(src_sentence, tgt_sequence)[:, -1, :].argmax(dim=-1).item()]. *)
Definition next_token (model : ZMat -> ZMat -> result T3) (src_sentence : ZMat)
    (tgt_sequence : list Z) : result Z :=
  output <- model src_sentence (row_tensor tgt_sequence) ;;
  lastp <- last_position output ;;
  am <- argmax_rows lastp ;;
  item am.

(** The body of [for _ in range(max_len)], with [n] iterations left. *)
Fixpoint decode_loop (model : ZMat -> ZMat -> result T3) (src_sentence : ZMat)
    (end_token_id : Z) (n : nat) (tgt_sequence : list Z) : result (list Z) :=
  match n with
  | O => Ok tgt_sequence
  | S n' =>
      next_token_id <- next_token model src_sentence tgt_sequence ;;
      let tgt_sequence := tgt_sequence ++ [next_token_id] in
      if (next_token_id =? end_token_id)%Z then Ok tgt_sequence
      else decode_loop model src_sentence end_token_id n' tgt_sequence
  end.

(** [model] is the forward pass of the model in evaluation mode. *)
Definition greedy_decode (model : ZMat -> ZMat -> result T3) (src_sentence : ZMat)
    (max_len start_token_id end_token_id : Z) : result (list Z) :=
  decode_loop model src_sentence end_token_id (Z.to_nat max_len) [start_token_id].

(** The defaults [max_len=50, start_token_id=2, end_token_id=3]. *)
Definition default_decode_max_len : Z := 50.
Definition BOS : Z := 2.
Definition EOS : Z := 3.
Definition PAD : Z := 0.

(** ** The loss: nn.CrossEntropyLoss(ignore_index) *)

Module CrossEntropyLoss.

(** The terms of the loss: one per row whose target is not ignored; a
    target outside the classes is refused. *)
Fixpoint terms (ignore_index : Z) (C : nat) (input : list vec) (target : list Z)
  : result (list R) :=
  match input, target with
  | x :: input', c :: target' =>
      if (c =? ignore_index)%Z then terms ignore_index C input' target'
      else if id_in_range C c
           then rest <- terms ignore_index C input' target' ;;
                Ok ((- ln (nth (Z.to_nat c) (softmax x) 0))%R :: rest)
           else Raise IndexError
  | _, _ => Ok []
  end.

(** Mean reduction over the targets that are not ignored. *)
Definition forward (ignore_index : Z) (input : Mat) (target : list Z) : result R :=
  if nrows input =? length target
  then ts <- terms ignore_index (ncols input) (mrows input) target ;;
       Ok (vsum ts / INR (length ts))%R
  else Raise ValueError.

End CrossEntropyLoss.

(** ** train_model *)

(** [t[:, :n]] and [t[:, n:]] on a two-dimensional integer tensor. *)
Definition cols_to (t : ZMat) (n : Z) : ZMat :=
  mkZMat (length (py_slice_to (seq 0 (zcols t)) n))
         (map (fun r => py_slice_to r n) (zrows t)).

Definition cols_from (t : ZMat) (n : Z) : ZMat :=
  mkZMat (length (py_slice_from (seq 0 (zcols t)) n))
         (map (fun r => py_slice_from r n) (zrows t)).

(** [outputs.view(-1, outputs.size(-1))] *)
Definition view_rows (outputs : T3) : result Mat :=
  n <- view_infer (t3_numel outputs) [Z.of_nat (t3_width outputs)] ;;
  Ok (mkMat (t3_width outputs)
        (split_into n (t3_width outputs) (concat (concat (t3_items outputs))))).

(** [tgt_output.contiguous().view(-1)] *)
Definition view_flat (t : ZMat) : list Z := concat (zrows t).

Section Training.

(** The parameters shared by the model and the optimizer, their
    gradients and the optimizer's own state. *)
Variables Params Grads OptState : Type.

(** [model(src, tgt_input)] in training mode, on the current parameters. *)
Variable model : Params -> Mode -> ZMat -> ZMat -> result T3.
Variable criterion : Mat -> list Z -> result R.

(** Automatic differentiation: the gradient at the parameters of the
    loss as a function of them, and the accumulation into [.grad]. *)
Variable grad_of : Params -> (Params -> result R) -> Grads.
Variable g_zero : Grads.
Variable g_add : Grads -> Grads -> Grads.

(** [optimizer.step()] *)
Variable opt_step : OptState -> Params -> Grads -> OptState * Params.

(** The dropout draws of the successive forward passes. *)
Variable draws : nat -> nat -> nat -> nat -> nat -> bool.

Record TrainState : Type := mkTrainState {
  params : Params;
  grads : Grads;
  opt_state : OptState;
  steps : nat;          (* calls of [optimizer.step()] so far *)
  passes : nat;         (* forward passes so far *)
  printed : list R      (* the epoch losses printed so far *)
}.

(** State and exceptions: a computation returns the state it reached
    together with its value or the exception it raised. *)
Definition SE (A : Type) : Type := TrainState -> TrainState * result A.

Definition retS {A : Type} (a : A) : SE A := fun s => (s, Ok a).

Definition bindS {A B : Type} (c : SE A) (k : A -> SE B) : SE B :=
  fun s => match c s with
           | (s', Ok a) => k a s'
           | (s', Raise e) => (s', Raise e)
           end.

Definition liftS {A : Type} (r : result A) : SE A := fun s => (s, r).

Definition getS : SE TrainState := fun s => (s, Ok s).

Definition putS (s : TrainState) : SE unit := fun _ => (s, Ok tt).

(** The loss of one batch as a function of the parameters. *)
Definition batch_loss (m : Mode) (src tgt : ZMat) (p : Params) : result R :=
  let tgt_input := cols_to tgt (-1) in
  let tgt_output := cols_from tgt 1 in
  outputs <- model p m src tgt_input ;;
  logits <- view_rows outputs ;;
  criterion logits (view_flat tgt_output).

(** The body of the batch loop; it returns [loss.item()]. *)
Definition train_batch (src tgt : ZMat) : SE R :=
  bindS getS (fun s =>
  let m := Train (draws (passes s)) in
  bindS (putS (mkTrainState (params s) (grads s) (opt_state s) (steps s)
                 (S (passes s)) (printed s))) (fun _ =>
  bindS (liftS (batch_loss m src tgt (params s))) (fun loss =>
  (* optimizer.zero_grad() *)
  bindS getS (fun s =>
  bindS (putS (mkTrainState (params s) g_zero (opt_state s) (steps s)
                 (passes s) (printed s))) (fun _ =>
  (* loss.backward() *)
  bindS getS (fun s =>
  bindS (putS (mkTrainState (params s)
                 (g_add (grads s) (grad_of (params s) (batch_loss m src tgt)))
                 (opt_state s) (steps s) (passes s) (printed s))) (fun _ =>
  (* optimizer.step() *)
  bindS getS (fun s =>
  let op := opt_step (opt_state s) (params s) (grads s) in
  bindS (putS (mkTrainState (snd op) (grads s) (fst op) (S (steps s))
                 (passes s) (printed s))) (fun _ =>
  retS loss))))))))).

(** [for src, tgt in dataloader: ...; total_loss += loss.item()] *)
Fixpoint batch_loop (batches : list (ZMat * ZMat)) (total_loss : R) : SE R :=
  match batches with
  | [] => retS total_loss
  | (src, tgt) :: rest =>
      bindS (train_batch src tgt) (fun loss =>
      batch_loop rest (total_loss + loss)%R)
  end.

(** One epoch: the batch loop, then the printed mean; the division
    raises on a dataloader without batches. *)
Definition train_epoch (dataloader : list (ZMat * ZMat)) : SE unit :=
  bindS (batch_loop dataloader 0%R) (fun total_loss =>
  match length dataloader with
  | O => liftS (Raise ZeroDivisionError)
  | S _ =>
      bindS getS (fun s =>
      putS (mkTrainState (params s) (grads s) (opt_state s) (steps s) (passes s)
              (printed s ++ [(total_loss / INR (length dataloader))%R])))
  end).

Fixpoint epoch_loop (n : nat) (dataloader : list (ZMat * ZMat)) : SE unit :=
  match n with
  | O => retS tt
  | S n' => bindS (train_epoch dataloader) (fun _ => epoch_loop n' dataloader)
  end.

Definition train_model (dataloader : list (ZMat * ZMat)) (num_epochs : Z) : SE unit :=
  epoch_loop (Z.to_nat num_epochs) dataloader.

End Training.

(** The criterion of the main workflow: [nn.CrossEntropyLoss(ignore_index=0)]. *)
Definition criterion : Mat -> list Z -> result R := CrossEntropyLoss.forward 0.

(** The model of the main workflow:
    [Transformer(30000, 30000, 256, 8, 6, 2048, 0.1)]. *)
Definition main_model (draw : nat -> nat -> nat -> list vec * vec) : result Transformer.t :=
  Transformer.init draw 30000 30000 256 8 6 2048 0.1%R.

(** ** Specification vocabulary *)

(** Every token of [gen] is the one selected by a forward pass over the
    source and the sequence generated before it, starting from [prefix]. *)
Definition generated_by (model : ZMat -> ZMat -> result T3) (src : ZMat)
    (prefix gen : list Z) : Prop :=
  forall i, i < length gen ->
    next_token model src (prefix ++ firstn i gen) = Ok (nth i gen 0%Z).

(** [e] occurs in [gen] at most as its last element. *)
Definition only_last (e : Z) (gen : list Z) : Prop :=
  forall i, S i < length gen -> nth i gen 0%Z <> e.

(** Entries of tensors, by index. *)
Definition mentry (m : Mat) (i j : nat) : R :=
  nth j (nth i (mrows m) []) 0%R.

Definition t3_entry (t : T3) (b p d : nat) : R :=
  nth d (nth p (nth b (t3_items t) []) []) 0%R.

(** The positional-encoding table in the words of the specification:
    [sin(p / 10000^(2i/embed_size))] at dimension [2i] and
    [cos(p / 10000^(2i/embed_size))] at dimension [2i+1]. *)
Definition spec_pe_entry (E p d : nat) : R :=
  if Nat.even d
  then sin (INR p / Rpower 10000 (INR d / INR E))
  else cos (INR p / Rpower 10000 (INR (d - 1) / INR E)).

(** The entries [forward] computes, in the terms of its own steps.  The
    mask entry seen by the score at (i, j), the mask being broadcast to
    [rows] x [cols]. *)
Definition mask_entry (m : ZMat) (rows cols i j : nat) : Z :=
  nth j (expand 0%Z cols (nth i (expand [] rows (zrows m)) [])) 0%Z.

Definition is_masked (mask : option ZMat) (rows cols i j : nat) : bool :=
  match mask with
  | None => false
  | Some m => (mask_entry m rows cols i j =? 0)%Z
  end.

(** Query times key-transposed, scaled by one over the square root of d_k. *)
Definition raw_score (query key : Mat) (i j : nat) : R :=
  (dot (nth i (mrows query) []) (nth j (mrows key) []) / sqrt (INR (ncols query)))%R.

(** The score after masking. *)
Definition spec_score (query key : Mat) (mask : option ZMat) (i j : nat) : R :=
  if is_masked mask (nrows query) (nrows key) i j
  then ScaledDotProductAttention.masked_score
  else raw_score query key i j.

(** The softmax over the key axis. *)
Definition spec_weight (query key : Mat) (mask : option ZMat) (i j : nat) : R :=
  (exp (spec_score query key mask i j)
   / vsum (map (fun j' => exp (spec_score query key mask i j')) (seq 0 (nrows key))))%R.

(** The weighted sum of the value vectors. *)
Definition spec_output (query key value : Mat) (mask : option ZMat) (i c : nat) : R :=
  vsum (map (fun j => (spec_weight query key mask i j * mentry value j c)%R)
            (seq 0 (nrows key))).

(** The sum [f 0 + f 1 + ... + f (n - 1)]. *)
Fixpoint big_sum (n : nat) (f : nat -> R) : R :=
  match n with
  | O => 0%R
  | S k => (big_sum k f + f k)%R
  end.

(** Attention in the words of the specification, entry by entry.  The
    mask entry that meets the score at (i, j): an axis of size 1 is shared
    by all positions. *)
Definition attn_mask_entry (m : ZMat) (i j : nat) : Z :=
  nth (if zcols m =? 1 then 0 else j)
      (nth (if znrows m =? 1 then 0 else i) (zrows m) []) 0%Z.

(** Query row [i] times key row [j], scaled by one over the square root
    of d_k; the large negative constant where the mask entry is zero. *)
Definition attn_score (query key : Mat) (mask : option ZMat) (i j : nat) : R :=
  let d_k := ncols query in
  let raw := (big_sum d_k (fun d => mentry query i d * mentry key j d)
              / sqrt (INR d_k))%R in
  match mask with
  | None => raw
  | Some m => if (attn_mask_entry m i j =? 0)%Z then (- 1000000000)%R else raw
  end.

(** The softmax over the key axis. *)
Definition attn_weight (query key : Mat) (mask : option ZMat) (i j : nat) : R :=
  (exp (attn_score query key mask i j)
   / big_sum (nrows key) (fun j' => exp (attn_score query key mask i j')))%R.

(** A mask that broadcasts to [rows] x [cols]. *)
Definition mask_fits (mask : option ZMat) (rows cols : nat) : bool :=
  match mask with
  | None => true
  | Some m =>
      wfZMat m
      && ((znrows m =? rows) || (znrows m =? 1))
      && ((zcols m =? cols) || (zcols m =? 1))
  end.

(** *** Shapes *)

(** An item of [L] rows of [W] reals. *)
Definition rows_ok (L W : nat) (it : list vec) : Prop :=
  length it = L /\ Forall (fun r => length r = W) it.

(** A well-formed tensor of shape ([B], [L], [W]). *)
Definition has_shape (t : T3) (B L W : nat) : Prop :=
  wfT3 t = true /\ t3_batch t = B /\ t3_len t = L /\ t3_width t = W.

(** A well-formed matrix of [L] rows and [d] columns. *)
Definition mat_ok (m : Mat) (L d : nat) : Prop :=
  nrows m = L /\ ncols m = d /\ wfMat m = true.

(** A (B, h, L, d) tensor, as a list of lists of matrices. *)
Definition heads_ok (a : list (list Mat)) (B h L d : nat) : Prop :=
  length a = B /\
  Forall (fun ex => length ex = h /\ Forall (fun m => mat_ok m L d) ex) a.

(** Row-wise sum of two items. *)
Definition add_rows (a b : list vec) : list vec :=
  map (fun q => vadd (fst q) (snd q)) (combine a b).

Definition ids_in_range (n : nat) (ids : ZMat) : bool :=
  forallb (forallb (id_in_range n)) (zrows ids).

(** *** Well-formed modules: the shapes their constructors give them *)

Definition linear_ok (l : Linear) (i o : nat) : bool :=
  wfLinear l && (in_features l =? i) && (out_features l =? o).

Definition norm_ok (n : LayerNorm) (E : nat) : bool :=
  wfLayerNorm n && (normalized_shape n =? E).

Definition wfMHA (E : nat) (a : MultiHeadAttention.t) : bool :=
  (0 <? MultiHeadAttention.num_heads a)%Z
  && (0 <? MultiHeadAttention.head_dim a)%Z
  && (Z.to_nat (MultiHeadAttention.num_heads a)
      * Z.to_nat (MultiHeadAttention.head_dim a) =? E)
  && linear_ok (MultiHeadAttention.query_linear a) E E
  && linear_ok (MultiHeadAttention.key_linear a) E E
  && linear_ok (MultiHeadAttention.value_linear a) E E
  && linear_ok (MultiHeadAttention.fc_out a) E E.

Definition wfFeedForward (E : nat) (f : FeedForward.t) : bool :=
  linear_ok (FeedForward.linear1 f) E (out_features (FeedForward.linear1 f))
  && linear_ok (FeedForward.linear2 f) (out_features (FeedForward.linear1 f)) E.

Definition wfBlock (E : nat) (b : TransformerBlock.t) : bool :=
  wfMHA E (TransformerBlock.attention b)
  && norm_ok (TransformerBlock.norm1 b) E
  && norm_ok (TransformerBlock.norm2 b) E
  && wfFeedForward E (TransformerBlock.feed_forward b).

Definition wfPositionalEncoding (E : nat) (p : PositionalEncoding.t) : bool :=
  (PositionalEncoding.embed_size p =? E)
  && wfItem (PositionalEncoding.max_len p) E (PositionalEncoding.pe p).

Definition wfTransformer (m : Transformer.t) : bool :=
  let E := embedding_dim (Transformer.src_embedding m) in
  wfEmbedding (Transformer.src_embedding m)
  && wfEmbedding (Transformer.tgt_embedding m)
  && (embedding_dim (Transformer.tgt_embedding m) =? E)
  && wfPositionalEncoding E (Transformer.positional_encoding m)
  && forallb (wfBlock E) (Transformer.encoder_layers m)
  && forallb (wfBlock E) (Transformer.decoder_layers m)
  && linear_ok (Transformer.fc_out m) E (out_features (Transformer.fc_out m)).

(** *** The forward contract of the Transformer *)

(** A stack of blocks run one after the other from [x] to [z]; [step k]
    is the call made on the [k]-th block. *)
Inductive stack_run (step : nat -> TransformerBlock.t -> T3 -> result T3)
  : nat -> list TransformerBlock.t -> T3 -> T3 -> Prop :=
| stack_done : forall k x, stack_run step k [] x x
| stack_layer : forall k layer rest x y z,
    step k layer x = Ok y ->
    stack_run step (S k) rest y z ->
    stack_run step k (layer :: rest) x z.

(** Embed and positionally encode both sequences; run the encoder stack
    with query = key = value = source; run the decoder stack with the
    evolving target as query and the final encoder output [enc] as key and
    value; project linearly, with no activation. *)
Definition forward_contract (m : Transformer.t) (mode : Mode) (src tgt : ZMat)
    (src_mask tgt_mask : option ZMat) (out : T3) : Prop :=
  exists se s0 te t0 enc dec,
    Embedding_forward (Transformer.src_embedding m) src = Ok se /\
    PositionalEncoding.forward (Transformer.positional_encoding m) se = Ok s0 /\
    Embedding_forward (Transformer.tgt_embedding m) tgt = Ok te /\
    PositionalEncoding.forward (Transformer.positional_encoding m) te = Ok t0 /\
    stack_run (fun k layer x =>
                 TransformerBlock.forward layer (sub_mode k mode) x x x src_mask)
              0 (Transformer.encoder_layers m) s0 enc /\
    stack_run (fun k layer t =>
                 TransformerBlock.forward layer (sub_mode k mode) t enc enc tgt_mask)
              (length (Transformer.encoder_layers m)) (Transformer.decoder_layers m) t0 dec /\
    Linear_forward (Transformer.fc_out m) dec = Ok out /\
    t3_items out = map (map (linear_row (Transformer.fc_out m))) (t3_items dec).

(** *** Construction and training vocabulary *)

(** A row of the positional-encoding table as [__init__] fills it: zeros,
    then the sines on the even columns, then the cosines on the odd ones. *)
Definition built_row (E p : nat) : vec :=
  PositionalEncoding.assign_odd
    (PositionalEncoding.assign_even (repeat 0%R E)
       (map (fun d => sin (INR p * d)) (PositionalEncoding.div_term E)))
    (map (fun d => cos (INR p * d)) (PositionalEncoding.div_term E)).

(** Random initialisations that draw weights of the requested sizes. *)
Definition draws_ok (draw : nat -> nat -> nat -> list vec * vec) : Prop :=
  forall k i o,
    length (fst (draw k i o)) = o /\
    Forall (fun r => length r = i) (fst (draw k i o)) /\
    length (snd (draw k i o)) = o.

(** Two lists of logit rows that agree on every row whose target is not
    the ignored index [ig]. *)
Definition agree_off (ig : Z) (a b : list vec) (target : list Z) : Prop :=
  length a = length b /\
  forall i, i < length target -> nth i target ig <> ig -> nth i a [] = nth i b [].

(** Teacher forcing and the loss in the words of the specification.  The
    target of position [t] of example [b] is the token that follows it in
    the target sequence. *)
Definition next_target (tgt : ZMat) (b t : nat) : Z :=
  nth (S t) (nth b (zrows tgt) []) 0%Z.

(** Minus the logarithm of the probability that the softmax of the logits
    at position ([b], [t]) gives to the class [c]. *)
Definition nll (outputs : T3) (b t : nat) (c : Z) : R :=
  (- ln (exp (t3_entry outputs b t (Z.to_nat c))
         / big_sum (t3_width outputs) (fun c' => exp (t3_entry outputs b t c'))))%R.

(** The cross-entropy of the logits against the targets: the mean of
    these terms over the positions whose target is not PAD, the id 0. *)
Definition cross_entropy_without_pad (outputs : T3) (tgt : ZMat) : R :=
  let B := znrows tgt in
  let L := zcols tgt - 1 in
  (big_sum B (fun b => big_sum L (fun t =>
     if (next_target tgt b t =? 0)%Z then 0
     else nll outputs b t (next_target tgt b t)))
   / big_sum B (fun b => big_sum L (fun t =>
       if (next_target tgt b t =? 0)%Z then 0 else 1)))%R.

(** The model as the training loop and the decoder call it: no masks. *)
Definition transformer_model (p : Transformer.t) (m : Mode) (src tgt : ZMat)
  : result T3 :=
  Transformer.forward p m src tgt None None.

(** *** Rows and positions *)

(** The row of example [b] at position [p]. *)
Definition row_at (x : T3) (b p : nat) : vec :=
  nth p (nth b (t3_items x) []) [].

(** Two tensors with the same row at position [p] of every example. *)
Definition agree_at (p : nat) (x y : T3) : Prop :=
  forall b, b < t3_batch x -> row_at x b p = row_at y b p.

Definition local_pair (p B L W : nat) (x y : T3) : Prop :=
  has_shape x B L W /\ has_shape y B L W /\ agree_at p x y.

(** The heads of one example: head [hd] keeps the [hd]-th slice of each row. *)
Definition heads_of (h d : nat) (it : list vec) : list Mat :=
  map (fun hd => mkMat d (map (fun row => nth hd (split_into h d row) []) it)) (seq 0 h).

(** The rows of the heads of each example put side by side again. *)
Definition merged_rows (L : nat) (a : list (list Mat)) : list (list vec) :=
  map (fun ex => map (fun i => concat (map (fun m => nth i (mrows m) []) ex)) (seq 0 L)) a.

(** Two (B, h, L, d) tensors with the same row [p] in every matrix. *)
Definition agree4 (p B h : nat) (a a' : list (list Mat)) : Prop :=
  forall b hd, b < B -> hd < h ->
    nth p (mrows (nth hd (nth b a []) (mkMat 0 []))) []
    = nth p (mrows (nth hd (nth b a' []) (mkMat 0 []))) [].

(** ** Sample inputs *)

(** Initial weights that are all zero. *)
Definition zero_draw (k i o : nat) : list vec * vec :=
  (repeat (repeat 0%R i) o, repeat 0%R o).

(** A model whose logits have one class: it always selects token 0. *)
Definition one_class_model (src tgt : ZMat) : result T3 :=
  Ok (mkT3 (zcols tgt) 1 (map (map (fun _ => [0%R])) (zrows tgt))).

Definition sample_src : ZMat := mkZMat 2 [[1; 1]%Z].

Definition sample_tgt : ZMat := mkZMat 3 [[2; 1; 3]%Z].

(** One query whose only unmasked score is far below the masking constant. *)
Definition sample_query : Mat := mkMat 1 [[(- 3e9)%R]].
Definition sample_key : Mat := mkMat 1 [[1%R]; [1%R]].
Definition sample_value : Mat := mkMat 1 [[0%R]; [0%R]].
Definition sample_mask : ZMat := mkZMat 2 [[1; 0]%Z].

(** A small model: vocabulary 4, embed_size 2, one head, one encoder and
    one decoder block, feed-forward width 3, positions 0..3. *)
Definition zero_linear (i o : nat) : Linear :=
  mkLinear i o (repeat (repeat 0%R i) o) (repeat 0%R o).

Definition sample_norm : LayerNorm := mkLayerNorm 2 [1%R; 1%R] [0%R; 0%R] 1e-5%R.

Definition sample_attention : MultiHeadAttention.t :=
  MultiHeadAttention.mk 1 2 (zero_linear 2 2) (zero_linear 2 2) (zero_linear 2 2)
    (zero_linear 2 2).

Definition sample_block : TransformerBlock.t :=
  TransformerBlock.mk sample_attention sample_norm sample_norm
    (FeedForward.mk (zero_linear 2 3) 0.1%R (zero_linear 3 2)) 0.1%R.

Definition sample_pe : PositionalEncoding.t :=
  PositionalEncoding.mk 4 2 (map (fun p => map (spec_pe_entry 2 p) (seq 0 2)) (seq 0 4)).

Definition sample_embedding : Embedding :=
  mkEmbedding 4 2 (repeat [0%R; 0%R] 4).

Definition sample_model : Transformer.t :=
  Transformer.mk sample_embedding sample_embedding sample_pe
    [sample_block] [sample_block] (zero_linear 2 4).

(** A batch without examples, and a trainer whose gradients and optimizer
    state carry no information. *)
Definition empty_batch : ZMat := mkZMat 3 [].

Definition sample_state : TrainState Transformer.t unit unit :=
  mkTrainState sample_model tt tt 0 0 [].

Definition sample_train_batch (src tgt : ZMat)
  : SE Transformer.t unit unit R :=
  train_batch transformer_model criterion (fun _ _ => tt) tt (fun _ _ => tt)
    (fun o p _ => (o, p)) (fun _ _ _ _ _ => true) src tgt.

(** * The data pipeline, the loaders and the translation loop *)

(** ** encode_sentences

    [tokenizer.encode(sentence).ids] belongs to the tokenizer library;
    [encode] stands for it. *)
Definition encode_sentences {Sentence : Type} (encode : Sentence -> list Z)
    (sentences : list Sentence) (max_len : Z) : result (list (list Z)) :=
  let tokenized := map encode sentences in
  pad_sequences tokenized max_len default_padding_value.

(** ** TranslationDataset *)

(** [a[idx]] on the first axis of an array: a negative index counts from
    the end, an index outside the array raises. *)
Definition np_getitem {A : Type} (a : list A) (idx : Z) : result A :=
  let n := Z.of_nat (length a) in
  let i := if (idx <? 0)%Z then (idx + n)%Z else idx in
  if (0 <=? i)%Z && (i <? n)%Z
  then match nth_error a (Z.to_nat i) with
       | Some x => Ok x
       | None => Raise IndexError
       end
  else Raise IndexError.

(** [torch.tensor(row)] on a row of integers.  A row of one or more
    integers within int64 gives a tensor of type int64, be it a list or a
    row of the array [np.array] makes of such lists; an empty row gives an
    empty tensor of a float type; a list that holds an integer outside
    int64 is refused. *)
Inductive dtype : Type :=
| int64
| float.

(** A tensor with the type of its elements. *)
Record typed (A : Type) : Type := mkTyped { dtype_of : dtype; values : A }.

Definition fits_int64 (x : Z) : bool :=
  (- 2 ^ 63 <=? x)%Z && (x <? 2 ^ 63)%Z.

Definition torch_tensor (row : list Z) : result (typed (list Z)) :=
  match row with
  | [] => Ok (mkTyped float [])
  | _ =>
      if forallb fits_int64 row then Ok (mkTyped int64 row)
      else Raise RuntimeError
  end.

Module TranslationDataset.

Record t : Type := mk {
  source_sentences : list (list Z);
  target_sentences : list (list Z)
}.

Definition init (source_sentences target_sentences : list (list Z)) : t :=
  mk source_sentences target_sentences.

(** [__len__] *)
Definition len (self : t) : nat := length (source_sentences self).

(** [__getitem__]: the source row is read and converted before the
    target row is looked at. *)
Definition getitem (self : t) (idx : Z)
  : result (typed (list Z) * typed (list Z)) :=
  s <- np_getitem (source_sentences self) idx ;;
  s <- torch_tensor s ;;
  t <- np_getitem (target_sentences self) idx ;;
  t <- torch_tensor t ;;
  Ok (s, t).

End TranslationDataset.

(** ** collate_fn *)

(** [torch.nn.utils.rnn.pad_sequence(sequences, batch_first=True,
    padding_value)] on one-dimensional tensors: every sequence is filled up
    to the longest one; an empty list of sequences is refused. *)
Definition pad_sequence (sequences : list (list Z)) (padding_value : Z) : result ZMat :=
  match sequences with
  | [] => Raise RuntimeError
  | _ =>
      let max_len := list_max (map (@length Z) sequences) in
      Ok (mkZMat max_len
            (map (fun s => s ++ repeat padding_value (max_len - length s)) sequences))
  end.

(** [src, tgt = zip( *batch )] has nothing to unpack on an empty batch. *)
Definition collate_fn (batch : list (list Z * list Z)) : result (ZMat * ZMat) :=
  match batch with
  | [] => Raise ValueError
  | _ =>
      let src := map fst batch in
      let tgt := map snd batch in
      src <- pad_sequence src 0 ;;
      tgt <- pad_sequence tgt 0 ;;
      Ok (src, tgt)
  end.

(** [collate_fn] on the items of a dataset, tensors that carry their type:
    [pad_sequence] gives its result the type of its first sequence.  (A
    float tensor holds the integers it was filled with.) *)
Definition collate_items (batch : list (typed (list Z) * typed (list Z)))
  : result (typed ZMat * typed ZMat) :=
  st <- collate_fn (map (fun p => (values (fst p), values (snd p))) batch) ;;
  match batch with
  | [] => Raise ValueError
  | p :: _ =>
      Ok (mkTyped (dtype_of (fst p)) (fst st), mkTyped (dtype_of (snd p)) (snd st))
  end.

(** ** DataLoader

    [DataLoader(dataset, batch_size=..., collate_fn=collate_fn)] as the main
    workflow builds it: the library's defaults, so no shuffling and the last,
    shorter batch is kept. *)

(** The indices of the successive batches. *)
Definition batch_indices (n batch_size : nat) : list (list nat) :=
  map (fun k => seq (k * batch_size) (Nat.min batch_size (n - k * batch_size)))
      (seq 0 ((n + batch_size - 1) / batch_size)).

Module DataLoader.

Record t : Type := mk {
  dataset : TranslationDataset.t;
  batch_size : nat
}.

(** The constructor refuses a batch size that is not positive. *)
Definition init (dataset : TranslationDataset.t) (batch_size : Z) : result t :=
  if (batch_size <=? 0)%Z then Raise ValueError
  else Ok (mk dataset (Z.to_nat batch_size)).

(** [len(dataloader)] *)
Definition len (self : t) : nat :=
  (TranslationDataset.len (dataset self) + batch_size self - 1) / batch_size self.

(** The batches of one pass over the data. *)
Definition batches (self : t) : result (list (typed ZMat * typed ZMat)) :=
  mapM (fun idxs =>
          batch <- mapM (fun i => TranslationDataset.getitem (dataset self) (Z.of_nat i))
                        idxs ;;
          collate_items batch)
       (batch_indices (TranslationDataset.len (dataset self)) (batch_size self)).

End DataLoader.

(** A batch of token ids: a source and a target tensor of type int64. *)
Definition int64_batch (b : ZMat * ZMat) : typed ZMat * typed ZMat :=
  (mkTyped int64 (fst b), mkTyped int64 (snd b)).

(** The rows a list of batches holds, in order. *)
Definition batch_rows (side : ZMat * ZMat -> ZMat) (bs : list (ZMat * ZMat))
  : list (list Z) :=
  concat (map (fun b => zrows (side b)) bs).

(** The row [pad_sequences] and [encode_sentences] make of a token list:
    its first [maxlen] tokens, then padding up to [maxlen]. *)
Definition padded_row (maxlen : nat) (padding_value : Z) (ids : list Z) : list Z :=
  firstn maxlen ids ++ repeat padding_value (maxlen - length ids).

(** The batches of a data set of [n] aligned rows of one length. *)
Definition uniform_batches (src tgt : list (list Z)) (n Ls Lt b : nat)
  : list (ZMat * ZMat) :=
  map (fun k =>
         (mkZMat Ls (map (fun i => nth i src []) (seq (k * b) (Nat.min b (n - k * b)))),
          mkZMat Lt (map (fun i => nth i tgt []) (seq (k * b) (Nat.min b (n - k * b))))))
      (seq 0 ((n + b - 1) / b)).

(** A batch of examples read as one example: the rows of the examples,
    one example after the other. *)
Definition flatten_batch (x : T3) : T3 :=
  mkT3 (t3_batch x * t3_len x) (t3_width x) [concat (t3_items x)].

(** A mask and scores of [rows] x [cols] without a common broadcast shape. *)
Definition mask_mismatch (m : ZMat) (rows cols : nat) : Prop :=
  (znrows m <> rows /\ znrows m <> 1 /\ rows <> 1) \/
  (zcols m <> cols /\ zcols m <> 1 /\ cols <> 1).

(** ** The data files

    What [json.load] returns.  A dict holds its items in insertion order,
    under keys that are all different. *)
#[local] Unset Elimination Schemes.
Inductive json : Type :=
| JNull
| JBool (b : bool)
| JInt (n : Z)
| JFloat (x : R)
| JStr (s : String.string)
| JList (l : list json)
| JDict (items : list (String.string * json)).
#[local] Set Elimination Schemes.

(** The exceptions of the loaders, and their error monad. *)
Inductive load_exn : Type :=
| KeyError (key : String.string)
| TypeError
| AttributeError.

Inductive loaded (A : Type) : Type :=
| Loaded (a : A)
| Failed (e : load_exn).

Arguments Loaded {A} a.
Arguments Failed {A} e.

Definition bindL {A B : Type} (c : loaded A) (k : A -> loaded B) : loaded B :=
  match c with
  | Loaded a => k a
  | Failed e => Failed e
  end.

Fixpoint mapL {A B : Type} (f : A -> loaded B) (l : list A) : loaded (list B) :=
  match l with
  | [] => Loaded []
  | a :: t => bindL (f a) (fun b => bindL (mapL f t) (fun bs => Loaded (b :: bs)))
  end.

Fixpoint dict_get {V : Type} (items : list (String.string * V)) (key : String.string)
  : option V :=
  match items with
  | [] => None
  | (k, v) :: rest => if String.eqb k key then Some v else dict_get rest key
  end.

(** [d[key] = v]: an item under a key already there is replaced in place,
    a new one is put last. *)
Fixpoint dict_set {V : Type} (items : list (String.string * V)) (key : String.string)
    (v : V) : list (String.string * V) :=
  match items with
  | [] => [(key, v)]
  | (k, w) :: rest =>
      if String.eqb k key then (k, v) :: rest else (k, w) :: dict_set rest key v
  end.

(** [obj[key]] with a string key: only a dict can be subscripted so. *)
Definition subscript (obj : json) (key : String.string) : loaded json :=
  match obj with
  | JDict items =>
      match dict_get items key with
      | Some v => Loaded v
      | None => Failed (KeyError key)
      end
  | _ => Failed TypeError
  end.

(** [obj.items()] and [obj.values()]: attributes of a dict only. *)
Definition items_of (obj : json) : loaded (list (String.string * json)) :=
  match obj with
  | JDict items => Loaded items
  | _ => Failed AttributeError
  end.

Definition values_of (obj : json) : loaded (list json) :=
  bindL (items_of obj) (fun items => Loaded (map snd items)).

(** [load_training_data], on the parsed content [data] of the file. *)
Definition load_training_data (data : json) : loaded (list json * list json) :=
  bindL (subscript data "English-Bengali") (fun eb =>
  bindL (subscript eb "Train") (fun train_data =>
  bindL (values_of train_data) (fun entries =>
  bindL (mapL (fun entry => subscript entry "source") entries) (fun source_sentences =>
  bindL (values_of train_data) (fun entries =>
  bindL (mapL (fun entry => subscript entry "target") entries) (fun target_sentences =>
  Loaded (source_sentences, target_sentences))))))).

(** The dict comprehension [{key: entry['source'] for key, entry in items}]. *)
Fixpoint collect_sources (items : list (String.string * json))
    (acc : list (String.string * json)) : loaded (list (String.string * json)) :=
  match items with
  | [] => Loaded acc
  | (key, entry) :: rest =>
      bindL (subscript entry "source") (fun s => collect_sources rest (dict_set acc key s))
  end.

(** [load_validation_data], on the parsed content [data] of the file. *)
Definition load_validation_data (data : json) : loaded (list (String.string * json)) :=
  bindL (subscript data "English-Bengali") (fun eb =>
  bindL (subscript eb "Test") (fun val_data =>
  bindL (items_of val_data) (fun items =>
  collect_sources items []))).

(** ** translate_validation_data

    [encode] stands for [tokenizer_src.encode(sentence).ids], [decode] for
    [tokenizer_tgt.decode(ids, skip_special_tokens=True)] and [model] for
    the forward pass of the model in evaluation mode. *)
Section Translate.
Variable encode : String.string -> list Z.
Variable decode : list Z -> String.string.
Variable model : ZMat -> ZMat -> result T3.

(** The body of the loop, for one sentence. *)
Definition translate_sentence (sentence : String.string) : result String.string :=
  let encoded_sentence := row_tensor (encode sentence) in
  translation_ids <- greedy_decode model encoded_sentence default_decode_max_len BOS EOS ;;
  Ok (decode translation_ids).

Fixpoint translate_loop (items translations : list (String.string * String.string))
  : result (list (String.string * String.string)) :=
  match items with
  | [] => Ok translations
  | (key, sentence) :: rest =>
      translation <- translate_sentence sentence ;;
      translate_loop rest (dict_set translations key translation)
  end.

Definition translate_validation_data (val_sentences : list (String.string * String.string))
  : result (list (String.string * String.string)) :=
  translate_loop val_sentences [].

End Translate.

(** Sample data file. *)
Definition sample_entry (s t : String.string) : json :=
  JDict [("source"%string, JStr s); ("target"%string, JStr t)].

Definition sample_data : json :=
  JDict [("English-Bengali"%string,
          JDict [("Train"%string,
                  JDict [("1"%string, sample_entry "a" "b");
                         ("2"%string, sample_entry "c" "d")]);
                 ("Test"%string, JDict [("7"%string, sample_entry "e" "f")])])].

(** The example [b] of a batch, as a batch of one example. *)
Definition example (x : T3) (b : nat) : T3 :=
  mkT3 (t3_len x) (t3_width x) [nth b (t3_items x) []].

Definition zexample (x : ZMat) (b : nat) : ZMat :=
  mkZMat (zcols x) [nth b (zrows x) []].

(** The sizes of a model that its inputs must respect. *)
Definition model_sizes (m : Transformer.t) : nat * nat * nat * nat :=
  (num_embeddings (Transformer.src_embedding m),
   num_embeddings (Transformer.tgt_embedding m),
   out_features (Transformer.fc_out m),
   PositionalEncoding.max_len (Transformer.positional_encoding m)).

(** A batch a model of sizes (src_vocab, tgt_vocab, out, max_len) can be
    trained on: as many target rows as source rows, at least one, ids
    inside the vocabularies, lengths within the table. *)
Definition batch_fits (sizes : nat * nat * nat * nat) (b : ZMat * ZMat) : Prop :=
  let '(vs, vt, vo, ml) := sizes in
  wfZMat (fst b) = true /\ wfZMat (snd b) = true /\
  znrows (fst b) = znrows (snd b) /\ 0 < znrows (fst b) /\
  ids_in_range vs (fst b) = true /\
  ids_in_range vt (snd b) = true /\
  ids_in_range vo (snd b) = true /\
  zcols (fst b) <= ml /\ Nat.pred (zcols (snd b)) <= ml.

(** * Theorems *)

(** ** pad_sequences *)

Lemma py_slice_to_nonneg {A : Type} (l : list A) (n : Z) :
  (0 <= n)%Z -> py_slice_to l n = firstn (Z.to_nat n) l.
Proof.
  intros Hn. unfold py_slice_to.
  destruct (Z.leb_spec 0 n); [reflexivity | lia].
Qed.

Lemma pad_row_short (maxlen pv : Z) (s : list Z) :
  (Z.of_nat (length s) <= maxlen)%Z ->
  pad_row maxlen pv s = s ++ repeat pv (Z.to_nat maxlen - length s).
Proof.
  intros Hle. unfold pad_row, py_repeat.
  destruct (Z.ltb_spec (Z.of_nat (length s)) maxlen) as [Hlt | Hge].
  - f_equal. f_equal. lia.
  - rewrite py_slice_to_nonneg by lia.
    assert (Hn : Z.to_nat maxlen = length s) by lia.
    rewrite Hn, firstn_all, Nat.sub_diag. simpl. now rewrite app_nil_r.
Qed.

Lemma pad_row_long (maxlen pv : Z) (s : list Z) :
  (0 <= maxlen < Z.of_nat (length s))%Z ->
  pad_row maxlen pv s = firstn (Z.to_nat maxlen) s.
Proof.
  intros [H0 Hlt]. unfold pad_row.
  destruct (Z.ltb_spec (Z.of_nat (length s)) maxlen); [lia |].
  now apply py_slice_to_nonneg.
Qed.

Lemma pad_row_length (maxlen pv : Z) (s : list Z) :
  (0 <= maxlen)%Z -> length (pad_row maxlen pv s) = Z.to_nat maxlen.
Proof.
  intros H0.
  destruct (Z.le_gt_cases (Z.of_nat (length s)) maxlen) as [Hle | Hgt].
  - rewrite pad_row_short by assumption.
    rewrite length_app, repeat_length. lia.
  - rewrite pad_row_long by lia.
    rewrite length_firstn. lia.
Qed.

Lemma same_lengths_const {A : Type} (n : nat) (rows : list (list A)) :
  Forall (fun r => length r = n) rows -> same_lengths rows = true.
Proof.
  destruct rows as [| r t]; [reflexivity |].
  intros HF. inversion HF as [| ? ? Hr Ht]; subst. simpl.
  apply forallb_forall. intros r' Hin.
  rewrite Forall_forall in Ht. rewrite (Ht r' Hin). apply Nat.eqb_refl.
Qed.

(** C8. For a non-negative [maxlen], [pad_sequences] raises nothing: it
    returns one row per sequence, each of exactly [maxlen] tokens; a
    sequence longer than [maxlen] is cut to its first [maxlen] tokens and a
    shorter one is followed by copies of the padding value (0 by default). *)
Theorem pad_sequences_truncates_and_pads :
  forall (sequences : list (list Z)) (maxlen padding_value : Z),
    (0 <= maxlen)%Z ->
    exists rows,
      pad_sequences sequences maxlen padding_value = Ok rows /\
      length rows = length sequences /\
      forall i s, nth_error sequences i = Some s ->
        exists r, nth_error rows i = Some r /\
          length r = Z.to_nat maxlen /\
          ((maxlen < Z.of_nat (length s))%Z -> r = firstn (Z.to_nat maxlen) s) /\
          ((Z.of_nat (length s) <= maxlen)%Z ->
             r = s ++ repeat padding_value (Z.to_nat maxlen - length s)).
Proof.
  intros sequences maxlen pv H0.
  exists (map (pad_row maxlen pv) sequences). split; [| split].
  - unfold pad_sequences, np_array.
    rewrite (@same_lengths_const _ (Z.to_nat maxlen)); [reflexivity |].
    apply Forall_forall. intros r Hin. apply in_map_iff in Hin.
    destruct Hin as [s [<- _]]. now apply pad_row_length.
  - apply length_map.
  - intros i s Hs. exists (pad_row maxlen pv s). split; [| split; [| split]].
    + now apply map_nth_error.
    + now apply pad_row_length.
    + intros Hlt. apply pad_row_long. lia.
    + intros Hle. now apply pad_row_short.
Qed.

Lemma pad_sequences_truncates_and_pads_witness :
  exists rows,
    pad_sequences [[5; 6; 7]; [8]]%Z 2 default_padding_value = Ok rows /\
    length rows = 2 /\
    forall i s, nth_error [[5; 6; 7]; [8]]%Z i = Some s ->
      exists r, nth_error rows i = Some r /\
        length r = Z.to_nat 2 /\
        ((2 < Z.of_nat (length s))%Z -> r = firstn (Z.to_nat 2) s) /\
        ((Z.of_nat (length s) <= 2)%Z ->
           r = s ++ repeat default_padding_value (Z.to_nat 2 - length s)).
Proof.
  apply (@pad_sequences_truncates_and_pads [[5; 6; 7]; [8]]%Z 2 default_padding_value).
  lia.
Defined.

(** The value on the sample above: the first row is truncated, the second padded. *)
Example pad_sequences_sample :
  pad_sequences [[5; 6; 7]; [8]]%Z 2 0 = Ok [[5; 6]; [8; 0]]%Z.
Proof. reflexivity. Qed.

(** A negative [maxlen] is outside the contract: the slice then drops
    tokens from the end and the rows come out ragged. *)
Example pad_sequences_negative_maxlen :
  pad_sequences [[5; 6; 7]; [8]]%Z (-1) 0 = Raise ValueError.
Proof. reflexivity. Qed.

(** ** greedy_decode *)

Lemma decode_loop_ok (model : ZMat -> ZMat -> result T3) (src : ZMat) (e : Z) :
  forall n tgt l,
    decode_loop model src e n tgt = Ok l ->
    exists gen,
      l = tgt ++ gen /\
      length gen <= n /\
      generated_by model src tgt gen /\
      only_last e gen /\
      ((gen <> [] /\ last gen 0%Z = e) \/ (length gen = n /\ ~ In e gen)).
Proof.
  induction n as [| n IH]; intros tgt l Hl; simpl in Hl.
  - inversion Hl; subst. exists []. rewrite app_nil_r.
    repeat split; simpl; auto; try (intros i Hi; simpl in Hi; lia).
  - destruct (next_token model src tgt) as [t | e'] eqn:Ht; simpl in Hl; [| discriminate].
    destruct (Z.eqb_spec t e) as [He | Hne].
    + inversion Hl; subst. exists [e]. repeat split; simpl; auto; try lia.
      * intros i Hi. simpl in Hi. assert (i = 0) by lia. subst.
        simpl. now rewrite app_nil_r.
      * intros i Hi. simpl in Hi. lia.
      * left. split; [discriminate | reflexivity].
    + apply IH in Hl. destruct Hl as [gen [Hl [Hlen [Hgen [Honly Hstop]]]]].
      exists (t :: gen). split; [| split; [| split; [| split]]].
      * rewrite Hl, <- app_assoc. reflexivity.
      * simpl. lia.
      * intros i Hi. destruct i as [| j]; simpl.
        -- now rewrite app_nil_r.
        -- simpl in Hi. specialize (Hgen j ltac:(lia)).
           rewrite <- app_assoc in Hgen. exact Hgen.
      * intros i Hi. destruct i as [| j]; simpl; [exact Hne |].
        apply Honly. simpl in Hi. lia.
      * destruct Hstop as [[Hnil Hlast] | [Hlen' Hnin]].
        -- left. split; [discriminate |].
           destruct gen; [contradiction | exact Hlast].
        -- right. split; [simpl; lia |].
           intros [Heq | Hin]; [now apply Hne | now apply Hnin].
Qed.


Lemma decode_loop_total (model : ZMat -> ZMat -> result T3) (src : ZMat) (e : Z) :
  (forall prefix, is_ok (next_token model src prefix) = true) ->
  forall n tgt, exists l, decode_loop model src e n tgt = Ok l.
Proof.
  intros Hok. induction n as [| n IH]; intros tgt; simpl.
  - now exists tgt.
  - specialize (Hok tgt).
    destruct (next_token model src tgt) as [t | e']; simpl in *; [| discriminate].
    destruct (t =? e)%Z; [now eexists | apply IH].
Qed.



(** When every forward pass and selection succeeds, so does decoding. *)
Lemma greedy_decode_succeeds (model : ZMat -> ZMat -> result T3) (src : ZMat)
    (max_len s e : Z) :
  (forall prefix, is_ok (next_token model src prefix) = true) ->
  exists l, greedy_decode model src max_len s e = Ok l.
Proof. intros Hok. now apply decode_loop_total. Qed.

(** The testable property of the specification: a model that always
    selects the end token yields exactly one generated token. *)
Lemma greedy_decode_always_eos (model : ZMat -> ZMat -> result T3) (src : ZMat)
    (max_len s e : Z) :
  (1 <= max_len)%Z ->
  (forall prefix, next_token model src prefix = Ok e) ->
  greedy_decode model src max_len s e = Ok [s; e].
Proof.
  intros Hm Hall. unfold greedy_decode.
  destruct (Z.to_nat max_len) as [| n] eqn:Hn; [lia |].
  simpl. rewrite Hall. simpl. now rewrite Z.eqb_refl.
Qed.

(** C10 (amended). For [max_len >= 0] the returned list begins with
    [start_token_id] and has at most [max_len + 1] tokens; [end_token_id]
    occurs among the generated tokens only as the last one; a list whose
    generated part does not end in [end_token_id] has exactly [max_len]
    generated tokens; and for [max_len >= 1] the list has at least 2
    tokens. *)
Theorem greedy_decode_result_shape :
  forall (model : ZMat -> ZMat -> result T3) (src : ZMat)
         (max_len start_token_id end_token_id : Z) (l : list Z),
    (0 <= max_len)%Z ->
    greedy_decode model src max_len start_token_id end_token_id = Ok l ->
    exists gen,
      l = start_token_id :: gen /\
      (Z.of_nat (length l) <= max_len + 1)%Z /\
      ((1 <= max_len)%Z -> 2 <= length l) /\
      only_last end_token_id gen /\
      ((gen = [] \/ last gen 0%Z <> end_token_id) ->
         Z.of_nat (length gen) = max_len).
Proof.
  intros model src max_len s e l Hm Hd. unfold greedy_decode in Hd.
  apply decode_loop_ok in Hd.
  destruct Hd as [gen [Hl [Hlen [Hgen [Honly Hstop]]]]].
  exists gen. subst l. simpl. repeat split; auto.
  - lia.
  - intros H1. destruct Hstop as [[Hnil _] | [Hfull _]].
    + destruct gen; [contradiction | simpl; lia].
    + lia.
  - intros Hnot. destruct Hstop as [[Hnil Hlast] | [Hfull _]]; [| lia].
    destruct Hnot; contradiction.
Qed.

Lemma greedy_decode_result_shape_witness :
  exists gen,
    [2; 0; 0]%Z = BOS :: gen /\
    (Z.of_nat (length [2; 0; 0]%Z) <= 2 + 1)%Z /\
    ((1 <= 2)%Z -> 2 <= length [2; 0; 0]%Z) /\
    only_last EOS gen /\
    ((gen = [] \/ last gen 0%Z <> EOS) -> Z.of_nat (length gen) = 2%Z).
Proof.
  apply (@greedy_decode_result_shape one_class_model sample_src 2 BOS EOS [2; 0; 0]%Z).
  - lia.
  - reflexivity.
Defined.

(** C10, as stated, fails for [max_len = 0]: the loop body never runs and
    the returned list is the start token alone. *)
Lemma greedy_decode_max_len_zero :
  greedy_decode one_class_model sample_src 0 BOS EOS = Ok [2]%Z /\
  ~ (2 <= length [2]%Z).
Proof. split; [reflexivity | simpl; lia]. Qed.

(** ** List lemmas and the positional-encoding table *)


Lemma assign_even_length : forall vals row, length (PositionalEncoding.assign_even row vals) = length row.
Proof.
  induction vals as [| v vs IH]; intros row.
  - destruct row; reflexivity.
  - destruct row as [| x [| y r2]]; simpl; try reflexivity.
    now rewrite IH.
Qed.

Lemma assign_even_nth_even : forall vals row i,
  2 * i < length row -> i < length vals ->
  nth (2 * i) (PositionalEncoding.assign_even row vals) 0%R = nth i vals 0%R.
Proof.
  induction vals as [| v vs IH]; intros row i Hr Hv; simpl in Hv; [lia |].
  destruct row as [| x r1]; simpl in Hr; [lia |].
  destruct i as [| i].
  - reflexivity.
  - destruct r1 as [| y r2]; simpl in Hr; [lia |].
    replace (2 * S i) with (S (S (2 * i))) by lia.
    cbn [PositionalEncoding.assign_even nth]. apply IH; simpl in *; lia.
Qed.

Lemma assign_even_nth_odd : forall vals row i,
  nth (2 * i + 1) (PositionalEncoding.assign_even row vals) 0%R = nth (2 * i + 1) row 0%R.
Proof.
  induction vals as [| v vs IH]; intros row i.
  - destruct row; reflexivity.
  - destruct row as [| x [| y r2]].
    + reflexivity.
    + cbn [PositionalEncoding.assign_even]. replace (2 * i + 1) with (S (2 * i)) by lia.
      cbn [nth]. destruct (2 * i); reflexivity.
    + destruct i as [| i].
      * reflexivity.
      * replace (2 * S i + 1) with (S (S (2 * i + 1))) by lia.
        cbn [PositionalEncoding.assign_even nth]. apply IH.
Qed.

Lemma assign_odd_length : forall vals row, length (PositionalEncoding.assign_odd row vals) = length row.
Proof.
  intros vals [| x r]; simpl; [reflexivity |]. now rewrite assign_even_length.
Qed.

Lemma assign_odd_nth_odd : forall vals row i,
  2 * i + 1 < length row -> i < length vals ->
  nth (2 * i + 1) (PositionalEncoding.assign_odd row vals) 0%R = nth i vals 0%R.
Proof.
  intros vals [| x r] i Hr Hv; simpl in Hr; [lia |].
  replace (2 * i + 1) with (S (2 * i)) by lia. cbn [PositionalEncoding.assign_odd nth].
  apply assign_even_nth_even; [lia | assumption].
Qed.

Lemma assign_odd_nth_even : forall vals row i,
  nth (2 * i) (PositionalEncoding.assign_odd row vals) 0%R = nth (2 * i) row 0%R.
Proof.
  intros vals [| x r] i.
  - reflexivity.
  - destruct i as [| i]; [reflexivity |].
    replace (2 * S i) with (S (2 * i + 1)) by lia. cbn [PositionalEncoding.assign_odd nth].
    apply assign_even_nth_odd.
Qed.

Lemma arange2_length n : length (PositionalEncoding.arange2 n) = (n + 1) / 2.
Proof. unfold PositionalEncoding.arange2. now rewrite length_map, length_seq. Qed.

Lemma div_term_length E : length (PositionalEncoding.div_term E) = (E + 1) / 2.
Proof. unfold PositionalEncoding.div_term. now rewrite length_map, arange2_length. Qed.

Lemma div_term_nth E i : i < (E + 1) / 2 ->
  nth i (PositionalEncoding.div_term E) 0%R = (/ Rpower 10000 (INR (2 * i) / INR E))%R.
Proof.
  intros Hi. unfold PositionalEncoding.div_term, PositionalEncoding.arange2. rewrite map_map.
  rewrite (nth_indep _ 0%R (exp (INR (2 * 0) * (- ln 10000 / INR E)))).
  2:{ now rewrite length_map, length_seq. }
  rewrite (map_nth (fun x => exp (INR (2 * x) * (- ln 10000 / INR E))) (seq 0 ((E + 1) / 2)) 0 i).
  rewrite seq_nth by assumption. simpl (0 + i).
  unfold Rpower. rewrite <- exp_Ropp. f_equal. unfold Rdiv. ring.
Qed.

Lemma nth_map_lt {A B : Type} (f : A -> B) (l : list A) (i : nat) (d : B) (d' : A) :
  i < length l -> nth i (map f l) d = f (nth i l d').
Proof.
  intros Hi. rewrite (nth_indep _ d (f d')) by now rewrite length_map.
  apply map_nth.
Qed.

Arguments nth_map_lt {A B} f l i d d' _.

Lemma nth_repeat_lt {A : Type} (x d : A) (n i : nat) :
  i < n -> nth i (repeat x n) d = x.
Proof.
  revert i. induction n as [| n IH]; intros i Hi; [lia |].
  destruct i; cbn; [reflexivity | apply IH; lia].
Qed.

Lemma expand_same {A : Type} (d : A) (n : nat) (l : list A) :
  length l = n -> expand d n l = l.
Proof. intros H. unfold expand. now rewrite H, Nat.eqb_refl. Qed.

Lemma combine_map_same {A B C : Type} (f : A -> B) (g : A -> C) (l : list A) :
  combine (map f l) (map g l) = map (fun x => (f x, g x)) l.
Proof. induction l; simpl; [reflexivity | now f_equal]. Qed.

Lemma repeat_as_map {A : Type} (z : A) (n a : nat) :
  repeat z n = map (fun _ => z) (seq a n).
Proof. revert a. induction n; intros a; simpl; [reflexivity | now f_equal]. Qed.

Lemma even_half E : Nat.even E = true -> (E + 1) / 2 = E / 2 /\ E = 2 * (E / 2).
Proof.
  intros He. apply Nat.even_spec in He. destruct He as [k ->].
  rewrite (Nat.mul_comm 2 k), Nat.div_mul by lia.
  split; [| lia].
  replace (k * 2 + 1) with (1 + k * 2) by lia.
  rewrite Nat.div_add by lia. reflexivity.
Qed.

Lemma init_rows (E M : nat) :
  Nat.even E = true ->
  PositionalEncoding.init (Z.of_nat E) (Z.of_nat M) = Ok (PositionalEncoding.mk M E (map (built_row E) (seq 0 M))).
Proof.
  intros He. destruct (even_half E He) as [Hh _].
  unfold PositionalEncoding.init.
  destruct (Z.ltb_spec (Z.of_nat E) 0); [lia |].
  destruct (Z.ltb_spec (Z.of_nat M) 0); [lia |].
  cbn [orb]. rewrite !Nat2Z.id.
  unfold PositionalEncoding.slice_assign. rewrite div_term_length, Nat.eqb_refl. cbn [orb bind].
  rewrite <- Hh, Nat.eqb_refl. cbn [orb bind].
  f_equal. f_equal.
  rewrite (repeat_as_map (repeat 0%R E) M 0).
  rewrite !map_map, combine_map_same, map_map.
  cbn [fst snd]. rewrite combine_map_same, map_map. cbn [fst snd].
  apply map_ext. intros p. unfold built_row.
  rewrite !expand_same; [reflexivity | |];
    now rewrite length_map, div_term_length.
Qed.

Lemma built_row_length E p : length (built_row E p) = E.
Proof.
  unfold built_row. now rewrite assign_odd_length, assign_even_length, repeat_length.
Qed.

Lemma nth_repeat_0 n i : nth i (repeat 0%R n) 0%R = 0%R.
Proof. revert i. induction n; intros [| i]; simpl; auto. Qed.

Lemma built_row_entry E p d :
  Nat.even E = true -> d < E -> nth d (built_row E p) 0%R = spec_pe_entry E p d.
Proof.
  intros He Hd. destruct (even_half E He) as [Hh HE].
  unfold built_row, spec_pe_entry.
  destruct (Nat.even d) eqn:Hev.
  - apply Nat.even_spec in Hev. destruct Hev as [i ->].
    rewrite assign_odd_nth_even.
    rewrite assign_even_nth_even.
    + rewrite (nth_map_lt _ _ _ 0%R 0%R) by (rewrite div_term_length; lia).
      rewrite div_term_nth by lia. reflexivity.
    + now rewrite repeat_length.
    + rewrite length_map, div_term_length. lia.
  - assert (Hodd : Nat.odd d = true) by (rewrite <- Nat.negb_even, Hev; reflexivity).
    apply Nat.odd_spec in Hodd. destruct Hodd as [i ->].
    rewrite assign_odd_nth_odd.
    + rewrite (nth_map_lt _ _ _ 0%R 0%R) by (rewrite div_term_length; lia).
      rewrite div_term_nth by lia.
      replace (2 * i + 1 - 1) with (2 * i) by lia. reflexivity.
    + now rewrite assign_even_length, repeat_length.
    + rewrite length_map, div_term_length. lia.
Qed.

(** ** Shapes of the library layers *)

Lemma forallb_Forall {A : Type} (f : A -> bool) (P : A -> Prop) (l : list A) :
  (forall x, f x = true <-> P x) -> forallb f l = true <-> Forall P l.
Proof.
  intros Hf. rewrite forallb_forall, Forall_forall.
  split; intros H x Hx; apply Hf; auto.
Qed.

Lemma wfItem_iff L W it : wfItem L W it = true <-> rows_ok L W it.
Proof.
  unfold wfItem, rows_ok. rewrite andb_true_iff, Nat.eqb_eq.
  rewrite (forallb_Forall _ (fun r => length r = W)); [tauto |].
  intros x. apply Nat.eqb_eq.
Qed.

Lemma wfT3_iff t :
  wfT3 t = true <-> Forall (rows_ok (t3_len t) (t3_width t)) (t3_items t).
Proof. unfold wfT3. apply forallb_Forall. intros x. apply wfItem_iff. Qed.

Lemma has_shape_intro L W items :
  Forall (rows_ok L W) items -> has_shape (mkT3 L W items) (length items) L W.
Proof. intros H. repeat split; auto. now apply wfT3_iff. Qed.

Lemma has_shape_make L W items B :
  Forall (rows_ok L W) items -> length items = B -> has_shape (mkT3 L W items) B L W.
Proof. intros H <-. now apply has_shape_intro. Qed.

Lemma has_shape_items t B L W :
  has_shape t B L W -> Forall (rows_ok L W) (t3_items t) /\ length (t3_items t) = B.
Proof.
  intros [Hwf [HB [HL HW]]]. apply wfT3_iff in Hwf. subst. auto.
Qed.

Lemma bdim_same n : bdim n n = Some n.
Proof. unfold bdim. now rewrite Nat.eqb_refl. Qed.

Lemma vadd_length a b : length (vadd a b) = Nat.min (length a) (length b).
Proof. unfold vadd. now rewrite length_map, length_combine. Qed.

Lemma add_rows_ok L W a b : rows_ok L W a -> rows_ok L W b -> rows_ok L W (add_rows a b).
Proof.
  intros [Ha Fa] [Hb Fb]. unfold add_rows. split.
  - rewrite length_map, length_combine. lia.
  - apply Forall_forall. intros r Hr. apply in_map_iff in Hr.
    destruct Hr as [[x y] [<- Hin]]. cbn [fst snd].
    rewrite vadd_length.
    rewrite Forall_forall in Fa, Fb.
    rewrite (Fa x), (Fb y); [lia | |].
    + eapply in_combine_r; eauto.
    + eapply in_combine_l; eauto.
Qed.

Lemma add_item_expand L W a b :
  rows_ok L W a -> rows_ok L W b ->
  map (fun q => vadd (expand 0%R W (fst q)) (expand 0%R W (snd q)))
      (combine (expand [] L a) (expand [] L b)) = add_rows a b.
Proof.
  intros [Ha Fa] [Hb Fb]. rewrite !expand_same by assumption.
  unfold add_rows. apply map_ext_in. intros [x y] Hin. cbn [fst snd].
  rewrite Forall_forall in Fa, Fb.
  rewrite !expand_same; auto.
  - apply Fb. eapply in_combine_r; eauto.
  - apply Fa. eapply in_combine_l; eauto.
Qed.

(** Adding a tensor of batch size one (broadcast over the batch). *)
Lemma t3_add_row_tensor x B L W rows :
  has_shape x B L W -> rows_ok L W rows ->
  t3_add x (mkT3 L W [rows])
  = Ok (mkT3 L W (map (fun it => add_rows it rows) (t3_items x)))
  /\ has_shape (mkT3 L W (map (fun it => add_rows it rows) (t3_items x))) B L W.
Proof.
  intros Hx Hrows. pose proof (has_shape_items Hx) as [Fx HB].
  destruct Hx as [_ [_ [HL HW]]].
  split.
  - unfold t3_add. cbn [t3_len t3_width t3_items]. rewrite HL, HW, !bdim_same.
    assert (Hb : bcast2 (t3_items x) [rows] = Ok (map (fun it => (it, rows)) (t3_items x))).
    { unfold bcast2. destruct (Nat.eqb_spec (length (t3_items x)) (length [rows])) as [He | Hne].
      - destruct (t3_items x) as [| a [| b t]]; simpl in He; try discriminate. reflexivity.
      - destruct (t3_items x) as [| a [| b t]]; reflexivity. }
    rewrite Hb. cbn [bind]. f_equal. f_equal. rewrite map_map.
    apply map_ext_in. intros it Hit. cbn [fst snd].
    apply add_item_expand; auto. rewrite Forall_forall in Fx. now apply Fx.
  - rewrite <- HB, <- (length_map (fun it => add_rows it rows)).
    apply has_shape_intro. apply Forall_forall. intros r Hr.
    apply in_map_iff in Hr. destruct Hr as [it [<- Hit]].
    apply add_rows_ok; auto. rewrite Forall_forall in Fx. now apply Fx.
Qed.

(** Adding two tensors of one shape. *)
Lemma t3_add_same x y B L W :
  has_shape x B L W -> has_shape y B L W ->
  exists z, t3_add x y = Ok z /\ has_shape z B L W.
Proof.
  intros Hx Hy. pose proof (has_shape_items Hx) as [Fx HBx].
  pose proof (has_shape_items Hy) as [Fy HBy].
  destruct Hx as [_ [_ [HLx HWx]]]. destruct Hy as [_ [_ [HLy HWy]]].
  unfold t3_add. rewrite HLx, HLy, HWx, HWy, !bdim_same.
  unfold bcast2. rewrite HBx, HBy, Nat.eqb_refl. cbn [bind].
  eexists. split; [reflexivity |].
  replace B with (length (map (fun p : list vec * list vec =>
           map (fun q => vadd (expand 0%R W (fst q)) (expand 0%R W (snd q)))
             (combine (expand [] L (fst p)) (expand [] L (snd p))))
          (combine (t3_items x) (t3_items y)))).
  2:{ rewrite length_map, length_combine. lia. }
  apply has_shape_intro. apply Forall_forall. intros r Hr.
  apply in_map_iff in Hr. destruct Hr as [[a b] [<- Hin]]. cbn [fst snd].
  rewrite Forall_forall in Fx, Fy.
  assert (Ha : rows_ok L W a) by (apply Fx; eapply in_combine_l; eauto).
  assert (Hb : rows_ok L W b) by (apply Fy; eapply in_combine_r; eauto).
  rewrite add_item_expand by assumption. now apply add_rows_ok.
Qed.

Lemma Forall_map_iff {A B : Type} (P : B -> Prop) (f : A -> B) (l : list A) :
  Forall P (map f l) <-> Forall (fun x => P (f x)) l.
Proof. apply Forall_map. Qed.

Lemma rows_ok_map L W (f : vec -> vec) it :
  rows_ok L W it -> (forall r, length r = W -> length (f r) = W) ->
  rows_ok L W (map f it).
Proof.
  intros [Hl HF] Hf. split; [now rewrite length_map |].
  apply Forall_map. eapply Forall_impl; [| exact HF]. auto.
Qed.

(** A row-wise layer: shape in, shape out. *)
Lemma map_rows_shape x B L W W' (f : vec -> vec) :
  has_shape x B L W ->
  (forall r, length r = W -> length (f r) = W') ->
  has_shape (mkT3 L W' (map (map f) (t3_items x))) B L W'.
Proof.
  intros Hx Hf. pose proof (has_shape_items Hx) as [Fx HB].
  rewrite <- HB, <- (length_map (map f)).
  apply has_shape_intro. apply Forall_map.
  eapply Forall_impl; [| exact Fx].
  intros it [Hl HF]. split; [now rewrite length_map |].
  apply Forall_map. eapply Forall_impl; [| exact HF]. auto.
Qed.

Lemma wfLinear_iff l :
  wfLinear l = true <->
  length (weight l) = out_features l /\
  Forall (fun r => length r = in_features l) (weight l) /\
  length (bias l) = out_features l.
Proof.
  unfold wfLinear. rewrite !andb_true_iff, !Nat.eqb_eq.
  rewrite (forallb_Forall _ (fun r => length r = in_features l)); [tauto |].
  intros x. apply Nat.eqb_eq.
Qed.

Lemma linear_row_length l r :
  wfLinear l = true -> length (linear_row l r) = out_features l.
Proof.
  intros Hl. apply wfLinear_iff in Hl. destruct Hl as [Hw [_ Hb]].
  unfold linear_row. rewrite vadd_length, length_map. lia.
Qed.

Lemma Linear_forward_shape l x B L :
  wfLinear l = true -> has_shape x B L (in_features l) ->
  exists y, Linear_forward l x = Ok y /\ has_shape y B L (out_features l).
Proof.
  intros Hl Hx. unfold Linear_forward.
  destruct Hx as [Hwf [HB [HL HW]]]. rewrite HW, Nat.eqb_refl.
  eexists. split; [reflexivity |]. rewrite HL.
  apply map_rows_shape with (W := in_features l).
  - repeat split; auto.
  - intros r _. now apply linear_row_length.
Qed.

Lemma layer_norm_row_length n r :
  wfLayerNorm n = true -> length r = normalized_shape n ->
  length (layer_norm_row n r) = normalized_shape n.
Proof.
  unfold wfLayerNorm. rewrite andb_true_iff, !Nat.eqb_eq. intros [Hw Hb] Hr.
  unfold layer_norm_row. rewrite length_map, !length_combine. lia.
Qed.

Lemma LayerNorm_forward_shape n x B L :
  wfLayerNorm n = true -> has_shape x B L (normalized_shape n) ->
  exists y, LayerNorm_forward n x = Ok y /\ has_shape y B L (normalized_shape n).
Proof.
  intros Hn Hx. unfold LayerNorm_forward.
  pose proof Hx as [Hwf [HB [HL HW]]]. rewrite HW, Nat.eqb_refl.
  eexists. split; [reflexivity |]. rewrite HL.
  apply map_rows_shape with (W := normalized_shape n); auto.
  intros r Hr. now apply layer_norm_row_length.
Qed.

Lemma mapi_length {A B : Type} (f : nat -> A -> B) (l : list A) :
  length (mapi f l) = length l.
Proof. unfold mapi. rewrite length_map, length_combine, length_seq. lia. Qed.

Lemma Forall_mapi {A B : Type} (P : A -> Prop) (Q : B -> Prop) (f : nat -> A -> B) l :
  Forall P l -> (forall i a, P a -> Q (f i a)) -> Forall Q (mapi f l).
Proof.
  intros HF Hf. unfold mapi. apply Forall_map. apply Forall_forall.
  intros [i a] Hin. cbn [fst snd]. apply Hf.
  rewrite Forall_forall in HF. apply HF. eapply in_combine_r; eauto.
Qed.

Lemma dropout_shape p m call x B L W :
  has_shape x B L W -> has_shape (dropout p m call x) B L W.
Proof.
  intros Hx. destruct m as [| keep]; [exact Hx |].
  pose proof (has_shape_items Hx) as [Fx HB].
  destruct Hx as [_ [_ [HL HW]]]. unfold dropout. rewrite HL, HW.
  apply has_shape_make; [| now rewrite mapi_length].
  eapply Forall_mapi; [exact Fx |].
  intros b it [Hl HF]. split; [now rewrite mapi_length |].
  eapply Forall_mapi; [exact HF |].
  intros i row Hr. cbn beta. now rewrite mapi_length.
Qed.

Lemma t3_map_shape f x B L W :
  has_shape x B L W -> has_shape (FeedForward.t3_map f x) B L W.
Proof.
  intros Hx. pose proof Hx as [_ [_ [HL HW]]]. unfold FeedForward.t3_map.
  rewrite HL, HW. apply map_rows_shape with (W := W); auto.
  intros r Hr. now rewrite length_map.
Qed.

Lemma wfEmbedding_iff e :
  wfEmbedding e = true <->
  length (emb_weight e) = num_embeddings e /\
  Forall (fun r => length r = embedding_dim e) (emb_weight e).
Proof.
  unfold wfEmbedding. rewrite andb_true_iff, Nat.eqb_eq.
  rewrite (forallb_Forall _ (fun r => length r = embedding_dim e)); [tauto |].
  intros x. apply Nat.eqb_eq.
Qed.

Lemma Embedding_forward_shape e ids :
  wfEmbedding e = true -> wfZMat ids = true ->
  ids_in_range (num_embeddings e) ids = true ->
  exists y, Embedding_forward e ids = Ok y /\
            has_shape y (znrows ids) (zcols ids) (embedding_dim e).
Proof.
  intros He Hids Hr. unfold Embedding_forward. unfold ids_in_range in Hr. rewrite Hr.
  eexists. split; [reflexivity |].
  unfold znrows. rewrite <- (length_map (map (fun i => nth (Z.to_nat i) (emb_weight e) []))).
  apply has_shape_intro. apply Forall_map.
  unfold wfZMat in Hids.
  rewrite (forallb_Forall _ (fun r => length r = zcols ids)) in Hids
    by (intros; apply Nat.eqb_eq).
  rewrite forallb_forall in Hr.
  apply Forall_forall. intros row Hin.
  rewrite Forall_forall in Hids. split; [rewrite length_map; now apply Hids |].
  apply Forall_map. apply Forall_forall. intros i Hi.
  specialize (Hr row Hin). rewrite forallb_forall in Hr. specialize (Hr i Hi).
  unfold id_in_range in Hr. apply andb_true_iff in Hr. destruct Hr as [H0 H1].
  apply Z.leb_le in H0. apply Z.ltb_lt in H1.
  apply wfEmbedding_iff in He. destruct He as [Hlen HF].
  rewrite Forall_forall in HF. apply HF. apply nth_In. lia.
Qed.

Lemma In_firstn {A : Type} (x : A) :
  forall n l, In x (firstn n l) -> In x l.
Proof.
  induction n as [| n IH]; intros [| a l] H; simpl in *; try contradiction.
  destruct H as [H | H]; [now left | right; now apply IH].
Qed.

Lemma In_skipn {A : Type} (x : A) :
  forall n l, In x (skipn n l) -> In x l.
Proof.
  induction n as [| n IH]; intros [| a l] H; simpl in *; try contradiction; auto.
Qed.

Lemma rows_ok_firstn M W rows L :
  rows_ok M W rows -> L <= M -> rows_ok L W (firstn L rows).
Proof.
  intros [Hl HF] HL. split; [rewrite length_firstn; lia |].
  apply Forall_forall. intros r Hr. rewrite Forall_forall in HF.
  apply HF. eapply In_firstn; eauto.
Qed.

Lemma PositionalEncoding_forward_shape pe x B L :
  rows_ok (PositionalEncoding.max_len pe) (PositionalEncoding.embed_size pe)
          (PositionalEncoding.pe pe) ->
  has_shape x B L (PositionalEncoding.embed_size pe) ->
  L <= PositionalEncoding.max_len pe ->
  PositionalEncoding.forward pe x
  = Ok (mkT3 L (PositionalEncoding.embed_size pe)
          (map (fun it => add_rows it (firstn L (PositionalEncoding.pe pe))) (t3_items x)))
  /\ has_shape (mkT3 L (PositionalEncoding.embed_size pe)
          (map (fun it => add_rows it (firstn L (PositionalEncoding.pe pe))) (t3_items x)))
       B L (PositionalEncoding.embed_size pe).
Proof.
  intros Hpe Hx HL. unfold PositionalEncoding.forward.
  pose proof Hx as [_ [_ [HLx _]]]. rewrite HLx, Nat.min_l by assumption.
  apply t3_add_row_tensor; auto. eapply rows_ok_firstn; eauto.
Qed.

Arguments PositionalEncoding_forward_shape [pe x B L] _ _ _.

(** ** ScaledDotProductAttention *)


Lemma wfMat_iff m : wfMat m = true <-> Forall (fun r => length r = ncols m) (mrows m).
Proof. unfold wfMat. apply forallb_Forall. intros x. apply Nat.eqb_eq. Qed.

Lemma list_as_map_nth {A : Type} (d : A) (l : list A) :
  l = map (fun i => nth i l d) (seq 0 (length l)).
Proof.
  induction l as [| a l IH]; [reflexivity |].
  simpl. f_equal. rewrite <- seq_shift, map_map. exact IH.
Qed.

Lemma nth_col j c rows : nth j (col c rows) 0%R = nth c (nth j rows []) 0%R.
Proof.
  unfold col.
  assert (H0 : nth c (@nil R) 0%R = 0%R) by (destruct c; reflexivity).
  rewrite <- H0 at 1.
  apply (map_nth (fun r => nth c r 0%R)).
Qed.

Lemma nth_default_nil {A : Type} (i : nat) (l : list (list A)) :
  length l <= i -> nth i l [] = [].
Proof. intros H. now apply nth_overflow. Qed.

Lemma transpose_nrows m : nrows (transpose m) = ncols m.
Proof. unfold transpose, nrows. cbn [mrows]. now rewrite length_map, length_seq. Qed.

Lemma map_seq_ext {A : Type} (f g : nat -> A) (a n : nat) :
  (forall i, a <= i < a + n -> f i = g i) -> map f (seq a n) = map g (seq a n).
Proof.
  intros H. apply map_ext_in. intros i Hi. apply in_seq in Hi. apply H. lia.
Qed.

Lemma col_transpose k j :
  wfMat k = true -> j < nrows k ->
  col j (mrows (transpose k)) = nth j (mrows k) [].
Proof.
  intros Hk Hj. apply wfMat_iff in Hk.
  unfold transpose. cbn [mrows]. unfold col at 1. rewrite map_map.
  assert (Hlen : length (nth j (mrows k) []) = ncols k).
  { rewrite Forall_forall in Hk. apply Hk. now apply nth_In. }
  rewrite (list_as_map_nth 0%R (nth j (mrows k) [])) at 1. rewrite Hlen.
  apply map_ext. intros c. apply nth_col.
Qed.

Lemma expand_length {A : Type} (d : A) (n : nat) (l : list A) :
  length (expand d n l) = n.
Proof.
  unfold expand. destruct (Nat.eqb_spec (length l) n); [assumption |].
  apply repeat_length.
Qed.

Lemma combine_map_seq_nth {A B : Type} (f : nat -> A) (d : B) (l : list B) (n : nat) :
  length l = n ->
  combine (map f (seq 0 n)) l = map (fun i => (f i, nth i l d)) (seq 0 n).
Proof.
  intros <-. rewrite (list_as_map_nth d l) at 2.
  generalize (seq 0 (length l)) as s. induction s; simpl; [reflexivity | now f_equal].
Qed.

Lemma softmax_map {A : Type} (f : A -> R) (l : list A) :
  softmax (map f l)
  = map (fun x => (exp (f x) / vsum (map (fun y => exp (f y)) l))%R) l.
Proof. unfold softmax. now rewrite !map_map. Qed.

Lemma dot_map_seq (w g : nat -> R) (n : nat) :
  dot (map w (seq 0 n)) (map g (seq 0 n))
  = vsum (map (fun j => (w j * g j)%R) (seq 0 n)).
Proof.
  unfold dot. f_equal.
  generalize (seq 0 n) as s. induction s; simpl; [reflexivity | now f_equal].
Qed.

Lemma mask_fits_some m rows cols :
  mask_fits (Some m) rows cols = true ->
  ((znrows m =? rows) || (znrows m =? 1)) && ((zcols m =? cols) || (zcols m =? 1)) = true.
Proof.
  unfold mask_fits. rewrite !andb_true_iff. intros [[_ H1] H2]. auto.
Qed.

Lemma map_nth_seq {A B : Type} (f : A -> B) (d : A) (l : list A) :
  map f l = map (fun i => f (nth i l d)) (seq 0 (length l)).
Proof.
  induction l as [| a l IH]; [reflexivity |].
  simpl. f_equal. rewrite <- seq_shift, map_map. exact IH.
Qed.

(** Query times key-transposed, entry by entry. *)
Lemma matmul_transpose q k :
  wfMat k = true -> ncols q = ncols k ->
  matmul q (transpose k)
  = Ok (mkMat (nrows k)
          (map (fun i => map (fun j => dot (nth i (mrows q) []) (nth j (mrows k) []))
                             (seq 0 (nrows k)))
               (seq 0 (nrows q)))).
Proof.
  intros Hk Hd. unfold matmul. rewrite transpose_nrows.
  destruct (Nat.eqb_spec (ncols q) (ncols k)) as [_ | Hne]; [| contradiction].
  f_equal. replace (ncols (transpose k)) with (nrows k) by reflexivity. f_equal.
  rewrite (map_nth_seq _ [] (mrows q)). fold (nrows q).
  apply map_ext. intros i. apply map_seq_ext. intros j Hj.
  rewrite col_transpose by (auto; lia). reflexivity.
Qed.

Lemma bdim_fits (a b : nat) :
  (b =? a) || (b =? 1) = true -> bdim a b = Some a.
Proof.
  intros H. unfold bdim. apply orb_true_iff in H.
  destruct (Nat.eqb_spec a b) as [-> | Hne]; [reflexivity |].
  destruct H as [H | H]; apply Nat.eqb_eq in H; [congruence |]. subst b.
  destruct (Nat.eqb_spec a 1); [congruence | reflexivity].
Qed.

(** The masked scores, entry by entry. *)
Lemma masked_fill_explicit (s : nat -> nat -> R) (m : ZMat) (value : R) (nq nk : nat) :
  ((znrows m =? nq) || (znrows m =? 1)) && ((zcols m =? nk) || (zcols m =? 1)) = true ->
  masked_fill (mkMat nk (map (fun i => map (fun j => s i j) (seq 0 nk)) (seq 0 nq))) m value
  = Ok (mkMat nk
          (map (fun i => map (fun j => if (mask_entry m nq nk i j =? 0)%Z
                                       then value else s i j)
                             (seq 0 nk))
               (seq 0 nq))).
Proof.
  intros Hm. apply andb_true_iff in Hm. destruct Hm as [Hr Hc].
  unfold masked_fill. unfold nrows. cbn [ncols mrows].
  rewrite length_map, length_seq, (bdim_fits _ _ Hr), (bdim_fits _ _ Hc).
  f_equal. f_equal.
  rewrite (@expand_same _ [] nq) by now rewrite length_map, length_seq.
  rewrite (combine_map_seq_nth _ []) by apply expand_length.
  rewrite map_map. apply map_ext. intros i. cbn [fst snd].
  rewrite (@expand_same _ 0%R nk) by now rewrite length_map, length_seq.
  rewrite (combine_map_seq_nth _ 0%Z) by apply expand_length.
  rewrite map_map. apply map_ext. intros j. reflexivity.
Qed.

(** Weights times values, entry by entry. *)
Lemma matmul_weights (w : nat -> nat -> R) (v : Mat) (nq nk : nat) :
  nk = nrows v ->
  matmul (mkMat nk (map (fun i => map (fun j => w i j) (seq 0 nk)) (seq 0 nq))) v
  = Ok (mkMat (ncols v)
          (map (fun i => map (fun c => vsum (map (fun j => (w i j * mentry v j c)%R)
                                                 (seq 0 nk)))
                             (seq 0 (ncols v)))
               (seq 0 nq))).
Proof.
  intros Hk. unfold matmul. cbn [ncols mrows]. rewrite Hk, Nat.eqb_refl.
  f_equal. f_equal. rewrite map_map. apply map_ext. intros i.
  apply map_ext. intros c.
  unfold col. rewrite (map_nth_seq _ [] (mrows v)). fold (nrows v).
  rewrite dot_map_seq. reflexivity.
Qed.

Lemma forward_explicit q k v mask :
  wfMat k = true ->
  ncols q = ncols k -> nrows k = nrows v ->
  mask_fits mask (nrows q) (nrows k) = true ->
  ScaledDotProductAttention.forward q k v mask
  = Ok (mkMat (ncols v)
          (map (fun i => map (fun c => spec_output q k v mask i c) (seq 0 (ncols v)))
               (seq 0 (nrows q))),
        mkMat (nrows k)
          (map (fun i => map (fun j => spec_weight q k mask i j) (seq 0 (nrows k)))
               (seq 0 (nrows q)))).
Proof.
  intros Hk Hd Hkv Hmask.
  unfold ScaledDotProductAttention.forward. rewrite matmul_transpose by assumption. cbn [bind].
  unfold mat_map. cbn [ncols mrows]. rewrite map_map.
  assert (Hraw :
    map (fun x => map (fun x0 => (x0 / sqrt (INR (ncols q)))%R)
           (map (fun j => dot (nth x (mrows q) []) (nth j (mrows k) []))
              (seq 0 (nrows k)))) (seq 0 (nrows q))
    = map (fun i => map (fun j => raw_score q k i j) (seq 0 (nrows k)))
          (seq 0 (nrows q))).
  { apply map_ext. intros i. now rewrite map_map. }
  rewrite Hraw. clear Hraw.
  assert (Hsc :
    match mask with
    | Some m => masked_fill
                  (mkMat (nrows k)
                     (map (fun i => map (fun j => raw_score q k i j) (seq 0 (nrows k)))
                          (seq 0 (nrows q)))) m ScaledDotProductAttention.masked_score
    | None => Ok (mkMat (nrows k)
                     (map (fun i => map (fun j => raw_score q k i j) (seq 0 (nrows k)))
                          (seq 0 (nrows q))))
    end
    = Ok (mkMat (nrows k)
            (map (fun i => map (fun j => spec_score q k mask i j) (seq 0 (nrows k)))
                 (seq 0 (nrows q))))).
  { destruct mask as [m |]; [| reflexivity].
    apply mask_fits_some in Hmask. now rewrite masked_fill_explicit. }
  rewrite Hsc. clear Hsc. cbn [bind ncols mrows].
  rewrite map_map.
  assert (Hsm :
    map (fun x => softmax (map (fun j => spec_score q k mask x j) (seq 0 (nrows k))))
        (seq 0 (nrows q))
    = map (fun i => map (fun j => spec_weight q k mask i j) (seq 0 (nrows k)))
          (seq 0 (nrows q))).
  { apply map_ext. intros i. now rewrite softmax_map. }
  rewrite Hsm. clear Hsm.
  rewrite matmul_weights by assumption. reflexivity.
Qed.


Lemma mentry_map_seq (f : nat -> nat -> R) (n m c i j : nat) :
  i < n -> j < m ->
  mentry (mkMat c (map (fun i => map (fun j => f i j) (seq 0 m)) (seq 0 n))) i j = f i j.
Proof.
  intros Hi Hj. unfold mentry. cbn [mrows].
  rewrite (nth_map_lt (fun i => map (fun j => f i j) (seq 0 m)) (seq 0 n) i [] 0)
    by now rewrite length_seq.
  rewrite seq_nth by assumption. cbn [plus].
  rewrite (nth_map_lt (fun j => f i j) (seq 0 m) j 0%R 0) by now rewrite length_seq.
  now rewrite seq_nth.
Qed.


Lemma vsum_map_div {A : Type} (f : A -> R) (t : R) (l : list A) :
  vsum (map (fun x => (f x / t)%R) l) = (vsum (map f l) / t)%R.
Proof.
  induction l as [| a l IH]; simpl.
  - unfold Rdiv. ring.
  - rewrite IH. unfold Rdiv. ring.
Qed.

Lemma vsum_exp_nonneg {A : Type} (s : A -> R) (l : list A) :
  (0 <= vsum (map (fun x => exp (s x)) l))%R.
Proof.
  induction l as [| a l IH]; simpl; [lra |].
  pose proof (exp_pos (s a)). lra.
Qed.

Lemma vsum_exp_pos {A : Type} (s : A -> R) (l : list A) :
  l <> [] -> (0 < vsum (map (fun x => exp (s x)) l))%R.
Proof.
  destruct l as [| a l]; [contradiction |]. intros _. simpl.
  pose proof (exp_pos (s a)). pose proof (vsum_exp_nonneg s l). lra.
Qed.

Lemma vsum_exp_ge {A : Type} (s : A -> R) (l : list A) (x : A) :
  In x l -> (exp (s x) <= vsum (map (fun y => exp (s y)) l))%R.
Proof.
  induction l as [| a l IH]; simpl; [contradiction |].
  intros [-> | Hin].
  - pose proof (vsum_exp_nonneg s l). lra.
  - pose proof (exp_pos (s a)). specialize (IH Hin). lra.
Qed.

Lemma seq_nonempty n : 0 < n -> seq 0 n <> [].
Proof. destruct n; [lia | discriminate]. Qed.

(** The softmax weights of one query position sum to one. *)
Lemma spec_weight_sum q k mask i :
  0 < nrows k ->
  vsum (map (fun j => spec_weight q k mask i j) (seq 0 (nrows k))) = 1%R.
Proof.
  intros Hk. unfold spec_weight.
  rewrite (vsum_map_div (fun j => exp (spec_score q k mask i j))).
  apply Rdiv_diag. apply Rgt_not_eq.
  apply (vsum_exp_pos (fun j => spec_score q k mask i j)). now apply seq_nonempty.
Qed.

Lemma spec_weight_pos q k mask i j :
  j < nrows k -> (0 < spec_weight q k mask i j)%R.
Proof.
  intros Hj. unfold spec_weight. apply Rdiv_lt_0_compat; [apply exp_pos |].
  apply (vsum_exp_pos (fun j => spec_score q k mask i j)). apply seq_nonempty. lia.
Qed.


Lemma big_sum_ext (n : nat) (f g : nat -> R) :
  (forall i, i < n -> f i = g i) -> big_sum n f = big_sum n g.
Proof.
  induction n as [| n IH]; intros H; [reflexivity |].
  cbn [big_sum]. rewrite IH by (intros i Hi; apply H; lia).
  rewrite (H n) by lia. reflexivity.
Qed.

Lemma big_sum_shift (n : nat) (f : nat -> R) :
  big_sum (S n) f = (f O + big_sum n (fun i => f (S i)))%R.
Proof.
  induction n as [| n IH].
  - cbn [big_sum]. ring.
  - change (big_sum (S (S n)) f) with (big_sum (S n) f + f (S n))%R.
    rewrite IH. cbn [big_sum]. ring.
Qed.

Lemma vsum_big_sum (d : R) (l : list R) :
  vsum l = big_sum (length l) (fun i => nth i l d).
Proof.
  induction l as [| x l IH]; [reflexivity |].
  cbn [length]. rewrite big_sum_shift. cbn [nth vsum fold_right].
  fold (vsum l). now rewrite IH.
Qed.

Lemma vsum_map_seq (f : nat -> R) (n : nat) :
  vsum (map f (seq 0 n)) = big_sum n f.
Proof.
  rewrite (vsum_big_sum 0%R), length_map, length_seq.
  apply big_sum_ext. intros i Hi.
  rewrite (nth_map_lt f (seq 0 n) i 0%R 0) by now rewrite length_seq.
  now rewrite seq_nth.
Qed.

Lemma dot_big_sum (b : list R) : forall a : list R,
  dot a b = big_sum (length b) (fun d => (nth d a 0 * nth d b 0)%R).
Proof.
  unfold dot. induction b as [| y b IH]; intros a.
  - destruct a; reflexivity.
  - destruct a as [| x a].
    + cbn [combine map vsum fold_right]. symmetry.
      rewrite (@big_sum_ext _ _ (fun _ => 0%R)).
      * generalize (length (y :: b)). induction n; cbn [big_sum]; [reflexivity | lra].
      * intros i _. destruct i; cbn [nth]; ring.
    + cbn [length]. rewrite big_sum_shift. cbn [combine map vsum fold_right fst snd nth].
      fold (vsum (map (fun p : R * R => (fst p * snd p)%R) (combine a b))).
      now rewrite IH.
Qed.

Lemma raw_score_big_sum (q k : Mat) (i j : nat) :
  wfMat k = true -> ncols q = ncols k -> j < nrows k ->
  raw_score q k i j
  = (big_sum (ncols q) (fun d => mentry q i d * mentry k j d) / sqrt (INR (ncols q)))%R.
Proof.
  intros Hk Hd Hj. unfold raw_score. f_equal.
  rewrite dot_big_sum.
  assert (Hlen : length (nth j (mrows k) []) = ncols q).
  { apply wfMat_iff in Hk. rewrite Forall_forall in Hk. rewrite Hd. apply Hk.
    apply nth_In. exact Hj. }
  rewrite Hlen. reflexivity.
Qed.

Lemma nth_expand {A : Type} (d : A) (n i : nat) (l : list A) :
  length l = n \/ length l = 1 -> i < n ->
  nth i (expand d n l) d = nth (if length l =? 1 then 0 else i) l d.
Proof.
  intros Hl Hi. unfold expand.
  destruct (Nat.eqb_spec (length l) n) as [En | Hn].
  - destruct (Nat.eqb_spec (length l) 1) as [E1 |]; [| reflexivity].
    replace i with 0 by lia. reflexivity.
  - destruct Hl as [Hl | Hl]; [contradiction |]. rewrite Hl. cbn [Nat.eqb].
    destruct l as [| x l]; [discriminate |]. cbn [hd nth].
    now apply nth_repeat_lt.
Qed.

Lemma mask_entry_attn (m : ZMat) (rows cols i j : nat) :
  mask_fits (Some m) rows cols = true -> i < rows -> j < cols ->
  mask_entry m rows cols i j = attn_mask_entry m i j.
Proof.
  intros Hfit Hi Hj. unfold mask_fits in Hfit.
  rewrite !andb_true_iff, !orb_true_iff, !Nat.eqb_eq in Hfit.
  destruct Hfit as [[Hw Hr] Hc].
  unfold mask_entry, attn_mask_entry.
  rewrite (@nth_expand _ [] rows i (zrows m)) by (fold (znrows m); auto).
  fold (znrows m).
  assert (Hlen : length (nth (if znrows m =? 1 then 0 else i) (zrows m) []) = zcols m).
  { unfold wfZMat in Hw. rewrite forallb_forall in Hw. apply Nat.eqb_eq, Hw.
    apply nth_In. unfold znrows in *.
    destruct (Nat.eqb_spec (length (zrows m)) 1); lia. }
  rewrite nth_expand by (rewrite ?Hlen; auto).
  now rewrite Hlen.
Qed.

Lemma spec_score_attn (q k : Mat) (mask : option ZMat) (i j : nat) :
  wfMat k = true -> ncols q = ncols k ->
  mask_fits mask (nrows q) (nrows k) = true ->
  i < nrows q -> j < nrows k ->
  spec_score q k mask i j = attn_score q k mask i j.
Proof.
  intros Hk Hd Hfit Hi Hj. unfold spec_score, attn_score, is_masked.
  rewrite raw_score_big_sum by assumption.
  destruct mask as [m |]; [| reflexivity].
  rewrite (mask_entry_attn m Hfit Hi Hj).
  destruct (attn_mask_entry m i j =? 0)%Z; [| reflexivity].
  unfold ScaledDotProductAttention.masked_score. lra.
Qed.

Lemma spec_weight_attn (q k : Mat) (mask : option ZMat) (i j : nat) :
  wfMat k = true -> ncols q = ncols k ->
  mask_fits mask (nrows q) (nrows k) = true ->
  i < nrows q -> j < nrows k ->
  spec_weight q k mask i j = attn_weight q k mask i j.
Proof.
  intros Hk Hd Hfit Hi Hj. unfold spec_weight, attn_weight.
  rewrite vsum_map_seq, spec_score_attn by assumption.
  f_equal. apply big_sum_ext. intros j' Hj'. now rewrite spec_score_attn.
Qed.

(** C1. For a query, a key and a value whose sizes agree (d_k > 0), and
    an optional mask that broadcasts to the scores, [forward] returns the
    output and the attention weights.  The score of (i, j) is the dot
    product of query row i and key row j divided by the square root of
    d_k, overwritten by the constant -1e9 where the mask entry is zero;
    the weight at (i, j) is the exponential of that score divided by the
    sum of the exponentials of the scores of query i over all keys, so the
    weights of a query are positive and sum to one; the output at (i, c)
    is the sum over the keys j of the weight at (i, j) times the value at
    (j, c). *)
Theorem attention_forward_spec :
  forall (query key value : Mat) (mask : option ZMat),
    0 < ncols query ->
    wfMat key = true ->
    ncols query = ncols key ->
    nrows key = nrows value ->
    mask_fits mask (nrows query) (nrows key) = true ->
    exists output attention,
      ScaledDotProductAttention.forward query key value mask = Ok (output, attention) /\
      nrows attention = nrows query /\ ncols attention = nrows key /\
      nrows output = nrows query /\ ncols output = ncols value /\
      (forall i j, i < nrows query -> j < nrows key ->
         mentry attention i j = attn_weight query key mask i j /\
         (0 < mentry attention i j)%R) /\
      (forall i, i < nrows query -> 0 < nrows key ->
         big_sum (nrows key) (fun j => mentry attention i j) = 1%R) /\
      (forall i c, i < nrows query -> c < ncols value ->
         mentry output i c
         = big_sum (nrows key) (fun j => (mentry attention i j * mentry value j c)%R)).
Proof.
  intros q k v mask Hpos Hk Hd Hkv Hm.
  rewrite forward_explicit by assumption.
  eexists. eexists. split; [reflexivity |].
  split; [unfold nrows at 1; cbn [mrows]; now rewrite length_map, length_seq |].
  split; [reflexivity |].
  split; [unfold nrows at 1; cbn [mrows]; now rewrite length_map, length_seq |].
  split; [reflexivity |].
  split; [| split].
  - intros i j Hi Hj. rewrite mentry_map_seq by assumption. split.
    + now apply spec_weight_attn.
    + now apply spec_weight_pos.
  - intros i Hi Hpk. rewrite <- (@spec_weight_sum q k mask i Hpk), vsum_map_seq.
    apply big_sum_ext. intros j Hj. now apply mentry_map_seq.
  - intros i c Hi Hc. rewrite mentry_map_seq by assumption.
    unfold spec_output. rewrite vsum_map_seq.
    apply big_sum_ext. intros j Hj. now rewrite mentry_map_seq.
Qed.

Lemma attention_forward_spec_witness :
  exists output attention,
    ScaledDotProductAttention.forward sample_query sample_key sample_value (Some sample_mask)
      = Ok (output, attention) /\
    nrows attention = nrows sample_query /\ ncols attention = nrows sample_key /\
    nrows output = nrows sample_query /\ ncols output = ncols sample_value /\
    (forall i j, i < nrows sample_query -> j < nrows sample_key ->
       mentry attention i j = attn_weight sample_query sample_key (Some sample_mask) i j /\
       (0 < mentry attention i j)%R) /\
    (forall i, i < nrows sample_query -> 0 < nrows sample_key ->
       big_sum (nrows sample_key) (fun j => mentry attention i j) = 1%R) /\
    (forall i c, i < nrows sample_query -> c < ncols sample_value ->
       mentry output i c
       = big_sum (nrows sample_key)
           (fun j => (mentry attention i j * mentry sample_value j c)%R)).
Proof.
  apply (@attention_forward_spec sample_query sample_key sample_value (Some sample_mask));
    try reflexivity.
  simpl. lia.
Defined.




(** ** MultiHeadAttention *)

Lemma split_into_length {A : Type} (c k : nat) (l : list A) :
  length (split_into c k l) = c.
Proof. revert l. induction c; intros l; simpl; [reflexivity | now rewrite IHc]. Qed.

Lemma split_into_pieces {A : Type} (c k : nat) :
  forall l : list A, length l = c * k ->
    Forall (fun x => length x = k) (split_into c k l).
Proof.
  induction c as [| c IH]; intros l Hl; simpl; constructor.
  - rewrite length_firstn. simpl in Hl. lia.
  - apply IH. rewrite length_skipn. simpl in Hl. lia.
Qed.

(** Cutting a concatenation of pieces of one size gives the pieces back. *)
Lemma split_into_concat {A : Type} (k : nat) (ls : list (list A)) :
  Forall (fun x => length x = k) ls ->
  split_into (length ls) k (concat ls) = ls.
Proof.
  induction ls as [| a ls IH]; intros HF; [reflexivity |].
  inversion HF as [| ? ? Ha HF']; subst. cbn [length concat split_into].
  rewrite firstn_app, skipn_app, firstn_all, skipn_all, Nat.sub_diag.
  cbn [firstn skipn app]. rewrite app_nil_r. f_equal. now apply IH.
Qed.

Lemma concat_length_const {A : Type} (k : nat) (ls : list (list A)) :
  Forall (fun x => length x = k) ls -> length (concat ls) = length ls * k.
Proof.
  induction 1 as [| x ls Hx _ IH]; simpl; [reflexivity |].
  rewrite length_app, IH, Hx. reflexivity.
Qed.

Lemma flat_length x B L W :
  has_shape x B L W -> length (concat (concat (t3_items x))) = B * (L * W).
Proof.
  intros Hx. pose proof (has_shape_items Hx) as [Fx HB].
  rewrite (@concat_length_const _ W).
  - rewrite (@concat_length_const _ L).
    + rewrite HB. lia.
    + eapply Forall_impl; [| exact Fx]. intros it [Hl _]. exact Hl.
  - apply Forall_concat. eapply Forall_impl; [| exact Fx]. intros it [_ HF]. exact HF.
Qed.

Lemma view_infer_ok (numel c : nat) (sizes : list Z) :
  Forall (fun s => (0 <= s)%Z) sizes ->
  0 < Z.to_nat (fold_right Z.mul 1%Z sizes) ->
  numel = c * Z.to_nat (fold_right Z.mul 1%Z sizes) ->
  view_infer numel sizes = Ok c.
Proof.
  intros Hs Hpos Hn. unfold view_infer.
  assert (Hb : forallb (fun s => (0 <=? s)%Z) sizes = true).
  { apply forallb_forall. intros s Hin. rewrite Forall_forall in Hs.
    apply Z.leb_le. now apply Hs. }
  rewrite Hb. cbv zeta.
  destruct (Nat.ltb_spec 0 (Z.to_nat (fold_right Z.mul 1%Z sizes))); [| lia].
  rewrite Hn, Nat.Div0.mod_mul, Nat.eqb_refl. cbn [andb].
  rewrite Nat.div_mul by lia. reflexivity.
Qed.

Lemma wfMat_make d rows :
  Forall (fun r => length r = d) rows -> wfMat (mkMat d rows) = true.
Proof. intros H. now apply wfMat_iff. Qed.

Lemma nth_split_piece {A : Type} (c k i : nat) (l : list A) :
  length l = c * k -> i < c -> length (nth i (split_into c k l) []) = k.
Proof.
  intros Hl Hi. pose proof (split_into_pieces c k l Hl) as HF.
  rewrite Forall_forall in HF. apply HF. apply nth_In.
  now rewrite split_into_length.
Qed.

Lemma split_heads_shape x B L (H D : Z) :
  (0 < H)%Z -> (0 < D)%Z -> 0 < B ->
  has_shape x B L (Z.to_nat H * Z.to_nat D) ->
  exists a, MultiHeadAttention.split_heads B H D x = Ok a /\
            heads_ok a B (Z.to_nat H) L (Z.to_nat D).
Proof.
  intros HH HD HB Hx. unfold MultiHeadAttention.split_heads.
  pose proof (flat_length Hx) as Hflat.
  pose proof Hx as [_ [HBx [HLx HWx]]].
  assert (Hsz : Z.to_nat (fold_right Z.mul 1%Z [Z.of_nat B; H; D])
                = B * (Z.to_nat H * Z.to_nat D)).
  { cbn [fold_right]. rewrite Z.mul_1_r, !Z2Nat.inj_mul, Nat2Z.id by lia. reflexivity. }
  rewrite (@view_infer_ok _ L).
  - cbn [bind]. eexists. split; [reflexivity |].
    set (h := Z.to_nat H) in *. set (d := Z.to_nat D) in *.
    split; [now rewrite !length_map, split_into_length |].
    apply Forall_map. apply Forall_map.
    assert (Hex : Forall (fun ex : list R => length ex = L * (h * d))
                    (split_into B (L * (h * d)) (concat (concat (t3_items x))))).
    { apply split_into_pieces. rewrite Hflat. reflexivity. }
    eapply Forall_impl; [| exact Hex]. intros ex Hlen. cbv beta.
    split; [now rewrite length_map, length_seq |].
    apply Forall_map. apply Forall_forall. intros hd Hhd. apply in_seq in Hhd.
    pose proof (split_into_pieces L (h * d) ex Hlen) as Hpos.
    repeat split.
    + unfold nrows. cbn [mrows]. now rewrite !length_map, split_into_length.
    + apply wfMat_make. apply Forall_map. apply Forall_map.
      eapply Forall_impl; [| exact Hpos]. intros pos Hp. cbv beta.
      apply nth_split_piece; [assumption | lia].
  - repeat constructor; lia.
  - rewrite Hsz. nia.
  - rewrite Hsz. unfold t3_numel. rewrite HBx, HLx, HWx. lia.
Qed.

Lemma mapM_Forall2 {A B : Type} (f : A -> result B) (P : A -> B -> Prop) (l : list A) :
  Forall (fun x => exists y, f x = Ok y /\ P x y) l ->
  exists ys, mapM f l = Ok ys /\ Forall2 P l ys.
Proof.
  induction 1 as [| x l [y [Hy HP]] _ [ys [Hys HF]]]; simpl.
  - exists []. split; [reflexivity | constructor].
  - rewrite Hy. cbn [bind]. rewrite Hys. cbn [bind].
    exists (y :: ys). split; [reflexivity | now constructor].
Qed.

Lemma Forall2_length_eq {A B : Type} (P : A -> B -> Prop) l l' :
  Forall2 P l l' -> length l = length l'.
Proof. induction 1; simpl; congruence. Qed.

Lemma Forall2_Forall_r {A B : Type} (P : A -> B -> Prop) (Q : B -> Prop) l l' :
  Forall2 P l l' -> (forall x y, P x y -> Q y) -> Forall Q l'.
Proof. induction 1; intros HPQ; constructor; eauto. Qed.

Lemma mat_ok_map_seq (f : nat -> nat -> R) (n m : nat) :
  mat_ok (mkMat m (map (fun i => map (fun j => f i j) (seq 0 m)) (seq 0 n))) n m.
Proof.
  repeat split.
  - unfold nrows. cbn [mrows]. now rewrite length_map, length_seq.
  - apply wfMat_make. apply Forall_map. apply Forall_forall. intros i _.
    now rewrite length_map, length_seq.
Qed.

Lemma forward_shape q k v mask Lq Lk d :
  mat_ok q Lq d -> mat_ok k Lk d -> mat_ok v Lk d ->
  mask_fits mask Lq Lk = true ->
  exists oa, ScaledDotProductAttention.forward q k v mask = Ok oa /\
             mat_ok (fst oa) Lq d.
Proof.
  intros [Hq1 [Hq2 _]] [Hk1 [Hk2 Hk3]] [Hv1 [Hv2 _]] Hm.
  rewrite forward_explicit; try congruence.
  eexists. split; [reflexivity |]. cbn [fst].
  rewrite Hv2, Hq1. apply mat_ok_map_seq.
Qed.

Lemma in_combine3 {A : Type} (P Q R' : A -> Prop) (a b c : list A) :
  Forall P a -> Forall Q b -> Forall R' c ->
  forall x, In x (combine (combine a b) c) ->
  P (fst (fst x)) /\ Q (snd (fst x)) /\ R' (snd x).
Proof.
  intros Ha Hb Hc x Hin. destruct x as [[p q] r]. cbn [fst snd].
  rewrite Forall_forall in Ha, Hb, Hc.
  pose proof (in_combine_l _ _ _ _ Hin) as Hpq.
  pose proof (in_combine_r _ _ _ _ Hin) as Hr.
  pose proof (in_combine_l _ _ _ _ Hpq) as Hp.
  pose proof (in_combine_r _ _ _ _ Hpq) as Hq.
  auto.
Qed.

Lemma bcast2_same {A B : Type} (xs : list A) (ys : list B) :
  length xs = length ys -> bcast2 xs ys = Ok (combine xs ys).
Proof. intros H. unfold bcast2. now rewrite H, Nat.eqb_refl. Qed.

Lemma forward4_shape q k v mask B h Lq Lk d :
  heads_ok q B h Lq d -> heads_ok k B h Lk d -> heads_ok v B h Lk d ->
  mask_fits mask Lq Lk = true ->
  exists oa, ScaledDotProductAttention.forward4 q k v mask = Ok oa /\
             heads_ok (map (map fst) oa) B h Lq d.
Proof.
  intros [Hq Fq] [Hk Fk] [Hv Fv] Hm.
  unfold ScaledDotProductAttention.forward4.
  rewrite bcast2_same by congruence. cbn [bind].
  rewrite bcast2_same by (rewrite length_combine; lia). cbn [bind].
  destruct (@mapM_Forall2 _ _
     (fun e => mapM (fun hh => ScaledDotProductAttention.forward
                                 (fst (fst hh)) (snd (fst hh)) (snd hh) mask)
                    (combine (combine (fst (fst e)) (snd (fst e))) (snd e)))
     (fun _ ex => length ex = h /\ Forall (fun oa => mat_ok (fst oa) Lq d) ex)
     (combine (combine q k) v)) as [oa [Hoa HF]].
  - apply Forall_forall. intros e He.
    destruct (in_combine3 Fq Fk Fv _ He) as [[Hqh Hqm] [[Hkh Hkm] [Hvh Hvm]]].
    destruct (@mapM_Forall2 _ _
       (fun hh => ScaledDotProductAttention.forward
                    (fst (fst hh)) (snd (fst hh)) (snd hh) mask)
       (fun _ oa => mat_ok (fst oa) Lq d)
       (combine (combine (fst (fst e)) (snd (fst e))) (snd e))) as [ex [Hex HFex]].
    + apply Forall_forall. intros hh Hhh.
      destruct (in_combine3 Hqm Hkm Hvm _ Hhh) as [Hq' [Hk' Hv']].
      eapply forward_shape; eauto.
    + exists ex. split; [exact Hex |]. split.
      * rewrite <- (Forall2_length_eq HFex), !length_combine. lia.
      * eapply Forall2_Forall_r; [exact HFex |]. auto.
  - exists oa. split; [exact Hoa |]. split.
    + rewrite length_map, <- (Forall2_length_eq HF), !length_combine. lia.
    + apply Forall_map. eapply Forall2_Forall_r; [exact HF |].
      intros _ ex [Hl HFm]. split; [now rewrite length_map |].
      apply Forall_map. exact HFm.
Qed.

Lemma linear_ok_shape l i o x B L :
  linear_ok l i o = true -> has_shape x B L i ->
  exists y, Linear_forward l x = Ok y /\ has_shape y B L o.
Proof.
  unfold linear_ok. rewrite !andb_true_iff, !Nat.eqb_eq. intros [[Hwf Hi] Ho] Hx.
  subst i o. now apply Linear_forward_shape.
Qed.

Lemma norm_ok_shape n E x B L :
  norm_ok n E = true -> has_shape x B L E ->
  exists y, LayerNorm_forward n x = Ok y /\ has_shape y B L E.
Proof.
  unfold norm_ok. rewrite andb_true_iff, Nat.eqb_eq. intros [Hwf HE] Hx.
  subst E. now apply LayerNorm_forward_shape.
Qed.

Lemma seq_len4_ok a B h L d :
  heads_ok a B h L d -> 0 < B -> 0 < h -> MultiHeadAttention.seq_len4 a = L.
Proof.
  intros [Ha HF] HB Hh. destruct a as [| ex a']; simpl in Ha; [lia |].
  inversion HF as [| ? ? Hhd _]; subst. destruct Hhd as [Hex Hm].
  destruct ex as [| m ex']; simpl in Hex; [lia |].
  inversion Hm as [| ? ? Hm0 _]; subst. destruct Hm0 as [Hn _]. exact Hn.
Qed.

Lemma merge_heads_shape a B L (H D : Z) :
  (0 < H)%Z -> (0 < D)%Z -> 0 < B ->
  heads_ok a B (Z.to_nat H) L (Z.to_nat D) ->
  exists y, MultiHeadAttention.merge_heads B H D a = Ok y /\
            has_shape y B L (Z.to_nat H * Z.to_nat D).
Proof.
  intros HH HD HB Ha. unfold MultiHeadAttention.merge_heads.
  rewrite (seq_len4_ok Ha) by lia.
  destruct Ha as [Hlen HF].
  assert (Hw : Z.to_nat (H * D) = Z.to_nat H * Z.to_nat D)
    by (rewrite Z2Nat.inj_mul by lia; reflexivity).
  set (h := Z.to_nat H) in *. set (d := Z.to_nat D) in *.
  assert (Hsz : Z.to_nat (fold_right Z.mul 1%Z [Z.of_nat B; (H * D)%Z]) = B * (h * d)).
  { cbn [fold_right]. rewrite Z.mul_1_r, Z2Nat.inj_mul, Nat2Z.id, Hw by lia. reflexivity. }
  rewrite (@view_infer_ok _ L).
  - cbn [bind]. rewrite Hw. eexists. split; [reflexivity |].
    set (rows := map (fun ex : list Mat =>
                   map (fun i => concat (map (fun m => nth i (mrows m) []) ex)) (seq 0 L)) a).
    assert (Hrows : Forall (rows_ok L (h * d)) rows).
    { unfold rows. apply Forall_map. eapply Forall_impl; [| exact HF].
      intros ex [Hex Hm]. split; [now rewrite length_map, length_seq |].
      apply Forall_map. apply Forall_forall. intros i Hi. apply in_seq in Hi.
      rewrite (@concat_length_const _ d).
      - now rewrite length_map, Hex.
      - apply Forall_map. eapply Forall_impl; [| exact Hm].
        intros m [Hn [Hc Hwf]]. cbv beta. apply wfMat_iff in Hwf.
        rewrite Forall_forall in Hwf. rewrite <- Hc. apply Hwf.
        apply nth_In. unfold nrows in Hn. lia. }
    assert (Hflat : length (concat (concat rows)) = B * (L * (h * d))).
    { replace B with (length rows) by (unfold rows; now rewrite length_map).
      apply (@flat_length (mkT3 L (h * d) rows)). now apply has_shape_intro. }
    apply has_shape_make; [| now rewrite length_map, split_into_length].
    apply Forall_map.
    assert (Hex : Forall (fun ex : list R => length ex = L * (h * d))
                    (split_into B (L * (h * d)) (concat (concat rows)))).
    { apply split_into_pieces. rewrite Hflat. reflexivity. }
    eapply Forall_impl; [| exact Hex]. intros ex Hl.
    split; [apply split_into_length | now apply split_into_pieces].
  - repeat constructor; lia.
  - rewrite Hsz. unfold h, d. nia.
  - rewrite Hsz, Hlen. lia.
Qed.

Lemma wfMHA_facts E a :
  wfMHA E a = true ->
  (0 < MultiHeadAttention.num_heads a)%Z /\
  (0 < MultiHeadAttention.head_dim a)%Z /\
  Z.to_nat (MultiHeadAttention.num_heads a)
    * Z.to_nat (MultiHeadAttention.head_dim a) = E /\
  linear_ok (MultiHeadAttention.query_linear a) E E = true /\
  linear_ok (MultiHeadAttention.key_linear a) E E = true /\
  linear_ok (MultiHeadAttention.value_linear a) E E = true /\
  linear_ok (MultiHeadAttention.fc_out a) E E = true.
Proof.
  unfold wfMHA. rewrite !andb_true_iff, !Z.ltb_lt, Nat.eqb_eq. tauto.
Qed.

Arguments wfMHA_facts [E a] _.
Arguments linear_ok_shape [l i o x B L] _ _.
Arguments norm_ok_shape [n E x B L] _ _.
Arguments forward4_shape [q k v mask B h Lq Lk d] _ _ _ _.
Lemma MultiHeadAttention_forward_shape E a query key value mask B Lq Lk :
  wfMHA E a = true -> 0 < B ->
  has_shape query B Lq E -> has_shape key B Lk E -> has_shape value B Lk E ->
  mask_fits mask Lq Lk = true ->
  exists y, MultiHeadAttention.forward a query key value mask = Ok y /\
            has_shape y B Lq E.
Proof.
  intros Ha HB Hq Hk Hv Hm.
  destruct (wfMHA_facts Ha) as [HH [HD [HE [Lq' [Lk' [Lv' Lo']]]]]].
  unfold MultiHeadAttention.forward.
  assert (Hbq : t3_batch query = B) by (destruct Hq as [_ [? _]]; assumption).
  rewrite Hbq.
  destruct (linear_ok_shape Lq' Hq) as [q1 [-> Hq1]]. cbn [bind].
  destruct (linear_ok_shape Lk' Hk) as [k1 [-> Hk1]]. cbn [bind].
  destruct (linear_ok_shape Lv' Hv) as [v1 [-> Hv1]]. cbn [bind].
  rewrite <- HE in Hq1, Hk1, Hv1.
  destruct (split_heads_shape HH HD HB Hq1) as [q4 [-> Hq4]]. cbn [bind].
  destruct (split_heads_shape HH HD HB Hk1) as [k4 [-> Hk4]]. cbn [bind].
  destruct (split_heads_shape HH HD HB Hv1) as [v4 [-> Hv4]]. cbn [bind].
  destruct (forward4_shape Hq4 Hk4 Hv4 Hm) as [oa [-> Hoa]]. cbn [bind].
  destruct (merge_heads_shape HH HD HB Hoa) as [y [-> Hy]]. cbn [bind].
  rewrite HE in Hy. exact (linear_ok_shape Lo' Hy).
Qed.

Arguments MultiHeadAttention_forward_shape [E a query key value mask B Lq Lk] _ _ _ _ _ _.

Lemma FeedForward_forward_shape E f m x B L :
  wfFeedForward E f = true -> has_shape x B L E ->
  exists y, FeedForward.forward f m x = Ok y /\ has_shape y B L E.
Proof.
  unfold wfFeedForward. rewrite andb_true_iff. intros [H1 H2] Hx.
  unfold FeedForward.forward.
  destruct (linear_ok_shape H1 Hx) as [h [-> Hh]]. cbn [bind].
  apply (linear_ok_shape H2). apply dropout_shape. now apply t3_map_shape.
Qed.

Arguments FeedForward_forward_shape [E f] m [x B L] _ _.

Lemma TransformerBlock_forward_shape E b m query key value mask B Lq Lk :
  wfBlock E b = true -> 0 < B ->
  has_shape query B Lq E -> has_shape key B Lk E -> has_shape value B Lk E ->
  mask_fits mask Lq Lk = true ->
  exists y, TransformerBlock.forward b m query key value mask = Ok y /\
            has_shape y B Lq E.
Proof.
  unfold wfBlock. rewrite !andb_true_iff. intros [[[Ha Hn1] Hn2] Hf] HB Hq Hk Hv Hm.
  unfold TransformerBlock.forward.
  destruct (MultiHeadAttention_forward_shape Ha HB Hq Hk Hv Hm) as [a [-> Hao]].
  cbn [bind].
  destruct (t3_add_same Hq (dropout_shape (TransformerBlock.dropout_p b) m 0 Hao))
    as [s [-> Hs]]. cbn [bind].
  destruct (norm_ok_shape Hn1 Hs) as [x [-> Hx]]. cbn [bind].
  destruct (FeedForward_forward_shape m Hf Hx) as [ff [-> Hff]]. cbn [bind].
  destruct (t3_add_same Hx (dropout_shape (TransformerBlock.dropout_p b) m 2 Hff))
    as [s2 [-> Hs2]]. cbn [bind].
  exact (norm_ok_shape Hn2 Hs2).
Qed.

Arguments TransformerBlock_forward_shape [E b] m [query key value mask B Lq Lk] _ _ _ _ _ _.

Lemma encoder_loop_shape E m mask B L :
  0 < B -> mask_fits mask L L = true ->
  forall layers k src,
    forallb (wfBlock E) layers = true -> has_shape src B L E ->
    exists y, Transformer.encoder_loop m k layers src mask = Ok y /\ has_shape y B L E.
Proof.
  intros HB Hm. induction layers as [| layer rest IH]; intros k src Hl Hs; simpl.
  - now exists src.
  - simpl in Hl. apply andb_true_iff in Hl. destruct Hl as [Hb Hr].
    destruct (TransformerBlock_forward_shape (sub_mode k m) Hb HB Hs Hs Hs Hm)
      as [y [-> Hy]]. cbn [bind]. now apply IH.
Qed.

Lemma decoder_loop_shape E m mask B T S (src : T3) :
  0 < B -> mask_fits mask T S = true -> has_shape src B S E ->
  forall layers k tgt,
    forallb (wfBlock E) layers = true -> has_shape tgt B T E ->
    exists y, Transformer.decoder_loop m k layers tgt src mask = Ok y /\ has_shape y B T E.
Proof.
  intros HB Hm Hsrc. induction layers as [| layer rest IH]; intros k tgt Hl Ht; simpl.
  - now exists tgt.
  - simpl in Hl. apply andb_true_iff in Hl. destruct Hl as [Hb Hr].
    destruct (TransformerBlock_forward_shape (sub_mode k m) Hb HB Ht Hsrc Hsrc Hm)
      as [y [-> Hy]]. cbn [bind]. now apply IH.
Qed.

Arguments encoder_loop_shape [E] m [mask B L] _ _ layers k [src] _ _.
Arguments decoder_loop_shape [E] m [mask B T S src] _ _ _ layers k [tgt] _ _.

Lemma nn_Linear_ok draw (i o : Z) :
  (0 <= i)%Z -> (0 <= o)%Z ->
  nn_Linear draw i o
  = Ok (mkLinear (Z.to_nat i) (Z.to_nat o)
          (fst (draw (Z.to_nat i) (Z.to_nat o))) (snd (draw (Z.to_nat i) (Z.to_nat o)))).
Proof.
  intros Hi Ho. unfold nn_Linear.
  destruct (Z.ltb_spec i 0); [lia |]. destruct (Z.ltb_spec o 0); [lia |]. reflexivity.
Qed.

Lemma drawn_linear_ok (draw : nat -> nat -> list vec * vec) (i o : nat) :
  (length (fst (draw i o)) = o /\
   Forall (fun r => length r = i) (fst (draw i o)) /\
   length (snd (draw i o)) = o) ->
  linear_ok (mkLinear i o (fst (draw i o)) (snd (draw i o))) i o = true.
Proof.
  intros [Hw [Hr Hb]]. unfold linear_ok. cbn [in_features out_features].
  rewrite !Nat.eqb_refl, !andb_true_r. apply wfLinear_iff. auto.
Qed.

Lemma head_sizes (E H : Z) :
  (0 < H)%Z -> (0 < E)%Z -> (E mod H = 0)%Z ->
  (0 < E / H)%Z /\ Z.to_nat H * Z.to_nat (E / H) = Z.to_nat E.
Proof.
  intros HH HE Hmod.
  assert (Hmul : (H * (E / H) = E)%Z).
  { pose proof (Z.div_mod E H ltac:(lia)). lia. }
  assert (HD : (0 < E / H)%Z) by nia.
  split; [assumption |]. rewrite <- Z2Nat.inj_mul by lia. now rewrite Hmul.
Qed.

(** C6. For a non-zero [num_heads], [__init__] raises the assertion error
    when [embed_size % num_heads != 0]; when the remainder is zero (and
    [embed_size] is a valid, non-negative size) it returns a module with
    [head_dim = embed_size // num_heads] and
    [num_heads * head_dim = embed_size], and the forward pass of that
    module then succeeds on every batch of well-shaped inputs: no
    divisibility failure is left for forward time. *)
Theorem MultiHeadAttention_init_divisibility :
  forall (draw : nat -> nat -> nat -> list vec * vec) (embed_size num_heads : Z),
    (num_heads <> 0)%Z ->
    ((embed_size mod num_heads <> 0)%Z ->
       MultiHeadAttention.init draw embed_size num_heads = Raise AssertionError) /\
    ((embed_size mod num_heads = 0)%Z -> (0 <= embed_size)%Z ->
       exists m,
         MultiHeadAttention.init draw embed_size num_heads = Ok m /\
         MultiHeadAttention.num_heads m = num_heads /\
         MultiHeadAttention.head_dim m = (embed_size / num_heads)%Z /\
         (num_heads * MultiHeadAttention.head_dim m = embed_size)%Z /\
         ((0 < num_heads)%Z -> (0 < embed_size)%Z -> draws_ok draw ->
            forall query key value mask B Lq Lk,
              0 < B ->
              has_shape query B Lq (Z.to_nat embed_size) ->
              has_shape key B Lk (Z.to_nat embed_size) ->
              has_shape value B Lk (Z.to_nat embed_size) ->
              mask_fits mask Lq Lk = true ->
              exists y, MultiHeadAttention.forward m query key value mask = Ok y /\
                        has_shape y B Lq (Z.to_nat embed_size))).
Proof.
  intros draw E H HH0. split.
  - intros Hmod. unfold MultiHeadAttention.init.
    destruct (Z.eqb_spec H 0); [contradiction |].
    destruct (Z.eqb_spec (E mod H) 0); [contradiction | reflexivity].
  - intros Hmod HE. unfold MultiHeadAttention.init.
    destruct (Z.eqb_spec H 0); [contradiction |].
    destruct (Z.eqb_spec (E mod H) 0); [| contradiction]. cbn [negb].
    rewrite !nn_Linear_ok by assumption. cbn [bind].
    eexists. split; [reflexivity |]. cbn [MultiHeadAttention.num_heads MultiHeadAttention.head_dim].
    split; [reflexivity | split; [reflexivity | split]].
    + pose proof (Z.div_mod E H ltac:(lia)). lia.
    + intros HHpos HEpos Hdraw query key value mask B Lq Lk HB Hq Hk Hv Hm.
      destruct (head_sizes HHpos HEpos Hmod) as [HD Hsz].
      apply MultiHeadAttention_forward_shape with (Lk := Lk); auto.
      unfold wfMHA.
      cbn [MultiHeadAttention.num_heads MultiHeadAttention.head_dim
           MultiHeadAttention.query_linear MultiHeadAttention.key_linear
           MultiHeadAttention.value_linear MultiHeadAttention.fc_out].
      rewrite !drawn_linear_ok by apply Hdraw.
      rewrite Hsz, Nat.eqb_refl.
      destruct (Z.ltb_spec 0 H); [| lia]. destruct (Z.ltb_spec 0 (E / H)); [| lia].
      reflexivity.
Qed.

Lemma zero_draw_ok : draws_ok zero_draw.
Proof.
  intros k i o. unfold zero_draw. cbn [fst snd]. rewrite !repeat_length.
  repeat split. apply Forall_forall. intros r Hr. apply repeat_spec in Hr. subst.
  apply repeat_length.
Qed.

Lemma MultiHeadAttention_init_divisibility_witness :
  ((8 mod 2 <> 0)%Z ->
     MultiHeadAttention.init zero_draw 8 2 = Raise AssertionError) /\
  ((8 mod 2 = 0)%Z -> (0 <= 8)%Z ->
     exists m,
       MultiHeadAttention.init zero_draw 8 2 = Ok m /\
       MultiHeadAttention.num_heads m = 2%Z /\
       MultiHeadAttention.head_dim m = (8 / 2)%Z /\
       (2 * MultiHeadAttention.head_dim m = 8)%Z /\
       ((0 < 2)%Z -> (0 < 8)%Z -> draws_ok zero_draw ->
          forall query key value mask B Lq Lk,
            0 < B ->
            has_shape query B Lq (Z.to_nat 8) ->
            has_shape key B Lk (Z.to_nat 8) ->
            has_shape value B Lk (Z.to_nat 8) ->
            mask_fits mask Lq Lk = true ->
            exists y, MultiHeadAttention.forward m query key value mask = Ok y /\
                      has_shape y B Lq (Z.to_nat 8))).
Proof.
  apply (@MultiHeadAttention_init_divisibility zero_draw 8 2). lia.
Defined.

Example MultiHeadAttention_init_indivisible :
  MultiHeadAttention.init zero_draw 7 2 = Raise AssertionError.
Proof. reflexivity. Qed.

Example MultiHeadAttention_init_no_heads :
  MultiHeadAttention.init zero_draw 8 0 = Raise ZeroDivisionError.
Proof. reflexivity. Qed.

(** ** PositionalEncoding *)


Lemma nth_firstn_lt {A : Type} (d : A) : forall (n i : nat) (l : list A),
  i < n -> nth i (firstn n l) d = nth i l d.
Proof.
  induction n as [| n IH]; intros i l Hi; [lia |].
  destruct l as [| a l]; [destruct i; reflexivity |].
  destruct i as [| i]; [reflexivity |]. simpl. apply IH. lia.
Qed.

Lemma nth_vadd (u v : vec) (d : nat) :
  d < length u -> d < length v ->
  nth d (vadd u v) 0%R = (nth d u 0 + nth d v 0)%R.
Proof.
  revert v d. induction u as [| a u IH]; intros v d Hu Hv; simpl in Hu; [lia |].
  destruct v as [| b v]; simpl in Hv; [lia |].
  destruct d as [| d]; [reflexivity |]. simpl. apply IH; lia.
Qed.

Lemma nth_add_rows (a b : list vec) (p : nat) :
  p < length a -> p < length b ->
  nth p (add_rows a b) [] = vadd (nth p a []) (nth p b []).
Proof.
  revert b p. induction a as [| x a IH]; intros b p Ha Hb; simpl in Ha; [lia |].
  destruct b as [| y b]; simpl in Hb; [lia |].
  destruct p as [| p]; [reflexivity |]. simpl. apply IH; lia.
Qed.

Lemma rows_ok_nth L W it p :
  rows_ok L W it -> p < L -> length (nth p it []) = W.
Proof.
  intros [Hl HF] Hp. rewrite Forall_forall in HF. apply HF. apply nth_In. lia.
Qed.

Lemma table_rows_ok E M : rows_ok M E (map (built_row E) (seq 0 M)).
Proof.
  split; [now rewrite length_map, length_seq |].
  apply Forall_map. apply Forall_forall. intros p _. apply built_row_length.
Qed.

Lemma table_entry E M p d :
  Nat.even E = true -> p < M -> d < E ->
  nth d (nth p (map (built_row E) (seq 0 M)) []) 0%R = spec_pe_entry E p d.
Proof.
  intros He Hp Hd.
  rewrite (nth_map_lt (built_row E) (seq 0 M) p [] 0) by now rewrite length_seq.
  rewrite seq_nth by assumption. now apply built_row_entry.
Qed.

(** C7. For an even [embed_size], [__init__] returns the table for the
    positions [0 .. max_len - 1] whose entry at position [p] and dimension
    [2i] is [sin(p / 10000^(2i/embed_size))] and at dimension [2i+1] is
    [cos(p / 10000^(2i/embed_size))]: a function of position and
    dimension only.  [forward] adds to an input of [L <= max_len]
    positions the first [L] rows of the table, entry by entry, and two
    applications to the same input give the same result. *)
Theorem positional_encoding_table :
  forall E M : nat,
    Nat.even E = true ->
    exists self,
      PositionalEncoding.init (Z.of_nat E) (Z.of_nat M) = Ok self /\
      PositionalEncoding.max_len self = M /\ PositionalEncoding.embed_size self = E /\
      rows_ok M E (PositionalEncoding.pe self) /\
      (forall p d, p < M -> d < E ->
         nth d (nth p (PositionalEncoding.pe self) []) 0%R = spec_pe_entry E p d) /\
      (forall x B L, has_shape x B L E -> L <= M ->
         exists y, PositionalEncoding.forward self x = Ok y /\ has_shape y B L E /\
           forall b p d, b < B -> p < L -> d < E ->
             t3_entry y b p d = (t3_entry x b p d + spec_pe_entry E p d)%R) /\
      (forall x y1 y2, PositionalEncoding.forward self x = Ok y1 -> PositionalEncoding.forward self x = Ok y2 -> y1 = y2).
Proof.
  intros E M He. rewrite init_rows by assumption.
  eexists. split; [reflexivity |]. cbn [PositionalEncoding.max_len PositionalEncoding.embed_size PositionalEncoding.pe].
  split; [reflexivity | split; [reflexivity |]].
  split; [apply table_rows_ok |].
  split; [intros p d Hp Hd; now apply table_entry |].
  split.
  - intros x B L Hx HL.
    destruct (@PositionalEncoding_forward_shape
                (PositionalEncoding.mk M E (map (built_row E) (seq 0 M))) x B L) as [Hf Hs]; auto.
    { cbn [PositionalEncoding.max_len PositionalEncoding.embed_size PositionalEncoding.pe]. apply table_rows_ok. }
    cbn [PositionalEncoding.max_len PositionalEncoding.embed_size PositionalEncoding.pe] in Hf, Hs. rewrite Hf.
    eexists. split; [reflexivity |]. split; [exact Hs |].
    intros b p d Hb Hp Hd. unfold t3_entry. cbn [t3_items].
    pose proof (has_shape_items Hx) as [Fx HB].
    rewrite (nth_map_lt (fun it => add_rows it (firstn L (map (built_row E) (seq 0 M))))
               (t3_items x) b [] []) by lia.
    assert (Hit : rows_ok L E (nth b (t3_items x) [])).
    { rewrite Forall_forall in Fx. apply Fx. apply nth_In. lia. }
    assert (Hfn : rows_ok L E (firstn L (map (built_row E) (seq 0 M)))).
    { eapply rows_ok_firstn; [apply table_rows_ok | assumption]. }
    assert (Hl1 : p < length (nth b (t3_items x) [])) by (destruct Hit as [Hl1 _]; lia).
    assert (Hl2 : p < length (firstn L (map (built_row E) (seq 0 M))))
      by (destruct Hfn as [Hl2 _]; lia).
    rewrite nth_add_rows by assumption.
    rewrite nth_vadd.
    + rewrite nth_firstn_lt by assumption. rewrite table_entry by (auto; lia). reflexivity.
    + now rewrite (rows_ok_nth Hit).
    + now rewrite (rows_ok_nth Hfn).
  - intros x y1 y2 H1 H2. rewrite H1 in H2. now inversion H2.
Qed.

Lemma positional_encoding_table_witness :
  exists self,
    PositionalEncoding.init (Z.of_nat 4) (Z.of_nat 3) = Ok self /\
    PositionalEncoding.max_len self = 3 /\ PositionalEncoding.embed_size self = 4 /\
    rows_ok 3 4 (PositionalEncoding.pe self) /\
    (forall p d, p < 3 -> d < 4 ->
       nth d (nth p (PositionalEncoding.pe self) []) 0%R = spec_pe_entry 4 p d) /\
    (forall x B L, has_shape x B L 4 -> L <= 3 ->
       exists y, PositionalEncoding.forward self x = Ok y /\ has_shape y B L 4 /\
         forall b p d, b < B -> p < L -> d < 4 ->
           t3_entry y b p d = (t3_entry x b p d + spec_pe_entry 4 p d)%R) /\
    (forall x y1 y2, PositionalEncoding.forward self x = Ok y1 -> PositionalEncoding.forward self x = Ok y2 -> y1 = y2).
Proof.
  apply (@positional_encoding_table 4 3). reflexivity.
Defined.

(** An odd [PositionalEncoding.embed_size] above 1 is refused at construction: the cosine
    columns do not fit the odd-indexed slice. *)
Example positional_encoding_odd_size :
  PositionalEncoding.init 3 5 = Raise RuntimeError.
Proof. reflexivity. Qed.

(** ** Transformer *)

Lemma encoder_loop_run m mask : forall layers k src y,
  Transformer.encoder_loop m k layers src mask = Ok y ->
  stack_run (fun k layer x => TransformerBlock.forward layer (sub_mode k m) x x x mask)
            k layers src y.
Proof.
  induction layers as [| layer rest IH]; intros k src y H; simpl in H.
  - inversion H; subst. constructor.
  - destruct (TransformerBlock.forward layer (sub_mode k m) src src src mask)
      as [x |] eqn:Hx; simpl in H; [| discriminate].
    econstructor; [exact Hx | now apply IH].
Qed.

Lemma decoder_loop_run m mask (src : T3) : forall layers k tgt y,
  Transformer.decoder_loop m k layers tgt src mask = Ok y ->
  stack_run (fun k layer t => TransformerBlock.forward layer (sub_mode k m) t src src mask)
            k layers tgt y.
Proof.
  induction layers as [| layer rest IH]; intros k tgt y H; simpl in H.
  - inversion H; subst. constructor.
  - destruct (TransformerBlock.forward layer (sub_mode k m) tgt src src mask)
      as [x |] eqn:Hx; simpl in H; [| discriminate].
    econstructor; [exact Hx | now apply IH].
Qed.

Lemma forward_ok_contract m mode src tgt sm tm out :
  Transformer.forward m mode src tgt sm tm = Ok out ->
  forward_contract m mode src tgt sm tm out.
Proof.
  unfold Transformer.forward, forward_contract. intros H.
  destruct (Embedding_forward (Transformer.src_embedding m) src) as [se |] eqn:H1;
    simpl in H; [| discriminate].
  destruct (PositionalEncoding.forward (Transformer.positional_encoding m) se)
    as [s0 |] eqn:H2; simpl in H; [| discriminate].
  destruct (Embedding_forward (Transformer.tgt_embedding m) tgt) as [te |] eqn:H3;
    simpl in H; [| discriminate].
  destruct (PositionalEncoding.forward (Transformer.positional_encoding m) te)
    as [t0 |] eqn:H4; simpl in H; [| discriminate].
  destruct (Transformer.encoder_loop mode 0 (Transformer.encoder_layers m) s0 sm)
    as [enc |] eqn:H5; simpl in H; [| discriminate].
  destruct (Transformer.decoder_loop mode (length (Transformer.encoder_layers m))
              (Transformer.decoder_layers m) t0 enc tm)
    as [dec |] eqn:H6; simpl in H; [| discriminate].
  exists se, s0, te, t0, enc, dec.
  repeat split; auto using encoder_loop_run, decoder_loop_run.
  unfold Linear_forward in H.
  destruct (t3_width dec =? in_features (Transformer.fc_out m)); [| discriminate].
  inversion H; subst. reflexivity.
Qed.

Lemma wfTransformer_facts m :
  wfTransformer m = true ->
  let E := embedding_dim (Transformer.src_embedding m) in
  wfEmbedding (Transformer.src_embedding m) = true /\
  wfEmbedding (Transformer.tgt_embedding m) = true /\
  embedding_dim (Transformer.tgt_embedding m) = E /\
  PositionalEncoding.embed_size (Transformer.positional_encoding m) = E /\
  wfItem (PositionalEncoding.max_len (Transformer.positional_encoding m)) E
         (PositionalEncoding.pe (Transformer.positional_encoding m)) = true /\
  forallb (wfBlock E) (Transformer.encoder_layers m) = true /\
  forallb (wfBlock E) (Transformer.decoder_layers m) = true /\
  linear_ok (Transformer.fc_out m) E (out_features (Transformer.fc_out m)) = true.
Proof.
  unfold wfTransformer, wfPositionalEncoding. cbv zeta.
  rewrite !andb_true_iff, !Nat.eqb_eq. tauto.
Qed.

Lemma Transformer_forward_shape m mode src tgt sm tm B S T :
  wfTransformer m = true ->
  wfZMat src = true -> wfZMat tgt = true ->
  ids_in_range (num_embeddings (Transformer.src_embedding m)) src = true ->
  ids_in_range (num_embeddings (Transformer.tgt_embedding m)) tgt = true ->
  znrows src = B -> znrows tgt = B -> 0 < B ->
  zcols src = S -> zcols tgt = T ->
  S <= PositionalEncoding.max_len (Transformer.positional_encoding m) ->
  T <= PositionalEncoding.max_len (Transformer.positional_encoding m) ->
  mask_fits sm S S = true -> mask_fits tm T S = true ->
  exists out, Transformer.forward m mode src tgt sm tm = Ok out /\
              has_shape out B T (out_features (Transformer.fc_out m)).
Proof.
  intros Hm Hsrc Htgt Hrs Hrt HBs HBt HB HS HT HSm HTm Hsm Htm.
  destruct (wfTransformer_facts m Hm) as [He1 [He2 [HE2 [HEp [Hpe [Henc [Hdec Hfc]]]]]]].
  cbv zeta in *. set (E := embedding_dim (Transformer.src_embedding m)) in *.
  unfold Transformer.forward.
  destruct (Embedding_forward_shape _ _ He1 Hsrc Hrs) as [se [-> Hse]]. cbn [bind].
  rewrite HBs, HS in Hse. fold E in Hse.
  assert (Hpe' : rows_ok (PositionalEncoding.max_len (Transformer.positional_encoding m))
                         (PositionalEncoding.embed_size (Transformer.positional_encoding m))
                         (PositionalEncoding.pe (Transformer.positional_encoding m))).
  { rewrite HEp. now apply wfItem_iff. }
  rewrite <- HEp in Hse.
  destruct (PositionalEncoding_forward_shape Hpe' Hse HSm) as [-> Hs0]. cbn [bind].
  destruct (Embedding_forward_shape _ _ He2 Htgt Hrt) as [te [-> Hte]]. cbn [bind].
  rewrite HBt, HT, HE2, <- HEp in Hte.
  destruct (PositionalEncoding_forward_shape Hpe' Hte HTm) as [-> Ht0]. cbn [bind].
  rewrite HEp in Hs0, Ht0 |- *.
  destruct (encoder_loop_shape mode HB Hsm (Transformer.encoder_layers m) 0 Henc Hs0)
    as [enc [-> Henc']]. cbn [bind].
  destruct (decoder_loop_shape mode HB Htm Henc' (Transformer.decoder_layers m)
              (length (Transformer.encoder_layers m)) Hdec Ht0)
    as [dec [-> Hdec']]. cbn [bind].
  exact (linear_ok_shape Hfc Hdec').
Qed.


(** ** train_model *)

Lemma Linear_forward_cases l x :
  (exists y, Linear_forward l x = Ok y) \/ Linear_forward l x = Raise RuntimeError.
Proof.
  unfold Linear_forward. destruct (t3_width x =? in_features l); eauto.
Qed.

Lemma view_infer_zero_batch numel rest :
  view_infer numel (Z.of_nat 0 :: rest) = Raise RuntimeError.
Proof.
  unfold view_infer. destruct (forallb _ _); [| reflexivity].
  cbn [fold_right Z.of_nat]. rewrite Z.mul_0_l. reflexivity.
Qed.

Lemma split_heads_zero_batch H D x :
  MultiHeadAttention.split_heads 0 H D x = Raise RuntimeError.
Proof.
  unfold MultiHeadAttention.split_heads. now rewrite view_infer_zero_batch.
Qed.

(** With a batch of size zero the first view of the attention raises. *)
Lemma MultiHeadAttention_forward_zero_batch a query key value mask :
  t3_batch query = 0 ->
  MultiHeadAttention.forward a query key value mask = Raise RuntimeError.
Proof.
  intros HB. unfold MultiHeadAttention.forward. rewrite HB.
  destruct (Linear_forward_cases (MultiHeadAttention.query_linear a) query)
    as [[q ->] | ->]; [| reflexivity]. cbn [bind].
  destruct (Linear_forward_cases (MultiHeadAttention.key_linear a) key)
    as [[k ->] | ->]; [| reflexivity]. cbn [bind].
  destruct (Linear_forward_cases (MultiHeadAttention.value_linear a) value)
    as [[v ->] | ->]; [| reflexivity]. cbn [bind].
  now rewrite split_heads_zero_batch.
Qed.

Lemma TransformerBlock_forward_zero_batch b m query key value mask :
  t3_batch query = 0 ->
  TransformerBlock.forward b m query key value mask = Raise RuntimeError.
Proof.
  intros HB. unfold TransformerBlock.forward.
  now rewrite MultiHeadAttention_forward_zero_batch.
Qed.

Lemma encoder_loop_zero_batch m k layers src mask :
  layers <> [] -> t3_batch src = 0 ->
  Transformer.encoder_loop m k layers src mask = Raise RuntimeError.
Proof.
  intros Hl HB. destruct layers as [| layer rest]; [contradiction |]. simpl.
  now rewrite TransformerBlock_forward_zero_batch.
Qed.

Lemma Embedding_forward_empty e ids :
  zrows ids = [] ->
  Embedding_forward e ids = Ok (mkT3 (zcols ids) (embedding_dim e) []).
Proof. intros H. unfold Embedding_forward. rewrite H. reflexivity. Qed.

Lemma t3_add_empty L W y :
  (exists z, t3_add (mkT3 L W []) y = Ok z /\ t3_items z = [])
  \/ t3_add (mkT3 L W []) y = Raise RuntimeError.
Proof.
  unfold t3_add. cbn [t3_len t3_width t3_items].
  destruct (bdim L (t3_len y)); [| now right].
  destruct (bdim W (t3_width y)); [| now right].
  unfold bcast2. cbn [length].
  destruct (t3_items y) as [| a [| b r]]; cbn; eauto.
Qed.

Lemma PositionalEncoding_forward_empty pe L W :
  (exists z, PositionalEncoding.forward pe (mkT3 L W []) = Ok z /\ t3_items z = [])
  \/ PositionalEncoding.forward pe (mkT3 L W []) = Raise RuntimeError.
Proof. unfold PositionalEncoding.forward. apply t3_add_empty. Qed.

(** The forward pass of a model with at least one encoder block raises on
    a batch without examples. *)
Lemma Transformer_forward_empty_batch m mode src tgt sm tm :
  zrows src = [] -> zrows tgt = [] ->
  Transformer.encoder_layers m <> [] ->
  Transformer.forward m mode src tgt sm tm = Raise RuntimeError.
Proof.
  intros Hs Ht Hl. unfold Transformer.forward.
  rewrite (Embedding_forward_empty _ _ Hs). cbn [bind].
  destruct (PositionalEncoding_forward_empty (Transformer.positional_encoding m)
              (zcols src) (embedding_dim (Transformer.src_embedding m)))
    as [[s0 [-> Hs0]] | ->]; [| reflexivity]. cbn [bind].
  rewrite (Embedding_forward_empty _ _ Ht). cbn [bind].
  destruct (PositionalEncoding_forward_empty (Transformer.positional_encoding m)
              (zcols tgt) (embedding_dim (Transformer.tgt_embedding m)))
    as [[t0 [-> Ht0]] | ->]; [| reflexivity]. cbn [bind].
  rewrite encoder_loop_zero_batch; [reflexivity | assumption |].
  unfold t3_batch. now rewrite Hs0.
Qed.

Lemma cols_to_empty t n : zrows t = [] -> zrows (cols_to t n) = [].
Proof. intros H. unfold cols_to. cbn [zrows]. now rewrite H. Qed.

Section EmptyBatch.
Variables Grads OptState : Type.
Variable crit : Mat -> list Z -> result R.
Variable grad_of : Transformer.t -> (Transformer.t -> result R) -> Grads.
Variable g_zero : Grads.
Variable g_add : Grads -> Grads -> Grads.
Variable opt_step : OptState -> Transformer.t -> Grads -> OptState * Transformer.t.
Variable draws : nat -> nat -> nat -> nat -> nat -> bool.

Lemma train_batch_empty (s : TrainState Transformer.t Grads OptState) src tgt :
  zrows src = [] -> zrows tgt = [] ->
  Transformer.encoder_layers (params s) <> [] ->
  train_batch transformer_model crit grad_of g_zero g_add opt_step draws src tgt s
  = (mkTrainState (params s) (grads s) (opt_state s) (steps s) (S (passes s)) (printed s),
     Raise RuntimeError).
Proof.
  intros Hs Ht Hl. unfold train_batch, bindS, getS, putS, liftS.
  cbn [params grads opt_state steps passes printed].
  unfold batch_loss, transformer_model.
  rewrite Transformer_forward_empty_batch; auto using cols_to_empty.
Qed.
End EmptyBatch.

(** C9 (amended). The training loop has no guard for a batch without
    examples: with a model of at least one encoder block the forward pass
    raises at the first view of the attention, before the gradients are
    reset and before any optimizer step; [train_model] stops with that
    exception, and the parameters, gradients and optimizer state are
    unchanged. *)
Theorem train_step_empty_batch :
  forall (Grads OptState : Type) (crit : Mat -> list Z -> result R)
         (grad_of : Transformer.t -> (Transformer.t -> result R) -> Grads)
         (g_zero : Grads) (g_add : Grads -> Grads -> Grads)
         (opt_step : OptState -> Transformer.t -> Grads -> OptState * Transformer.t)
         (draws : nat -> nat -> nat -> nat -> nat -> bool)
         (s : TrainState Transformer.t Grads OptState)
         (src tgt : ZMat) (rest : list (ZMat * ZMat)) (num_epochs : Z),
    zrows src = [] -> zrows tgt = [] ->
    Transformer.encoder_layers (params s) <> [] ->
    (1 <= num_epochs)%Z ->
    exists s',
      train_batch transformer_model crit grad_of g_zero g_add opt_step draws src tgt s
        = (s', Raise RuntimeError) /\
      train_model transformer_model crit grad_of g_zero g_add opt_step draws
        ((src, tgt) :: rest) num_epochs s = (s', Raise RuntimeError) /\
      params s' = params s /\ grads s' = grads s /\
      opt_state s' = opt_state s /\ steps s' = steps s.
Proof.
  intros Grads OptState crit grad_of g_zero g_add opt_step draws s src tgt rest n
         Hs Ht Hl Hn.
  eexists. split; [now apply train_batch_empty |]. split; [| repeat split].
  unfold train_model. destruct (Z.to_nat n) as [| k] eqn:Hk; [lia |].
  cbn [epoch_loop]. unfold bindS at 1. unfold train_epoch. unfold bindS at 1.
  cbn [batch_loop]. unfold bindS at 1.
  now rewrite train_batch_empty.
Qed.

Lemma train_step_empty_batch_witness :
  exists s',
    sample_train_batch empty_batch empty_batch sample_state = (s', Raise RuntimeError) /\
    train_model transformer_model criterion (fun _ _ => tt) tt (fun _ _ => tt)
      (fun o p _ => (o, p)) (fun _ _ _ _ _ => true)
      [(empty_batch, empty_batch)] 1 sample_state = (s', Raise RuntimeError) /\
    params s' = params sample_state /\ grads s' = grads sample_state /\
    opt_state s' = opt_state sample_state /\ steps s' = steps sample_state.
Proof.
  apply (@train_step_empty_batch unit unit criterion (fun _ _ => tt) tt (fun _ _ => tt)
           (fun o p _ => (o, p)) (fun _ _ _ _ _ => true) sample_state
           empty_batch empty_batch [] 1).
  - reflexivity.
  - reflexivity.
  - discriminate.
  - lia.
Defined.

(** C9, as stated, fails: the step on a batch without examples raises. *)
Lemma train_step_empty_batch_raises :
  snd (sample_train_batch empty_batch empty_batch sample_state) = Raise RuntimeError.
Proof. reflexivity. Qed.

(** A dataloader without batches: the epoch mean divides by zero. *)
Lemma train_model_no_batches :
  snd (train_model transformer_model criterion (fun _ _ => tt) tt (fun _ _ => tt)
         (fun o p _ => (o, p)) (fun _ _ _ _ _ => true) [] 1 sample_state)
  = Raise ZeroDivisionError.
Proof. reflexivity. Qed.

Lemma slice_all_but_last {A : Type} (l : list A) :
  py_slice_to l (-1) = removelast l.
Proof.
  unfold py_slice_to. cbn [Z.leb Z.compare Z.opp Z.to_nat Pos.to_nat Pos.iter_op Nat.add].
  rewrite removelast_firstn_len. f_equal. lia.
Qed.

Lemma slice_all_but_first {A : Type} (l : list A) :
  py_slice_from l 1 = tl l.
Proof. unfold py_slice_from. cbn. destruct l; reflexivity. Qed.

Lemma cols_to_last (t : ZMat) :
  cols_to t (-1) = mkZMat (Nat.pred (zcols t)) (map (@removelast Z) (zrows t)).
Proof.
  unfold cols_to. f_equal.
  - rewrite slice_all_but_last, removelast_firstn_len, length_firstn, length_seq. lia.
  - apply map_ext. intros r. apply slice_all_but_last.
Qed.

Lemma cols_from_first (t : ZMat) :
  cols_from t 1 = mkZMat (Nat.pred (zcols t)) (map (@tl Z) (zrows t)).
Proof.
  unfold cols_from. f_equal.
  rewrite slice_all_but_first. destruct (zcols t); [reflexivity |].
  cbn [seq tl Nat.pred]. now rewrite length_seq.
Qed.

Lemma terms_agree (ig : Z) (C : nat) : forall target a b,
  agree_off ig a b target ->
  CrossEntropyLoss.terms ig C a target = CrossEntropyLoss.terms ig C b target.
Proof.
  induction target as [| c target IH]; intros a b [Hlen Hag].
  - destruct a, b; reflexivity.
  - destruct a as [| x a], b as [| y b]; simpl in Hlen; try discriminate; [reflexivity |].
    assert (Hrest : agree_off ig a b target).
    { split; [lia |]. intros i Hi Hne. apply (Hag (S i)); simpl; [lia | assumption]. }
    cbn [CrossEntropyLoss.terms].
    destruct (Z.eqb_spec c ig) as [He | Hne].
    + now apply IH.
    + assert (Hxy : x = y) by (apply (Hag 0); simpl; [lia | assumption]).
      subst y. rewrite (IH a b Hrest). reflexivity.
Qed.

(** Rows whose target is the ignored index do not enter the loss. *)
Lemma cross_entropy_ignores (ig : Z) (C : nat) (a b : list vec) (target : list Z) :
  agree_off ig a b target ->
  CrossEntropyLoss.forward ig (mkMat C a) target
  = CrossEntropyLoss.forward ig (mkMat C b) target.
Proof.
  intros Hag. unfold CrossEntropyLoss.forward, nrows. cbn [mrows ncols].
  destruct Hag as [Hlen Hag']. rewrite Hlen.
  now rewrite (@terms_agree ig C target a b (conj Hlen Hag')).
Qed.

Section Steps.
Variables Params Grads OptState : Type.
Variable model : Params -> Mode -> ZMat -> ZMat -> result T3.
Variable crit : Mat -> list Z -> result R.
Variable grad_of : Params -> (Params -> result R) -> Grads.
Variable g_zero : Grads.
Variable g_add : Grads -> Grads -> Grads.
Variable opt_step : OptState -> Params -> Grads -> OptState * Params.
Variable draws : nat -> nat -> nat -> nat -> nat -> bool.

Local Abbreviation tb := (train_batch model crit grad_of g_zero g_add opt_step draws).
Local Abbreviation bl := (batch_loop model crit grad_of g_zero g_add opt_step draws).

Lemma train_batch_ok (s : TrainState Params Grads OptState) src tgt loss :
  batch_loss model crit (Train (draws (passes s))) src tgt (params s) = Ok loss ->
  tb src tgt s
  = (mkTrainState
       (snd (opt_step (opt_state s) (params s)
               (g_add g_zero
                  (grad_of (params s)
                     (batch_loss model crit (Train (draws (passes s))) src tgt)))))
       (g_add g_zero
          (grad_of (params s) (batch_loss model crit (Train (draws (passes s))) src tgt)))
       (fst (opt_step (opt_state s) (params s)
               (g_add g_zero
                  (grad_of (params s)
                     (batch_loss model crit (Train (draws (passes s))) src tgt)))))
       (S (steps s)) (S (passes s)) (printed s),
     Ok loss).
Proof.
  intros Hl. unfold train_batch, bindS, getS, putS, liftS, retS.
  cbn [params grads opt_state steps passes printed]. rewrite Hl. reflexivity.
Qed.

Lemma train_batch_raise (s : TrainState Params Grads OptState) src tgt e :
  batch_loss model crit (Train (draws (passes s))) src tgt (params s) = Raise e ->
  tb src tgt s
  = (mkTrainState (params s) (grads s) (opt_state s) (steps s) (S (passes s))
       (printed s),
     Raise e).
Proof.
  intros Hl. unfold train_batch, bindS, getS, putS, liftS, retS.
  cbn [params grads opt_state steps passes printed]. rewrite Hl. reflexivity.
Qed.

Lemma train_batch_steps (s s' : TrainState Params Grads OptState) src tgt loss :
  tb src tgt s = (s', Ok loss) -> steps s' = S (steps s).
Proof.
  intros H.
  destruct (batch_loss model crit (Train (draws (passes s))) src tgt (params s))
    as [l | e] eqn:Hl.
  - erewrite train_batch_ok in H by exact Hl. inversion H; subst. reflexivity.
  - erewrite train_batch_raise in H by exact Hl. discriminate.
Qed.

Lemma batch_loop_steps : forall batches total (s s' : TrainState Params Grads OptState) r,
  bl batches total s = (s', Ok r) -> steps s' = steps s + length batches.
Proof.
  induction batches as [| [src tgt] rest IH]; intros total s s' r H.
  - cbn in H. inversion H; subst. simpl. lia.
  - cbn [batch_loop] in H. unfold bindS in H at 1.
    destruct (tb src tgt s) as [s1 [loss | e]] eqn:Hb; [| discriminate].
    apply IH in H. apply train_batch_steps in Hb. simpl. lia.
Qed.
End Steps.

Lemma big_sum_add (a b : nat) (f : nat -> R) :
  big_sum (a + b) f = (big_sum a f + big_sum b (fun i => f (a + i)%nat))%R.
Proof.
  induction b as [| b IH].
  - rewrite Nat.add_0_r. cbn [big_sum]. ring.
  - rewrite Nat.add_succ_r. cbn [big_sum]. rewrite IH. ring.
Qed.

Lemma big_sum_product (B L : nat) (f : nat -> R) :
  big_sum (B * L) f = big_sum B (fun b => big_sum L (fun t => f (b * L + t))).
Proof.
  induction B as [| B IH]; [reflexivity |].
  replace (S B * L) with (B * L + L) by lia.
  rewrite big_sum_add, IH. reflexivity.
Qed.

Lemma nth_concat_uniform {A : Type} (d : A) (L : nat) : forall (rows : list (list A)) b t,
  Forall (fun r => length r = L) rows -> b < length rows -> t < L ->
  nth (b * L + t) (concat rows) d = nth t (nth b rows []) d.
Proof.
  induction rows as [| r rows IH]; intros b t HF Hb Ht; [cbn in Hb; lia |].
  pose proof (Forall_inv HF) as Hr. pose proof (Forall_inv_tail HF) as HF'.
  cbn beta in Hr. cbn [concat]. destruct b as [| b].
  - cbn [Nat.mul Nat.add nth]. rewrite app_nth1 by lia. reflexivity.
  - rewrite app_nth2 by (rewrite Hr; lia).
    replace (S b * L + t - length r) with (b * L + t) by (rewrite Hr; lia).
    cbn [nth]. apply IH; auto. cbn in Hb. lia.
Qed.

Lemma softmax_nth (x : list R) (c : nat) :
  c < length x ->
  nth c (softmax x) 0%R
  = (exp (nth c x 0) / big_sum (length x) (fun c' => exp (nth c' x 0)))%R.
Proof.
  intros Hc. unfold softmax.
  rewrite (nth_map_lt (fun e => (e / vsum (map exp x))%R) (map exp x) c 0%R 0%R)
    by now rewrite length_map.
  rewrite (nth_map_lt exp x c 0%R 0%R) by assumption.
  f_equal. rewrite (vsum_big_sum 0%R), length_map.
  apply big_sum_ext. intros i Hi. now rewrite (nth_map_lt exp x i 0%R 0%R).
Qed.

(** The terms of the loss, position by position. *)
Lemma terms_big_sum (ig : Z) (C : nat) : forall (input : list (list R)) (target : list Z),
  length input = length target ->
  Forall (fun c => id_in_range C c = true) target ->
  exists ts,
    CrossEntropyLoss.terms ig C input target = Ok ts /\
    vsum ts = big_sum (length target)
                (fun n => if (nth n target 0 =? ig)%Z then 0
                          else - ln (nth (Z.to_nat (nth n target 0%Z))
                                         (softmax (nth n input [])) 0))%R /\
    INR (length ts) = big_sum (length target)
                        (fun n => if (nth n target 0 =? ig)%Z then 0 else 1)%R.
Proof.
  induction input as [| x input IH]; intros target Hlen Ht.
  - destruct target; [| discriminate]. exists []. repeat split; reflexivity.
  - destruct target as [| c target]; [discriminate |].
    pose proof (Forall_inv Ht) as Hc. pose proof (Forall_inv_tail Ht) as Ht'.
    cbn beta in Hc. cbn [length] in Hlen.
    destruct (IH target ltac:(lia) Ht') as [ts [E [Hs Hn]]].
    cbn [CrossEntropyLoss.terms length]. rewrite !big_sum_shift. cbn [nth].
    destruct (c =? ig)%Z.
    + exists ts. split; [exact E |]. rewrite Hs, Hn. split; ring.
    + rewrite Hc, E. cbn [bind]. eexists. split; [reflexivity |].
      cbn [vsum fold_right length]. fold (vsum ts). rewrite S_INR, Hs, Hn.
      split; ring.
Qed.

Lemma view_rows_concat (out : T3) (B L V : nat) :
  has_shape out B L V -> 0 < V ->
  view_rows out = Ok (mkMat V (concat (t3_items out))).
Proof.
  intros Hs HV. pose proof (has_shape_items Hs) as [Fx HB].
  destruct Hs as [Hw [_ [HL HW]]].
  assert (Hrows : Forall (fun r => length r = V) (concat (t3_items out))).
  { apply Forall_concat. eapply Forall_impl; [| exact Fx]. intros it [_ H]. exact H. }
  assert (Hlen : length (concat (t3_items out)) = B * L).
  { rewrite (@concat_length_const _ L), HB; [reflexivity |].
    eapply Forall_impl; [| exact Fx]. intros it [H _]. exact H. }
  unfold view_rows. rewrite HW.
  rewrite (@view_infer_ok _ (B * L)).
  - cbn [bind]. rewrite <- Hlen, split_into_concat by assumption. reflexivity.
  - repeat constructor. lia.
  - cbn [fold_right]. rewrite Z.mul_1_r, Nat2Z.id. lia.
  - cbn [fold_right]. rewrite Z.mul_1_r, Nat2Z.id.
    unfold t3_numel, t3_batch. rewrite HB, HL, HW. lia.
Qed.

Section Loss.
Variable Params : Type.
Variable model : Params -> Mode -> ZMat -> ZMat -> result T3.

(** The loss of a batch is the cross-entropy of the logits of
    [tgt_input] against the shifted targets. *)
Lemma batch_loss_cross_entropy (mode : Mode) (src tgt : ZMat) (p : Params)
    (outputs : T3) (V : nat) :
  wfZMat tgt = true ->
  model p mode src (mkZMat (Nat.pred (zcols tgt)) (map (@removelast Z) (zrows tgt)))
  = Ok outputs ->
  has_shape outputs (znrows tgt) (Nat.pred (zcols tgt)) V ->
  0 < V ->
  (forall b t, b < znrows tgt -> t < Nat.pred (zcols tgt) ->
     (0 <= next_target tgt b t < Z.of_nat V)%Z) ->
  batch_loss model criterion mode src tgt p = Ok (cross_entropy_without_pad outputs tgt).
Proof.
  intros Hw Hm Hs HV Hin.
  pose proof (has_shape_items Hs) as [Fx HB].
  assert (Hwd : t3_width outputs = V) by (destruct Hs as [_ [_ [_ H]]]; exact H).
  set (L := Nat.pred (zcols tgt)) in *.
  assert (Hrows : Forall (fun r => length r = L) (map (@tl Z) (zrows tgt))).
  { apply Forall_forall. intros r Hr. apply in_map_iff in Hr. destruct Hr as [r0 [<- Hr0]].
    unfold wfZMat in Hw. rewrite forallb_forall in Hw.
    specialize (Hw r0 Hr0). apply Nat.eqb_eq in Hw.
    destruct r0; cbn [tl length] in *; unfold L; lia. }
  assert (Hitems : Forall (fun it => length it = L) (t3_items outputs)).
  { eapply Forall_impl; [| exact Fx]. intros it [H _]. exact H. }
  assert (Hflat : forall b t, b < znrows tgt -> t < L ->
            nth (b * L + t) (concat (map (@tl Z) (zrows tgt))) 0%Z = next_target tgt b t).
  { intros b t Hb Ht. rewrite (@nth_concat_uniform _ 0%Z L) by
      (auto; rewrite length_map; exact Hb).
    unfold next_target.
    replace (@nil Z) with (tl (@nil Z)) at 1 by reflexivity.
    rewrite map_nth. destruct (nth b (zrows tgt) []); [destruct t |]; reflexivity. }
  assert (Hlenf : length (concat (map (@tl Z) (zrows tgt))) = znrows tgt * L).
  { rewrite (@concat_length_const _ L) by assumption. now rewrite length_map. }
  unfold batch_loss. rewrite cols_to_last, cols_from_first. fold L. rewrite Hm. cbn [bind].
  rewrite (view_rows_concat Hs HV). cbn [bind].
  unfold criterion, CrossEntropyLoss.forward, view_flat, nrows. cbn [mrows ncols zrows].
  rewrite (@concat_length_const _ L) by assumption. rewrite HB, Hlenf, Nat.eqb_refl.
  destruct (@terms_big_sum 0%Z V (concat (t3_items outputs))
              (concat (map (@tl Z) (zrows tgt)))) as [ts [E [Hsum Hcnt]]].
  { rewrite (@concat_length_const _ L) by assumption. now rewrite HB, Hlenf. }
  { apply Forall_forall. intros c Hc.
    destruct (In_nth _ _ 0%Z Hc) as [n [Hn <-]]. rewrite Hlenf in Hn.
    assert (HLpos : 0 < L) by (destruct L; [lia | lia]).
    pose proof (Nat.div_mod_eq n L) as Hdm.
    pose proof (Nat.mod_upper_bound n L ltac:(lia)) as Hmod.
    assert (Hq : n / L < znrows tgt).
    { apply Nat.Div0.div_lt_upper_bound. lia. }
    replace n with (n / L * L + n mod L) by lia.
    rewrite Hflat by assumption. unfold id_in_range.
    specialize (Hin (n / L) (n mod L) Hq Hmod).
    apply andb_true_iff. split; [apply Z.leb_le | apply Z.ltb_lt]; lia. }
  rewrite E. cbn [bind]. f_equal. unfold cross_entropy_without_pad.
  replace (zcols tgt - 1) with L by (unfold L; lia).
  rewrite Hsum, Hcnt, Hlenf, !big_sum_product. f_equal.
  - apply big_sum_ext. intros b Hb. apply big_sum_ext. intros t Ht.
    rewrite Hflat by assumption.
    destruct (next_target tgt b t =? 0)%Z eqn:Ez; [reflexivity |].
    unfold nll, t3_entry. rewrite Hwd.
    rewrite (@nth_concat_uniform _ [] L) by (auto; lia).
    specialize (Hin b t Hb Ht).
    assert (Hrow : length (nth t (nth b (t3_items outputs) []) []) = V).
    { rewrite Forall_forall in Fx.
      assert (Hitem : rows_ok L V (nth b (t3_items outputs) [])).
      { apply Fx. apply nth_In. lia. }
      destruct Hitem as [Hl Hr]. rewrite Forall_forall in Hr. apply Hr.
      apply nth_In. lia. }
    rewrite softmax_nth by (rewrite Hrow; lia). now rewrite Hrow.
  - apply big_sum_ext. intros b Hb. apply big_sum_ext. intros t Ht.
    now rewrite Hflat by assumption.
Qed.
End Loss.

(** C4. For every batch, the forward pass runs on [tgt_input], every
    target row without its last token, and the loss is the cross-entropy
    of the logits against [tgt_output], every target row without its first
    token: the mean, over the positions whose next token is not PAD
    (id 0), of minus the logarithm of the softmax probability the logits
    of the position give to its next token.  The positions whose next
    token is PAD enter neither the sum nor the count.  An exception of the
    forward pass is the exception of the step.  A successful step calls
    the optimizer exactly once, on the gradient of that loss; a step that
    raises calls it not at all.  A batch loop that completes has made
    exactly one optimizer step per batch. *)
Theorem train_batch_teacher_forcing :
  forall (Params Grads OptState : Type)
         (model : Params -> Mode -> ZMat -> ZMat -> result T3)
         (grad_of : Params -> (Params -> result R) -> Grads)
         (g_zero : Grads) (g_add : Grads -> Grads -> Grads)
         (opt_step : OptState -> Params -> Grads -> OptState * Params)
         (draws : nat -> nat -> nat -> nat -> nat -> bool)
         (s : TrainState Params Grads OptState) (src tgt : ZMat),
    let tgt_input := mkZMat (Nat.pred (zcols tgt)) (map (@removelast Z) (zrows tgt)) in
    let mode := Train (draws (passes s)) in
    let loss_of := batch_loss model criterion mode src tgt in
    let g := g_add g_zero (grad_of (params s) loss_of) in
    (forall p outputs V,
       wfZMat tgt = true ->
       model p mode src tgt_input = Ok outputs ->
       has_shape outputs (znrows tgt) (Nat.pred (zcols tgt)) V ->
       0 < V ->
       (forall b t, b < znrows tgt -> t < Nat.pred (zcols tgt) ->
          (0 <= next_target tgt b t < Z.of_nat V)%Z) ->
       (exists b t, b < znrows tgt /\ t < Nat.pred (zcols tgt) /\
                    next_target tgt b t <> 0%Z) ->
       loss_of p = Ok (cross_entropy_without_pad outputs tgt)) /\
    (forall p e, model p mode src tgt_input = Raise e -> loss_of p = Raise e) /\
    (forall loss, loss_of (params s) = Ok loss ->
       exists s',
         train_batch model criterion grad_of g_zero g_add opt_step draws src tgt s
           = (s', Ok loss) /\
         params s' = snd (opt_step (opt_state s) (params s) g) /\
         steps s' = S (steps s)) /\
    (forall e, loss_of (params s) = Raise e ->
       exists s',
         train_batch model criterion grad_of g_zero g_add opt_step draws src tgt s
           = (s', Raise e) /\
         params s' = params s /\ steps s' = steps s) /\
    (forall C a b target,
       agree_off PAD a b target ->
       criterion (mkMat C a) target = criterion (mkMat C b) target) /\
    (forall batches total s1 s2 r,
       batch_loop model criterion grad_of g_zero g_add opt_step draws batches total s1
         = (s2, Ok r) ->
       steps s2 = steps s1 + length batches).
Proof.
  intros Params Grads OptState model grad_of g_zero g_add opt_step draws s src tgt
         tgt_input mode loss_of g.
  split; [| split; [| split; [| split; [| split]]]].
  - intros p outputs V Hw Hm Hs HV Hin _.
    now apply (@batch_loss_cross_entropy Params model mode src tgt p outputs V).
  - intros p e Hm. unfold loss_of, batch_loss. rewrite cols_to_last.
    fold tgt_input. rewrite Hm. reflexivity.
  - intros loss Hl.
    erewrite train_batch_ok by exact Hl. fold mode. fold loss_of. fold g.
    eexists. split; [reflexivity |]. split; reflexivity.
  - intros e Hl.
    erewrite train_batch_raise by exact Hl.
    eexists. split; [reflexivity |]. split; reflexivity.
  - intros C a b target Hag. now apply cross_entropy_ignores.
  - intros batches total s1 s2 r H. now apply batch_loop_steps in H.
Qed.

Lemma train_batch_teacher_forcing_witness :
  exists outputs s',
    transformer_model sample_model (Train (fun _ _ _ _ => true)) sample_src
      (mkZMat 2 [[2; 1]%Z]) = Ok outputs /\
    sample_train_batch sample_src sample_tgt sample_state
    = (s', Ok (cross_entropy_without_pad outputs sample_tgt)) /\
    steps s' = 1.
Proof.
  destruct (@train_batch_teacher_forcing Transformer.t unit unit transformer_model
              (fun _ _ => tt) tt (fun _ _ => tt) (fun o p _ => (o, p))
              (fun _ _ _ _ _ => true) sample_state sample_src sample_tgt)
    as [Hloss [_ [Hstep _]]].
  destruct (@Transformer_forward_shape sample_model (Train (fun _ _ _ _ => true))
              sample_src (mkZMat 2 [[2; 1]%Z]) None None 1 2 2)
    as [outputs [Eo Hs]]; try reflexivity; try (cbn; lia).
  specialize (Hloss sample_model outputs 4 eq_refl Eo Hs ltac:(lia)).
  assert (El : batch_loss transformer_model criterion (Train (fun _ _ _ _ => true))
                 sample_src sample_tgt sample_model
               = Ok (cross_entropy_without_pad outputs sample_tgt)).
  { apply Hloss.
    - intros b t Hb Ht. cbn in Hb, Ht.
      destruct b as [| b]; [| lia]. destruct t as [| [| t]]; [cbn; lia | cbn; lia | lia].
    - exists 0, 0. cbn. repeat split; try lia. }
  destruct (Hstep _ El) as [s' [Es [_ Hst]]].
  exists outputs, s'. split; [exact Eo |]. split; [exact Es | exact Hst].
Defined.

(** ** The constructors build well-formed modules *)

Lemma nn_LayerNorm_ok (n : Z) :
  (0 <= n)%Z ->
  exists l, nn_LayerNorm n = Ok l /\ norm_ok l (Z.to_nat n) = true.
Proof.
  intros Hn. unfold nn_LayerNorm. destruct (Z.ltb_spec n 0); [lia |].
  eexists. split; [reflexivity |].
  unfold norm_ok, wfLayerNorm. cbn [normalized_shape ln_weight ln_bias].
  now rewrite !repeat_length, !Nat.eqb_refl.
Qed.

Lemma nn_Embedding_ok (draw : nat -> nat -> list vec * vec) (n d : Z) :
  (0 <= n)%Z -> (0 <= d)%Z ->
  (length (fst (draw (Z.to_nat d) (Z.to_nat n))) = Z.to_nat n /\
   Forall (fun r => length r = Z.to_nat d) (fst (draw (Z.to_nat d) (Z.to_nat n))) /\
   length (snd (draw (Z.to_nat d) (Z.to_nat n))) = Z.to_nat n) ->
  exists e, nn_Embedding draw n d = Ok e /\ wfEmbedding e = true /\
            num_embeddings e = Z.to_nat n /\ embedding_dim e = Z.to_nat d.
Proof.
  intros Hn Hd [Hl [Hr _]]. unfold nn_Embedding.
  destruct (Z.ltb_spec n 0); [lia |]. destruct (Z.ltb_spec d 0); [lia |].
  eexists. split; [reflexivity |]. split; [| split; reflexivity].
  apply wfEmbedding_iff. cbn [emb_weight num_embeddings embedding_dim]. auto.
Qed.

Lemma nn_Dropout_ok (p : R) :
  (0 <= p <= 1)%R -> nn_Dropout p = Ok p.
Proof.
  intros [H0 H1]. unfold nn_Dropout.
  destruct (Rlt_dec p 0); [lra |]. destruct (Rlt_dec 1 p); [lra | reflexivity].
Qed.

Lemma nn_Linear_shape (draw : nat -> nat -> nat -> list vec * vec) (k : nat) (i o : Z) :
  draws_ok draw -> (0 <= i)%Z -> (0 <= o)%Z ->
  exists l, nn_Linear (draw k) i o = Ok l /\
            linear_ok l (Z.to_nat i) (Z.to_nat o) = true /\
            out_features l = Z.to_nat o.
Proof.
  intros Hd Hi Ho. rewrite nn_Linear_ok by assumption.
  eexists. split; [reflexivity |]. split; [| reflexivity].
  apply drawn_linear_ok. apply Hd.
Qed.

Lemma FeedForward_init_ok draw (E F : Z) (p : R) :
  draws_ok draw -> (0 <= E)%Z -> (0 <= F)%Z -> (0 <= p <= 1)%R ->
  exists f, FeedForward.init draw E F p = Ok f /\ wfFeedForward (Z.to_nat E) f = true.
Proof.
  intros Hd HE HF Hp. unfold FeedForward.init.
  destruct (nn_Linear_shape 4 Hd HE HF) as [l1 [-> [H1 Ho1]]]. cbn [bind].
  rewrite nn_Dropout_ok by assumption. cbn [bind].
  destruct (nn_Linear_shape 5 Hd HF HE) as [l2 [-> [H2 _]]]. cbn [bind].
  eexists. split; [reflexivity |].
  unfold wfFeedForward. cbn [FeedForward.linear1 FeedForward.linear2].
  now rewrite Ho1, H1, H2.
Qed.

Lemma MultiHeadAttention_init_ok draw (E H : Z) :
  draws_ok draw -> (0 < H)%Z -> (0 < E)%Z -> (E mod H = 0)%Z ->
  exists a, MultiHeadAttention.init draw E H = Ok a /\ wfMHA (Z.to_nat E) a = true.
Proof.
  intros Hd HH HE Hmod. unfold MultiHeadAttention.init.
  destruct (Z.eqb_spec H 0); [lia |].
  destruct (Z.eqb_spec (E mod H) 0); [| contradiction]. cbn [negb].
  rewrite !nn_Linear_ok by lia. cbn [bind].
  eexists. split; [reflexivity |].
  destruct (head_sizes HH HE Hmod) as [HD Hsz].
  unfold wfMHA.
  cbn [MultiHeadAttention.num_heads MultiHeadAttention.head_dim
       MultiHeadAttention.query_linear MultiHeadAttention.key_linear
       MultiHeadAttention.value_linear MultiHeadAttention.fc_out].
  rewrite !drawn_linear_ok by apply Hd.
  rewrite Hsz, Nat.eqb_refl.
  destruct (Z.ltb_spec 0 H); [| lia]. destruct (Z.ltb_spec 0 (E / H)); [| lia].
  reflexivity.
Qed.

Lemma draws_ok_shift draw (f : nat -> nat) :
  draws_ok draw -> draws_ok (fun k => draw (f k)).
Proof. intros Hd k i o. apply Hd. Qed.

Lemma TransformerBlock_init_ok draw (E H F : Z) (p : R) :
  draws_ok draw -> (0 < H)%Z -> (0 < E)%Z -> (E mod H = 0)%Z -> (0 <= F)%Z ->
  (0 <= p <= 1)%R ->
  exists b, TransformerBlock.init draw E H F p = Ok b /\ wfBlock (Z.to_nat E) b = true.
Proof.
  intros Hd HH HE Hmod HF Hp. unfold TransformerBlock.init.
  destruct (MultiHeadAttention_init_ok Hd HH HE Hmod) as [a [-> Ha]]. cbn [bind].
  destruct (@nn_LayerNorm_ok E ltac:(lia)) as [n1 [-> Hn1]]. cbn [bind].
  destruct (@FeedForward_init_ok draw E F p Hd ltac:(lia) HF Hp) as [ff [-> Hff]].
  cbn [bind]. rewrite nn_Dropout_ok by assumption. cbn [bind].
  eexists. split; [reflexivity |].
  unfold wfBlock.
  cbn [TransformerBlock.attention TransformerBlock.norm1 TransformerBlock.norm2
       TransformerBlock.feed_forward].
  now rewrite Ha, Hn1, Hff.
Qed.

Lemma blocks_init_ok draw (E H F : Z) (p : R) (g : nat -> nat -> nat) (idx : list nat) :
  draws_ok draw -> (0 < H)%Z -> (0 < E)%Z -> (E mod H = 0)%Z -> (0 <= F)%Z ->
  (0 <= p <= 1)%R ->
  exists bs,
    mapM (fun i => TransformerBlock.init (fun k => draw (g i k)) E H F p) idx = Ok bs /\
    length bs = length idx /\
    forallb (wfBlock (Z.to_nat E)) bs = true.
Proof.
  intros Hd HH HE Hmod HF Hp. induction idx as [| i idx [bs [Hbs [Hlen Hwf]]]]; simpl.
  - exists []. auto.
  - destruct (@TransformerBlock_init_ok (fun k => draw (g i k)) E H F p)
      as [b [-> Hb]]; auto using draws_ok_shift.
    cbn [bind]. rewrite Hbs. cbn [bind].
    exists (b :: bs). simpl. rewrite Hb, Hwf, Hlen. auto.
Qed.

Lemma PositionalEncoding_init_ok (E M : Z) :
  (0 <= E)%Z -> (0 <= M)%Z -> Z.even E = true ->
  exists pe, PositionalEncoding.init E M = Ok pe /\
             wfPositionalEncoding (Z.to_nat E) pe = true /\
             PositionalEncoding.max_len pe = Z.to_nat M.
Proof.
  intros HE HM Hev.
  assert (Hn : Nat.even (Z.to_nat E) = true).
  { apply Z.even_spec in Hev. destruct Hev as [k Hk]. apply Nat.even_spec.
    exists (Z.to_nat k). rewrite Hk, Z2Nat.inj_mul by lia. reflexivity. }
  rewrite <- (Z2Nat.id E HE), <- (Z2Nat.id M HM).
  rewrite init_rows by assumption. rewrite !Nat2Z.id.
  eexists. split; [reflexivity |]. split; [| reflexivity].
  unfold wfPositionalEncoding.
  cbn [PositionalEncoding.embed_size PositionalEncoding.max_len PositionalEncoding.pe].
  rewrite Nat.eqb_refl. apply wfItem_iff. apply table_rows_ok.
Qed.

(** [__init__] builds a well-formed model. *)
Lemma Transformer_init_ok draw (src_vocab tgt_vocab E H L F : Z) (p : R) :
  draws_ok draw ->
  (0 <= src_vocab)%Z -> (0 <= tgt_vocab)%Z ->
  (0 < H)%Z -> (0 < E)%Z -> (E mod H = 0)%Z -> Z.even E = true ->
  (0 <= F)%Z -> (0 <= p <= 1)%R ->
  exists m,
    Transformer.init draw src_vocab tgt_vocab E H L F p = Ok m /\
    wfTransformer m = true /\
    num_embeddings (Transformer.src_embedding m) = Z.to_nat src_vocab /\
    num_embeddings (Transformer.tgt_embedding m) = Z.to_nat tgt_vocab /\
    out_features (Transformer.fc_out m) = Z.to_nat tgt_vocab /\
    PositionalEncoding.max_len (Transformer.positional_encoding m) = 1000 /\
    length (Transformer.encoder_layers m) = Z.to_nat L /\
    length (Transformer.decoder_layers m) = Z.to_nat L.
Proof.
  intros Hd Hs Ht HH HE Hmod Hev HF Hp. unfold Transformer.init. cbv zeta.
  destruct (@nn_Embedding_ok (draw 0) src_vocab E Hs ltac:(lia) (Hd 0 _ _))
    as [se [-> [Hse [Hsn Hsd]]]]. cbn [bind].
  destruct (@nn_Embedding_ok (draw 1) tgt_vocab E Ht ltac:(lia) (Hd 1 _ _))
    as [te [-> [Hte [Htn Htd]]]]. cbn [bind].
  destruct (@PositionalEncoding_init_ok E PositionalEncoding.default_max_len)
    as [pe [-> [Hpe Hpm]]]; try assumption; try lia.
  { unfold PositionalEncoding.default_max_len. lia. }
  cbn [bind].
  destruct (@blocks_init_ok draw E H F p (fun i k => 2 + 6 * i + k) (seq 0 (Z.to_nat L)))
    as [enc [-> [Hel Hew]]]; auto. cbn [bind].
  destruct (@blocks_init_ok draw E H F p (fun i k => 2 + 6 * i + k)
              (seq (Z.to_nat L) (Z.to_nat L)))
    as [dec [-> [Hdl Hdw]]]; auto. cbn [bind].
  destruct (@nn_Linear_shape draw (2 + 12 * Z.to_nat L) E tgt_vocab Hd ltac:(lia) Ht)
    as [fc [-> [Hfc Hfo]]]. cbn [bind].
  eexists. split; [reflexivity |].
  cbn [Transformer.src_embedding Transformer.tgt_embedding Transformer.positional_encoding
       Transformer.encoder_layers Transformer.decoder_layers Transformer.fc_out].
  rewrite length_seq in Hel, Hdl.
  repeat split; auto.
  unfold wfTransformer.
  cbn [Transformer.src_embedding Transformer.tgt_embedding Transformer.positional_encoding
       Transformer.encoder_layers Transformer.decoder_layers Transformer.fc_out].
  rewrite Hsd, Htd, Hfo, Hse, Hte, Nat.eqb_refl, Hpe, Hew, Hdw, Hfc. reflexivity.
Qed.

(** The model of the main workflow is well formed. *)
Lemma main_model_ok draw :
  draws_ok draw ->
  exists m,
    main_model draw = Ok m /\ wfTransformer m = true /\
    num_embeddings (Transformer.src_embedding m) = Z.to_nat 30000 /\
    num_embeddings (Transformer.tgt_embedding m) = Z.to_nat 30000 /\
    out_features (Transformer.fc_out m) = Z.to_nat 30000 /\
    PositionalEncoding.max_len (Transformer.positional_encoding m) = 1000 /\
    length (Transformer.encoder_layers m) = 6 /\
    length (Transformer.decoder_layers m) = 6.
Proof.
  intros Hd. unfold main_model.
  apply Transformer_init_ok; auto; try lia; try reflexivity; lra.
Qed.

(** ** greedy_decode on the Transformer *)

Lemma argmax_from_lt : forall l best_i best i,
  best_i < i -> argmax_from best_i best i l < i + length l.
Proof.
  induction l as [| x t IH]; intros bi b i Hb; simpl; [lia |].
  destruct (Rlt_dec b x).
  - specialize (IH i x (S i) ltac:(lia)). lia.
  - specialize (IH bi b (S i) ltac:(lia)). lia.
Qed.

Lemma argmax_lt (l : vec) : 0 < length l -> argmax l < length l.
Proof.
  destruct l as [| x t]; simpl; [lia |]. intros _.
  pose proof (@argmax_from_lt t 0 x 1 ltac:(lia)). lia.
Qed.

Lemma last_in {A : Type} (d : A) (l : list A) : l <> [] -> In (last l d) l.
Proof.
  induction l as [| a l IH]; [contradiction |]. intros _.
  destruct l as [| b l]; [now left |]. right. apply IH. discriminate.
Qed.

(** From a well-shaped output for one sequence, the selected token is a
    class index. *)
Lemma select_token (out : T3) (L V : nat) :
  has_shape out 1 L V -> 0 < L -> 0 < V ->
  exists t, (lastp <- last_position out ;; am <- argmax_rows lastp ;; item am) = Ok t /\
            (0 <= t < Z.of_nat V)%Z.
Proof.
  intros Hs HL HV. pose proof (has_shape_items Hs) as [Fx HB].
  destruct Hs as [_ [_ [Hl Hw]]].
  unfold last_position. rewrite Hl. destruct (Nat.eqb_spec L 0); [lia |]. cbn [bind].
  unfold argmax_rows. cbn [ncols mrows]. rewrite Hw.
  destruct (Nat.eqb_spec V 0); [lia |]. cbn [bind].
  destruct (t3_items out) as [| it [| it2 r]]; simpl in HB; try discriminate.
  cbn [map item]. eexists. split; [reflexivity |].
  apply Forall_inv in Fx. destruct Fx as [Hlen Hrows].
  assert (Hlast : length (last it []) = V).
  { rewrite Forall_forall in Hrows. apply Hrows. apply last_in.
    destruct it; [simpl in Hlen; lia | discriminate]. }
  pose proof (@argmax_lt (last it []) ltac:(lia)). lia.
Qed.

Lemma ids_in_range_row (n : nat) (l : list Z) :
  ids_in_range n (row_tensor l) = forallb (id_in_range n) l.
Proof. unfold ids_in_range, row_tensor. cbn. now rewrite andb_true_r. Qed.

Lemma forallb_app_one {A : Type} (f : A -> bool) (l : list A) (x : A) :
  forallb f l = true -> f x = true -> forallb f (l ++ [x]) = true.
Proof. intros Hl Hx. rewrite forallb_app, Hl. simpl. now rewrite Hx. Qed.

Section DecodeTransformer.
Variable m : Transformer.t.
Variable src : ZMat.
Hypothesis Hm : wfTransformer m = true.
Hypothesis Hsrc : wfZMat src = true.
Hypothesis Hone : znrows src = 1.
Hypothesis Hids : ids_in_range (num_embeddings (Transformer.src_embedding m)) src = true.
Hypothesis HS : zcols src <= PositionalEncoding.max_len (Transformer.positional_encoding m).
Hypothesis HV0 : 0 < out_features (Transformer.fc_out m).
Hypothesis HV : out_features (Transformer.fc_out m)
                <= num_embeddings (Transformer.tgt_embedding m).

Lemma next_token_transformer (prefix : list Z) :
  prefix <> [] ->
  length prefix <= PositionalEncoding.max_len (Transformer.positional_encoding m) ->
  forallb (id_in_range (num_embeddings (Transformer.tgt_embedding m))) prefix = true ->
  exists t, next_token (transformer_model m Eval) src prefix = Ok t /\
            id_in_range (num_embeddings (Transformer.tgt_embedding m)) t = true.
Proof.
  intros Hne Hlen Hin. unfold next_token, transformer_model.
  assert (Hwf : wfZMat (row_tensor prefix) = true).
  { unfold row_tensor, wfZMat. cbn. now rewrite Nat.eqb_refl. }
  assert (Hr : ids_in_range (num_embeddings (Transformer.tgt_embedding m))
                 (row_tensor prefix) = true) by now rewrite ids_in_range_row.
  assert (Hpos : 0 < length prefix) by (destruct prefix; [contradiction | simpl; lia]).
  destruct (@Transformer_forward_shape m Eval src (row_tensor prefix) None None
              1 (zcols src) (length prefix)) as [out [-> Hout]]; auto.
  cbn [bind].
  destruct (@select_token out (length prefix) (out_features (Transformer.fc_out m)))
    as [t [-> Ht]]; auto.
  exists t. split; [reflexivity |]. unfold id_in_range.
  apply andb_true_iff. split; [apply Z.leb_le | apply Z.ltb_lt]; lia.
Qed.

Lemma decode_loop_transformer (e : Z) : forall n tgt,
  tgt <> [] ->
  length tgt + n <= S (PositionalEncoding.max_len (Transformer.positional_encoding m)) ->
  forallb (id_in_range (num_embeddings (Transformer.tgt_embedding m))) tgt = true ->
  exists l, decode_loop (transformer_model m Eval) src e n tgt = Ok l.
Proof.
  induction n as [| n IH]; intros tgt Hne Hlen Hin; simpl.
  - now exists tgt.
  - destruct (@next_token_transformer tgt Hne ltac:(lia) Hin) as [t [-> Ht]].
    cbn [bind]. destruct (t =? e)%Z; [now eexists |].
    apply IH.
    + destruct tgt; discriminate.
    + rewrite length_app. simpl. lia.
    + now apply forallb_app_one.
Qed.

(** On a well-formed model and a valid source sentence, greedy decoding
    returns a list: no forward pass and no selection raises. *)
Lemma greedy_decode_transformer (max_len start_token_id end_token_id : Z) :
  id_in_range (num_embeddings (Transformer.tgt_embedding m)) start_token_id = true ->
  Z.to_nat max_len <= PositionalEncoding.max_len (Transformer.positional_encoding m) ->
  exists l, greedy_decode (transformer_model m Eval) src max_len
              start_token_id end_token_id = Ok l.
Proof.
  intros Hstart Hmax. unfold greedy_decode. apply decode_loop_transformer.
  - discriminate.
  - simpl. lia.
  - simpl. now rewrite Hstart.
Qed.
End DecodeTransformer.

(** ** The decoder is position-wise *)

Lemma concat_map_concat {A : Type} (l : list (list (list A))) :
  concat (map (@concat A) l) = concat (concat l).
Proof.
  induction l as [| a l IH]; [reflexivity |].
  simpl. now rewrite concat_app, IH.
Qed.

(** The data of a well-shaped tensor, viewed with its own sizes. *)
Lemma view_items x B L W :
  has_shape x B L W ->
  map (split_into L W) (split_into B (L * W) (concat (concat (t3_items x))))
  = t3_items x.
Proof.
  intros Hx. pose proof (has_shape_items Hx) as [Fx HB].
  rewrite <- concat_map_concat.
  rewrite <- HB, <- (length_map (@concat R) (t3_items x)).
  rewrite split_into_concat.
  - rewrite map_map. rewrite <- (map_id (t3_items x)) at 2.
    apply map_ext_in. intros it Hit. rewrite Forall_forall in Fx.
    destruct (Fx it Hit) as [Hl HF]. rewrite <- Hl. now apply split_into_concat.
  - apply Forall_map. eapply Forall_impl; [| exact Fx].
    intros it [Hl HF]. cbv beta. rewrite (@concat_length_const _ W) by assumption.
    now rewrite Hl.
Qed.

Lemma split_heads_explicit x B L (H D : Z) :
  (0 < H)%Z -> (0 < D)%Z -> 0 < B ->
  has_shape x B L (Z.to_nat H * Z.to_nat D) ->
  MultiHeadAttention.split_heads B H D x
  = Ok (map (heads_of (Z.to_nat H) (Z.to_nat D)) (t3_items x)).
Proof.
  intros HH HD HB Hx. unfold MultiHeadAttention.split_heads.
  pose proof Hx as [_ [HBx [HLx HWx]]].
  assert (Hsz : Z.to_nat (fold_right Z.mul 1%Z [Z.of_nat B; H; D])
                = B * (Z.to_nat H * Z.to_nat D)).
  { cbn [fold_right]. rewrite Z.mul_1_r, !Z2Nat.inj_mul, Nat2Z.id by lia. reflexivity. }
  rewrite (@view_infer_ok _ L).
  - cbn [bind]. f_equal.
    set (h := Z.to_nat H) in *. set (d := Z.to_nat D) in *.
    rewrite <- (view_items Hx) at 2. rewrite !map_map.
    apply map_ext. intros ex. unfold heads_of.
    apply map_ext. intros hd. f_equal. now rewrite map_map.
  - repeat constructor; lia.
  - rewrite Hsz. nia.
  - rewrite Hsz. unfold t3_numel. rewrite HBx, HLx, HWx. lia.
Qed.

Lemma mapM_nth {A B : Type} (f : A -> result B) (da : A) (db : B) :
  forall (l : list A) (ys : list B),
    mapM f l = Ok ys ->
    length ys = length l /\
    forall i, i < length l -> f (nth i l da) = Ok (nth i ys db).
Proof.
  induction l as [| a l IH]; intros ys H; simpl in H.
  - inversion H; subst. split; [reflexivity |]. intros i Hi. simpl in Hi. lia.
  - destruct (f a) as [b |] eqn:Hb; simpl in H; [| discriminate].
    destruct (mapM f l) as [bs |] eqn:Hbs; simpl in H; [| discriminate].
    inversion H; subst. destruct (IH bs eq_refl) as [Hlen Hnth].
    split; [simpl; now rewrite Hlen |].
    intros [| i] Hi; simpl; [exact Hb | apply Hnth; simpl in Hi; lia].
Qed.

(** Row [p] of the attention output depends on the query through its row
    [p] only. *)
Lemma spec_output_local q q' k v mask p c :
  ncols q = ncols q' -> nrows q = nrows q' ->
  nth p (mrows q) [] = nth p (mrows q') [] ->
  spec_output q k v mask p c = spec_output q' k v mask p c.
Proof.
  intros Hc Hr Hp. unfold spec_output, spec_weight, spec_score, raw_score.
  rewrite Hc, Hr, Hp. reflexivity.
Qed.

Lemma heads_ok_nth a B h L d b hd :
  heads_ok a B h L d -> b < B -> hd < h ->
  length (nth b a []) = h /\ mat_ok (nth hd (nth b a []) (mkMat 0 [])) L d.
Proof.
  intros [Ha HF] Hb Hhd. rewrite Forall_forall in HF.
  destruct (HF (nth b a [])) as [Hex Hm]; [apply nth_In; lia |].
  split; [assumption |]. rewrite Forall_forall in Hm. apply Hm. apply nth_In. lia.
Qed.

Lemma nth_combine3 {A : Type} (a b c : list A) (d : A) (i : nat) :
  length a = length b -> length b = length c ->
  nth i (combine (combine a b) c) (d, d, d) = (nth i a d, nth i b d, nth i c d).
Proof.
  intros Hab Hbc. rewrite combine_nth by (rewrite length_combine; lia).
  now rewrite combine_nth by assumption.
Qed.

Lemma forward4_nth q k v mask oa B h Lq Lk d b hd :
  heads_ok q B h Lq d -> heads_ok k B h Lk d -> heads_ok v B h Lk d ->
  ScaledDotProductAttention.forward4 q k v mask = Ok oa ->
  b < B -> hd < h ->
  ScaledDotProductAttention.forward
    (nth hd (nth b q []) (mkMat 0 [])) (nth hd (nth b k []) (mkMat 0 []))
    (nth hd (nth b v []) (mkMat 0 [])) mask
  = Ok (nth hd (nth b oa []) (mkMat 0 [], mkMat 0 [])).
Proof.
  intros Hq Hk Hv Hoa Hb Hhd.
  unfold ScaledDotProductAttention.forward4 in Hoa.
  pose proof Hq as [Hql _]. pose proof Hk as [Hkl _]. pose proof Hv as [Hvl _].
  rewrite bcast2_same in Hoa by congruence. cbn [bind] in Hoa.
  rewrite bcast2_same in Hoa by (rewrite length_combine; lia). cbn [bind] in Hoa.
  destruct (mapM_nth _ ([], [], []) [] _ Hoa) as [Hlen Hnth].
  rewrite !length_combine in Hlen.
  specialize (Hnth b). rewrite !length_combine in Hnth.
  specialize (Hnth ltac:(lia)).
  rewrite (@nth_combine3 (list Mat)) in Hnth by congruence. cbn [fst snd] in Hnth.
  destruct (heads_ok_nth Hq Hb Hhd) as [Hqh _].
  destruct (heads_ok_nth Hk Hb Hhd) as [Hkh _].
  destruct (heads_ok_nth Hv Hb Hhd) as [Hvh _].
  destruct (mapM_nth _ (mkMat 0 [], mkMat 0 [], mkMat 0 []) (mkMat 0 [], mkMat 0 []) _ Hnth)
    as [Hlen2 Hnth2].
  specialize (Hnth2 hd). rewrite !length_combine in Hnth2.
  specialize (Hnth2 ltac:(lia)).
  rewrite (@nth_combine3 Mat) in Hnth2 by congruence. cbn [fst snd] in Hnth2.
  exact Hnth2.
Qed.

Arguments forward4_nth [q k v mask oa B h Lq Lk d b hd] _ _ _ _ _ _.

Lemma forward4_local q q' k v mask oa oa' B h Lq Lk d p :
  heads_ok q B h Lq d -> heads_ok q' B h Lq d ->
  heads_ok k B h Lk d -> heads_ok v B h Lk d ->
  mask_fits mask Lq Lk = true -> p < Lq ->
  ScaledDotProductAttention.forward4 q k v mask = Ok oa ->
  ScaledDotProductAttention.forward4 q' k v mask = Ok oa' ->
  agree4 p B h q q' ->
  agree4 p B h (map (map fst) oa) (map (map fst) oa').
Proof.
  intros Hq Hq' Hk Hv Hm Hp Hoa Hoa' Hag b hd Hb Hhd.
  pose proof (forward4_nth Hq Hk Hv Hoa Hb Hhd) as H1.
  pose proof (forward4_nth Hq' Hk Hv Hoa' Hb Hhd) as H2.
  destruct (heads_ok_nth Hq Hb Hhd) as [_ [Hq1 [Hq2 _]]].
  destruct (heads_ok_nth Hq' Hb Hhd) as [_ [Hq1' [Hq2' _]]].
  destruct (heads_ok_nth Hk Hb Hhd) as [_ [Hk1 [Hk2 Hk3]]].
  destruct (heads_ok_nth Hv Hb Hhd) as [_ [Hv1 [Hv2 _]]].
  rewrite forward_explicit in H1, H2; try congruence.
  assert (Hfst : forall (l : list (list (Mat * Mat))),
            nth hd (nth b (map (map fst) l) []) (mkMat 0 [])
            = fst (nth hd (nth b l []) (mkMat 0 [], mkMat 0 []))).
  { intros l. change (@nil Mat) with (map (@fst Mat Mat) []).
    rewrite map_nth. change (mkMat 0 []) with (fst (mkMat 0 [], mkMat 0 [])) at 1.
    now rewrite map_nth. }
  rewrite !Hfst. injection H1 as E1. injection H2 as E2.
  rewrite <- E1, <- E2. cbn [fst mrows].
  rewrite Hq1, Hq1'.
  rewrite !(nth_map_lt _ (seq 0 Lq) p [] 0) by now rewrite length_seq.
  rewrite seq_nth by assumption. cbn [plus].
  apply map_ext. intros c. apply spec_output_local; try congruence.
  now apply Hag.
Qed.

Arguments forward4_local [q q' k v mask oa oa' B h Lq Lk d p] _ _ _ _ _ _ _ _ _.

Lemma merged_rows_ok a B h L d :
  heads_ok a B h L d -> Forall (rows_ok L (h * d)) (merged_rows L a).
Proof.
  intros [Hlen HF]. unfold merged_rows. apply Forall_map.
  eapply Forall_impl; [| exact HF].
  intros ex [Hex Hm]. split; [now rewrite length_map, length_seq |].
  apply Forall_map. apply Forall_forall. intros i Hi. apply in_seq in Hi.
  rewrite (@concat_length_const _ d).
  - now rewrite length_map, Hex.
  - apply Forall_map. eapply Forall_impl; [| exact Hm].
    intros m [Hn [Hc Hwf]]. cbv beta. apply wfMat_iff in Hwf.
    rewrite Forall_forall in Hwf. rewrite <- Hc. apply Hwf.
    apply nth_In. unfold nrows in Hn. lia.
Qed.

Lemma merge_heads_explicit a B L (H D : Z) :
  (0 < H)%Z -> (0 < D)%Z -> 0 < B ->
  heads_ok a B (Z.to_nat H) L (Z.to_nat D) ->
  MultiHeadAttention.merge_heads B H D a
  = Ok (mkT3 L (Z.to_nat H * Z.to_nat D) (merged_rows L a)).
Proof.
  intros HH HD HB Ha. unfold MultiHeadAttention.merge_heads.
  rewrite (seq_len4_ok Ha) by lia.
  pose proof (merged_rows_ok Ha) as Hrows.
  destruct Ha as [Hlen HF].
  assert (Hw : Z.to_nat (H * D) = Z.to_nat H * Z.to_nat D)
    by (rewrite Z2Nat.inj_mul by lia; reflexivity).
  assert (Hsz : Z.to_nat (fold_right Z.mul 1%Z [Z.of_nat B; (H * D)%Z])
                = B * (Z.to_nat H * Z.to_nat D)).
  { cbn [fold_right]. rewrite Z.mul_1_r, Z2Nat.inj_mul, Nat2Z.id, Hw by lia. reflexivity. }
  rewrite (@view_infer_ok _ L).
  - cbn [bind]. rewrite Hw. f_equal. f_equal. fold (merged_rows L a).
    apply (@view_items (mkT3 L (Z.to_nat H * Z.to_nat D) (merged_rows L a)) B).
    apply has_shape_make; [assumption |]. unfold merged_rows. now rewrite length_map.
  - repeat constructor; lia.
  - rewrite Hsz. nia.
  - rewrite Hsz, Hlen. lia.
Qed.

Lemma nth_mapi {A B : Type} (f : nat -> A -> B) (l : list A) (i : nat) (d : B) (d' : A) :
  i < length l -> nth i (mapi f l) d = f i (nth i l d').
Proof.
  intros Hi. unfold mapi.
  rewrite (nth_map_lt (fun p => f (fst p) (snd p)) (combine (seq 0 (length l)) l) i d (0, d'))
    by (rewrite length_combine, length_seq; lia).
  rewrite combine_nth by now rewrite length_seq.
  now rewrite seq_nth.
Qed.

Arguments nth_mapi {A B} f l i d d' _.

Lemma map_ext_nth {A B : Type} (f : A -> B) (d : A) (l l' : list A) :
  length l = length l' ->
  (forall i, i < length l -> f (nth i l d) = f (nth i l' d)) ->
  map f l = map f l'.
Proof.
  revert l'. induction l as [| a l IH]; intros [| a' l'] Hlen Hf;
    simpl in Hlen; try discriminate; [reflexivity |].
  simpl. f_equal.
  - apply (Hf 0). simpl. lia.
  - apply IH; [lia |]. intros i Hi. apply (Hf (S i)). simpl. lia.
Qed.

Lemma has_shape_row x B L W b p :
  has_shape x B L W -> b < B -> p < L ->
  length (nth b (t3_items x) []) = L /\ length (row_at x b p) = W.
Proof.
  intros Hx Hb Hp. pose proof (has_shape_items Hx) as [Fx HB].
  rewrite Forall_forall in Fx.
  destruct (Fx (nth b (t3_items x) [])) as [Hl HF]; [apply nth_In; lia |].
  split; [assumption |]. rewrite Forall_forall in HF. apply HF.
  unfold row_at. apply nth_In. lia.
Qed.

(** A row-wise layer acts on row [p] alone. *)
Lemma row_at_map_rows (f : vec -> vec) x B L W L' W' b p :
  has_shape x B L W -> b < B -> p < L ->
  row_at (mkT3 L' W' (map (map f) (t3_items x))) b p = f (row_at x b p).
Proof.
  intros Hx Hb Hp. destruct (has_shape_row Hx Hb Hp) as [Hl _].
  pose proof (has_shape_items Hx) as [_ HB].
  unfold row_at. cbn [t3_items].
  rewrite (nth_map_lt (map f) (t3_items x) b [] []) by lia.
  now rewrite (nth_map_lt f (nth b (t3_items x) []) p [] []) by lia.
Qed.

Lemma local_pair_map_rows (f : vec -> vec) p B L W W' x y :
  p < L -> local_pair p B L W x y ->
  has_shape (mkT3 L W' (map (map f) (t3_items x))) B L W' ->
  has_shape (mkT3 L W' (map (map f) (t3_items y))) B L W' ->
  local_pair p B L W' (mkT3 L W' (map (map f) (t3_items x)))
                      (mkT3 L W' (map (map f) (t3_items y))).
Proof.
  intros Hp [Hx [Hy Hag]] Hx' Hy'. split; [assumption | split; [assumption |]].
  intros b Hb. destruct Hx' as [_ [HB' _]]. rewrite HB' in Hb.
  rewrite (row_at_map_rows f L W' Hx Hb Hp), (row_at_map_rows f L W' Hy Hb Hp).
  f_equal. apply Hag. destruct Hx as [_ [HB _]]. now rewrite HB.
Qed.

Lemma Linear_forward_items l x y :
  Linear_forward l x = Ok y ->
  y = mkT3 (t3_len x) (out_features l) (map (map (linear_row l)) (t3_items x)).
Proof.
  unfold Linear_forward. destruct (t3_width x =? in_features l); [| discriminate].
  now inversion 1.
Qed.

Lemma LayerNorm_forward_items n x y :
  LayerNorm_forward n x = Ok y ->
  y = mkT3 (t3_len x) (t3_width x) (map (map (layer_norm_row n)) (t3_items x)).
Proof.
  unfold LayerNorm_forward. destruct (t3_width x =? normalized_shape n); [| discriminate].
  now inversion 1.
Qed.

Lemma local_pair_linear l i o p B L x y x' y' :
  linear_ok l i o = true -> p < L -> local_pair p B L i x y ->
  Linear_forward l x = Ok x' -> Linear_forward l y = Ok y' ->
  local_pair p B L o x' y'.
Proof.
  intros Hl Hp Hxy Hx' Hy'. pose proof Hxy as [Hx [Hy _]].
  destruct (linear_ok_shape Hl Hx) as [x2 [Ex Hsx]].
  destruct (linear_ok_shape Hl Hy) as [y2 [Ey Hsy]].
  rewrite Ex in Hx'. rewrite Ey in Hy'. inversion Hx'; inversion Hy'; subst x2 y2.
  pose proof (Linear_forward_items _ _ Ex) as E1.
  pose proof (Linear_forward_items _ _ Ey) as E2.
  assert (Ho : out_features l = o).
  { unfold linear_ok in Hl. rewrite !andb_true_iff, !Nat.eqb_eq in Hl. tauto. }
  destruct Hx as [_ [_ [HLx _]]]. destruct Hy as [_ [_ [HLy _]]].
  rewrite HLx, Ho in E1. rewrite HLy, Ho in E2. subst x' y'.
  apply local_pair_map_rows with (W := i); assumption.
Qed.

Arguments local_pair_linear [l i o p B L x y x' y'] _ _ _ _ _.

Lemma local_pair_norm n E p B L x y x' y' :
  norm_ok n E = true -> p < L -> local_pair p B L E x y ->
  LayerNorm_forward n x = Ok x' -> LayerNorm_forward n y = Ok y' ->
  local_pair p B L E x' y'.
Proof.
  intros Hn Hp Hxy Hx' Hy'. pose proof Hxy as [Hx [Hy _]].
  destruct (norm_ok_shape Hn Hx) as [x2 [Ex Hsx]].
  destruct (norm_ok_shape Hn Hy) as [y2 [Ey Hsy]].
  rewrite Ex in Hx'. rewrite Ey in Hy'. inversion Hx'; inversion Hy'; subst x2 y2.
  pose proof (LayerNorm_forward_items _ _ Ex) as E1.
  pose proof (LayerNorm_forward_items _ _ Ey) as E2.
  destruct Hx as [_ [_ [HLx HWx]]]. destruct Hy as [_ [_ [HLy HWy]]].
  rewrite HLx, HWx in E1. rewrite HLy, HWy in E2. subst x' y'.
  apply local_pair_map_rows with (W := E); assumption.
Qed.

Arguments local_pair_norm [n E p B L x y x' y'] _ _ _ _ _.

Lemma local_pair_t3_map f p B L W x y :
  p < L -> local_pair p B L W x y ->
  local_pair p B L W (FeedForward.t3_map f x) (FeedForward.t3_map f y).
Proof.
  intros Hp Hxy. pose proof Hxy as [Hx [Hy _]].
  pose proof (t3_map_shape f Hx) as Hx'. pose proof (t3_map_shape f Hy) as Hy'.
  unfold FeedForward.t3_map in *.
  destruct Hx as [Hx0 [Hx1 [HLx HWx]]]. destruct Hy as [Hy0 [Hy1 [HLy HWy]]].
  rewrite HLx, HWx in *. rewrite HLy, HWy in *.
  apply local_pair_map_rows with (W := W); assumption.
Qed.

Lemma local_pair_dropout pr m call p B L W x y :
  p < L -> local_pair p B L W x y ->
  local_pair p B L W (dropout pr m call x) (dropout pr m call y).
Proof.
  intros Hp [Hx [Hy Hag]].
  split; [now apply dropout_shape | split; [now apply dropout_shape |]].
  destruct m as [| keep]; [exact Hag |].
  intros b Hb.
  assert (HbB : b < B).
  { pose proof (dropout_shape pr (Train keep) call Hx) as [_ [HB' _]].
    now rewrite HB' in Hb. }
  destruct (has_shape_row Hx HbB Hp) as [Hlx _].
  destruct (has_shape_row Hy HbB Hp) as [Hly _].
  pose proof (has_shape_items Hx) as [_ HBx]. pose proof (has_shape_items Hy) as [_ HBy].
  unfold row_at, dropout. cbn [t3_items].
  rewrite !(nth_mapi _ _ b [] []) by lia.
  rewrite !(nth_mapi _ _ p [] []) by lia.
  fold (row_at x b p). fold (row_at y b p). rewrite Hag; [reflexivity |].
  destruct Hx as [_ [HB _]]. now rewrite HB.
Qed.

Lemma t3_add_same_explicit x y B L W :
  has_shape x B L W -> has_shape y B L W ->
  t3_add x y
  = Ok (mkT3 L W (map (fun pr => add_rows (fst pr) (snd pr))
                      (combine (t3_items x) (t3_items y)))).
Proof.
  intros Hx Hy. pose proof (has_shape_items Hx) as [Fx HBx].
  pose proof (has_shape_items Hy) as [Fy HBy].
  destruct Hx as [_ [_ [HLx HWx]]]. destruct Hy as [_ [_ [HLy HWy]]].
  unfold t3_add. rewrite HLx, HLy, HWx, HWy, !bdim_same.
  rewrite bcast2_same by congruence. cbn [bind]. f_equal. f_equal.
  apply map_ext_in. intros [a b] Hin. cbn [fst snd].
  rewrite Forall_forall in Fx, Fy. apply add_item_expand.
  - apply Fx. eapply in_combine_l; eauto.
  - apply Fy. eapply in_combine_r; eauto.
Qed.

Lemma row_at_add x y B L W b p :
  has_shape x B L W -> has_shape y B L W -> b < B -> p < L ->
  row_at (mkT3 L W (map (fun pr => add_rows (fst pr) (snd pr))
                        (combine (t3_items x) (t3_items y)))) b p
  = vadd (row_at x b p) (row_at y b p).
Proof.
  intros Hx Hy Hb Hp.
  destruct (has_shape_row Hx Hb Hp) as [Hlx _].
  destruct (has_shape_row Hy Hb Hp) as [Hly _].
  pose proof (has_shape_items Hx) as [_ HBx]. pose proof (has_shape_items Hy) as [_ HBy].
  unfold row_at. cbn [t3_items].
  rewrite (nth_map_lt (fun pr : list vec * list vec => add_rows (fst pr) (snd pr))
             (combine (t3_items x) (t3_items y)) b [] ([], []))
    by (rewrite length_combine; lia).
  rewrite combine_nth by congruence. cbn [fst snd].
  apply nth_add_rows; lia.
Qed.

(** The sum of two pairs that agree on row [p] agrees on row [p]. *)
Lemma local_pair_add p B L W x y u v s s' :
  p < L -> local_pair p B L W x y -> local_pair p B L W u v ->
  t3_add x u = Ok s -> t3_add y v = Ok s' ->
  local_pair p B L W s s'.
Proof.
  intros Hp [Hx [Hy Hxy]] [Hu [Hv Huv]] Hs Hs'.
  rewrite (t3_add_same_explicit Hx Hu) in Hs.
  rewrite (t3_add_same_explicit Hy Hv) in Hs'.
  inversion Hs; inversion Hs'; subst s s'. clear Hs Hs'.
  pose proof (has_shape_items Hx) as [Fx HBx]. pose proof (has_shape_items Hu) as [Fu HBu].
  pose proof (has_shape_items Hy) as [Fy HBy]. pose proof (has_shape_items Hv) as [Fv HBv].
  assert (Hsh : forall a c, has_shape a B L W -> has_shape c B L W ->
            has_shape (mkT3 L W (map (fun pr => add_rows (fst pr) (snd pr))
                                     (combine (t3_items a) (t3_items c)))) B L W).
  { intros a c Ha Hc. destruct (t3_add_same Ha Hc) as [z [Ez Hz]].
    rewrite (t3_add_same_explicit Ha Hc) in Ez. inversion Ez; subst z. exact Hz. }
  split; [now apply Hsh | split; [now apply Hsh |]].
  intros b Hb.
  assert (HbB : b < B).
  { unfold t3_batch in Hb. cbn [t3_items] in Hb.
    rewrite length_map, length_combine in Hb. lia. }
  rewrite (row_at_add Hx Hu HbB Hp), (row_at_add Hy Hv HbB Hp).
  rewrite Hxy, Huv; [reflexivity | |].
  - destruct Hu as [_ [HB _]]. now rewrite HB.
  - destruct Hx as [_ [HB _]]. now rewrite HB.
Qed.

Arguments local_pair_add [p B L W x y u v s s'] _ _ _ _ _.

Lemma agree4_heads p B L h d x y :
  0 < h -> p < L -> local_pair p B L (h * d) x y ->
  agree4 p B h (map (heads_of h d) (t3_items x)) (map (heads_of h d) (t3_items y)).
Proof.
  intros Hh Hp [Hx [Hy Hag]] b hd Hb Hhd.
  pose proof (has_shape_items Hx) as [_ HBx]. pose proof (has_shape_items Hy) as [_ HBy].
  destruct (has_shape_row Hx Hb Hp) as [Hlx _].
  destruct (has_shape_row Hy Hb Hp) as [Hly _].
  rewrite !(nth_map_lt (heads_of h d) _ b [] []) by lia.
  unfold heads_of.
  rewrite !(nth_map_lt _ (seq 0 h) hd (mkMat 0 []) 0) by now rewrite length_seq.
  cbn [mrows]. rewrite seq_nth by assumption. cbn [plus].
  rewrite !(nth_map_lt _ _ p [] []) by lia.
  fold (row_at x b p). fold (row_at y b p). rewrite Hag; [reflexivity |].
  destruct Hx as [_ [HB _]]. now rewrite HB.
Qed.

Lemma row_at_merged a B h L d b p :
  heads_ok a B h L d -> b < B -> p < L ->
  row_at (mkT3 L (h * d) (merged_rows L a)) b p
  = concat (map (fun m => nth p (mrows m) []) (nth b a [])).
Proof.
  intros [Ha _] Hb Hp. unfold row_at, merged_rows. cbn [t3_items].
  rewrite (nth_map_lt _ a b [] []) by lia.
  rewrite (nth_map_lt _ (seq 0 L) p [] 0) by now rewrite length_seq.
  now rewrite seq_nth.
Qed.

(** Multi-head attention with fixed key and value acts on row [p] of the
    query alone. *)
Lemma MultiHeadAttention_forward_local E a q q' k v mask B Lq Lk p y y' :
  wfMHA E a = true -> 0 < B -> p < Lq ->
  local_pair p B Lq E q q' ->
  has_shape k B Lk E -> has_shape v B Lk E ->
  mask_fits mask Lq Lk = true ->
  MultiHeadAttention.forward a q k v mask = Ok y ->
  MultiHeadAttention.forward a q' k v mask = Ok y' ->
  local_pair p B Lq E y y'.
Proof.
  intros Ha HB Hp Hqq Hk Hv Hm Hy Hy'.
  destruct (wfMHA_facts Ha) as [HH [HD [HE [Lq' [Lk' [Lv' Lo']]]]]].
  pose proof Hqq as [Hq [Hq' _]].
  unfold MultiHeadAttention.forward in Hy, Hy'.
  assert (Hbq : t3_batch q = B) by (destruct Hq as [_ [? _]]; assumption).
  assert (Hbq' : t3_batch q' = B) by (destruct Hq' as [_ [? _]]; assumption).
  rewrite Hbq in Hy. rewrite Hbq' in Hy'.
  destruct (linear_ok_shape Lq' Hq) as [q1 [Eq1 Hq1]].
  destruct (linear_ok_shape Lq' Hq') as [q1' [Eq1' Hq1']].
  pose proof (local_pair_linear Lq' Hp Hqq Eq1 Eq1') as Hl1.
  rewrite Eq1 in Hy. rewrite Eq1' in Hy'. cbn [bind] in Hy, Hy'.
  destruct (linear_ok_shape Lk' Hk) as [k1 [Ek1 Hk1]].
  destruct (linear_ok_shape Lv' Hv) as [v1 [Ev1 Hv1]].
  rewrite Ek1, Ev1 in Hy, Hy'. cbn [bind] in Hy, Hy'.
  rewrite <- HE in Hq1, Hq1', Hk1, Hv1, Hl1.
  rewrite (split_heads_explicit HH HD HB Hq1) in Hy.
  rewrite (split_heads_explicit HH HD HB Hq1') in Hy'.
  destruct (split_heads_shape HH HD HB Hq1) as [q4 [Eq4 Hq4]].
  destruct (split_heads_shape HH HD HB Hq1') as [q4' [Eq4' Hq4']].
  rewrite (split_heads_explicit HH HD HB Hq1) in Eq4.
  rewrite (split_heads_explicit HH HD HB Hq1') in Eq4'.
  inversion Eq4; inversion Eq4'; subst q4 q4'. clear Eq4 Eq4'.
  destruct (split_heads_shape HH HD HB Hk1) as [k4 [Ek4 Hk4]].
  destruct (split_heads_shape HH HD HB Hv1) as [v4 [Ev4 Hv4]].
  rewrite Ek4, Ev4 in Hy, Hy'. cbn [bind] in Hy, Hy'.
  destruct (forward4_shape Hq4 Hk4 Hv4 Hm) as [oa [Eoa Hoa]].
  destruct (forward4_shape Hq4' Hk4 Hv4 Hm) as [oa' [Eoa' Hoa']].
  rewrite Eoa in Hy. rewrite Eoa' in Hy'. cbn [bind] in Hy, Hy'.
  assert (Hag4 : agree4 p B (Z.to_nat (MultiHeadAttention.num_heads a))
                   (map (map fst) oa) (map (map fst) oa')).
  { apply (forward4_local Hq4 Hq4' Hk4 Hv4 Hm Hp Eoa Eoa').
    apply agree4_heads with (L := Lq); [lia | assumption | assumption]. }
  rewrite (merge_heads_explicit HH HD HB Hoa) in Hy.
  rewrite (merge_heads_explicit HH HD HB Hoa') in Hy'. cbn [bind] in Hy, Hy'.
  destruct (merge_heads_shape HH HD HB Hoa) as [m1 [Em1 Hm1]].
  destruct (merge_heads_shape HH HD HB Hoa') as [m1' [Em1' Hm1']].
  rewrite (merge_heads_explicit HH HD HB Hoa) in Em1.
  rewrite (merge_heads_explicit HH HD HB Hoa') in Em1'.
  inversion Em1; inversion Em1'; subst m1 m1'. clear Em1 Em1'.
  rewrite HE in Hm1, Hm1', Hy, Hy'.
  eapply (local_pair_linear Lo' Hp); [| exact Hy | exact Hy'].
  rewrite <- HE. rewrite <- HE in Hm1, Hm1'.
  split; [assumption | split; [assumption |]].
  intros b Hb.
  assert (HbB : b < B) by (destruct Hm1 as [_ [HB' _]]; now rewrite HB' in Hb).
  rewrite (row_at_merged Hoa HbB Hp), (row_at_merged Hoa' HbB Hp).
  f_equal.
  destruct Hoa as [Hoal HoaF]. destruct Hoa' as [Hoal' HoaF'].
  assert (Hh1 : length (nth b (map (map fst) oa) []) = Z.to_nat (MultiHeadAttention.num_heads a)).
  { rewrite Forall_forall in HoaF. apply HoaF. apply nth_In. lia. }
  assert (Hh2 : length (nth b (map (map fst) oa') []) = Z.to_nat (MultiHeadAttention.num_heads a)).
  { rewrite Forall_forall in HoaF'. apply HoaF'. apply nth_In. lia. }
  apply (@map_ext_nth _ _ (fun m => nth p (mrows m) []) (mkMat 0 [])); [congruence |].
  intros hd Hhd. apply Hag4; [assumption | lia].
Qed.

Arguments MultiHeadAttention_forward_local [E a q q' k v mask B Lq Lk p y y'] _ _ _ _ _ _ _ _ _.

Lemma FeedForward_forward_local E f m p B L x y x' y' :
  wfFeedForward E f = true -> p < L -> local_pair p B L E x y ->
  FeedForward.forward f m x = Ok x' -> FeedForward.forward f m y = Ok y' ->
  local_pair p B L E x' y'.
Proof.
  unfold wfFeedForward. rewrite andb_true_iff. intros [H1 H2] Hp Hxy Hx' Hy'.
  pose proof Hxy as [Hx [Hy _]].
  unfold FeedForward.forward in Hx', Hy'.
  destruct (linear_ok_shape H1 Hx) as [h [Eh Hh]].
  destruct (linear_ok_shape H1 Hy) as [h' [Eh' Hh']].
  pose proof (local_pair_linear H1 Hp Hxy Eh Eh') as Hl.
  rewrite Eh in Hx'. rewrite Eh' in Hy'. cbn [bind] in Hx', Hy'.
  eapply (local_pair_linear H2 Hp); [| exact Hx' | exact Hy'].
  apply local_pair_dropout; [assumption |]. now apply local_pair_t3_map.
Qed.

Arguments FeedForward_forward_local [E f] m [p B L x y x' y'] _ _ _ _ _.

(** A block whose key and value are fixed acts on row [p] of its query
    alone: it mixes no two positions of the query. *)
Lemma TransformerBlock_forward_local E b m q q' k v mask B Lq Lk p y y' :
  wfBlock E b = true -> 0 < B -> p < Lq ->
  local_pair p B Lq E q q' ->
  has_shape k B Lk E -> has_shape v B Lk E ->
  mask_fits mask Lq Lk = true ->
  TransformerBlock.forward b m q k v mask = Ok y ->
  TransformerBlock.forward b m q' k v mask = Ok y' ->
  local_pair p B Lq E y y'.
Proof.
  unfold wfBlock. rewrite !andb_true_iff.
  intros [[[Ha Hn1] Hn2] Hf] HB Hp Hqq Hk Hv Hm Hy Hy'.
  pose proof Hqq as [Hq [Hq' _]].
  unfold TransformerBlock.forward in Hy, Hy'.
  destruct (MultiHeadAttention_forward_shape Ha HB Hq Hk Hv Hm) as [a1 [Ea Hao]].
  destruct (MultiHeadAttention_forward_shape Ha HB Hq' Hk Hv Hm) as [a1' [Ea' Hao']].
  pose proof (MultiHeadAttention_forward_local Ha HB Hp Hqq Hk Hv Hm Ea Ea') as Hla.
  rewrite Ea in Hy. rewrite Ea' in Hy'. cbn [bind] in Hy, Hy'.
  pose proof (local_pair_dropout (TransformerBlock.dropout_p b) m 0 Hp Hla) as Hld.
  destruct Hld as [Hd1 [Hd2 Hd3]].
  destruct (t3_add_same Hq Hd1) as [s [Es Hs]].
  destruct (t3_add_same Hq' Hd2) as [s' [Es' Hs']].
  pose proof (local_pair_add Hp Hqq (conj Hd1 (conj Hd2 Hd3)) Es Es') as Hls.
  rewrite Es in Hy. rewrite Es' in Hy'. cbn [bind] in Hy, Hy'.
  destruct (norm_ok_shape Hn1 Hs) as [x [Ex Hx]].
  destruct (norm_ok_shape Hn1 Hs') as [x' [Ex' Hx']].
  pose proof (local_pair_norm Hn1 Hp Hls Ex Ex') as Hlx.
  rewrite Ex in Hy. rewrite Ex' in Hy'. cbn [bind] in Hy, Hy'.
  destruct (FeedForward_forward_shape m Hf Hx) as [ff [Eff Hff]].
  destruct (FeedForward_forward_shape m Hf Hx') as [ff' [Eff' Hff']].
  pose proof (FeedForward_forward_local m Hf Hp Hlx Eff Eff') as Hlf.
  rewrite Eff in Hy. rewrite Eff' in Hy'. cbn [bind] in Hy, Hy'.
  pose proof (local_pair_dropout (TransformerBlock.dropout_p b) m 2 Hp Hlf) as Hld2.
  destruct Hld2 as [He1 [He2 He3]].
  destruct (t3_add_same Hx He1) as [s2 [Es2 Hs2]].
  destruct (t3_add_same Hx' He2) as [s2' [Es2' Hs2']].
  pose proof (local_pair_add Hp Hlx (conj He1 (conj He2 He3)) Es2 Es2') as Hls2.
  rewrite Es2 in Hy. rewrite Es2' in Hy'. cbn [bind] in Hy, Hy'.
  exact (local_pair_norm Hn2 Hp Hls2 Hy Hy').
Qed.

Arguments TransformerBlock_forward_local [E b] m [q q' k v mask B Lq Lk p y y'] _ _ _ _ _ _ _ _ _.

Lemma decoder_loop_local E m mask B T Ls (src : T3) p :
  0 < B -> p < T -> mask_fits mask T Ls = true -> has_shape src B Ls E ->
  forall layers k tgt tgt' y y',
    forallb (wfBlock E) layers = true ->
    local_pair p B T E tgt tgt' ->
    Transformer.decoder_loop m k layers tgt src mask = Ok y ->
    Transformer.decoder_loop m k layers tgt' src mask = Ok y' ->
    local_pair p B T E y y'.
Proof.
  intros HB Hp Hm Hsrc.
  induction layers as [| layer rest IH]; intros k tgt tgt' y y' Hl Htt Hy Hy'; simpl in *.
  - inversion Hy; inversion Hy'; subst. assumption.
  - apply andb_true_iff in Hl. destruct Hl as [Hb Hr].
    pose proof Htt as [Ht [Ht' _]].
    destruct (TransformerBlock_forward_shape (sub_mode k m) Hb HB Ht Hsrc Hsrc Hm)
      as [t1 [E1 H1]].
    destruct (TransformerBlock_forward_shape (sub_mode k m) Hb HB Ht' Hsrc Hsrc Hm)
      as [t1' [E1' H1']].
    pose proof (TransformerBlock_forward_local (sub_mode k m) Hb HB Hp Htt Hsrc Hsrc Hm
                  E1 E1') as Hl1.
    rewrite E1 in Hy. rewrite E1' in Hy'. cbn [bind] in Hy, Hy'.
    exact (IH (S k) t1 t1' y y' Hr Hl1 Hy Hy').
Qed.

Arguments decoder_loop_local [E] m [mask B T Ls src p] _ _ _ _ layers k [tgt tgt' y y'] _ _ _ _.

Lemma wfZMat_row ids b :
  wfZMat ids = true -> b < znrows ids -> length (nth b (zrows ids) []) = zcols ids.
Proof.
  intros Hwf Hb. unfold wfZMat in Hwf. rewrite forallb_forall in Hwf.
  apply Nat.eqb_eq. apply Hwf. now apply nth_In.
Qed.

Lemma local_pair_embedding e ids ids' B T p x x' :
  wfEmbedding e = true -> wfZMat ids = true -> wfZMat ids' = true ->
  ids_in_range (num_embeddings e) ids = true ->
  ids_in_range (num_embeddings e) ids' = true ->
  znrows ids = B -> znrows ids' = B -> zcols ids = T -> zcols ids' = T -> p < T ->
  (forall b, b < B -> nth p (nth b (zrows ids) []) 0%Z = nth p (nth b (zrows ids') []) 0%Z) ->
  Embedding_forward e ids = Ok x -> Embedding_forward e ids' = Ok x' ->
  local_pair p B T (embedding_dim e) x x'.
Proof.
  intros He Hw Hw' Hr Hr' HB HB' HT HT' Hp Hag Hx Hx'.
  destruct (Embedding_forward_shape e ids He Hw Hr) as [x1 [E1 H1]].
  destruct (Embedding_forward_shape e ids' He Hw' Hr') as [x1' [E1' H1']].
  rewrite E1 in Hx. rewrite E1' in Hx'. inversion Hx; inversion Hx'; subst x1 x1'.
  rewrite HB, HT in H1. rewrite HB', HT' in H1'.
  split; [assumption | split; [assumption |]].
  intros b Hb. destruct H1 as [_ [HBx _]]. rewrite HBx in Hb.
  unfold Embedding_forward in E1, E1'. unfold ids_in_range in Hr, Hr'.
  rewrite Hr in E1. rewrite Hr' in E1'. inversion E1; inversion E1'; subst x x'.
  unfold row_at. cbn [t3_items].
  rewrite !(nth_map_lt _ _ b [] []) by (unfold znrows in *; lia).
  rewrite !(nth_map_lt _ _ p [] 0%Z)
    by (rewrite wfZMat_row by (auto; lia); lia).
  now rewrite Hag.
Qed.

Lemma local_pair_positional pe p B L x y x' y' :
  rows_ok (PositionalEncoding.max_len pe) (PositionalEncoding.embed_size pe)
          (PositionalEncoding.pe pe) ->
  L <= PositionalEncoding.max_len pe -> p < L ->
  local_pair p B L (PositionalEncoding.embed_size pe) x y ->
  PositionalEncoding.forward pe x = Ok x' -> PositionalEncoding.forward pe y = Ok y' ->
  local_pair p B L (PositionalEncoding.embed_size pe) x' y'.
Proof.
  intros Hpe HL Hp [Hx [Hy Hag]] Hx' Hy'.
  destruct (PositionalEncoding_forward_shape Hpe Hx HL) as [E1 H1].
  destruct (PositionalEncoding_forward_shape Hpe Hy HL) as [E2 H2].
  rewrite E1 in Hx'. rewrite E2 in Hy'. inversion Hx'; inversion Hy'; subst x' y'.
  split; [assumption | split; [assumption |]].
  intros b Hb. destruct H1 as [_ [HB1 _]]. rewrite HB1 in Hb.
  destruct (has_shape_row Hx Hb Hp) as [Hlx _].
  destruct (has_shape_row Hy Hb Hp) as [Hly _].
  pose proof (has_shape_items Hx) as [_ HBx]. pose proof (has_shape_items Hy) as [_ HBy].
  assert (Hfl : length (firstn L (PositionalEncoding.pe pe)) = L).
  { destruct Hpe as [Hl _]. rewrite length_firstn. lia. }
  unfold row_at. cbn [t3_items].
  rewrite !(nth_map_lt _ _ b [] []) by lia.
  rewrite !nth_add_rows by lia.
  fold (row_at x b p). fold (row_at y b p). rewrite Hag; [reflexivity |].
  destruct Hx as [_ [HB _]]. now rewrite HB.
Qed.

Arguments local_pair_positional [pe p B L x y x' y'] _ _ _ _ _ _.

(** The decoder never mixes target positions: the logits at a target
    position depend on the target sequence only through the token at that
    position. *)
Lemma Transformer_forward_position_local :
  forall (m : Transformer.t) (mode : Mode) (src tgt tgt' : ZMat)
         (src_mask tgt_mask : option ZMat) (B Ls T p : nat) (out out' : T3),
    wfTransformer m = true ->
    wfZMat src = true -> wfZMat tgt = true -> wfZMat tgt' = true ->
    ids_in_range (num_embeddings (Transformer.src_embedding m)) src = true ->
    ids_in_range (num_embeddings (Transformer.tgt_embedding m)) tgt = true ->
    ids_in_range (num_embeddings (Transformer.tgt_embedding m)) tgt' = true ->
    znrows src = B -> znrows tgt = B -> znrows tgt' = B -> 0 < B ->
    zcols src = Ls -> zcols tgt = T -> zcols tgt' = T ->
    Ls <= PositionalEncoding.max_len (Transformer.positional_encoding m) ->
    T <= PositionalEncoding.max_len (Transformer.positional_encoding m) ->
    mask_fits src_mask Ls Ls = true -> mask_fits tgt_mask T Ls = true ->
    p < T ->
    (forall b, b < B ->
       nth p (nth b (zrows tgt) []) 0%Z = nth p (nth b (zrows tgt') []) 0%Z) ->
    Transformer.forward m mode src tgt src_mask tgt_mask = Ok out ->
    Transformer.forward m mode src tgt' src_mask tgt_mask = Ok out' ->
    forall b, b < B -> row_at out b p = row_at out' b p.
Proof.
  intros m mode src tgt tgt' sm tm B Ls T p out out'
         Hm Hsrc Htgt Htgt' Hrs Hrt Hrt' HBs HBt HBt' HB HS HT HT' HSm HTm Hsm Htm Hp Hag
         Hout Hout'.
  destruct (wfTransformer_facts m Hm) as [He1 [He2 [HE2 [HEp [Hpe [Henc [Hdec Hfc]]]]]]].
  cbv zeta in *. set (E := embedding_dim (Transformer.src_embedding m)) in *.
  assert (Hpe' : rows_ok (PositionalEncoding.max_len (Transformer.positional_encoding m))
                         (PositionalEncoding.embed_size (Transformer.positional_encoding m))
                         (PositionalEncoding.pe (Transformer.positional_encoding m))).
  { rewrite HEp. now apply wfItem_iff. }
  unfold Transformer.forward in Hout, Hout'.
  destruct (Embedding_forward_shape _ _ He1 Hsrc Hrs) as [se [Ese Hse]].
  rewrite Ese in Hout, Hout'. cbn [bind] in Hout, Hout'.
  rewrite HBs, HS in Hse. fold E in Hse. rewrite <- HEp in Hse.
  destruct (PositionalEncoding_forward_shape Hpe' Hse HSm) as [Es0 Hs0].
  rewrite Es0 in Hout, Hout'. cbn [bind] in Hout, Hout'.
  destruct (Embedding_forward_shape _ _ He2 Htgt Hrt) as [te [Ete Hte]].
  destruct (Embedding_forward_shape _ _ He2 Htgt' Hrt') as [te' [Ete' Hte']].
  pose proof (@local_pair_embedding _ tgt tgt' B T p te te' He2 Htgt Htgt' Hrt Hrt'
                HBt HBt' HT HT' Hp Hag Ete Ete') as Hlte.
  rewrite Ete in Hout. rewrite Ete' in Hout'. cbn [bind] in Hout, Hout'.
  rewrite HE2, <- HEp in Hlte.
  pose proof Hlte as [Hte1 [Hte2 _]].
  destruct (PositionalEncoding_forward_shape Hpe' Hte1 HTm) as [Et0 Ht0].
  destruct (PositionalEncoding_forward_shape Hpe' Hte2 HTm) as [Et0' Ht0'].
  pose proof (local_pair_positional Hpe' HTm Hp Hlte Et0 Et0') as Hlt0.
  rewrite Et0 in Hout. rewrite Et0' in Hout'. cbn [bind] in Hout, Hout'.
  rewrite HEp in Hs0, Ht0, Ht0', Hlt0, Hout, Hout'.
  destruct (encoder_loop_shape mode HB Hsm (Transformer.encoder_layers m) 0 Henc Hs0)
    as [enc [Eenc Henc']].
  rewrite Eenc in Hout, Hout'. cbn [bind] in Hout, Hout'.
  destruct (decoder_loop_shape mode HB Htm Henc' (Transformer.decoder_layers m)
              (length (Transformer.encoder_layers m)) Hdec Ht0) as [dec [Edec Hdec']].
  destruct (decoder_loop_shape mode HB Htm Henc' (Transformer.decoder_layers m)
              (length (Transformer.encoder_layers m)) Hdec Ht0') as [dec' [Edec' Hdec'']].
  pose proof (decoder_loop_local mode HB Hp Htm Henc' (Transformer.decoder_layers m)
                (length (Transformer.encoder_layers m)) Hdec Hlt0 Edec Edec') as Hld.
  rewrite Edec in Hout. rewrite Edec' in Hout'. cbn [bind] in Hout, Hout'.
  destruct (local_pair_linear Hfc Hp Hld Hout Hout') as [Ho [_ Hagree]].
  intros b Hb. apply Hagree. destruct Ho as [_ [HBo _]]. now rewrite HBo.
Qed.

(** C2. On a well-formed model, token ids within the vocabularies, a
    non-empty batch and sequences no longer than the positional table,
    [forward] succeeds; it embeds and positionally encodes both
    sequences, runs the encoder stack with query = key = value = source,
    runs the decoder stack with the evolving target as query and the
    final encoder output as key and value, and returns the linear
    projection, without activation, of shape
    (batch, target_len, tgt_vocab_size).  The decoder has no attention
    over the target: the logits at a target position are the same for
    every target sequence with the same token at that position. *)
Theorem Transformer_forward_spec :
  forall (m : Transformer.t) (mode : Mode) (src tgt : ZMat)
         (src_mask tgt_mask : option ZMat) (B Ls T : nat),
    wfTransformer m = true ->
    wfZMat src = true -> wfZMat tgt = true ->
    ids_in_range (num_embeddings (Transformer.src_embedding m)) src = true ->
    ids_in_range (num_embeddings (Transformer.tgt_embedding m)) tgt = true ->
    znrows src = B -> znrows tgt = B -> 0 < B ->
    zcols src = Ls -> zcols tgt = T ->
    Ls <= PositionalEncoding.max_len (Transformer.positional_encoding m) ->
    T <= PositionalEncoding.max_len (Transformer.positional_encoding m) ->
    mask_fits src_mask Ls Ls = true -> mask_fits tgt_mask T Ls = true ->
    exists out,
      Transformer.forward m mode src tgt src_mask tgt_mask = Ok out /\
      forward_contract m mode src tgt src_mask tgt_mask out /\
      t3_shape out = (B, T, out_features (Transformer.fc_out m)) /\
      wfT3 out = true /\
      (forall (tgt' : ZMat) (out' : T3) (p : nat),
         wfZMat tgt' = true ->
         ids_in_range (num_embeddings (Transformer.tgt_embedding m)) tgt' = true ->
         znrows tgt' = B -> zcols tgt' = T -> p < T ->
         (forall b, b < B ->
            nth p (nth b (zrows tgt) []) 0%Z = nth p (nth b (zrows tgt') []) 0%Z) ->
         Transformer.forward m mode src tgt' src_mask tgt_mask = Ok out' ->
         forall b, b < B -> row_at out b p = row_at out' b p).
Proof.
  intros m mode src tgt sm tm B Ls T Hm Hsrc Htgt Hrs Hrt HBs HBt HB HS HT HSm HTm Hsm Htm.
  destruct (@Transformer_forward_shape m mode src tgt sm tm B Ls T) as [out [Hout Hs]];
    auto.
  exists out. split; [exact Hout |]. split; [now apply forward_ok_contract |].
  destruct Hs as [Hwf [Hb [Hl Hw]]]. unfold t3_shape. rewrite Hb, Hl, Hw.
  split; [reflexivity | split; [assumption |]].
  intros tgt' out' p Htgt' Hrt' HBt' HT' Hp Hag Hout'.
  eapply Transformer_forward_position_local
    with (src := src) (tgt := tgt) (tgt' := tgt'); eauto.
Qed.

Lemma Transformer_forward_spec_witness :
  exists out,
    Transformer.forward sample_model Eval sample_src sample_tgt None None = Ok out /\
    forward_contract sample_model Eval sample_src sample_tgt None None out /\
    t3_shape out = (1, 3, out_features (Transformer.fc_out sample_model)) /\
    wfT3 out = true /\
    (forall (tgt' : ZMat) (out' : T3) (p : nat),
       wfZMat tgt' = true ->
       ids_in_range (num_embeddings (Transformer.tgt_embedding sample_model)) tgt' = true ->
       znrows tgt' = 1 -> zcols tgt' = 3 -> p < 3 ->
       (forall b, b < 1 ->
          nth p (nth b (zrows sample_tgt) []) 0%Z = nth p (nth b (zrows tgt') []) 0%Z) ->
       Transformer.forward sample_model Eval sample_src tgt' None None = Ok out' ->
       forall b, b < 1 -> row_at out b p = row_at out' b p).
Proof.
  apply (@Transformer_forward_spec sample_model Eval sample_src sample_tgt None None 1 2 3);
    try reflexivity; simpl; lia.
Defined.

(** * Further properties of the code *)

(** ** encode_sentences *)

Lemma pad_row_padded (maxlen pv : Z) (s : list Z) :
  (0 <= maxlen)%Z ->
  pad_row maxlen pv s = padded_row (Z.to_nat maxlen) pv s.
Proof.
  intros Hm. unfold padded_row.
  destruct (Z_lt_le_dec maxlen (Z.of_nat (length s))) as [Hlt | Hle].
  - rewrite pad_row_long by lia.
    replace (Z.to_nat maxlen - length s) with 0 by lia.
    cbn. now rewrite app_nil_r.
  - rewrite pad_row_short by lia.
    rewrite firstn_all2 by lia. reflexivity.
Qed.

Lemma padded_row_length (n : nat) (pv : Z) (s : list Z) :
  length (padded_row n pv s) = n.
Proof.
  unfold padded_row. rewrite length_app, length_firstn, repeat_length. lia.
Qed.

Lemma pad_sequences_rows (seqs : list (list Z)) (maxlen pv : Z) :
  (0 <= maxlen)%Z ->
  pad_sequences seqs maxlen pv = Ok (map (padded_row (Z.to_nat maxlen) pv) seqs).
Proof.
  intros Hm. unfold pad_sequences, np_array.
  rewrite (@same_lengths_const Z (Z.to_nat maxlen)).
  - f_equal. apply map_ext. intros s. now apply pad_row_padded.
  - apply Forall_forall. intros r Hr. apply in_map_iff in Hr.
    destruct Hr as [s [<- _]]. now apply pad_row_length.
Qed.

Lemma padded_row_in_range (V n : nat) (s : list Z) :
  0 < V ->
  forallb (id_in_range V) s = true ->
  forallb (id_in_range V) (padded_row n 0%Z s) = true.
Proof.
  intros HV Hs. unfold padded_row. rewrite forallb_app. apply andb_true_iff. split.
  - apply forallb_forall. intros x Hx.
    rewrite forallb_forall in Hs. apply Hs. now apply In_firstn in Hx.
  - apply forallb_forall. intros x Hx. apply repeat_spec in Hx. subst x.
    unfold id_in_range. apply andb_true_iff. split.
    + reflexivity.
    + apply Z.ltb_lt. lia.
Qed.

(** X1. For a non-negative [max_len], [encode_sentences] never raises and
    returns one row per sentence; each row has exactly [max_len] ids: the
    first [max_len] token ids of its sentence, followed by zeros.  Rows of
    a tokenizer whose ids lie in [0, V) stay in that range. *)
Theorem encode_sentences_rows {Sentence : Type} (encode : Sentence -> list Z)
    (sentences : list Sentence) (max_len : Z) (V : nat) :
  (0 <= max_len)%Z -> 0 < V ->
  (forall s, In s sentences -> forallb (id_in_range V) (encode s) = true) ->
  exists rows,
    encode_sentences encode sentences max_len = Ok rows /\
    length rows = length sentences /\
    (forall i d, i < length sentences ->
       nth i rows []
       = firstn (Z.to_nat max_len) (encode (nth i sentences d))
         ++ repeat 0%Z (Z.to_nat max_len - length (encode (nth i sentences d)))) /\
    Forall (fun r => length r = Z.to_nat max_len
                     /\ forallb (id_in_range V) r = true) rows.
Proof.
  intros Hm HV Hids.
  exists (map (padded_row (Z.to_nat max_len) 0%Z) (map encode sentences)).
  split; [| split; [| split]].
  - unfold encode_sentences. now apply pad_sequences_rows.
  - now rewrite !length_map.
  - intros i d Hi. rewrite map_map.
    rewrite (nth_indep _ [] (padded_row (Z.to_nat max_len) 0%Z (encode d)))
      by now rewrite length_map.
    now rewrite (map_nth (fun s => padded_row (Z.to_nat max_len) 0%Z (encode s))).
  - apply Forall_forall. intros r Hr. rewrite map_map in Hr.
    apply in_map_iff in Hr. destruct Hr as [s [<- Hs]]. split.
    + apply padded_row_length.
    + apply padded_row_in_range; auto.
Qed.

Lemma encode_sentences_rows_witness :
  exists rows,
    encode_sentences (fun s : list Z => s) [[5; 6; 7]%Z; [8]%Z] 2 = Ok rows /\
    length rows = 2 /\
    (forall i d, i < 2 ->
       nth i rows []
       = firstn (Z.to_nat 2) (nth i [[5; 6; 7]%Z; [8]%Z] d)
         ++ repeat 0%Z (Z.to_nat 2 - length (nth i [[5; 6; 7]%Z; [8]%Z] d))) /\
    Forall (fun r => length r = Z.to_nat 2
                     /\ forallb (id_in_range 9) r = true) rows.
Proof.
  apply (@encode_sentences_rows (list Z) (fun s => s) [[5; 6; 7]%Z; [8]%Z] 2 9).
  - lia.
  - lia.
  - intros s [<- | [<- | []]]; reflexivity.
Defined.

(** ** TranslationDataset *)

Lemma np_getitem_in {A : Type} (a : list A) (i : nat) (d : A) :
  i < length a -> np_getitem a (Z.of_nat i) = Ok (nth i a d).
Proof.
  intros Hi. unfold np_getitem.
  destruct (Z.ltb_spec (Z.of_nat i) 0); [lia |].
  destruct (Z.leb_spec 0 (Z.of_nat i)); [| lia].
  destruct (Z.ltb_spec (Z.of_nat i) (Z.of_nat (length a))); [| lia].
  cbn [andb]. rewrite Nat2Z.id.
  destruct (nth_error a i) as [x |] eqn:E.
  - now rewrite (nth_error_nth _ _ d E).
  - apply nth_error_None in E. lia.
Qed.

Lemma np_getitem_negative {A : Type} (a : list A) (idx : Z) :
  (- Z.of_nat (length a) <= idx < 0)%Z ->
  np_getitem a idx = np_getitem a (idx + Z.of_nat (length a)).
Proof.
  intros H. unfold np_getitem.
  destruct (Z.ltb_spec idx 0); [| lia].
  destruct (Z.ltb_spec (idx + Z.of_nat (length a)) 0); [lia |].
  reflexivity.
Qed.

Lemma np_getitem_out {A : Type} (a : list A) (idx : Z) :
  (idx < - Z.of_nat (length a) \/ Z.of_nat (length a) <= idx)%Z ->
  np_getitem a idx = Raise IndexError.
Proof.
  intros H. unfold np_getitem.
  destruct (Z.ltb_spec idx 0).
  - destruct (Z.leb_spec 0 (idx + Z.of_nat (length a))); [| reflexivity].
    destruct (Z.ltb_spec (idx + Z.of_nat (length a)) (Z.of_nat (length a)));
      [lia | reflexivity].
  - destruct (Z.leb_spec 0 idx); [| reflexivity].
    destruct (Z.ltb_spec idx (Z.of_nat (length a))); [lia | reflexivity].
Qed.

Lemma torch_tensor_int64 (row : list Z) :
  row <> [] -> forallb fits_int64 row = true ->
  torch_tensor row = Ok (mkTyped int64 row).
Proof.
  intros Hne Hfit. unfold torch_tensor.
  destruct row; [congruence |]. now rewrite Hfit.
Qed.

Lemma torch_tensor_fits (row : list Z) :
  forallb fits_int64 row = true -> exists t, torch_tensor row = Ok t.
Proof.
  intros Hfit. unfold torch_tensor. destruct row; [eexists; reflexivity |].
  rewrite Hfit. eexists. reflexivity.
Qed.

(** X2. On a dataset with as many target rows as source rows ([n] of
    each), [__getitem__] returns, for [0 <= idx < n], the pair of int64
    tensors that hold the rows at [idx], these rows being rows of one or
    more ids within int64; it reads a negative index from the end, and
    raises IndexError outside [-n, n). *)
Theorem TranslationDataset_getitem_spec (src tgt : list (list Z)) (n : nat) :
  length src = n -> length tgt = n ->
  let d := TranslationDataset.init src tgt in
  TranslationDataset.len d = n /\
  (forall i, i < n ->
     nth i src [] <> [] -> nth i tgt [] <> [] ->
     forallb fits_int64 (nth i src []) = true ->
     forallb fits_int64 (nth i tgt []) = true ->
     TranslationDataset.getitem d (Z.of_nat i)
     = Ok (mkTyped int64 (nth i src []), mkTyped int64 (nth i tgt []))) /\
  (forall idx, (- Z.of_nat n <= idx < 0)%Z ->
     TranslationDataset.getitem d idx
     = TranslationDataset.getitem d (idx + Z.of_nat n)) /\
  (forall idx, (idx < - Z.of_nat n \/ Z.of_nat n <= idx)%Z ->
     TranslationDataset.getitem d idx = Raise IndexError).
Proof.
  intros Hs Ht d. unfold d, TranslationDataset.getitem, TranslationDataset.len.
  cbn [TranslationDataset.init TranslationDataset.source_sentences
       TranslationDataset.target_sentences].
  split; [exact Hs | split; [| split]].
  - intros i Hi Hns Hnt Hfs Hft.
    rewrite (np_getitem_in src [] (i := i)) by lia. cbn [bind].
    rewrite torch_tensor_int64 by assumption. cbn [bind].
    rewrite (np_getitem_in tgt [] (i := i)) by lia. cbn [bind].
    rewrite torch_tensor_int64 by assumption. reflexivity.
  - intros idx Hidx.
    rewrite (np_getitem_negative src) by lia.
    rewrite (np_getitem_negative tgt) by lia.
    now rewrite Hs, Ht.
  - intros idx Hidx. rewrite np_getitem_out by lia. reflexivity.
Qed.

Lemma TranslationDataset_getitem_spec_witness :
  let d := TranslationDataset.init [[1; 2]%Z; [3; 4]%Z] [[5]%Z; [6]%Z] in
  TranslationDataset.len d = 2 /\
  (forall i, i < 2 ->
     nth i [[1; 2]%Z; [3; 4]%Z] [] <> [] -> nth i [[5]%Z; [6]%Z] [] <> [] ->
     forallb fits_int64 (nth i [[1; 2]%Z; [3; 4]%Z] []) = true ->
     forallb fits_int64 (nth i [[5]%Z; [6]%Z] []) = true ->
     TranslationDataset.getitem d (Z.of_nat i)
     = Ok (mkTyped int64 (nth i [[1; 2]%Z; [3; 4]%Z] []),
           mkTyped int64 (nth i [[5]%Z; [6]%Z] []))) /\
  (forall idx, (- Z.of_nat 2 <= idx < 0)%Z ->
     TranslationDataset.getitem d idx
     = TranslationDataset.getitem d (idx + Z.of_nat 2)) /\
  (forall idx, (idx < - Z.of_nat 2 \/ Z.of_nat 2 <= idx)%Z ->
     TranslationDataset.getitem d idx = Raise IndexError).
Proof.
  apply (@TranslationDataset_getitem_spec [[1; 2]%Z; [3; 4]%Z] [[5]%Z; [6]%Z] 2);
    reflexivity.
Defined.

(** X3. [__len__] counts the source rows only: on a dataset with fewer
    target rows than source rows, [__getitem__] raises IndexError at every
    index from the number of target rows on, inside its own range, the
    source row at that index holding ids within int64. *)
Theorem TranslationDataset_short_target (src tgt : list (list Z)) (i : nat) :
  length tgt <= i < length src ->
  forallb fits_int64 (nth i src []) = true ->
  let d := TranslationDataset.init src tgt in
  i < TranslationDataset.len d /\
  TranslationDataset.getitem d (Z.of_nat i) = Raise IndexError.
Proof.
  intros Hi Hfit d. split.
  - unfold d, TranslationDataset.len. cbn. lia.
  - unfold d, TranslationDataset.getitem.
    cbn [TranslationDataset.init TranslationDataset.source_sentences
         TranslationDataset.target_sentences].
    rewrite (np_getitem_in src [] (i := i)) by lia. cbn [bind].
    destruct (torch_tensor_fits _ Hfit) as [t ->]. cbn [bind].
    rewrite np_getitem_out by lia. reflexivity.
Qed.

Lemma TranslationDataset_short_target_witness :
  let d := TranslationDataset.init [[1]%Z; [2]%Z] [[3]%Z] in
  1 < TranslationDataset.len d /\
  TranslationDataset.getitem d (Z.of_nat 1) = Raise IndexError.
Proof.
  apply (@TranslationDataset_short_target [[1]%Z; [2]%Z] [[3]%Z] 1).
  - cbn. lia.
  - reflexivity.
Defined.

(** ** collate_fn *)

Lemma list_max_in (l : list nat) : l <> [] -> In (list_max l) l.
Proof.
  induction l as [| a l IH]; [congruence |]. intros _.
  destruct l as [| b l'].
  - cbn. left. lia.
  - change (list_max (a :: b :: l')) with (Nat.max a (list_max (b :: l'))).
    destruct (Nat.max_spec a (list_max (b :: l'))) as [[_ ->] | [_ ->]].
    + right. apply IH. congruence.
    + now left.
Qed.




(** ** DataLoader *)

Lemma mapM_ok_map {A B : Type} (f : A -> result B) (g : A -> B) (l : list A) :
  (forall x, In x l -> f x = Ok (g x)) -> mapM f l = Ok (map g l).
Proof.
  induction l as [| a l IH]; intros H; [reflexivity |].
  cbn [mapM map]. rewrite (H a) by now left. cbn [bind].
  rewrite IH by (intros x Hx; apply H; now right). reflexivity.
Qed.

Lemma ceil_div_bounds (n b : nat) :
  0 < b ->
  n <= (n + b - 1) / b * b /\
  (forall k, k < (n + b - 1) / b -> k * b < n).
Proof.
  intros Hb.
  pose proof (Nat.div_mod_eq (n + b - 1) b) as E.
  pose proof (Nat.mod_upper_bound (n + b - 1) b ltac:(lia)) as U.
  split.
  - nia.
  - intros k Hk. nia.
Qed.

Lemma chunks_concat {A : Type} (f : nat -> A) (n b : nat) : forall K,
  concat (map (fun k => map f (seq (k * b) (Nat.min b (n - k * b)))) (seq 0 K))
  = map f (seq 0 (Nat.min n (K * b))).
Proof.
  induction K as [| K IH].
  - cbn. now rewrite Nat.min_0_r.
  - rewrite seq_S, map_app, concat_app, IH. cbn [map concat plus].
    rewrite app_nil_r, <- map_app. f_equal.
    destruct (Nat.le_gt_cases (K * b) n) as [Hle | Hgt].
    + replace (Nat.min n (K * b)) with (K * b) by lia.
      replace (Nat.min n (S K * b)) with (K * b + Nat.min b (n - K * b)) by lia.
      now rewrite seq_app.
    + replace (Nat.min b (n - K * b)) with 0 by lia.
      replace (Nat.min n (K * b)) with n by lia.
      replace (Nat.min n (S K * b)) with n by lia.
      cbn. now rewrite app_nil_r.
Qed.

Lemma pad_sequence_uniform (rows : list (list Z)) (L : nat) (pv : Z) :
  rows <> [] ->
  Forall (fun r => length r = L) rows ->
  pad_sequence rows pv = Ok (mkZMat L rows).
Proof.
  intros Hne Hall.
  assert (Hmax : list_max (map (@length Z) rows) = L).
  { pose proof (list_max_in (l := map (@length Z) rows)) as Hin.
    assert (Hne' : map (@length Z) rows <> []) by (destruct rows; cbn; congruence).
    specialize (Hin Hne'). apply in_map_iff in Hin.
    destruct Hin as [r [Hr Hin]]. rewrite Forall_forall in Hall.
    rewrite <- Hr. now apply Hall. }
  destruct rows as [| r0 rest]; [congruence |].
  unfold pad_sequence. rewrite Hmax. f_equal. f_equal.
  rewrite <- (map_id (r0 :: rest)) at 2. apply map_ext_in.
  intros r Hr. rewrite Forall_forall in Hall. rewrite (Hall r Hr), Nat.sub_diag.
  cbn. apply app_nil_r.
Qed.

(** The batch a run of [c] consecutive indices from [a] on gives. *)
Lemma batch_of_indices (src tgt : list (list Z)) (n Ls Lt a c : nat) :
  length src = n -> length tgt = n ->
  Forall (fun r => length r = Ls) src -> Forall (fun r => length r = Lt) tgt ->
  0 < Ls -> 0 < Lt ->
  Forall (fun r => forallb fits_int64 r = true) src ->
  Forall (fun r => forallb fits_int64 r = true) tgt ->
  0 < c -> a + c <= n ->
  (batch <- mapM (fun i => TranslationDataset.getitem
                             (TranslationDataset.init src tgt) (Z.of_nat i))
                 (seq a c) ;;
   collate_items batch)
  = Ok (int64_batch (mkZMat Ls (map (fun i => nth i src []) (seq a c)),
                     mkZMat Lt (map (fun i => nth i tgt []) (seq a c)))).
Proof.
  intros Hs Ht Fs Ft HLs HLt Is It Hc Hac.
  rewrite Forall_forall in Fs, Ft, Is, It.
  rewrite (mapM_ok_map _ (fun i => (mkTyped int64 (nth i src []),
                                    mkTyped int64 (nth i tgt [])))).
  2:{ intros i Hi. apply in_seq in Hi.
      assert (Hsi : In (nth i src []) src) by (apply nth_In; lia).
      assert (Hti : In (nth i tgt []) tgt) by (apply nth_In; lia).
      unfold TranslationDataset.getitem.
      cbn [TranslationDataset.init TranslationDataset.source_sentences
           TranslationDataset.target_sentences].
      rewrite (np_getitem_in src [] (i := i)) by lia. cbn [bind].
      rewrite torch_tensor_int64;
        [| intros E; specialize (Fs _ Hsi); rewrite E in Fs; cbn in Fs; lia
         | now apply Is].
      cbn [bind].
      rewrite (np_getitem_in tgt [] (i := i)) by lia. cbn [bind].
      rewrite torch_tensor_int64;
        [| intros E; specialize (Ft _ Hti); rewrite E in Ft; cbn in Ft; lia
         | now apply It].
      reflexivity. }
  cbn [bind]. unfold collate_items. rewrite map_map. cbn [fst snd values].
  assert (Hcol : collate_fn (map (fun i => (nth i src [], nth i tgt [])) (seq a c))
                 = Ok (mkZMat Ls (map (fun i => nth i src []) (seq a c)),
                       mkZMat Lt (map (fun i => nth i tgt []) (seq a c)))).
  { assert (Hne : map (fun i => (nth i src [], nth i tgt [])) (seq a c) <> []).
    { destruct c; [lia |]. cbn. congruence. }
    unfold collate_fn.
    destruct (map (fun i => (nth i src [], nth i tgt [])) (seq a c)) as [| p0 rest] eqn:E;
      [congruence |].
    rewrite <- E, !map_map. cbn [fst snd].
    rewrite (@pad_sequence_uniform _ Ls).
    - rewrite (@pad_sequence_uniform _ Lt).
      + reflexivity.
      + destruct c; [lia |]. cbn. congruence.
      + apply Forall_forall. intros r Hr. apply in_map_iff in Hr.
        destruct Hr as [i [<- Hi]]. apply in_seq in Hi.
        apply Ft. apply nth_In. lia.
    - destruct c; [lia |]. cbn. congruence.
    - apply Forall_forall. intros r Hr. apply in_map_iff in Hr.
      destruct Hr as [i [<- Hi]]. apply in_seq in Hi.
      apply Fs. apply nth_In. lia. }
  rewrite Hcol. cbn [bind].
  destruct c as [| c]; [lia |]. reflexivity.
Qed.

Lemma DataLoader_batches_uniform (src tgt : list (list Z)) (n Ls Lt b : nat) :
  length src = n -> length tgt = n ->
  Forall (fun r => length r = Ls) src -> Forall (fun r => length r = Lt) tgt ->
  0 < Ls -> 0 < Lt ->
  Forall (fun r => forallb fits_int64 r = true) src ->
  Forall (fun r => forallb fits_int64 r = true) tgt ->
  0 < b ->
  DataLoader.batches (DataLoader.mk (TranslationDataset.init src tgt) b)
  = Ok (map int64_batch (uniform_batches src tgt n Ls Lt b)).
Proof.
  intros Hs Ht Fs Ft HLs HLt Is It Hb.
  unfold DataLoader.batches, batch_indices, uniform_batches.
  cbn [DataLoader.dataset DataLoader.batch_size].
  unfold TranslationDataset.len.
  cbn [TranslationDataset.init TranslationDataset.source_sentences].
  rewrite Hs.
  rewrite (mapM_ok_map _
             (fun idxs => int64_batch (mkZMat Ls (map (fun i => nth i src []) idxs),
                                       mkZMat Lt (map (fun i => nth i tgt []) idxs)))).
  - rewrite !map_map. reflexivity.
  - intros idxs Hin. apply in_map_iff in Hin. destruct Hin as [k [<- Hk]].
    apply in_seq in Hk.
    destruct (ceil_div_bounds n Hb) as [_ Hlt].
    assert (Hkn : k * b < n) by (apply Hlt; lia).
    apply (batch_of_indices (n := n)); auto; lia.
Qed.

Lemma uniform_batches_rows (src tgt : list (list Z)) (n Ls Lt b : nat) :
  length src = n -> length tgt = n -> 0 < b ->
  batch_rows fst (uniform_batches src tgt n Ls Lt b) = src /\
  batch_rows snd (uniform_batches src tgt n Ls Lt b) = tgt.
Proof.
  intros Hs Ht Hb. unfold batch_rows, uniform_batches. rewrite !map_map.
  cbn [fst snd zrows].
  destruct (ceil_div_bounds n Hb) as [Hge _].
  rewrite !chunks_concat.
  replace (Nat.min n ((n + b - 1) / b * b)) with n by lia.
  split.
  - rewrite <- Hs. symmetry. apply list_as_map_nth.
  - rewrite <- Ht. symmetry. apply list_as_map_nth.
Qed.

Lemma uniform_batches_shapes (src tgt : list (list Z)) (n Ls Lt b : nat) :
  length src = n -> length tgt = n ->
  Forall (fun r => length r = Ls) src -> Forall (fun r => length r = Lt) tgt ->
  0 < b ->
  Forall (fun p =>
            0 < znrows (fst p) <= b /\ znrows (snd p) = znrows (fst p) /\
            zcols (fst p) = Ls /\ zcols (snd p) = Lt /\
            wfZMat (fst p) = true /\ wfZMat (snd p) = true /\
            incl (zrows (fst p)) src /\ incl (zrows (snd p)) tgt)
         (uniform_batches src tgt n Ls Lt b).
Proof.
  intros Hs Ht Fs Ft Hb. apply Forall_forall. intros p Hp.
  unfold uniform_batches in Hp. apply in_map_iff in Hp.
  destruct Hp as [k [<- Hk]]. apply in_seq in Hk.
  destruct (ceil_div_bounds n Hb) as [_ Hlt].
  assert (Hkn : k * b < n) by (apply Hlt; lia).
  cbn [fst snd]. unfold znrows, wfZMat. cbn [zrows zcols].
  rewrite !length_map, !length_seq.
  rewrite Forall_forall in Fs, Ft.
  repeat split; try lia.
  - apply forallb_forall. intros r Hr. apply in_map_iff in Hr.
    destruct Hr as [i [<- Hi]]. apply in_seq in Hi. apply Nat.eqb_eq.
    apply Fs. apply nth_In. lia.
  - apply forallb_forall. intros r Hr. apply in_map_iff in Hr.
    destruct Hr as [i [<- Hi]]. apply in_seq in Hi. apply Nat.eqb_eq.
    apply Ft. apply nth_In. lia.
  - intros r Hr. apply in_map_iff in Hr.
    destruct Hr as [i [<- Hi]]. apply in_seq in Hi. apply nth_In. lia.
  - intros r Hr. apply in_map_iff in Hr.
    destruct Hr as [i [<- Hi]]. apply in_seq in Hi. apply nth_In. lia.
Qed.

(** X5. The main workflow's loader: over [n] aligned source and target
    rows of one positive length each, holding ids within int64,
    [DataLoader(TranslationDataset(src, tgt), batch_size, collate_fn)]
    never raises.  One pass yields [len(dataloader)] batches of int64
    tensors, none of them empty and none with more than [batch_size]
    examples; the dynamic padding adds nothing (every batch keeps the row
    lengths of the data), and the rows of the batches, read in order, are
    the rows of the data: every example is seen exactly once per pass. *)
Theorem DataLoader_batches_spec (src tgt : list (list Z)) (n Ls Lt : nat)
    (batch_size : Z) :
  length src = n -> length tgt = n ->
  Forall (fun r => length r = Ls) src -> Forall (fun r => length r = Lt) tgt ->
  0 < Ls -> 0 < Lt ->
  Forall (fun r => forallb fits_int64 r = true) src ->
  Forall (fun r => forallb fits_int64 r = true) tgt ->
  (0 < batch_size)%Z ->
  exists dl bs,
    DataLoader.init (TranslationDataset.init src tgt) batch_size = Ok dl /\
    DataLoader.batches dl = Ok (map int64_batch bs) /\
    length bs = DataLoader.len dl /\
    (length bs = 0 <-> n = 0) /\
    Forall (fun p =>
              (0 < Z.of_nat (znrows (fst p)) <= batch_size)%Z /\
              znrows (snd p) = znrows (fst p) /\
              zcols (fst p) = Ls /\ zcols (snd p) = Lt /\
              wfZMat (fst p) = true /\ wfZMat (snd p) = true) bs /\
    batch_rows fst bs = src /\ batch_rows snd bs = tgt.
Proof.
  intros Hs Ht Fs Ft HLs HLt Is It Hb.
  set (b := Z.to_nat batch_size).
  assert (Hb' : 0 < b) by (unfold b; lia).
  exists (DataLoader.mk (TranslationDataset.init src tgt) b),
         (uniform_batches src tgt n Ls Lt b).
  split; [| split; [| split; [| split; [| split]]]].
  - unfold DataLoader.init. destruct (Z.leb_spec batch_size 0); [lia | reflexivity].
  - now apply DataLoader_batches_uniform.
  - unfold uniform_batches, DataLoader.len, TranslationDataset.len.
    cbn [DataLoader.dataset DataLoader.batch_size TranslationDataset.init
         TranslationDataset.source_sentences].
    now rewrite length_map, length_seq, Hs.
  - unfold uniform_batches. rewrite length_map, length_seq.
    destruct (ceil_div_bounds n Hb') as [Hge Hlt]. split.
    + intros E. rewrite E in Hge. lia.
    + intros ->. replace (0 + b - 1) with (b - 1) by lia.
      apply Nat.div_small. lia.
  - pose proof (uniform_batches_shapes (n := n) Hs Ht Fs Ft Hb') as HF.
    rewrite Forall_forall in HF. apply Forall_forall. intros p Hp.
    destruct (HF p Hp) as [H1 [H2 [H3 [H4 [H5 [H6 _]]]]]].
    repeat split; auto; unfold b in H1; lia.
  - now apply uniform_batches_rows.
Qed.

Lemma DataLoader_batches_spec_witness :
  exists dl bs,
    DataLoader.init
      (TranslationDataset.init [[1; 2]%Z; [3; 4]%Z; [5; 6]%Z] [[7]%Z; [8]%Z; [9]%Z]) 2
    = Ok dl /\
    DataLoader.batches dl = Ok (map int64_batch bs) /\
    length bs = DataLoader.len dl /\
    (length bs = 0 <-> 3 = 0) /\
    Forall (fun p =>
              (0 < Z.of_nat (znrows (fst p)) <= 2)%Z /\
              znrows (snd p) = znrows (fst p) /\
              zcols (fst p) = 2 /\ zcols (snd p) = 1 /\
              wfZMat (fst p) = true /\ wfZMat (snd p) = true) bs /\
    batch_rows fst bs = [[1; 2]%Z; [3; 4]%Z; [5; 6]%Z] /\
    batch_rows snd bs = [[7]%Z; [8]%Z; [9]%Z].
Proof.
  apply (@DataLoader_batches_spec [[1; 2]%Z; [3; 4]%Z; [5; 6]%Z]
           [[7]%Z; [8]%Z; [9]%Z] 3 2 1 2).
  - reflexivity.
  - reflexivity.
  - repeat constructor.
  - repeat constructor.
  - lia.
  - lia.
  - repeat constructor.
  - repeat constructor.
  - lia.
Defined.

(** ** A training step on well-formed inputs *)

Lemma tl_skipn {A : Type} (l : list A) : tl l = skipn 1 l.
Proof. destruct l; reflexivity. Qed.

Lemma cols_to_last_ok (t : ZMat) (V : nat) :
  wfZMat t = true -> ids_in_range V t = true ->
  wfZMat (cols_to t (-1)) = true /\
  znrows (cols_to t (-1)) = znrows t /\
  zcols (cols_to t (-1)) = Nat.pred (zcols t) /\
  ids_in_range V (cols_to t (-1)) = true.
Proof.
  intros Hw Hr. rewrite cols_to_last. unfold wfZMat, znrows, ids_in_range in *.
  cbn [zrows zcols]. rewrite length_map.
  rewrite forallb_forall in Hw, Hr.
  repeat split.
  - apply forallb_forall. intros r Hin. apply in_map_iff in Hin.
    destruct Hin as [r0 [<- Hin]]. apply Nat.eqb_eq.
    specialize (Hw r0 Hin). apply Nat.eqb_eq in Hw.
    rewrite removelast_firstn_len, length_firstn. lia.
  - apply forallb_forall. intros r Hin. apply in_map_iff in Hin.
    destruct Hin as [r0 [<- Hin]].
    specialize (Hr r0 Hin). rewrite forallb_forall in Hr.
    apply forallb_forall. intros x Hx. apply Hr.
    rewrite removelast_firstn_len in Hx. now apply In_firstn in Hx.
Qed.

Lemma cols_from_first_ok (t : ZMat) (V : nat) :
  wfZMat t = true -> ids_in_range V t = true ->
  length (view_flat (cols_from t 1)) = znrows t * Nat.pred (zcols t) /\
  Forall (fun c => id_in_range V c = true) (view_flat (cols_from t 1)).
Proof.
  intros Hw Hr. rewrite cols_from_first. unfold wfZMat, znrows, ids_in_range, view_flat in *.
  cbn [zrows zcols].
  rewrite forallb_forall in Hw, Hr. split.
  - rewrite (@concat_length_const _ (Nat.pred (zcols t))).
    + now rewrite length_map.
    + apply Forall_forall. intros r Hin. apply in_map_iff in Hin.
      destruct Hin as [r0 [<- Hin]].
      specialize (Hw r0 Hin). apply Nat.eqb_eq in Hw.
      rewrite tl_skipn, length_skipn. lia.
  - apply Forall_forall. intros c Hc. apply in_concat in Hc.
    destruct Hc as [r [Hin Hc]]. apply in_map_iff in Hin.
    destruct Hin as [r0 [<- Hin]].
    specialize (Hr r0 Hin). rewrite forallb_forall in Hr. apply Hr.
    rewrite tl_skipn in Hc. now apply In_skipn in Hc.
Qed.

Lemma terms_total (ig : Z) (C : nat) : forall (input : list (list R)) (target : list Z),
  Forall (fun c => id_in_range C c = true) target ->
  exists ts, CrossEntropyLoss.terms ig C input target = Ok ts.
Proof.
  induction input as [| x input IH]; intros target Ht.
  - exists []. destruct target; reflexivity.
  - destruct target as [| c target]; [exists []; reflexivity |].
    cbn [CrossEntropyLoss.terms].
    pose proof (Forall_inv Ht) as Hc. pose proof (Forall_inv_tail Ht) as Ht'.
    destruct (IH target Ht') as [ts E].
    destruct (c =? ig)%Z.
    + now exists ts.
    + cbn beta in Hc. rewrite Hc, E. cbn [bind]. eexists. reflexivity.
Qed.

Lemma view_rows_ok (out : T3) (B L V : nat) :
  has_shape out B L V -> 0 < V ->
  exists logits, view_rows out = Ok logits /\ nrows logits = B * L /\ ncols logits = V.
Proof.
  intros Hs HV. destruct Hs as [Hw [HB [HL HW]]].
  unfold view_rows.
  rewrite (@view_infer_ok _ (B * L)).
  - cbn [bind]. eexists. split; [reflexivity |].
    unfold nrows. cbn [mrows ncols]. rewrite split_into_length. auto.
  - repeat constructor. lia.
  - cbn [fold_right]. rewrite Z.mul_1_r, Nat2Z.id. lia.
  - cbn [fold_right]. rewrite Z.mul_1_r, Nat2Z.id.
    unfold t3_numel. rewrite HB, HL, HW. lia.
Qed.

(** The loss of a batch on a well-formed model. *)
Lemma batch_loss_ok (m : Transformer.t) (mode : Mode) (src tgt : ZMat) :
  wfTransformer m = true ->
  wfZMat src = true -> wfZMat tgt = true ->
  znrows src = znrows tgt -> 0 < znrows src ->
  ids_in_range (num_embeddings (Transformer.src_embedding m)) src = true ->
  ids_in_range (num_embeddings (Transformer.tgt_embedding m)) tgt = true ->
  ids_in_range (out_features (Transformer.fc_out m)) tgt = true ->
  0 < out_features (Transformer.fc_out m) ->
  zcols src <= PositionalEncoding.max_len (Transformer.positional_encoding m) ->
  Nat.pred (zcols tgt) <= PositionalEncoding.max_len (Transformer.positional_encoding m) ->
  exists loss, batch_loss transformer_model criterion mode src tgt m = Ok loss.
Proof.
  intros Hm Hws Hwt HB HB0 Hsr Htr Hor HV HS HT.
  destruct (@cols_to_last_ok tgt _ Hwt Htr) as [Hwi [Hni [Hci Hri]]].
  destruct (@cols_from_first_ok tgt _ Hwt Hor) as [Hlen Hin].
  unfold batch_loss, transformer_model.
  destruct (@Transformer_forward_shape m mode src (cols_to tgt (-1)) None None
              (znrows src) (zcols src) (Nat.pred (zcols tgt)))
    as [out [Eo Hso]]; auto; try lia.
  rewrite Eo. cbn [bind].
  destruct (@view_rows_ok _ _ _ _ Hso HV) as [logits [El [Hnr Hnc]]].
  rewrite El. cbn [bind].
  unfold criterion, CrossEntropyLoss.forward.
  rewrite Hnr, Hlen, <- HB, Nat.eqb_refl, Hnc.
  destruct (@terms_total 0%Z _ (mrows logits) _ Hin) as [ts Et].
  rewrite Et. cbn [bind]. eexists. reflexivity.
Qed.

(** X6. On a well-formed model, the training step on a batch of one or
    more examples, with token ids inside the vocabularies and sequences no
    longer than the positional-encoding table, never raises: the forward
    pass, the reshaping of the logits and the loss all succeed, and the
    step ends with exactly one optimizer update. *)
Theorem train_batch_succeeds :
  forall (Grads OptState : Type)
         (grad_of : Transformer.t -> (Transformer.t -> result R) -> Grads)
         (g_zero : Grads) (g_add : Grads -> Grads -> Grads)
         (opt_step : OptState -> Transformer.t -> Grads -> OptState * Transformer.t)
         (draws : nat -> nat -> nat -> nat -> nat -> bool)
         (s : TrainState Transformer.t Grads OptState) (src tgt : ZMat),
    let m := params s in
    wfTransformer m = true ->
    wfZMat src = true -> wfZMat tgt = true ->
    znrows src = znrows tgt -> 0 < znrows src ->
    ids_in_range (num_embeddings (Transformer.src_embedding m)) src = true ->
    ids_in_range (num_embeddings (Transformer.tgt_embedding m)) tgt = true ->
    ids_in_range (out_features (Transformer.fc_out m)) tgt = true ->
    0 < out_features (Transformer.fc_out m) ->
    zcols src <= PositionalEncoding.max_len (Transformer.positional_encoding m) ->
    Nat.pred (zcols tgt)
    <= PositionalEncoding.max_len (Transformer.positional_encoding m) ->
    exists s' loss,
      train_batch transformer_model criterion grad_of g_zero g_add opt_step draws
        src tgt s = (s', Ok loss) /\
      batch_loss transformer_model criterion (Train (draws (passes s))) src tgt m
        = Ok loss /\
      steps s' = S (steps s) /\
      passes s' = S (passes s).
Proof.
  intros Grads OptState grad_of g_zero g_add opt_step draws s src tgt m
         Hm Hws Hwt HB HB0 Hsr Htr Hor HV HS HT.
  destruct (@batch_loss_ok m (Train (draws (passes s))) src tgt) as [loss El]; auto.
  pose proof (train_batch_ok transformer_model criterion grad_of g_zero g_add
                opt_step draws s src tgt El) as E.
  eexists. exists loss. split; [exact E |]. split; [exact El |]. split; reflexivity.
Qed.

Lemma train_batch_succeeds_witness :
  exists s' loss,
    sample_train_batch sample_src sample_tgt sample_state = (s', Ok loss) /\
    batch_loss transformer_model criterion (Train (fun _ _ _ _ => true))
      sample_src sample_tgt sample_model = Ok loss /\
    steps s' = 1 /\ passes s' = 1.
Proof.
  apply (@train_batch_succeeds unit unit (fun _ _ => tt) tt (fun _ _ => tt)
           (fun o p _ => (o, p)) (fun _ _ _ _ _ => true) sample_state
           sample_src sample_tgt); try reflexivity.
  - cbn. lia.
  - cbn. lia.
  - cbn. lia.
  - cbn. lia.
Defined.

(** ** train_model: epochs, optimizer steps and exceptions *)

Section Epochs.
Variables Params Grads OptState : Type.
Variable model : Params -> Mode -> ZMat -> ZMat -> result T3.
Variable crit : Mat -> list Z -> result R.
Variable grad_of : Params -> (Params -> result R) -> Grads.
Variable g_zero : Grads.
Variable g_add : Grads -> Grads -> Grads.
Variable opt_step : OptState -> Params -> Grads -> OptState * Params.
Variable draws : nat -> nat -> nat -> nat -> nat -> bool.

Local Abbreviation tb := (train_batch model crit grad_of g_zero g_add opt_step draws).
Local Abbreviation bl := (batch_loop model crit grad_of g_zero g_add opt_step draws).
Local Abbreviation te := (train_epoch model crit grad_of g_zero g_add opt_step draws).
Local Abbreviation el := (epoch_loop model crit grad_of g_zero g_add opt_step draws).
Local Abbreviation tm := (train_model model crit grad_of g_zero g_add opt_step draws).

Lemma train_batch_cases (s : TrainState Params Grads OptState) src tgt :
  (exists s' loss, tb src tgt s = (s', Ok loss) /\
                   steps s' = S (steps s) /\ passes s' = S (passes s) /\
                   printed s' = printed s) \/
  (exists e, tb src tgt s
             = (mkTrainState (params s) (grads s) (opt_state s) (steps s)
                  (S (passes s)) (printed s), Raise e) /\
             batch_loss model crit (Train (draws (passes s))) src tgt (params s)
             = Raise e).
Proof.
  destruct (batch_loss model crit (Train (draws (passes s))) src tgt (params s))
    as [loss | e] eqn:E.
  - left. eexists. exists loss. split.
    + apply (train_batch_ok model crit grad_of g_zero g_add opt_step draws s src tgt E).
    + repeat split.
  - right. exists e. split; [| reflexivity].
    apply (train_batch_raise model crit grad_of g_zero g_add opt_step draws s src tgt E).
Qed.

Lemma batch_loop_counts : forall batches total (s s' : TrainState Params Grads OptState) r,
  bl batches total s = (s', Ok r) ->
  printed s' = printed s /\
  steps s' = steps s + length batches /\
  passes s' = passes s + length batches.
Proof.
  induction batches as [| [src tgt] rest IH]; intros total s s' r H.
  - cbn in H. unfold retS in H. inversion H; subst. cbn. repeat split; lia.
  - cbn [batch_loop] in H. unfold bindS in H.
    destruct (train_batch_cases s src tgt) as [[s1 [loss [E [Hst [Hpa Hpr]]]]] | [e [E _]]].
    + rewrite E in H. apply IH in H. destruct H as [H1 [H2 H3]].
      cbn [length]. repeat split; try lia. congruence.
    + rewrite E in H. congruence.
Qed.

Lemma train_epoch_counts (dl : list (ZMat * ZMat)) (s s' : TrainState Params Grads OptState) :
  te dl s = (s', Ok tt) ->
  steps s' = steps s + length dl /\
  passes s' = passes s + length dl /\
  length (printed s') = S (length (printed s)) /\
  dl <> [].
Proof.
  unfold train_epoch, bindS. intros H.
  destruct (bl dl 0%R s) as [s1 [total | e]] eqn:E; [| congruence].
  apply batch_loop_counts in E.
  destruct E as [H1 [H2 H3]].
  destruct dl as [| b rest].
  - cbn in H. unfold liftS in H. congruence.
  - cbn [length] in H. unfold getS, putS in H. inversion H; subst. cbn [steps passes printed].
    rewrite length_app, H1. cbn [length] in *.
    split; [lia | split; [lia | split; [lia | discriminate]]].
Qed.

Lemma epoch_loop_counts : forall n (dl : list (ZMat * ZMat))
    (s s' : TrainState Params Grads OptState),
  el n dl s = (s', Ok tt) ->
  steps s' = steps s + n * length dl /\
  passes s' = passes s + n * length dl /\
  length (printed s') = length (printed s) + n.
Proof.
  induction n as [| n IH]; intros dl s s' H.
  - cbn in H. unfold retS in H. inversion H; subst. lia.
  - cbn [epoch_loop] in H. unfold bindS in H.
    destruct (te dl s) as [s1 [[] | e]] eqn:E; [| congruence].
    apply train_epoch_counts in E. apply IH in H. lia.
Qed.

Lemma train_epoch_failing_batch (pre post : list (ZMat * ZMat)) (src tgt : ZMat)
    (s s1 : TrainState Params Grads OptState) (total : R) (e : exn) :
  bl pre 0%R s = (s1, Ok total) ->
  batch_loss model crit (Train (draws (passes s1))) src tgt (params s1) = Raise e ->
  te (pre ++ (src, tgt) :: post) s
  = (mkTrainState (params s1) (grads s1) (opt_state s1) (steps s1) (S (passes s1))
       (printed s1), Raise e).
Proof.
  intros Hpre Hloss. unfold train_epoch, bindS.
  assert (Hbl : forall pre' t0 (s0 : TrainState Params Grads OptState) t1,
             bl pre' t0 s0 = (s1, Ok t1) ->
             bl (pre' ++ (src, tgt) :: post) t0 s0
             = (mkTrainState (params s1) (grads s1) (opt_state s1) (steps s1)
                  (S (passes s1)) (printed s1), Raise e)).
  { induction pre' as [| [a b] pre' IH]; intros t0 s0 t1 H.
    - cbn in H. unfold retS in H. inversion H; subst.
      cbn [app batch_loop]. unfold bindS.
      now rewrite (train_batch_raise model crit grad_of g_zero g_add opt_step draws
                     s1 src tgt Hloss).
    - cbn [app batch_loop] in *. unfold bindS in *.
      destruct (tb a b s0) as [s2 [l | e2]]; [| congruence].
      now apply IH with (t1 := t1). }
  now rewrite (Hbl pre 0%R s total Hpre).
Qed.

End Epochs.

(** X7. A call of [train_model] that returns has made exactly
    [num_epochs * len(dataloader)] optimizer steps and as many forward
    passes, and has printed one loss per epoch; a negative [num_epochs]
    counts as zero. *)
Theorem train_model_counts :
  forall (Params Grads OptState : Type)
         (model : Params -> Mode -> ZMat -> ZMat -> result T3)
         (crit : Mat -> list Z -> result R)
         (grad_of : Params -> (Params -> result R) -> Grads)
         (g_zero : Grads) (g_add : Grads -> Grads -> Grads)
         (opt_step : OptState -> Params -> Grads -> OptState * Params)
         (draws : nat -> nat -> nat -> nat -> nat -> bool)
         (dataloader : list (ZMat * ZMat)) (num_epochs : Z)
         (s s' : TrainState Params Grads OptState),
    train_model model crit grad_of g_zero g_add opt_step draws dataloader num_epochs s
    = (s', Ok tt) ->
    steps s' = steps s + Z.to_nat num_epochs * length dataloader /\
    passes s' = passes s + Z.to_nat num_epochs * length dataloader /\
    length (printed s') = length (printed s) + Z.to_nat num_epochs.
Proof.
  intros Params Grads OptState model crit grad_of g_zero g_add opt_step draws
         dataloader num_epochs s s' H.
  unfold train_model in H. now apply epoch_loop_counts in H.
Qed.

Lemma train_model_counts_witness :
  exists s',
    train_model transformer_model criterion (fun _ _ => tt) tt
      (fun _ _ => tt) (fun o p _ => (o, p)) (fun _ _ _ _ _ => true)
      [(sample_src, sample_tgt); (sample_src, sample_tgt)] 2 sample_state
    = (s', Ok tt) /\
    steps s' = steps sample_state + Z.to_nat 2 * 2 /\
    passes s' = passes sample_state + Z.to_nat 2 * 2 /\
    length (printed s') = length (printed sample_state) + Z.to_nat 2.
Proof.
  destruct (train_model transformer_model criterion (fun _ _ => tt) tt
              (fun _ _ => tt) (fun o p _ => (o, p)) (fun _ _ _ _ _ => true)
              [(sample_src, sample_tgt); (sample_src, sample_tgt)] 2 sample_state)
    as [s' r] eqn:E.
  assert (Hr : r = Ok tt).
  { change r with (snd (s', r)). rewrite <- E. reflexivity. }
  subst r. exists s'. split; [reflexivity |].
  apply (@train_model_counts Transformer.t unit unit transformer_model criterion
           (fun _ _ => tt) tt (fun _ _ => tt) (fun o p _ => (o, p))
           (fun _ _ _ _ _ => true)
           [(sample_src, sample_tgt); (sample_src, sample_tgt)] 2 sample_state s' E).
Defined.

(** X8. On a dataloader without batches, [train_model] raises
    ZeroDivisionError at the end of its first epoch, the state untouched,
    whenever [num_epochs >= 1]; with [num_epochs <= 0] it returns at once. *)
Theorem train_model_empty_dataloader :
  forall (Params Grads OptState : Type)
         (model : Params -> Mode -> ZMat -> ZMat -> result T3)
         (crit : Mat -> list Z -> result R)
         (grad_of : Params -> (Params -> result R) -> Grads)
         (g_zero : Grads) (g_add : Grads -> Grads -> Grads)
         (opt_step : OptState -> Params -> Grads -> OptState * Params)
         (draws : nat -> nat -> nat -> nat -> nat -> bool)
         (num_epochs : Z) (s : TrainState Params Grads OptState),
    train_model model crit grad_of g_zero g_add opt_step draws [] num_epochs s
    = (s, if (1 <=? num_epochs)%Z then Raise ZeroDivisionError else Ok tt).
Proof.
  intros Params Grads OptState model crit grad_of g_zero g_add opt_step draws
         num_epochs s.
  unfold train_model.
  destruct (Z.leb_spec 1 num_epochs) as [H | H].
  - destruct (Z.to_nat num_epochs) as [| n] eqn:E; [lia |]. reflexivity.
  - replace (Z.to_nat num_epochs) with 0 by lia. reflexivity.
Qed.

(** X9. An exception raised by the forward pass or the loss of a batch
    ends [train_model] at that batch: the batches before it have been
    trained on (one optimizer step each), the failing batch changes no
    parameter, no later batch or epoch runs and no epoch loss is printed. *)
Theorem train_model_stops_at_failing_batch :
  forall (Params Grads OptState : Type)
         (model : Params -> Mode -> ZMat -> ZMat -> result T3)
         (crit : Mat -> list Z -> result R)
         (grad_of : Params -> (Params -> result R) -> Grads)
         (g_zero : Grads) (g_add : Grads -> Grads -> Grads)
         (opt_step : OptState -> Params -> Grads -> OptState * Params)
         (draws : nat -> nat -> nat -> nat -> nat -> bool)
         (pre post : list (ZMat * ZMat)) (src tgt : ZMat) (num_epochs : Z)
         (s s1 : TrainState Params Grads OptState) (total : R) (e : exn),
    (1 <= num_epochs)%Z ->
    batch_loop model crit grad_of g_zero g_add opt_step draws pre 0%R s
    = (s1, Ok total) ->
    batch_loss model crit (Train (draws (passes s1))) src tgt (params s1) = Raise e ->
    exists s',
      train_model model crit grad_of g_zero g_add opt_step draws
        (pre ++ (src, tgt) :: post) num_epochs s = (s', Raise e) /\
      params s' = params s1 /\
      steps s' = steps s + length pre /\
      passes s' = S (passes s + length pre) /\
      printed s' = printed s.
Proof.
  intros Params Grads OptState model crit grad_of g_zero g_add opt_step draws
         pre post src tgt num_epochs s s1 total e Hn Hpre Hloss.
  eexists. split.
  - unfold train_model.
    destruct (Z.to_nat num_epochs) as [| n] eqn:E; [lia |].
    cbn [epoch_loop]. unfold bindS.
    rewrite (@train_epoch_failing_batch _ _ _ model crit grad_of g_zero g_add opt_step
               draws pre post src tgt s s1 total e Hpre Hloss).
    reflexivity.
  - cbn [params steps passes printed].
    apply batch_loop_counts in Hpre.
    destruct Hpre as [H1 [H2 H3]].
    repeat split; try lia. exact H1.
Qed.

Lemma train_model_stops_at_failing_batch_witness :
  exists s',
    train_model transformer_model criterion (fun _ _ => tt) tt (fun _ _ => tt)
      (fun o p _ => (o, p)) (fun _ _ _ _ _ => true)
      ([] ++ (empty_batch, empty_batch) :: [(sample_src, sample_tgt)]) 1 sample_state
    = (s', Raise RuntimeError) /\
    params s' = params sample_state /\
    steps s' = steps sample_state + 0 /\
    passes s' = S (passes sample_state + 0) /\
    printed s' = printed sample_state.
Proof.
  apply (@train_model_stops_at_failing_batch Transformer.t unit unit transformer_model
           criterion (fun _ _ => tt) tt (fun _ _ => tt) (fun o p _ => (o, p))
           (fun _ _ _ _ _ => true) [] [(sample_src, sample_tgt)] empty_batch empty_batch
           1 sample_state sample_state 0%R RuntimeError).
  - lia.
  - reflexivity.
  - reflexivity.
Defined.

(** ** PositionalEncoding: the limits of the table *)

Lemma PositionalEncoding_forward_too_long (pe : PositionalEncoding.t) (x : T3) :
  1 < PositionalEncoding.max_len pe ->
  PositionalEncoding.max_len pe < t3_len x ->
  PositionalEncoding.forward pe x = Raise RuntimeError.
Proof.
  intros H1 HL. unfold PositionalEncoding.forward, t3_add. cbn [t3_len t3_width].
  replace (Nat.min (t3_len x) (PositionalEncoding.max_len pe))
    with (PositionalEncoding.max_len pe) by lia.
  unfold bdim at 1.
  destruct (Nat.eqb_spec (t3_len x) (PositionalEncoding.max_len pe)); [lia |].
  destruct (Nat.eqb_spec (t3_len x) 1); [lia |].
  destruct (Nat.eqb_spec (PositionalEncoding.max_len pe) 1); [lia |].
  reflexivity.
Qed.

Lemma Embedding_forward_len (e : Embedding) (ids : ZMat) (y : T3) :
  Embedding_forward e ids = Ok y -> t3_len y = zcols ids.
Proof.
  unfold Embedding_forward.
  destruct (forallb _ _); intros H; inversion H; reflexivity.
Qed.

Lemma Transformer_forward_long_sequence (m : Transformer.t) (mode : Mode)
    (src tgt : ZMat) (src_mask tgt_mask : option ZMat) :
  wfTransformer m = true ->
  wfZMat src = true -> wfZMat tgt = true ->
  ids_in_range (num_embeddings (Transformer.src_embedding m)) src = true ->
  ids_in_range (num_embeddings (Transformer.tgt_embedding m)) tgt = true ->
  1 < PositionalEncoding.max_len (Transformer.positional_encoding m) ->
  PositionalEncoding.max_len (Transformer.positional_encoding m) < zcols src \/
  PositionalEncoding.max_len (Transformer.positional_encoding m) < zcols tgt ->
  Transformer.forward m mode src tgt src_mask tgt_mask = Raise RuntimeError.
Proof.
  intros Hm Hws Hwt Hsr Htr H1 Hlong.
  destruct (@wfTransformer_facts m Hm) as [We [Wt [Et [Ep [Wp _]]]]].
  apply wfItem_iff in Wp.
  destruct (@Embedding_forward_shape _ _ We Hws Hsr) as [se [Ese Hse]].
  destruct (@Embedding_forward_shape _ _ Wt Hwt Htr) as [te [Ete Hte]].
  unfold Transformer.forward. rewrite Ese. cbn [bind].
  destruct (Nat.lt_ge_cases (PositionalEncoding.max_len (Transformer.positional_encoding m))
              (zcols src)) as [Hs | Hs].
  - rewrite PositionalEncoding_forward_too_long; [reflexivity | exact H1 |].
    now rewrite (@Embedding_forward_len _ _ _ Ese).
  - destruct Hlong as [Hl | Hl]; [lia |].
    rewrite <- Ep in Wp, Hse.
    destruct (@PositionalEncoding_forward_shape _ _ _ _ Wp Hse Hs) as [Eps _].
    rewrite Eps. cbn [bind]. rewrite Ete. cbn [bind].
    rewrite PositionalEncoding_forward_too_long; [reflexivity | exact H1 |].
    now rewrite (@Embedding_forward_len _ _ _ Ete).
Qed.

(** X10. The positional-encoding table bounds the sequence length: on a
    well-formed model (table of more than one position), a source or a
    target with more positions than the table makes [Transformer.forward]
    raise RuntimeError, the ids being valid. *)
Theorem Transformer_forward_too_long (m : Transformer.t) (mode : Mode)
    (src tgt : ZMat) (src_mask tgt_mask : option ZMat) :
  wfTransformer m = true ->
  wfZMat src = true -> wfZMat tgt = true ->
  ids_in_range (num_embeddings (Transformer.src_embedding m)) src = true ->
  ids_in_range (num_embeddings (Transformer.tgt_embedding m)) tgt = true ->
  1 < PositionalEncoding.max_len (Transformer.positional_encoding m) ->
  PositionalEncoding.max_len (Transformer.positional_encoding m) < zcols src \/
  PositionalEncoding.max_len (Transformer.positional_encoding m) < zcols tgt ->
  Transformer.forward m mode src tgt src_mask tgt_mask = Raise RuntimeError.
Proof.
  intros Hm Hws Hwt Hsr Htr H1 Hlong.
  destruct (@wfTransformer_facts m Hm) as [We [Wt [Et [Ep [Wp _]]]]].
  apply wfItem_iff in Wp.
  destruct (@Embedding_forward_shape _ _ We Hws Hsr) as [se [Ese Hse]].
  destruct (@Embedding_forward_shape _ _ Wt Hwt Htr) as [te [Ete Hte]].
  unfold Transformer.forward. rewrite Ese. cbn [bind].
  destruct (Nat.lt_ge_cases (PositionalEncoding.max_len (Transformer.positional_encoding m))
              (zcols src)) as [Hs | Hs].
  - rewrite PositionalEncoding_forward_too_long; [reflexivity | exact H1 |].
    now rewrite (@Embedding_forward_len _ _ _ Ese).
  - destruct Hlong as [Hl | Hl]; [lia |].
    rewrite <- Ep in Wp, Hse.
    destruct (@PositionalEncoding_forward_shape _ _ _ _ Wp Hse Hs) as [Eps _].
    rewrite Eps. cbn [bind]. rewrite Ete. cbn [bind].
    rewrite PositionalEncoding_forward_too_long; [reflexivity | exact H1 |].
    now rewrite (@Embedding_forward_len _ _ _ Ete).
Qed.

Lemma Transformer_forward_too_long_witness :
  Transformer.forward sample_model Eval (mkZMat 5 [[1; 1; 1; 1; 1]%Z]) sample_tgt
    None None = Raise RuntimeError.
Proof.
  apply (@Transformer_forward_too_long sample_model Eval
           (mkZMat 5 [[1; 1; 1; 1; 1]%Z]) sample_tgt None None); try reflexivity.
  - cbn. lia.
  - left. cbn. lia.
Defined.

(** ** PositionalEncoding: odd embedding sizes *)

Lemma odd_halves (E : nat) :
  Nat.odd E = true -> (E + 1) / 2 = S (E / 2).
Proof.
  intros Ho. apply Nat.odd_spec in Ho. destruct Ho as [k ->].
  replace (2 * k + 1 + 1) with ((k + 1) * 2) by lia.
  rewrite Nat.div_mul by lia.
  replace (2 * k + 1) with (1 + k * 2) by lia.
  rewrite Nat.div_add by lia. cbn. lia.
Qed.

Lemma PositionalEncoding_init_odd (E M : Z) :
  Z.odd E = true -> (3 <= E)%Z -> (0 < M)%Z ->
  PositionalEncoding.init E M = Raise RuntimeError.
Proof.
  intros Ho HE HM. unfold PositionalEncoding.init.
  destruct (Z.ltb_spec E 0); [lia |].
  destruct (Z.ltb_spec M 0); [lia |]. cbn [orb].
  assert (Hod : Nat.odd (Z.to_nat E) = true).
  { apply Nat.odd_spec. apply Z.odd_spec in Ho. destruct Ho as [k Hk].
    exists (Z.to_nat k). lia. }
  pose proof (@odd_halves _ Hod) as Hh.
  unfold PositionalEncoding.slice_assign at 1.
  rewrite div_term_length, Nat.eqb_refl. cbn [orb bind].
  unfold PositionalEncoding.slice_assign.
  rewrite Hh.
  destruct (Nat.eqb_spec (S (Z.to_nat E / 2)) (Z.to_nat E / 2)); [lia |].
  destruct (Nat.eqb_spec (S (Z.to_nat E / 2)) 1) as [E1 |]; [| reflexivity].
  exfalso.
  assert (Z.to_nat E / 2 = 0) by lia.
  pose proof (Nat.div_mod_eq (Z.to_nat E) 2).
  pose proof (Nat.mod_upper_bound (Z.to_nat E) 2 ltac:(lia)). lia.
Qed.

(** X11. An odd embedding size of 3 or more cannot be used: the cosine
    assignment of [PositionalEncoding.__init__] has one column too many
    for the odd slots of the table, so the constructor raises RuntimeError,
    and with it the constructor of every [Transformer] of that size. *)
Theorem PositionalEncoding_odd_embed_size
    (draw : nat -> nat -> nat -> list (list R) * list R)
    (embed_size max_len src_vocab_size tgt_vocab_size num_heads num_layers
       ff_hidden_size : Z) (dropout : R) :
  Z.odd embed_size = true -> (3 <= embed_size)%Z -> (0 < max_len)%Z ->
  PositionalEncoding.init embed_size max_len = Raise RuntimeError /\
  Transformer.init draw src_vocab_size tgt_vocab_size embed_size num_heads num_layers
    ff_hidden_size dropout = Raise RuntimeError.
Proof.
  intros Ho HE HM. split.
  - now apply PositionalEncoding_init_odd.
  - unfold Transformer.init, nn_Embedding.
    destruct (Z.ltb_spec embed_size 0); [lia |]. rewrite !orb_false_r.
    destruct (src_vocab_size <? 0)%Z; [reflexivity |]. cbn [bind].
    destruct (tgt_vocab_size <? 0)%Z; [reflexivity |]. cbn [bind].
    rewrite PositionalEncoding_init_odd; auto.
    unfold PositionalEncoding.default_max_len. lia.
Qed.

Lemma PositionalEncoding_odd_embed_size_witness :
  PositionalEncoding.init 5 1000 = Raise RuntimeError /\
  Transformer.init zero_draw 30000 30000 5 1 6 2048 0.1%R = Raise RuntimeError.
Proof.
  apply (@PositionalEncoding_odd_embed_size zero_draw 5 1000 30000 30000 1 6 2048 0.1%R).
  - reflexivity.
  - lia.
  - lia.
Defined.

(** ** PositionalEncoding: the size of the entries *)

Lemma spec_pe_entry_bound (E p d : nat) : (-1 <= spec_pe_entry E p d <= 1)%R.
Proof.
  unfold spec_pe_entry. destruct (Nat.even d).
  - apply SIN_bound.
  - apply COS_bound.
Qed.

(** X12. Every entry of the positional-encoding table lies in [-1, 1],
    and the row of position 0 alternates 0 (even dimensions) and 1 (odd
    dimensions): the encoding shifts an embedding by at most 1 in each
    coordinate, and leaves the even coordinates of the first position
    unchanged. *)
Theorem positional_encoding_bounded (E M : nat) :
  Nat.even E = true ->
  exists self,
    PositionalEncoding.init (Z.of_nat E) (Z.of_nat M) = Ok self /\
    (forall p d, p < M -> d < E ->
       (-1 <= nth d (nth p (PositionalEncoding.pe self) []) 0 <= 1)%R) /\
    (forall d, 0 < M -> d < E ->
       nth d (nth 0 (PositionalEncoding.pe self) []) 0%R
       = if Nat.even d then 0%R else 1%R).
Proof.
  intros He. eexists. split; [apply (@init_rows E M He) |].
  cbn [PositionalEncoding.pe]. split.
  - intros p d Hp Hd. rewrite table_entry by assumption. apply spec_pe_entry_bound.
  - intros d HM Hd. rewrite table_entry by assumption.
    unfold spec_pe_entry. cbn [INR]. unfold Rdiv. rewrite !Rmult_0_l.
    destruct (Nat.even d); [apply sin_0 | apply cos_0].
Qed.

Lemma positional_encoding_bounded_witness :
  exists self,
    PositionalEncoding.init (Z.of_nat 4) (Z.of_nat 3) = Ok self /\
    (forall p d, p < 3 -> d < 4 ->
       (-1 <= nth d (nth p (PositionalEncoding.pe self) []) 0 <= 1)%R) /\
    (forall d, 0 < 3 -> d < 4 ->
       nth d (nth 0 (PositionalEncoding.pe self) []) 0%R
       = if Nat.even d then 0%R else 1%R).
Proof.
  apply (@positional_encoding_bounded 4 3). reflexivity.
Defined.

(** ** greedy_decode: a larger max_len only extends the result *)

Lemma decode_loop_extends (model : ZMat -> ZMat -> result T3) (src : ZMat) (e : Z) :
  forall n k tgt l,
    decode_loop model src e n tgt = Ok l ->
    (In e (skipn (length tgt) l) ->
     decode_loop model src e (n + k) tgt = Ok l) /\
    (forall l', decode_loop model src e (n + k) tgt = Ok l' ->
                exists ext, l' = l ++ ext).
Proof.
  induction n as [| n IH]; intros k tgt l H.
  - cbn in H. inversion H; subst l. split.
    + rewrite skipn_all. intros [].
    + intros l' H'. cbn [plus] in H'.
      destruct (decode_loop_ok _ _ _ _ _ H') as [gen [-> _]]. now exists gen.
  - cbn [decode_loop plus] in H |- *.
    destruct (next_token model src tgt) as [t | x]; cbn [bind] in H |- *; [| discriminate].
    destruct (Z.eqb_spec t e) as [Heq | Hne].
    + inversion H; subst l. split.
      * reflexivity.
      * intros l' H'. inversion H'; subst l'. exists []. now rewrite app_nil_r.
    + destruct (IH k (tgt ++ [t]) l H) as [H1 H2]. split.
      * intros Hin. apply H1.
        destruct (decode_loop_ok _ _ _ _ _ H) as [gen [-> _]].
        rewrite length_app. cbn [length].
        rewrite <- app_assoc in Hin |- *.
        rewrite skipn_app, skipn_all, Nat.sub_diag in Hin. cbn [app skipn] in Hin.
        destruct Hin as [Ht | Hin]; [congruence |].
        rewrite skipn_app, skipn_all2 by lia. cbn [app].
        replace (length tgt + 1 - length tgt) with 1 by lia. exact Hin.
      * exact H2.
Qed.

(** X13. Raising [max_len] only extends the decoded sequence: what
    [greedy_decode] returns for a smaller [max_len] is a prefix of what it
    returns for a larger one, and a result that already holds the end
    token among its generated tokens is returned unchanged, without any
    further forward pass that could raise. *)
Theorem greedy_decode_monotone (model : ZMat -> ZMat -> result T3) (src : ZMat)
    (max_len max_len' start_token_id end_token_id : Z) (l : list Z) :
  (max_len <= max_len')%Z ->
  greedy_decode model src max_len start_token_id end_token_id = Ok l ->
  (In end_token_id (tl l) ->
   greedy_decode model src max_len' start_token_id end_token_id = Ok l) /\
  (forall l', greedy_decode model src max_len' start_token_id end_token_id = Ok l' ->
              exists ext, l' = l ++ ext).
Proof.
  intros Hle H. unfold greedy_decode in *.
  replace (Z.to_nat max_len')
    with (Z.to_nat max_len + (Z.to_nat max_len' - Z.to_nat max_len)) by lia.
  destruct (decode_loop_extends _ _ _ _ (Z.to_nat max_len' - Z.to_nat max_len) _ H)
    as [H1 H2].
  split; [| exact H2].
  intros Hin. apply H1. cbn [length]. now rewrite <- tl_skipn.
Qed.

Lemma greedy_decode_monotone_witness :
  (In 0%Z (tl [2; 0]%Z) ->
   greedy_decode one_class_model sample_src 5 2 0 = Ok [2; 0]%Z) /\
  (forall l', greedy_decode one_class_model sample_src 5 2 0 = Ok l' ->
              exists ext, l' = [2; 0]%Z ++ ext).
Proof.
  apply (@greedy_decode_monotone one_class_model sample_src 1 5 2 0 [2; 0]%Z).
  - lia.
  - reflexivity.
Defined.

(** ** greedy_decode on the Transformer: valid tokens *)

Lemma id_in_range_le (a b : nat) (t : Z) :
  a <= b -> id_in_range a t = true -> id_in_range b t = true.
Proof.
  unfold id_in_range. intros Hab H. apply andb_true_iff in H. destruct H as [H1 H2].
  apply Z.leb_le in H1. apply Z.ltb_lt in H2.
  apply andb_true_iff. split; [apply Z.leb_le | apply Z.ltb_lt]; lia.
Qed.

Section DecodeTokens.
Variable m : Transformer.t.
Variable src : ZMat.
Hypothesis Hm : wfTransformer m = true.
Hypothesis Hsrc : wfZMat src = true.
Hypothesis Hone : znrows src = 1.
Hypothesis Hids : ids_in_range (num_embeddings (Transformer.src_embedding m)) src = true.
Hypothesis HS : zcols src <= PositionalEncoding.max_len (Transformer.positional_encoding m).
Hypothesis HV0 : 0 < out_features (Transformer.fc_out m).
Hypothesis HV : out_features (Transformer.fc_out m)
                <= num_embeddings (Transformer.tgt_embedding m).

Lemma next_token_in_vocab (prefix : list Z) :
  prefix <> [] ->
  length prefix <= PositionalEncoding.max_len (Transformer.positional_encoding m) ->
  forallb (id_in_range (num_embeddings (Transformer.tgt_embedding m))) prefix = true ->
  exists t, next_token (transformer_model m Eval) src prefix = Ok t /\
            id_in_range (out_features (Transformer.fc_out m)) t = true.
Proof.
  intros Hne Hlen Hin. unfold next_token, transformer_model.
  assert (Hwf : wfZMat (row_tensor prefix) = true).
  { unfold row_tensor, wfZMat. cbn. now rewrite Nat.eqb_refl. }
  assert (Hr : ids_in_range (num_embeddings (Transformer.tgt_embedding m))
                 (row_tensor prefix) = true) by now rewrite ids_in_range_row.
  assert (Hpos : 0 < length prefix) by (destruct prefix; [contradiction | simpl; lia]).
  destruct (@Transformer_forward_shape m Eval src (row_tensor prefix) None None
              1 (zcols src) (length prefix)) as [out [-> Hout]]; auto.
  cbn [bind].
  destruct (@select_token out (length prefix) (out_features (Transformer.fc_out m)))
    as [t [-> Ht]]; auto.
  exists t. split; [reflexivity |]. unfold id_in_range.
  apply andb_true_iff. split; [apply Z.leb_le | apply Z.ltb_lt]; lia.
Qed.

Lemma decode_loop_in_vocab (e : Z) : forall n tgt,
  tgt <> [] ->
  length tgt + n <= S (PositionalEncoding.max_len (Transformer.positional_encoding m)) ->
  forallb (id_in_range (num_embeddings (Transformer.tgt_embedding m))) tgt = true ->
  exists gen,
    decode_loop (transformer_model m Eval) src e n tgt = Ok (tgt ++ gen) /\
    forallb (id_in_range (out_features (Transformer.fc_out m))) gen = true.
Proof.
  induction n as [| n IH]; intros tgt Hne Hlen Hin; cbn [decode_loop].
  - exists []. now rewrite app_nil_r.
  - destruct (@next_token_in_vocab tgt Hne ltac:(lia) Hin) as [t [-> Ht]].
    cbn [bind]. destruct (t =? e)%Z.
    + exists [t]. split; [reflexivity |]. cbn. now rewrite Ht.
    + destruct (IH (tgt ++ [t])) as [gen [E Hg]].
      * destruct tgt; discriminate.
      * rewrite length_app. simpl. lia.
      * apply forallb_app_one; [exact Hin |]. exact (@id_in_range_le _ _ t HV Ht).
      * exists (t :: gen). rewrite E, <- app_assoc. split; [reflexivity |].
        cbn. now rewrite Ht, Hg.
Qed.

End DecodeTokens.

(** X14. On a well-formed model, for one source sentence (possibly
    empty) of valid ids that fits the positional-encoding table, and a
    [max_len] within the table, [greedy_decode] never raises, and every
    token it generates is an id of the target vocabulary:
    [0 <= id < tgt_vocab_size]. *)
Theorem greedy_decode_tokens_in_vocab (m : Transformer.t) (src : ZMat)
    (max_len start_token_id end_token_id : Z) :
  wfTransformer m = true ->
  wfZMat src = true -> znrows src = 1 ->
  ids_in_range (num_embeddings (Transformer.src_embedding m)) src = true ->
  zcols src <= PositionalEncoding.max_len (Transformer.positional_encoding m) ->
  0 < out_features (Transformer.fc_out m) ->
  out_features (Transformer.fc_out m) <= num_embeddings (Transformer.tgt_embedding m) ->
  id_in_range (num_embeddings (Transformer.tgt_embedding m)) start_token_id = true ->
  Z.to_nat max_len <= PositionalEncoding.max_len (Transformer.positional_encoding m) ->
  exists gen,
    greedy_decode (transformer_model m Eval) src max_len start_token_id end_token_id
    = Ok (start_token_id :: gen) /\
    Forall (fun t => (0 <= t < Z.of_nat (out_features (Transformer.fc_out m)))%Z) gen.
Proof.
  intros Hm Hsrc Hone Hids HS HV0 HV Hstart Hmax. unfold greedy_decode.
  destruct (@decode_loop_in_vocab m src Hm Hsrc Hone Hids HS HV0 HV end_token_id
              (Z.to_nat max_len) [start_token_id]) as [gen [E Hg]].
  - discriminate.
  - cbn [length]. lia.
  - cbn. now rewrite Hstart.
  - exists gen. split; [exact E |].
    apply Forall_forall. intros t Ht. rewrite forallb_forall in Hg.
    specialize (Hg t Ht). unfold id_in_range in Hg.
    apply andb_true_iff in Hg. destruct Hg as [H1 H2].
    apply Z.leb_le in H1. apply Z.ltb_lt in H2. lia.
Qed.

Lemma greedy_decode_tokens_in_vocab_witness :
  exists gen,
    greedy_decode (transformer_model sample_model Eval) (mkZMat 0 [[]]) 3 2 3
    = Ok (2%Z :: gen) /\
    Forall (fun t => (0 <= t < Z.of_nat (out_features (Transformer.fc_out sample_model)))%Z)
           gen.
Proof.
  apply (@greedy_decode_tokens_in_vocab sample_model (mkZMat 0 [[]]) 3 2 3);
    try reflexivity; cbn; lia.
Defined.

(** ** ScaledDotProductAttention: masks without effect, rows without keys *)

(** The mask entry seen at (i, j) is an entry of the mask. *)
Lemma mask_entry_in (m : ZMat) (rows cols i j : nat) :
  mask_fits (Some m) rows cols = true -> i < rows -> j < cols ->
  exists row, In row (zrows m) /\ In (mask_entry m rows cols i j) row.
Proof.
  intros Hfit Hi Hj. unfold mask_fits in Hfit.
  apply andb_true_iff in Hfit. destruct Hfit as [Hfit Hc].
  apply andb_true_iff in Hfit. destruct Hfit as [Hw Hr].
  unfold wfZMat in Hw. rewrite forallb_forall in Hw.
  unfold mask_entry, znrows in *.
  assert (Hrow : In (nth i (expand [] rows (zrows m)) []) (zrows m)).
  { unfold expand. destruct (Nat.eqb_spec (length (zrows m)) rows) as [E | NE].
    - apply nth_In. lia.
    - rewrite nth_repeat_lt by lia.
      apply orb_true_iff in Hr. destruct Hr as [Hr | Hr]; [discriminate |].
      apply Nat.eqb_eq in Hr.
      destruct (zrows m) as [| r [| r' t]]; cbn in Hr; try lia. now left. }
  exists (nth i (expand [] rows (zrows m)) []). split; [exact Hrow |].
  specialize (Hw _ Hrow). apply Nat.eqb_eq in Hw.
  set (row := nth i (expand [] rows (zrows m)) []) in *.
  unfold expand. destruct (Nat.eqb_spec (length row) cols) as [E | NE].
  - apply nth_In. lia.
  - rewrite nth_repeat_lt by lia.
    apply orb_true_iff in Hc. destruct Hc as [Hc | Hc]; apply Nat.eqb_eq in Hc; [lia |].
    rewrite Hc in Hw.
    destruct row as [| x [| x' t]]; cbn in Hw; try lia. now left.
Qed.

Lemma spec_weight_ext q k mask mask' i j :
  (forall j', j' < nrows k -> spec_score q k mask i j' = spec_score q k mask' i j') ->
  j < nrows k ->
  spec_weight q k mask i j = spec_weight q k mask' i j.
Proof.
  intros H Hj. unfold spec_weight. rewrite (H j Hj). f_equal. f_equal.
  apply map_seq_ext. intros j' Hj'. rewrite H by lia. reflexivity.
Qed.

(** X15. A mask without a zero entry changes nothing: on inputs whose
    sizes agree, [forward] with such a mask returns exactly the output and
    the attention weights it returns with [mask=None]. *)
Theorem attention_mask_without_zero (q k v : Mat) (m : ZMat) :
  wfMat k = true -> ncols q = ncols k -> nrows k = nrows v ->
  mask_fits (Some m) (nrows q) (nrows k) = true ->
  Forall (Forall (fun x => x <> 0%Z)) (zrows m) ->
  ScaledDotProductAttention.forward q k v (Some m)
  = ScaledDotProductAttention.forward q k v None.
Proof.
  intros Hk Hd Hv Hfit Hnz.
  rewrite (@forward_explicit q k v (Some m) Hk Hd Hv Hfit).
  rewrite (@forward_explicit q k v None Hk Hd Hv eq_refl).
  assert (Hs : forall i j, i < nrows q -> j < nrows k ->
                 spec_score q k (Some m) i j = spec_score q k None i j).
  { intros i j Hi Hj. unfold spec_score, is_masked.
    destruct (@mask_entry_in m _ _ i j Hfit Hi Hj) as [row [Hrow Hin]].
    rewrite Forall_forall in Hnz. specialize (Hnz row Hrow).
    rewrite Forall_forall in Hnz. specialize (Hnz _ Hin).
    destruct (Z.eqb_spec (mask_entry m (nrows q) (nrows k) i j) 0); [contradiction |].
    reflexivity. }
  assert (Hw : forall i j, i < nrows q -> j < nrows k ->
                 spec_weight q k (Some m) i j = spec_weight q k None i j).
  { intros i j Hi Hj. apply spec_weight_ext; [| exact Hj].
    intros j' Hj'. now apply Hs. }
  f_equal. f_equal.
  - f_equal. apply map_seq_ext. intros i Hi. apply map_seq_ext. intros c Hc.
    unfold spec_output. f_equal. apply map_seq_ext. intros j Hj.
    rewrite Hw by lia. reflexivity.
  - f_equal. apply map_seq_ext. intros i Hi. apply map_seq_ext. intros j Hj.
    apply Hw; lia.
Qed.

Lemma attention_mask_without_zero_witness :
  ScaledDotProductAttention.forward sample_query sample_key sample_value
    (Some (mkZMat 1 [[1%Z]]))
  = ScaledDotProductAttention.forward sample_query sample_key sample_value None.
Proof.
  apply (@attention_mask_without_zero sample_query sample_key sample_value
           (mkZMat 1 [[1%Z]])); try reflexivity.
  repeat constructor; discriminate.
Defined.

Lemma vsum_const {A : Type} (c : R) (l : list A) :
  vsum (map (fun _ => c) l) = (INR (length l) * c)%R.
Proof.
  induction l as [| a l IH].
  - cbn. lra.
  - cbn [map vsum fold_right length]. fold (vsum (map (fun _ : A => c) l)).
    rewrite IH, S_INR. lra.
Qed.

Lemma vsum_scal {A : Type} (f : A -> R) (c : R) (l : list A) :
  vsum (map (fun x => (f x * c)%R) l) = (vsum (map f l) * c)%R.
Proof.
  induction l as [| a l IH].
  - cbn. lra.
  - cbn [map vsum fold_right]. fold (vsum (map (fun x => (f x * c)%R) l)).
    fold (vsum (map f l)). rewrite IH. lra.
Qed.

Lemma vsum_le {A : Type} (f g : A -> R) (l : list A) :
  (forall x, In x l -> (f x <= g x)%R) ->
  (vsum (map f l) <= vsum (map g l))%R.
Proof.
  induction l as [| a l IH]; intros H.
  - cbn. lra.
  - cbn [map vsum fold_right]. fold (vsum (map f l)). fold (vsum (map g l)).
    assert (f a <= g a)%R by (apply H; now left).
    assert (vsum (map f l) <= vsum (map g l))%R by (apply IH; intros; apply H; now right).
    lra.
Qed.

(** X16. A query whose keys are all masked out does not lose its
    attention: every score of its row is the same constant -1e9, so the
    softmax spreads the weight evenly, 1 / seq_k on every key, and the
    output row is the plain mean of the value rows. *)
Theorem attention_fully_masked_row (q k v : Mat) (m : ZMat) (i : nat) :
  wfMat k = true -> ncols q = ncols k -> nrows k = nrows v ->
  mask_fits (Some m) (nrows q) (nrows k) = true ->
  i < nrows q -> 0 < nrows k ->
  (forall j, j < nrows k -> mask_entry m (nrows q) (nrows k) i j = 0%Z) ->
  exists out att,
    ScaledDotProductAttention.forward q k v (Some m) = Ok (out, att) /\
    (forall j, j < nrows k -> mentry att i j = (1 / INR (nrows k))%R) /\
    (forall c, c < ncols v ->
       mentry out i c
       = (vsum (map (fun j => mentry v j c) (seq 0 (nrows k))) / INR (nrows k))%R).
Proof.
  intros Hk Hd Hv Hfit Hi Hpos Hmask.
  rewrite (@forward_explicit q k v (Some m) Hk Hd Hv Hfit).
  eexists. eexists. split; [reflexivity |].
  assert (Hn : (0 < INR (nrows k))%R) by (apply lt_0_INR; lia).
  assert (Hw : forall j, j < nrows k ->
                 spec_weight q k (Some m) i j = (1 / INR (nrows k))%R).
  { intros j Hj. unfold spec_weight.
    assert (Hs : forall j', j' < nrows k ->
                   spec_score q k (Some m) i j' = ScaledDotProductAttention.masked_score).
    { intros j' Hj'. unfold spec_score, is_masked. now rewrite Hmask. }
    rewrite (Hs j Hj).
    rewrite (map_seq_ext (fun j' => exp (spec_score q k (Some m) i j'))
               (fun _ => exp ScaledDotProductAttention.masked_score)).
    2:{ intros j' Hj'. rewrite Hs by lia. reflexivity. }
    rewrite vsum_const, length_seq.
    pose proof (exp_pos ScaledDotProductAttention.masked_score). field. lra. }
  split.
  - intros j Hj. rewrite mentry_map_seq by assumption. now apply Hw.
  - intros c Hc. rewrite mentry_map_seq by assumption. unfold spec_output.
    rewrite (map_seq_ext (fun j => (spec_weight q k (Some m) i j * mentry v j c)%R)
               (fun j => (mentry v j c * (1 / INR (nrows k)))%R)).
    2:{ intros j Hj. rewrite Hw by lia. lra. }
    rewrite vsum_scal. field. lra.
Qed.

Lemma attention_fully_masked_row_witness :
  exists out att,
    ScaledDotProductAttention.forward sample_query sample_key sample_value
      (Some (mkZMat 2 [[0; 0]%Z])) = Ok (out, att) /\
    (forall j, j < nrows sample_key -> mentry att 0 j = (1 / INR (nrows sample_key))%R) /\
    (forall c, c < ncols sample_value ->
       mentry out 0 c
       = (vsum (map (fun j => mentry sample_value j c) (seq 0 (nrows sample_key)))
          / INR (nrows sample_key))%R).
Proof.
  apply (@attention_fully_masked_row sample_query sample_key sample_value
           (mkZMat 2 [[0; 0]%Z]) 0); try reflexivity.
  - cbn. lia.
  - cbn. lia.
  - intros j Hj. cbn in Hj.
    destruct j as [| [| j]]; [reflexivity | reflexivity | lia].
Defined.

(** X17. The output of attention is a weighted mean of the value rows,
    with positive weights that sum to one: for d_k > 0 and whatever the
    mask, every output entry lies between the smallest and the largest
    entry of its value column. *)
Theorem attention_output_within_values (q k v : Mat) (mask : option ZMat)
    (i c : nat) (lo hi : R) :
  0 < ncols q ->
  wfMat k = true -> ncols q = ncols k -> nrows k = nrows v ->
  mask_fits mask (nrows q) (nrows k) = true ->
  i < nrows q -> c < ncols v -> 0 < nrows k ->
  (forall j, j < nrows v -> (lo <= mentry v j c <= hi)%R) ->
  exists out att,
    ScaledDotProductAttention.forward q k v mask = Ok (out, att) /\
    (lo <= mentry out i c <= hi)%R.
Proof.
  intros _ Hk Hd Hv Hfit Hi Hc Hpos Hb.
  rewrite (@forward_explicit q k v mask Hk Hd Hv Hfit).
  eexists. eexists. split; [reflexivity |].
  rewrite mentry_map_seq by assumption. unfold spec_output.
  pose proof (@spec_weight_sum q k mask i Hpos) as Hsum.
  assert (Hw : forall j, In j (seq 0 (nrows k)) -> (0 < spec_weight q k mask i j)%R).
  { intros j Hj. apply in_seq in Hj. apply spec_weight_pos. lia. }
  split.
  - replace lo with (vsum (map (fun j => spec_weight q k mask i j) (seq 0 (nrows k))) * lo)%R
      by (rewrite Hsum; lra).
    rewrite <- vsum_scal. apply vsum_le. intros j Hj.
    specialize (Hw j Hj). apply in_seq in Hj.
    destruct (Hb j ltac:(lia)) as [Hlo _]. nra.
  - replace hi with (vsum (map (fun j => spec_weight q k mask i j) (seq 0 (nrows k))) * hi)%R
      by (rewrite Hsum; lra).
    rewrite <- vsum_scal. apply vsum_le. intros j Hj.
    specialize (Hw j Hj). apply in_seq in Hj.
    destruct (Hb j ltac:(lia)) as [_ Hhi]. nra.
Qed.

Lemma attention_output_within_values_witness :
  exists out att,
    ScaledDotProductAttention.forward sample_query sample_key (mkMat 1 [[1%R]; [2%R]])
      (Some sample_mask) = Ok (out, att) /\
    (1 <= mentry out 0 0 <= 2)%R.
Proof.
  apply (@attention_output_within_values sample_query sample_key (mkMat 1 [[1%R]; [2%R]])
           (Some sample_mask) 0 0 1%R 2%R); try reflexivity.
  - cbn. lia.
  - cbn. lia.
  - cbn. lia.
  - cbn. lia.
  - intros j Hj. cbn in Hj. unfold mentry.
    destruct j as [| [| j]]; cbn; [lra | lra | lia].
Defined.

(** ** MultiHeadAttention: the batch size comes from the query *)

Lemma Linear_forward_flatten (l : Linear) (x : T3) :
  match Linear_forward l x, Linear_forward l (flatten_batch x) with
  | Ok y, Ok y' =>
      t3_numel y = t3_numel y' /\
      concat (concat (t3_items y)) = concat (concat (t3_items y'))
  | Raise e, Raise e' => e = e'
  | _, _ => False
  end.
Proof.
  unfold Linear_forward, flatten_batch. cbn [t3_width t3_items t3_len].
  destruct (t3_width x =? in_features l); [| reflexivity].
  unfold t3_numel, t3_batch. cbn [t3_items t3_len t3_width length].
  rewrite !length_map. cbn [length]. split; [nia |].
  cbn [map concat]. rewrite app_nil_r. f_equal. symmetry. apply concat_map.
Qed.

Lemma split_heads_data (bs : nat) (H D : Z) (x y : T3) :
  t3_numel x = t3_numel y ->
  concat (concat (t3_items x)) = concat (concat (t3_items y)) ->
  MultiHeadAttention.split_heads bs H D x = MultiHeadAttention.split_heads bs H D y.
Proof.
  intros Hn Hd. unfold MultiHeadAttention.split_heads. now rewrite Hn, Hd.
Qed.

Lemma MultiHeadAttention_forward_flatten (self : MultiHeadAttention.t)
    (query key value : T3) (mask : option ZMat) :
  MultiHeadAttention.forward self query key value mask
  = MultiHeadAttention.forward self query (flatten_batch key) (flatten_batch value) mask.
Proof.
  unfold MultiHeadAttention.forward.
  destruct (Linear_forward (MultiHeadAttention.query_linear self) query) as [q1 | e];
    cbn [bind]; [| reflexivity].
  pose proof (Linear_forward_flatten (MultiHeadAttention.key_linear self) key) as Hk.
  destruct (Linear_forward (MultiHeadAttention.key_linear self) key) as [k1 | e],
           (Linear_forward (MultiHeadAttention.key_linear self) (flatten_batch key))
             as [k1' | e'];
    cbn [bind]; try contradiction; [| now subst].
  pose proof (Linear_forward_flatten (MultiHeadAttention.value_linear self) value) as Hv.
  destruct (Linear_forward (MultiHeadAttention.value_linear self) value) as [v1 | e],
           (Linear_forward (MultiHeadAttention.value_linear self) (flatten_batch value))
             as [v1' | e'];
    cbn [bind]; try contradiction; [| now subst].
  destruct Hk as [Hkn Hkd]. destruct Hv as [Hvn Hvd].
  rewrite (split_heads_data _ _ _ k1 k1' Hkn Hkd).
  rewrite (split_heads_data _ _ _ v1 v1' Hvn Hvd).
  reflexivity.
Qed.

Lemma TransformerBlock_forward_flatten (b : TransformerBlock.t) (m : Mode)
    (query key value : T3) (mask : option ZMat) :
  TransformerBlock.forward b m query key value mask
  = TransformerBlock.forward b m query (flatten_batch key) (flatten_batch value) mask.
Proof.
  unfold TransformerBlock.forward.
  now rewrite MultiHeadAttention_forward_flatten.
Qed.

Lemma decoder_loop_flatten (m : Mode) (mask : option ZMat) (src : T3) :
  forall layers k tgt,
    Transformer.decoder_loop m k layers tgt src mask
    = Transformer.decoder_loop m k layers tgt (flatten_batch src) mask.
Proof.
  induction layers as [| layer rest IH]; intros k tgt; cbn [Transformer.decoder_loop].
  - reflexivity.
  - rewrite TransformerBlock_forward_flatten.
    destruct (TransformerBlock.forward layer (sub_mode k m) tgt (flatten_batch src)
                (flatten_batch src) mask) as [y | e]; cbn [bind]; [apply IH | reflexivity].
Qed.

Lemma flatten_batch_shape (x : T3) (B L W : nat) :
  has_shape x B L W -> has_shape (flatten_batch x) 1 (B * L) W.
Proof.
  intros [Hw [HB [HL HW]]]. unfold has_shape, flatten_batch, t3_batch.
  cbn [t3_items t3_len t3_width length]. unfold t3_batch in HB.
  rewrite HB, HL, HW. repeat split.
  apply wfT3_iff. cbn [t3_items t3_len t3_width].
  apply wfT3_iff in Hw. rewrite HL, HW in Hw.
  constructor; [| constructor]. split.
  - rewrite (@concat_length_const _ L); [now rewrite HB |].
    eapply Forall_impl; [| exact Hw]. intros it [Hl _]. exact Hl.
  - apply Forall_forall. intros r Hr. apply in_concat in Hr.
    destruct Hr as [it [Hit Hr]]. rewrite Forall_forall in Hw.
    destruct (Hw it Hit) as [_ Hrows]. rewrite Forall_forall in Hrows. now apply Hrows.
Qed.

(** X18. [MultiHeadAttention.forward] takes the batch size of all its
    views from the query: of the key and of the value only the rows
    matter, not their division into examples.  A key and a value of
    several examples are read exactly as the one example made of all their
    rows, whatever the query. *)
Theorem MultiHeadAttention_key_batch_ignored (self : MultiHeadAttention.t)
    (query key value : T3) (mask : option ZMat) :
  MultiHeadAttention.forward self query key value mask
  = MultiHeadAttention.forward self query
      (mkT3 (t3_batch key * t3_len key) (t3_width key) [concat (t3_items key)])
      (mkT3 (t3_batch value * t3_len value) (t3_width value) [concat (t3_items value)])
      mask.
Proof.
  fold (flatten_batch key). fold (flatten_batch value).
  unfold MultiHeadAttention.forward.
  destruct (Linear_forward (MultiHeadAttention.query_linear self) query) as [q1 | e];
    cbn [bind]; [| reflexivity].
  pose proof (Linear_forward_flatten (MultiHeadAttention.key_linear self) key) as Hk.
  destruct (Linear_forward (MultiHeadAttention.key_linear self) key) as [k1 | e],
           (Linear_forward (MultiHeadAttention.key_linear self) (flatten_batch key))
             as [k1' | e'];
    cbn [bind]; try contradiction; [| now subst].
  pose proof (Linear_forward_flatten (MultiHeadAttention.value_linear self) value) as Hv.
  destruct (Linear_forward (MultiHeadAttention.value_linear self) value) as [v1 | e],
           (Linear_forward (MultiHeadAttention.value_linear self) (flatten_batch value))
             as [v1' | e'];
    cbn [bind]; try contradiction; [| now subst].
  destruct Hk as [Hkn Hkd]. destruct Hv as [Hvn Hvd].
  rewrite (split_heads_data _ _ _ k1 k1' Hkn Hkd).
  rewrite (split_heads_data _ _ _ v1 v1' Hvn Hvd).
  reflexivity.
Qed.

(** X19. A batch of several source sentences decoded against a single
    target sequence is not refused: on a well-formed model
    [Transformer.forward] succeeds and returns logits of shape
    (1, tgt_len, tgt_vocab_size); the decoder attends to the encoder
    outputs of all the source sentences, read as one sequence. *)
Theorem Transformer_forward_one_target (m : Transformer.t) (mode : Mode)
    (src tgt : ZMat) :
  wfTransformer m = true ->
  wfZMat src = true -> wfZMat tgt = true ->
  ids_in_range (num_embeddings (Transformer.src_embedding m)) src = true ->
  ids_in_range (num_embeddings (Transformer.tgt_embedding m)) tgt = true ->
  0 < znrows src -> znrows tgt = 1 ->
  zcols src <= PositionalEncoding.max_len (Transformer.positional_encoding m) ->
  zcols tgt <= PositionalEncoding.max_len (Transformer.positional_encoding m) ->
  exists out,
    Transformer.forward m mode src tgt None None = Ok out /\
    has_shape out 1 (zcols tgt) (out_features (Transformer.fc_out m)).
Proof.
  intros Hm Hsrc Htgt Hrs Hrt HB HBt HSm HTm.
  destruct (@wfTransformer_facts m Hm) as [He1 [He2 [HE2 [HEp [Hpe [Henc [Hdec Hfc]]]]]]].
  cbv zeta in *. set (E := embedding_dim (Transformer.src_embedding m)) in *.
  unfold Transformer.forward.
  destruct (@Embedding_forward_shape _ _ He1 Hsrc Hrs) as [se [-> Hse]]. cbn [bind].
  fold E in Hse.
  assert (Hpe' : rows_ok (PositionalEncoding.max_len (Transformer.positional_encoding m))
                         (PositionalEncoding.embed_size (Transformer.positional_encoding m))
                         (PositionalEncoding.pe (Transformer.positional_encoding m))).
  { rewrite HEp. now apply wfItem_iff. }
  rewrite <- HEp in Hse.
  destruct (PositionalEncoding_forward_shape Hpe' Hse HSm) as [-> Hs0]. cbn [bind].
  destruct (@Embedding_forward_shape _ _ He2 Htgt Hrt) as [te [-> Hte]]. cbn [bind].
  rewrite HBt, HE2, <- HEp in Hte.
  destruct (PositionalEncoding_forward_shape Hpe' Hte HTm) as [-> Ht0]. cbn [bind].
  rewrite HEp in Hs0, Ht0 |- *.
  destruct (encoder_loop_shape mode HB (eq_refl : mask_fits None (zcols src) (zcols src) = true)
              (Transformer.encoder_layers m) 0 Henc Hs0)
    as [enc [-> Henc']]. cbn [bind].
  rewrite decoder_loop_flatten.
  pose proof (flatten_batch_shape Henc') as Hflat.
  destruct (decoder_loop_shape mode Nat.lt_0_1
              (eq_refl : mask_fits None (zcols tgt) (znrows src * zcols src) = true)
              Hflat (Transformer.decoder_layers m)
              (length (Transformer.encoder_layers m)) Hdec Ht0)
    as [dec [-> Hdec']]. cbn [bind].
  exact (linear_ok_shape Hfc Hdec').
Qed.

Lemma Transformer_forward_one_target_witness :
  exists out,
    Transformer.forward sample_model Eval (mkZMat 2 [[1; 1]%Z; [2; 3]%Z]) sample_tgt
      None None = Ok out /\
    has_shape out 1 (zcols sample_tgt) (out_features (Transformer.fc_out sample_model)).
Proof.
  apply (@Transformer_forward_one_target sample_model Eval
           (mkZMat 2 [[1; 1]%Z; [2; 3]%Z]) sample_tgt); try reflexivity; cbn; lia.
Defined.

(** ** The target mask meets the cross-attention scores *)

Lemma bdim_none (a b : nat) :
  b <> a -> b <> 1 -> a <> 1 -> bdim a b = None.
Proof.
  intros H1 H2 H3. unfold bdim.
  destruct (Nat.eqb_spec a b); [congruence |].
  destruct (Nat.eqb_spec a 1); [congruence |].
  destruct (Nat.eqb_spec b 1); [congruence | reflexivity].
Qed.

Lemma attention_forward_bad_mask (q k v : Mat) (m : ZMat) (Lq Lk d : nat) :
  mat_ok q Lq d -> mat_ok k Lk d -> mask_mismatch m Lq Lk ->
  ScaledDotProductAttention.forward q k v (Some m) = Raise RuntimeError.
Proof.
  intros [Hqr [Hqc _]] [Hkr [Hkc _]] Hbad.
  unfold ScaledDotProductAttention.forward, matmul.
  rewrite transpose_nrows, Hqc, Hkc, Nat.eqb_refl. cbn [bind].
  unfold masked_fill, mat_map, nrows. cbn [ncols mrows transpose].
  rewrite !length_map. fold (nrows q). fold (nrows k). rewrite Hqr, Hkr.
  destruct Hbad as [[H1 [H2 H3]] | [H1 [H2 H3]]].
  - rewrite (@bdim_none Lq (znrows m)) by assumption. reflexivity.
  - rewrite (@bdim_none Lk (zcols m)) by assumption.
    destruct (bdim Lq (znrows m)); reflexivity.
Qed.

Lemma forward4_bad_mask (q k v : list (list Mat)) (m : ZMat) (B h Lq Lk d : nat) :
  heads_ok q B h Lq d -> heads_ok k B h Lk d -> heads_ok v B h Lk d ->
  0 < B -> 0 < h -> mask_mismatch m Lq Lk ->
  ScaledDotProductAttention.forward4 q k v (Some m) = Raise RuntimeError.
Proof.
  intros [Hq Fq] [Hk Fk] [Hv Fv] HB Hh Hbad.
  unfold ScaledDotProductAttention.forward4.
  rewrite bcast2_same by congruence. cbn [bind].
  rewrite bcast2_same by (rewrite length_combine; lia). cbn [bind].
  destruct q as [| q0 q']; [cbn in Hq; lia |].
  destruct k as [| k0 k']; [cbn in Hk; lia |].
  destruct v as [| v0 v']; [cbn in Hv; lia |].
  cbn [combine mapM fst snd].
  destruct (Forall_inv Fq) as [Hq0 Mq]. destruct (Forall_inv Fk) as [Hk0 Mk].
  destruct (Forall_inv Fv) as [Hv0 Mv].
  destruct q0 as [| qm q0']; [cbn in Hq0; lia |].
  destruct k0 as [| km k0']; [cbn in Hk0; lia |].
  destruct v0 as [| vm v0']; [cbn in Hv0; lia |].
  cbn [combine mapM fst snd].
  rewrite (@attention_forward_bad_mask qm km vm m Lq Lk d
             (Forall_inv Mq) (Forall_inv Mk) Hbad).
  reflexivity.
Qed.

Lemma MultiHeadAttention_forward_bad_mask E a query key value (m : ZMat) B Lq Lk :
  wfMHA E a = true -> 0 < B ->
  has_shape query B Lq E -> has_shape key B Lk E -> has_shape value B Lk E ->
  mask_mismatch m Lq Lk ->
  MultiHeadAttention.forward a query key value (Some m) = Raise RuntimeError.
Proof.
  intros Ha HB Hq Hk Hv Hbad.
  destruct (wfMHA_facts Ha) as [HH [HD [HE [Lq' [Lk' [Lv' Lo']]]]]].
  unfold MultiHeadAttention.forward.
  assert (Hbq : t3_batch query = B) by (destruct Hq as [_ [? _]]; assumption).
  rewrite Hbq.
  destruct (linear_ok_shape Lq' Hq) as [q1 [-> Hq1]]. cbn [bind].
  destruct (linear_ok_shape Lk' Hk) as [k1 [-> Hk1]]. cbn [bind].
  destruct (linear_ok_shape Lv' Hv) as [v1 [-> Hv1]]. cbn [bind].
  rewrite <- HE in Hq1, Hk1, Hv1.
  destruct (@split_heads_shape _ _ _ _ _ HH HD HB Hq1) as [q4 [-> Hq4]]. cbn [bind].
  destruct (@split_heads_shape _ _ _ _ _ HH HD HB Hk1) as [k4 [-> Hk4]]. cbn [bind].
  destruct (@split_heads_shape _ _ _ _ _ HH HD HB Hv1) as [v4 [-> Hv4]]. cbn [bind].
  rewrite (@forward4_bad_mask q4 k4 v4 m B _ Lq Lk _ Hq4 Hk4 Hv4 HB ltac:(lia) Hbad).
  reflexivity.
Qed.

Lemma TransformerBlock_forward_bad_mask E b mode query key value (m : ZMat) B Lq Lk :
  wfBlock E b = true -> 0 < B ->
  has_shape query B Lq E -> has_shape key B Lk E -> has_shape value B Lk E ->
  mask_mismatch m Lq Lk ->
  TransformerBlock.forward b mode query key value (Some m) = Raise RuntimeError.
Proof.
  unfold wfBlock. rewrite !andb_true_iff. intros [[[Ha Hn1] Hn2] Hf] HB Hq Hk Hv Hbad.
  unfold TransformerBlock.forward.
  rewrite (@MultiHeadAttention_forward_bad_mask E _ query key value m B Lq Lk
             Ha HB Hq Hk Hv Hbad).
  reflexivity.
Qed.

(** X20. The target mask is applied to the scores of the decoder's
    attention over the encoder output, of shape (tgt_len, src_len): on a
    model with at least one decoder block, a [tgt_mask] with a size that
    differs from the matching size of that shape, neither of the two being
    1, makes [Transformer.forward] raise RuntimeError.  So does the usual
    causal mask of shape (tgt_len, tgt_len) whenever tgt_len and src_len
    differ and neither is 1. *)
Theorem Transformer_forward_tgt_mask_shape (m : Transformer.t) (mode : Mode)
    (src tgt : ZMat) (src_mask : option ZMat) (tgt_mask : ZMat) :
  wfTransformer m = true ->
  Transformer.decoder_layers m <> [] ->
  wfZMat src = true -> wfZMat tgt = true ->
  ids_in_range (num_embeddings (Transformer.src_embedding m)) src = true ->
  ids_in_range (num_embeddings (Transformer.tgt_embedding m)) tgt = true ->
  znrows src = znrows tgt -> 0 < znrows src ->
  zcols src <= PositionalEncoding.max_len (Transformer.positional_encoding m) ->
  zcols tgt <= PositionalEncoding.max_len (Transformer.positional_encoding m) ->
  mask_fits src_mask (zcols src) (zcols src) = true ->
  (znrows tgt_mask <> zcols tgt /\ znrows tgt_mask <> 1 /\ zcols tgt <> 1) \/
  (zcols tgt_mask <> zcols src /\ zcols tgt_mask <> 1 /\ zcols src <> 1) ->
  Transformer.forward m mode src tgt src_mask (Some tgt_mask) = Raise RuntimeError.
Proof.
  intros Hm Hne Hsrc Htgt Hrs Hrt HBt HB HSm HTm Hsm Hbad0.
  assert (Hbad : mask_mismatch tgt_mask (zcols tgt) (zcols src)).
  { exact Hbad0. }
  destruct (@wfTransformer_facts m Hm) as [He1 [He2 [HE2 [HEp [Hpe [Henc [Hdec Hfc]]]]]]].
  cbv zeta in *. set (E := embedding_dim (Transformer.src_embedding m)) in *.
  unfold Transformer.forward.
  destruct (@Embedding_forward_shape _ _ He1 Hsrc Hrs) as [se [-> Hse]]. cbn [bind].
  fold E in Hse.
  assert (Hpe' : rows_ok (PositionalEncoding.max_len (Transformer.positional_encoding m))
                         (PositionalEncoding.embed_size (Transformer.positional_encoding m))
                         (PositionalEncoding.pe (Transformer.positional_encoding m))).
  { rewrite HEp. now apply wfItem_iff. }
  rewrite <- HEp in Hse.
  destruct (PositionalEncoding_forward_shape Hpe' Hse HSm) as [-> Hs0]. cbn [bind].
  destruct (@Embedding_forward_shape _ _ He2 Htgt Hrt) as [te [-> Hte]]. cbn [bind].
  rewrite <- HBt, HE2, <- HEp in Hte.
  destruct (PositionalEncoding_forward_shape Hpe' Hte HTm) as [-> Ht0]. cbn [bind].
  rewrite HEp in Hs0, Ht0 |- *.
  destruct (encoder_loop_shape mode HB Hsm (Transformer.encoder_layers m) 0 Henc Hs0)
    as [enc [-> Henc']]. cbn [bind].
  destruct (Transformer.decoder_layers m) as [| layer rest]; [congruence |].
  cbn [Transformer.decoder_loop].
  cbn [forallb] in Hdec. apply andb_true_iff in Hdec. destruct Hdec as [Hl _].
  rewrite (@TransformerBlock_forward_bad_mask E layer _ _ enc enc tgt_mask
             (znrows src) (zcols tgt) (zcols src) Hl HB Ht0 Henc' Henc' Hbad).
  reflexivity.
Qed.

Lemma Transformer_forward_tgt_mask_shape_witness :
  Transformer.forward sample_model Eval sample_src sample_tgt None
    (Some (mkZMat 3 [[1; 0; 0]%Z; [1; 1; 0]%Z; [1; 1; 1]%Z]))
  = Raise RuntimeError.
Proof.
  apply (@Transformer_forward_tgt_mask_shape sample_model Eval sample_src sample_tgt
           None (mkZMat 3 [[1; 0; 0]%Z; [1; 1; 0]%Z; [1; 1; 1]%Z])); try reflexivity.
  - discriminate.
  - cbn. lia.
  - cbn. lia.
  - cbn. lia.
  - right. cbn. lia.
Defined.

(** ** greedy_decode: the next token depends on the last token only *)

Lemma last_nth {A : Type} (d : A) (l : list A) :
  last l d = nth (Nat.pred (length l)) l d.
Proof.
  induction l as [| a l IH]; [reflexivity |].
  destruct l as [| b l']; [reflexivity |].
  change (last (a :: b :: l') d) with (last (b :: l') d).
  rewrite IH. reflexivity.
Qed.

Lemma last_position_row (out : T3) (L V : nat) :
  has_shape out 1 L V -> 0 < L ->
  last_position out = Ok (mkMat V [row_at out 0 (Nat.pred L)]).
Proof.
  intros [Hw [HB [HL HW]]] Hpos. unfold last_position, row_at.
  destruct (Nat.eqb_spec (t3_len out) 0); [lia |].
  rewrite HW. f_equal. f_equal.
  apply wfT3_iff in Hw. unfold t3_batch in HB.
  destruct (t3_items out) as [| it [| it' rest]]; cbn in HB; try lia.
  cbn [map nth]. f_equal.
  destruct (Forall_inv Hw) as [Hlen _]. rewrite last_nth, Hlen, HL. reflexivity.
Qed.

(** X21. Without self-attention over the target, the greedy decoder is
    memoryless: on a well-formed model, the token selected after a prefix
    depends on the source, on the length of the prefix and on its last
    token only.  Two prefixes of one length that end with the same token
    get the same next token, whatever the tokens before. *)
Theorem greedy_decode_next_token_memoryless (m : Transformer.t) (src : ZMat)
    (prefix prefix' : list Z) :
  wfTransformer m = true ->
  wfZMat src = true -> znrows src = 1 ->
  ids_in_range (num_embeddings (Transformer.src_embedding m)) src = true ->
  zcols src <= PositionalEncoding.max_len (Transformer.positional_encoding m) ->
  prefix <> [] -> length prefix' = length prefix ->
  length prefix <= PositionalEncoding.max_len (Transformer.positional_encoding m) ->
  forallb (id_in_range (num_embeddings (Transformer.tgt_embedding m))) prefix = true ->
  forallb (id_in_range (num_embeddings (Transformer.tgt_embedding m))) prefix' = true ->
  last prefix' 0%Z = last prefix 0%Z ->
  next_token (transformer_model m Eval) src prefix'
  = next_token (transformer_model m Eval) src prefix.
Proof.
  intros Hm Hsrc Hone Hids HS Hne Hlen HL Hin Hin' Hlast.
  assert (Hpos : 0 < length prefix) by (destruct prefix; [contradiction | cbn; lia]).
  assert (Hwf : forall l : list Z, wfZMat (row_tensor l) = true).
  { intros l. unfold row_tensor, wfZMat. cbn. now rewrite Nat.eqb_refl. }
  unfold next_token, transformer_model.
  destruct (@Transformer_forward_shape m Eval src (row_tensor prefix) None None
              1 (zcols src) (length prefix)) as [out [Eo Ho]]; auto;
    try (now rewrite ids_in_range_row).
  destruct (@Transformer_forward_shape m Eval src (row_tensor prefix') None None
              1 (zcols src) (length prefix)) as [out' [Eo' Ho']]; auto;
    try (now rewrite ids_in_range_row); try (cbn; lia).
  rewrite Eo, Eo'. cbn [bind].
  rewrite (last_position_row Ho Hpos), (last_position_row Ho' Hpos).
  assert (Hrow : row_at out' 0 (Nat.pred (length prefix))
                 = row_at out 0 (Nat.pred (length prefix))).
  { apply (@Transformer_forward_position_local m Eval src (row_tensor prefix')
             (row_tensor prefix) None None 1 (zcols src) (length prefix)
             (Nat.pred (length prefix)) out' out); auto;
      try (now rewrite ids_in_range_row); try (cbn; lia).
    intros b Hb. assert (b = 0) by lia. subst b. cbn [row_tensor zrows nth].
    rewrite !last_nth, Hlen in Hlast. exact Hlast. }
  now rewrite Hrow.
Qed.

Lemma greedy_decode_next_token_memoryless_witness :
  next_token (transformer_model sample_model Eval) sample_src [3; 1; 2]%Z
  = next_token (transformer_model sample_model Eval) sample_src [2; 0; 2]%Z.
Proof.
  apply (@greedy_decode_next_token_memoryless sample_model sample_src
           [2; 0; 2]%Z [3; 1; 2]%Z); try reflexivity; try discriminate; cbn; lia.
Defined.

(** ** CrossEntropyLoss: the sign of the loss *)

Lemma vsum_nonneg (l : list R) :
  Forall (fun x => (0 <= x)%R) l -> (0 <= vsum l)%R.
Proof.
  induction 1 as [| x l Hx _ IH]; cbn.
  - lra.
  - fold (vsum l). lra.
Qed.

Lemma softmax_entry_le_1 (x : list R) (c : nat) :
  c < length x -> (0 < nth c (softmax x) 0 <= 1)%R.
Proof.
  intros Hc. unfold softmax. rewrite map_map.
  rewrite (nth_map_lt (fun y => (exp y / vsum (map exp x))%R) x c 0%R 0%R Hc).
  assert (Hin : In (nth c x 0%R) x) by now apply nth_In.
  assert (Hge : (exp (nth c x 0) <= vsum (map exp x))%R)
    by exact (vsum_exp_ge (fun y : R => y) x (nth c x 0%R) Hin).
  pose proof (exp_pos (nth c x 0%R)) as He.
  assert (Hs : (0 < vsum (map exp x))%R) by lra.
  split.
  - apply Rdiv_lt_0_compat; assumption.
  - apply Rmult_le_reg_r with (r := vsum (map exp x)); [exact Hs |].
    unfold Rdiv. rewrite Rmult_assoc, Rinv_l by lra. lra.
Qed.

Lemma terms_nonneg (ig : Z) (C : nat) : forall (input : list (list R)) (target : list Z) ts,
  Forall (fun r => length r = C) input ->
  CrossEntropyLoss.terms ig C input target = Ok ts ->
  Forall (fun t => (0 <= t)%R) ts.
Proof.
  induction input as [| x input IH]; intros target ts Hw H.
  - destruct target; cbn in H; inversion H; constructor.
  - destruct target as [| c target]; cbn [CrossEntropyLoss.terms] in H;
      [inversion H; constructor |].
    pose proof (Forall_inv Hw) as Hx. pose proof (Forall_inv_tail Hw) as Hw'.
    cbn beta in Hx.
    destruct (c =? ig)%Z; [now apply (IH target) |].
    destruct (id_in_range C c) eqn:Hr; [| discriminate].
    destruct (CrossEntropyLoss.terms ig C input target) as [rest |] eqn:E;
      cbn [bind] in H; [| discriminate].
    inversion H; subst ts. constructor; [| now apply (IH target)].
    unfold id_in_range in Hr. apply andb_true_iff in Hr. destruct Hr as [H0 H1].
    apply Z.leb_le in H0. apply Z.ltb_lt in H1.
    destruct (@softmax_entry_le_1 x (Z.to_nat c) ltac:(lia)) as [Hp Hle].
    assert (ln (nth (Z.to_nat c) (softmax x) 0) <= 0)%R.
    { destruct Hle as [Hlt | Heq].
      - pose proof (ln_increasing _ _ Hp Hlt) as Hln. rewrite ln_1 in Hln. lra.
      - rewrite Heq, ln_1. lra. }
    lra.
Qed.

Lemma terms_nonempty (ig : Z) (C : nat) : forall (input : list (list R)) (target : list Z) ts,
  length input = length target ->
  Exists (fun c => c <> ig) target ->
  CrossEntropyLoss.terms ig C input target = Ok ts ->
  ts <> [].
Proof.
  induction input as [| x input IH]; intros target ts Hlen Hex H.
  - destruct target; [inversion Hex | discriminate].
  - destruct target as [| c target]; [discriminate |].
    cbn [CrossEntropyLoss.terms] in H. cbn [length] in Hlen.
    destruct (Z.eqb_spec c ig) as [-> | Hne].
    + apply (IH target ts); [lia | | exact H].
      inversion Hex; subst; [contradiction | assumption].
    + destruct (id_in_range C c); [| discriminate].
      destruct (CrossEntropyLoss.terms ig C input target) as [rest |];
        cbn [bind] in H; [| discriminate].
      inversion H. discriminate.
Qed.

(** X22. The loss of the main workflow is never negative: each term is
    minus the logarithm of a softmax probability, which is at most 1, and
    the mean is taken over the targets that are not PAD (at least one
    target being not PAD). *)
Theorem criterion_nonnegative (input : Mat) (target : list Z) (loss : R) :
  wfMat input = true ->
  Exists (fun c => c <> PAD) target ->
  criterion input target = Ok loss ->
  (0 <= loss)%R.
Proof.
  intros Hw Hex H. unfold criterion, CrossEntropyLoss.forward in H.
  destruct (Nat.eqb_spec (nrows input) (length target)) as [Hlen |]; [| discriminate].
  destruct (CrossEntropyLoss.terms 0 (ncols input) (mrows input) target) as [ts |] eqn:E;
    cbn [bind] in H; [| discriminate].
  inversion H; subst loss.
  apply wfMat_iff in Hw.
  pose proof (vsum_nonneg (terms_nonneg _ _ Hw E)) as Hs.
  pose proof (terms_nonempty _ _ Hlen Hex E) as Hne.
  destruct ts as [| t ts']; [congruence |].
  apply Rmult_le_pos; [exact Hs |].
  left. apply Rinv_0_lt_compat. apply lt_0_INR. cbn. lia.
Qed.

Lemma criterion_nonnegative_witness :
  exists loss,
    criterion (mkMat 2 [[0%R; 0%R]; [1%R; 0%R]]) [1%Z; 0%Z] = Ok loss /\ (0 <= loss)%R.
Proof.
  eexists. split; [reflexivity |].
  apply (@criterion_nonnegative (mkMat 2 [[0%R; 0%R]; [1%R; 0%R]]) [1%Z; 0%Z]).
  - reflexivity.
  - left. discriminate.
  - reflexivity.
Defined.

(** ** pad_sequences: padding twice *)

Lemma firstn_repeat_le {A : Type} (x : A) : forall k n,
  k <= n -> firstn k (repeat x n) = repeat x k.
Proof.
  induction k as [| k IH]; intros n Hk; [reflexivity |].
  destruct n as [| n]; [lia |]. cbn. f_equal. apply IH. lia.
Qed.

Lemma padded_row_twice (m n : nat) (pv : Z) (s : list Z) :
  m <= n -> padded_row m pv (padded_row n pv s) = padded_row m pv s.
Proof.
  intros Hmn. unfold padded_row at 1.
  rewrite padded_row_length.
  replace (m - n) with 0 by lia. cbn [repeat]. rewrite app_nil_r.
  unfold padded_row.
  destruct (Nat.le_gt_cases m (length s)) as [Hle | Hgt].
  - replace (m - length s) with 0 by lia. cbn [repeat]. rewrite app_nil_r.
    rewrite firstn_app, length_firstn.
    replace (m - Nat.min n (length s)) with 0 by lia.
    cbn [firstn]. rewrite app_nil_r, firstn_firstn.
    now replace (Nat.min m n) with m by lia.
  - rewrite (@firstn_all2 _ n s) by lia.
    rewrite firstn_app, (@firstn_all2 _ m s) by lia.
    f_equal. apply firstn_repeat_le. lia.
Qed.

(** X23. Padding composes: rows padded to [maxlen] and then padded again
    to a length [maxlen' <= maxlen] are the rows padded to [maxlen']
    directly; in particular [pad_sequences] leaves its own results
    unchanged. *)
Theorem pad_sequences_twice (sequences rows : list (list Z))
    (maxlen maxlen' padding_value : Z) :
  (0 <= maxlen' <= maxlen)%Z ->
  pad_sequences sequences maxlen padding_value = Ok rows ->
  pad_sequences rows maxlen' padding_value
  = pad_sequences sequences maxlen' padding_value /\
  pad_sequences rows maxlen padding_value = Ok rows.
Proof.
  intros Hm H. rewrite pad_sequences_rows in H by lia. inversion H; subst rows.
  rewrite !pad_sequences_rows by lia. rewrite !map_map. split; f_equal.
  - apply map_ext. intros s. apply padded_row_twice. lia.
  - apply map_ext. intros s. apply padded_row_twice. lia.
Qed.

Lemma pad_sequences_twice_witness :
  pad_sequences [[1; 2; 3; 0]%Z; [4; 0; 0; 0]%Z] 2 0
  = pad_sequences [[1; 2; 3]%Z; [4]%Z] 2 0 /\
  pad_sequences [[1; 2; 3; 0]%Z; [4; 0; 0; 0]%Z] 4 0
  = Ok [[1; 2; 3; 0]%Z; [4; 0; 0; 0]%Z].
Proof.
  apply (@pad_sequences_twice [[1; 2; 3]%Z; [4]%Z] [[1; 2; 3; 0]%Z; [4; 0; 0; 0]%Z] 4 2 0).
  - lia.
  - reflexivity.
Defined.

(** ** The data files *)

Lemma mapL_Forall2 {A B : Type} (f : A -> loaded B) (l : list A) (ys : list B) :
  mapL f l = Loaded ys <-> Forall2 (fun x y => f x = Loaded y) l ys.
Proof.
  revert ys. induction l as [| a l IH]; intros ys; cbn [mapL].
  - split.
    + intros H. inversion H. constructor.
    + intros H. inversion H. reflexivity.
  - split.
    + intros H. destruct (f a) as [b |] eqn:Ea; cbn [bindL] in H; [| discriminate].
      destruct (mapL f l) as [bs |] eqn:El; cbn [bindL] in H; [| discriminate].
      inversion H; subst ys. constructor; [exact Ea |]. now apply IH.
    + intros H. inversion H as [| x y l' ys' Hxy Hrest]; subst.
      rewrite Hxy. cbn [bindL]. apply IH in Hrest. rewrite Hrest. reflexivity.
Qed.

Lemma Forall2_map_left {A B C : Type} (P : B -> C -> Prop) (f : A -> B) :
  forall (l : list A) (ys : list C),
    Forall2 P (map f l) ys <-> Forall2 (fun x y => P (f x) y) l ys.
Proof.
  induction l as [| a l IH]; intros ys; cbn [map].
  - split; intros H; inversion H; constructor.
  - split; intros H; inversion H; subst; constructor; auto; now apply IH.
Qed.

(** X24. [load_training_data] returns exactly when the data is a dict
    holding a dict under 'English-Bengali', which holds a dict under
    'Train', every entry of which is a dict with a 'source' and a 'target'.
    It then returns as many sources as targets, one pair per entry and in
    the order of the entries: the i-th source and the i-th target come
    from the same entry. *)
Theorem load_training_data_aligned (data : json)
    (source_sentences target_sentences : list json) :
  load_training_data data = Loaded (source_sentences, target_sentences) <->
  exists eb entries,
    subscript data "English-Bengali" = Loaded eb /\
    subscript eb "Train" = Loaded (JDict entries) /\
    Forall2 (fun e s => subscript (snd e) "source" = Loaded s) entries source_sentences /\
    Forall2 (fun e t => subscript (snd e) "target" = Loaded t) entries target_sentences.
Proof.
  unfold load_training_data. split.
  - intros H.
    destruct (subscript data "English-Bengali") as [eb |]; cbn [bindL] in H; [| discriminate].
    destruct (subscript eb "Train") as [train |] eqn:Et; cbn [bindL] in H; [| discriminate].
    destruct train as [| | | | | | entries]; cbn in H; try discriminate.
    destruct (mapL (fun entry => subscript entry "source") (map snd entries))
      as [ss |] eqn:Es; cbn [bindL] in H; [| discriminate].
    destruct (mapL (fun entry => subscript entry "target") (map snd entries))
      as [ts |] eqn:Etg; cbn [bindL] in H; [| discriminate].
    inversion H; subst. exists eb, entries.
    split; [reflexivity |]. split; [exact Et |].
    apply mapL_Forall2 in Es. apply mapL_Forall2 in Etg.
    split.
    + exact (proj1 (Forall2_map_left (fun x y => subscript x "source" = Loaded y) snd
                      entries source_sentences) Es).
    + exact (proj1 (Forall2_map_left (fun x y => subscript x "target" = Loaded y) snd
                      entries target_sentences) Etg).
  - intros [eb [entries [Eb [Et [Hs Ht]]]]].
    rewrite Eb. cbn [bindL]. rewrite Et. cbn [bindL values_of items_of].
    assert (Es : mapL (fun entry => subscript entry "source") (map snd entries)
                 = Loaded source_sentences).
    { apply mapL_Forall2.
      exact (proj2 (Forall2_map_left (fun x y => subscript x "source" = Loaded y) snd
                      entries source_sentences) Hs). }
    assert (Etg : mapL (fun entry => subscript entry "target") (map snd entries)
                  = Loaded target_sentences).
    { apply mapL_Forall2.
      exact (proj2 (Forall2_map_left (fun x y => subscript x "target" = Loaded y) snd
                      entries target_sentences) Ht). }
    rewrite Es. cbn [bindL]. rewrite Etg. reflexivity.
Qed.

Lemma String_eqb_neq (a b : String.string) : a <> b -> String.eqb a b = false.
Proof. intros H. now apply String.eqb_neq. Qed.

Lemma dict_set_new {V : Type} (items : list (String.string * V)) (key : String.string)
    (v : V) :
  ~ In key (map fst items) -> dict_set items key v = items ++ [(key, v)].
Proof.
  induction items as [| [k w] rest IH]; intros Hn; [reflexivity |].
  cbn [dict_set app]. cbn [map fst In] in Hn.
  rewrite String_eqb_neq by tauto. f_equal. apply IH. tauto.
Qed.

Lemma collect_sources_spec : forall (items acc r : list (String.string * json)),
  NoDup (map fst acc ++ map fst items) ->
  (collect_sources items acc = Loaded r <->
   exists vs,
     r = acc ++ vs /\
     Forall2 (fun e v => fst v = fst e /\ subscript (snd e) "source" = Loaded (snd v))
             items vs).
Proof.
  induction items as [| [key entry] rest IH]; intros acc r Hnd; cbn [collect_sources].
  - split.
    + intros H. inversion H; subst. exists []. rewrite app_nil_r. split; constructor.
    + intros [vs [-> H]]. inversion H. now rewrite app_nil_r.
  - assert (Hnew : ~ In key (map fst acc)).
    { cbn [map fst] in Hnd. apply NoDup_remove_2 in Hnd.
      intros Hin. apply Hnd. apply in_or_app. now left. }
    assert (Hnd' : NoDup (map fst (acc ++ [(key, JNull)]) ++ map fst rest)).
    { rewrite map_app, <- app_assoc. exact Hnd. }
    split.
    + intros H. destruct (subscript entry "source") as [s |] eqn:Es; cbn [bindL] in H;
        [| discriminate].
      rewrite dict_set_new in H by exact Hnew.
      apply IH in H.
      * destruct H as [vs [-> HF]]. exists ((key, s) :: vs).
        rewrite <- app_assoc. split; [reflexivity |]. constructor; [now split | exact HF].
      * rewrite map_app, <- app_assoc. exact Hnd.
    + intros [vs [-> HF]]. inversion HF as [| e v l l' [Hk Hs] Hrest]; subst.
      cbn [fst snd] in Hk, Hs. rewrite Hs. cbn [bindL].
      rewrite dict_set_new by exact Hnew. apply IH.
      * rewrite map_app, <- app_assoc. exact Hnd.
      * exists l'. rewrite <- app_assoc. cbn [app]. destruct v as [k' s']. cbn in Hk.
        subst k'. split; [reflexivity | exact Hrest].
Qed.

(** X25. [load_validation_data] keeps the keys: over the items of the
    'Test' dict it returns exactly when every entry is a dict with a
    'source', and then holds one item per entry, under the same key and in
    the same order, whose value is the 'source' of the entry. *)
Theorem load_validation_data_keys (data eb : json)
    (items val_sentences : list (String.string * json)) :
  subscript data "English-Bengali" = Loaded eb ->
  subscript eb "Test" = Loaded (JDict items) ->
  NoDup (map fst items) ->
  (load_validation_data data = Loaded val_sentences <->
   Forall2 (fun e v => fst v = fst e /\ subscript (snd e) "source" = Loaded (snd v))
           items val_sentences).
Proof.
  intros Eb Et Hnd. unfold load_validation_data.
  rewrite Eb. cbn [bindL]. rewrite Et. cbn [bindL items_of].
  rewrite (collect_sources_spec items [] val_sentences Hnd). cbn [app]. split.
  - intros [vs [-> H]]. exact H.
  - intros H. now exists val_sentences.
Qed.

Lemma load_validation_data_keys_witness :
  load_validation_data sample_data = Loaded [("7"%string, JStr "e")] <->
  Forall2 (fun e v => fst v = fst e /\ subscript (snd e) "source" = Loaded (snd v))
          [("7"%string, sample_entry "e" "f")] [("7"%string, JStr "e")].
Proof.
  apply (@load_validation_data_keys sample_data
           (JDict [("Train"%string,
                    JDict [("1"%string, sample_entry "a" "b");
                           ("2"%string, sample_entry "c" "d")]);
                   ("Test"%string, JDict [("7"%string, sample_entry "e" "f")])])
           [("7"%string, sample_entry "e" "f")] [("7"%string, JStr "e")]).
  - reflexivity.
  - reflexivity.
  - repeat constructor. intros [].
Defined.

(** ** translate_validation_data *)

Section TranslateFacts.
Variable encode : String.string -> list Z.
Variable decode : list Z -> String.string.
Variable model : ZMat -> ZMat -> result T3.

Lemma translate_loop_spec : forall (items acc : list (String.string * String.string)),
  NoDup (map fst acc ++ map fst items) ->
  Forall (fun kv => exists ids,
            greedy_decode model (row_tensor (encode (snd kv)))
              default_decode_max_len BOS EOS = Ok ids) items ->
  exists trs,
    translate_loop encode decode model items acc = Ok (acc ++ trs) /\
    Forall2 (fun kv tr =>
               fst tr = fst kv /\
               exists ids,
                 greedy_decode model (row_tensor (encode (snd kv)))
                   default_decode_max_len BOS EOS = Ok ids /\
                 snd tr = decode ids) items trs.
Proof.
  induction items as [| [key sentence] rest IH]; intros acc Hnd Hall;
    cbn [translate_loop].
  - exists []. rewrite app_nil_r. split; constructor.
  - destruct (Forall_inv Hall) as [ids Hids]. cbn [snd] in Hids.
    unfold translate_sentence. rewrite Hids. cbn [bind].
    assert (Hnew : ~ In key (map fst acc)).
    { cbn [map fst] in Hnd. apply NoDup_remove_2 in Hnd.
      intros Hin. apply Hnd. apply in_or_app. now left. }
    rewrite dict_set_new by exact Hnew.
    destruct (IH (acc ++ [(key, decode ids)])) as [trs [E HF]].
    + rewrite map_app, <- app_assoc. exact Hnd.
    + exact (Forall_inv_tail Hall).
    + exists ((key, decode ids) :: trs). rewrite E, <- app_assoc.
      split; [reflexivity |]. constructor; [| exact HF].
      split; [reflexivity |]. exists ids. now split.
Qed.

End TranslateFacts.

(** X26. On a well-formed model, with a tokenizer whose ids are ids of
    the source vocabulary and validation sentences that fit the
    positional-encoding table (the empty sentence included),
    [translate_validation_data] never raises and returns exactly one
    translation per validation key, in the order of the keys: the decoding
    of what [greedy_decode] returns for the sentence of that key. *)
Theorem translate_validation_data_total (m : Transformer.t)
    (encode : String.string -> list Z) (decode : list Z -> String.string)
    (val_sentences : list (String.string * String.string)) :
  wfTransformer m = true ->
  NoDup (map fst val_sentences) ->
  (forall kv, In kv val_sentences ->
     forallb (id_in_range (num_embeddings (Transformer.src_embedding m)))
       (encode (snd kv)) = true /\
     length (encode (snd kv))
     <= PositionalEncoding.max_len (Transformer.positional_encoding m)) ->
  0 < out_features (Transformer.fc_out m) ->
  out_features (Transformer.fc_out m) <= num_embeddings (Transformer.tgt_embedding m) ->
  id_in_range (num_embeddings (Transformer.tgt_embedding m)) BOS = true ->
  Z.to_nat default_decode_max_len
  <= PositionalEncoding.max_len (Transformer.positional_encoding m) ->
  exists translations,
    translate_validation_data encode decode (transformer_model m Eval) val_sentences
    = Ok translations /\
    Forall2 (fun kv tr =>
               fst tr = fst kv /\
               exists ids,
                 greedy_decode (transformer_model m Eval) (row_tensor (encode (snd kv)))
                   default_decode_max_len BOS EOS = Ok ids /\
                 snd tr = decode ids) val_sentences translations.
Proof.
  intros Hm Hnd Hsent HV0 HV Hbos Hmax.
  unfold translate_validation_data.
  destruct (@translate_loop_spec encode decode (transformer_model m Eval) val_sentences [])
    as [trs [E HF]].
  - exact Hnd.
  - apply Forall_forall. intros kv Hkv. destruct (Hsent kv Hkv) as [Hr Hl].
    destruct (@decode_loop_in_vocab m (row_tensor (encode (snd kv))) Hm) with
      (e := EOS) (n := Z.to_nat default_decode_max_len) (tgt := [BOS])
      as [gen [Eg _]].
    + unfold row_tensor, wfZMat. cbn. now rewrite Nat.eqb_refl.
    + reflexivity.
    + now rewrite ids_in_range_row.
    + exact Hl.
    + exact HV0.
    + exact HV.
    + discriminate.
    + cbn [length]. lia.
    + cbn [forallb]. now rewrite Hbos.
    + eexists. exact Eg.
  - exists trs. split; [exact E | exact HF].
Qed.

Lemma translate_validation_data_total_witness :
  exists translations,
    translate_validation_data (fun _ => [1%Z]) (fun _ => "x"%string)
      (transformer_model
         (Transformer.mk sample_embedding sample_embedding
            (PositionalEncoding.mk 50 2
               (map (fun p => map (spec_pe_entry 2 p) (seq 0 2)) (seq 0 50)))
            [sample_block] [sample_block] (zero_linear 2 4)) Eval)
      [("7"%string, "e"%string)]
    = Ok translations /\
    Forall2 (fun kv tr =>
               fst tr = fst kv /\
               exists ids,
                 greedy_decode
                   (transformer_model
                      (Transformer.mk sample_embedding sample_embedding
                         (PositionalEncoding.mk 50 2
                            (map (fun p => map (spec_pe_entry 2 p) (seq 0 2)) (seq 0 50)))
                         [sample_block] [sample_block] (zero_linear 2 4)) Eval)
                   (row_tensor ((fun _ : String.string => [1%Z]) (snd kv)))
                   default_decode_max_len BOS EOS = Ok ids /\
                 snd tr = (fun _ : list Z => "x"%string) ids)
            [("7"%string, "e"%string)] translations.
Proof.
  apply (@translate_validation_data_total
           (Transformer.mk sample_embedding sample_embedding
              (PositionalEncoding.mk 50 2
                 (map (fun p => map (spec_pe_entry 2 p) (seq 0 2)) (seq 0 50)))
              [sample_block] [sample_block] (zero_linear 2 4))
           (fun _ => [1%Z]) (fun _ => "x"%string) [("7"%string, "e"%string)]).
  - reflexivity.
  - repeat constructor. intros [].
  - intros kv [<- | []]. split; [reflexivity | cbn; lia].
  - cbn. lia.
  - cbn. lia.
  - reflexivity.
  - cbn. lia.
Defined.

(** ** The main workflow: from sentences to training steps *)

Lemma encoded_rows_ok {Sentence : Type} (encode : Sentence -> list Z)
    (sentences : list Sentence) (n V : nat) :
  0 < V ->
  (forall s, In s sentences -> forallb (id_in_range V) (encode s) = true) ->
  Forall (fun r => length r = n /\ forallb (id_in_range V) r = true)
         (map (padded_row n 0%Z) (map encode sentences)).
Proof.
  intros HV Hids. apply Forall_forall. intros r Hr. rewrite map_map in Hr.
  apply in_map_iff in Hr. destruct Hr as [s [<- Hs]]. split.
  - apply padded_row_length.
  - apply padded_row_in_range; auto.
Qed.

Lemma ids_fit_int64 (V : nat) (r : list Z) :
  (Z.of_nat V <= 2 ^ 63)%Z ->
  forallb (id_in_range V) r = true -> forallb fits_int64 r = true.
Proof.
  intros HV Hr. rewrite forallb_forall in Hr. apply forallb_forall.
  intros x Hx. specialize (Hr x Hx). unfold id_in_range in Hr. unfold fits_int64.
  apply andb_true_iff in Hr. destruct Hr as [H0 H1].
  apply Z.leb_le in H0. apply Z.ltb_lt in H1.
  apply andb_true_iff. split; [apply Z.leb_le | apply Z.ltb_lt]; lia.
Qed.

(** X27. The main workflow feeds the training loop batches it can train
    on.  For as many source as target sentences, tokenizers with ids
    inside the vocabularies (of at most 2^63 ids), a positive encoding
    length within the positional-encoding table and a positive batch
    size: [encode_sentences], [TranslationDataset] and [DataLoader] never
    raise; one pass has ceil(n / batch_size) batches, all of int64
    tensors; and on every batch the forward pass and the loss of a
    well-formed model succeed, in every mode.  (The workflow's values:
    length 50, batch size 32, vocabularies of 30000 ids, a table of 1000
    positions.) *)
Theorem main_workflow_batches_trainable {Sentence : Type}
    (tokenizer_src tokenizer_tgt : Sentence -> list Z)
    (source_sentences target_sentences : list Sentence)
    (max_len batch_size : Z) (m : Transformer.t) :
  length source_sentences = length target_sentences ->
  (forall s, In s source_sentences ->
     forallb (id_in_range (num_embeddings (Transformer.src_embedding m)))
       (tokenizer_src s) = true) ->
  (forall s, In s target_sentences ->
     forallb (id_in_range (out_features (Transformer.fc_out m))) (tokenizer_tgt s) = true) ->
  wfTransformer m = true ->
  0 < num_embeddings (Transformer.src_embedding m) ->
  (Z.of_nat (num_embeddings (Transformer.src_embedding m)) <= 2 ^ 63)%Z ->
  0 < out_features (Transformer.fc_out m) ->
  (Z.of_nat (out_features (Transformer.fc_out m)) <= 2 ^ 63)%Z ->
  out_features (Transformer.fc_out m) <= num_embeddings (Transformer.tgt_embedding m) ->
  (0 < max_len)%Z ->
  Z.to_nat max_len <= PositionalEncoding.max_len (Transformer.positional_encoding m) ->
  (0 < batch_size)%Z ->
  exists src_encoded tgt_encoded dataloader batches,
    encode_sentences tokenizer_src source_sentences max_len = Ok src_encoded /\
    encode_sentences tokenizer_tgt target_sentences max_len = Ok tgt_encoded /\
    DataLoader.init (TranslationDataset.init src_encoded tgt_encoded) batch_size
    = Ok dataloader /\
    DataLoader.batches dataloader = Ok (map int64_batch batches) /\
    length batches
    = (length source_sentences + Z.to_nat batch_size - 1) / Z.to_nat batch_size /\
    forall b mode, In b batches ->
      exists loss, batch_loss transformer_model criterion mode (fst b) (snd b) m = Ok loss.
Proof.
  intros Hlen Hsids Htids Hm HVs HVs64 HVo HVo64 HVt Hml Hmax Hbs.
  set (n := Z.to_nat max_len).
  set (srows := map (padded_row n 0%Z) (map tokenizer_src source_sentences)).
  set (trows := map (padded_row n 0%Z) (map tokenizer_tgt target_sentences)).
  pose proof (encoded_rows_ok tokenizer_src source_sentences n HVs Hsids) as Fs.
  pose proof (encoded_rows_ok tokenizer_tgt target_sentences n HVo Htids) as Ft.
  fold srows in Fs. fold trows in Ft.
  assert (Ls : length srows = length source_sentences)
    by (unfold srows; now rewrite !length_map).
  assert (Lt : length trows = length source_sentences)
    by (unfold trows; now rewrite !length_map).
  assert (Fs' : Forall (fun r => length r = n) srows)
    by (eapply Forall_impl; [| exact Fs]; intros r [H _]; exact H).
  assert (Ft' : Forall (fun r => length r = n) trows)
    by (eapply Forall_impl; [| exact Ft]; intros r [H _]; exact H).
  assert (Is : Forall (fun r => forallb fits_int64 r = true) srows).
  { eapply Forall_impl; [| exact Fs]. intros r [_ H].
    exact (@ids_fit_int64 _ r HVs64 H). }
  assert (It : Forall (fun r => forallb fits_int64 r = true) trows).
  { eapply Forall_impl; [| exact Ft]. intros r [_ H].
    exact (@ids_fit_int64 _ r HVo64 H). }
  assert (Hn : 0 < n) by (unfold n; lia).
  assert (Hb : 0 < Z.to_nat batch_size) by lia.
  exists srows, trows,
         (DataLoader.mk (TranslationDataset.init srows trows) (Z.to_nat batch_size)),
         (uniform_batches srows trows (length source_sentences) n n (Z.to_nat batch_size)).
  split; [| split; [| split; [| split; [| split]]]].
  - unfold encode_sentences. apply pad_sequences_rows. lia.
  - unfold encode_sentences. apply pad_sequences_rows. lia.
  - unfold DataLoader.init. destruct (Z.leb_spec batch_size 0); [lia | reflexivity].
  - now apply DataLoader_batches_uniform.
  - unfold uniform_batches. now rewrite length_map, length_seq.
  - intros b mode Hin.
    pose proof (uniform_batches_shapes Ls Lt Fs' Ft' Hb) as HF.
    rewrite Forall_forall in HF.
    destruct (HF b Hin) as [H1 [H2 [H3 [H4 [H5 [H6 [H7 H8]]]]]]].
    rewrite Forall_forall in Fs, Ft.
    assert (Rs : forall V, (forall r, In r srows -> forallb (id_in_range V) r = true) ->
                           ids_in_range V (fst b) = true).
    { intros V HVr. unfold ids_in_range. apply forallb_forall. intros r Hr.
      apply HVr. now apply H7. }
    assert (Rt : forall V, (forall r, In r trows -> forallb (id_in_range V) r = true) ->
                           ids_in_range V (snd b) = true).
    { intros V HVr. unfold ids_in_range. apply forallb_forall. intros r Hr.
      apply HVr. now apply H8. }
    apply batch_loss_ok; auto; try lia.
    + apply Rs. intros r Hr. now apply Fs.
    + apply Rt. intros r Hr. apply forallb_forall. intros x Hx.
      apply (@id_in_range_le _ _ x HVt). destruct (Ft r Hr) as [_ Hrr].
      rewrite forallb_forall in Hrr. now apply Hrr.
    + apply Rt. intros r Hr. now apply Ft.
Qed.

Lemma main_workflow_batches_trainable_witness :
  exists src_encoded tgt_encoded dataloader batches,
    encode_sentences (fun s : list Z => s) [[1; 2; 3]%Z; [1]%Z; []] 2 = Ok src_encoded /\
    encode_sentences (fun s : list Z => s) [[2; 1]%Z; [2; 3; 1]%Z; [3]%Z] 2
    = Ok tgt_encoded /\
    DataLoader.init (TranslationDataset.init src_encoded tgt_encoded) 2 = Ok dataloader /\
    DataLoader.batches dataloader = Ok (map int64_batch batches) /\
    length batches = (3 + Z.to_nat 2 - 1) / Z.to_nat 2 /\
    forall b mode, In b batches ->
      exists loss,
        batch_loss transformer_model criterion mode (fst b) (snd b) sample_model = Ok loss.
Proof.
  apply (@main_workflow_batches_trainable (list Z) (fun s => s) (fun s => s)
           [[1; 2; 3]%Z; [1]%Z; []] [[2; 1]%Z; [2; 3; 1]%Z; [3]%Z] 2 2 sample_model);
    try reflexivity; try (cbn; lia).
  - intros s [<- | [<- | [<- | []]]]; reflexivity.
  - intros s [<- | [<- | [<- | []]]]; reflexivity.
Defined.

(** ** The examples of a batch do not interact *)

Lemma example_shape x B L W b :
  has_shape x B L W -> b < B -> has_shape (example x b) 1 L W.
Proof.
  intros Hx Hb. destruct (@has_shape_items x B L W Hx) as [HF Hlen].
  destruct Hx as [_ [_ [HL HW]]]. unfold example. rewrite HL, HW.
  apply has_shape_make; [| reflexivity].
  constructor; [| constructor].
  rewrite Forall_forall in HF. apply HF. apply nth_In. lia.
Qed.

Lemma Linear_example l x y b :
  Linear_forward l x = Ok y -> Linear_forward l (example x b) = Ok (example y b).
Proof.
  unfold Linear_forward, example. cbn [t3_width t3_len t3_items].
  destruct (t3_width x =? in_features l); [| discriminate].
  intros H. inversion H. cbn [t3_width t3_len t3_items map].
  now rewrite <- (map_nth (map (linear_row l))).
Qed.

Lemma LayerNorm_example n x y b :
  LayerNorm_forward n x = Ok y -> LayerNorm_forward n (example x b) = Ok (example y b).
Proof.
  unfold LayerNorm_forward, example. cbn [t3_width t3_len t3_items].
  destruct (t3_width x =? normalized_shape n); [| discriminate].
  intros H. inversion H. cbn [t3_width t3_len t3_items map].
  now rewrite <- (map_nth (map (layer_norm_row n))).
Qed.

Lemma t3_map_example f x b :
  FeedForward.t3_map f (example x b) = example (FeedForward.t3_map f x) b.
Proof.
  unfold FeedForward.t3_map, example. cbn [t3_width t3_len t3_items map].
  now rewrite <- (map_nth (map (map f))).
Qed.

Lemma nth_combine {A B : Type} (xs : list A) (ys : list B) (i : nat) (da : A) (db : B) :
  length xs = length ys ->
  nth i (combine xs ys) (da, db) = (nth i xs da, nth i ys db).
Proof. intros H. now apply combine_nth. Qed.

Lemma add_example x y z B L W b :
  has_shape x B L W -> has_shape y B L W -> b < B ->
  t3_add x y = Ok z ->
  t3_add (example x b) (example y b) = Ok (example z b).
Proof.
  intros Hx Hy Hb Hz.
  rewrite (@t3_add_same_explicit x y B L W Hx Hy) in Hz. inversion Hz; subst z.
  rewrite (@t3_add_same_explicit _ _ 1 L W (@example_shape _ _ _ _ _ Hx Hb) (@example_shape _ _ _ _ _ Hy Hb)).
  unfold example. cbn [t3_len t3_width t3_items combine map fst snd].
  destruct (@has_shape_items x B L W Hx) as [_ Lx].
  destruct (@has_shape_items y B L W Hy) as [_ Ly].
  rewrite (nth_map_lt (fun pr => add_rows (fst pr) (snd pr))
             (combine (t3_items x) (t3_items y)) b [] ([], []))
    by (rewrite length_combine; lia).
  rewrite nth_combine by lia. reflexivity.
Qed.

Lemma heads_ok_example a B h L d b :
  heads_ok a B h L d -> b < B -> heads_ok [nth b a []] 1 h L d.
Proof.
  intros [Hlen HF] Hb. split; [reflexivity |].
  constructor; [| constructor]. rewrite Forall_forall in HF.
  apply HF. apply nth_In. lia.
Qed.

Lemma split_heads_example x a B L (H D : Z) b :
  (0 < H)%Z -> (0 < D)%Z -> 0 < B ->
  has_shape x B L (Z.to_nat H * Z.to_nat D) -> b < B ->
  MultiHeadAttention.split_heads B H D x = Ok a ->
  MultiHeadAttention.split_heads 1 H D (example x b) = Ok [nth b a []].
Proof.
  intros HH HD HB Hx Hb Ha.
  rewrite (@split_heads_explicit x B L H D HH HD HB Hx) in Ha. inversion Ha; subst a.
  rewrite (@split_heads_explicit _ 1 L H D HH HD Nat.lt_0_1 (@example_shape _ _ _ _ _ Hx Hb)).
  unfold example. cbn [t3_items map].
  destruct (@has_shape_items x B L _ Hx) as [_ Lx].
  now rewrite (nth_map_lt (heads_of (Z.to_nat H) (Z.to_nat D)) (t3_items x) b [] [])
    by lia.
Qed.

Lemma forward4_example q k v mask oa B h Lq Lk d b :
  heads_ok q B h Lq d -> heads_ok k B h Lk d -> heads_ok v B h Lk d ->
  b < B ->
  ScaledDotProductAttention.forward4 q k v mask = Ok oa ->
  ScaledDotProductAttention.forward4 [nth b q []] [nth b k []] [nth b v []] mask
  = Ok [nth b oa []].
Proof.
  intros [Hq _] [Hk _] [Hv _] Hb H.
  unfold ScaledDotProductAttention.forward4 in *.
  rewrite bcast2_same in H by congruence. cbn [bind] in H.
  rewrite bcast2_same in H by (rewrite length_combine; lia). cbn [bind] in H.
  cbn [bcast2 length Nat.eqb combine bind mapM fst snd].
  destruct (mapM_nth _ (([], []), []) [] _ H) as [_ Hn].
  specialize (Hn b). rewrite !length_combine in Hn. specialize (Hn ltac:(lia)).
  rewrite nth_combine in Hn by (rewrite length_combine; lia).
  rewrite nth_combine in Hn by lia.
  cbn [fst snd] in Hn. rewrite Hn. reflexivity.
Qed.

Lemma merge_heads_example a y B L (H D : Z) b :
  (0 < H)%Z -> (0 < D)%Z -> 0 < B ->
  heads_ok a B (Z.to_nat H) L (Z.to_nat D) -> b < B ->
  MultiHeadAttention.merge_heads B H D a = Ok y ->
  MultiHeadAttention.merge_heads 1 H D [nth b a []] = Ok (example y b).
Proof.
  intros HH HD HB Ha Hb Hy.
  rewrite (@merge_heads_explicit a B L H D HH HD HB Ha) in Hy. inversion Hy; subst y.
  rewrite (@merge_heads_explicit _ 1 L H D HH HD Nat.lt_0_1 (@heads_ok_example _ _ _ _ _ _ Ha Hb)).
  unfold example, merged_rows. cbn [t3_len t3_width t3_items map].
  destruct Ha as [La _].
  now rewrite (nth_map_lt
                 (fun ex => map (fun i => concat (map (fun m => nth i (mrows m) []) ex))
                                (seq 0 L)) a b [] []) by lia.
Qed.

Lemma MultiHeadAttention_example E a query key value mask B Lq Lk y b :
  wfMHA E a = true -> 0 < B ->
  has_shape query B Lq E -> has_shape key B Lk E -> has_shape value B Lk E ->
  mask_fits mask Lq Lk = true -> b < B ->
  MultiHeadAttention.forward a query key value mask = Ok y ->
  MultiHeadAttention.forward a (example query b) (example key b) (example value b) mask
  = Ok (example y b).
Proof.
  intros Ha HB Hq Hk Hv Hm Hb Hy.
  destruct (@wfMHA_facts E a Ha) as [HH [HD [HE [Lq' [Lk' [Lv' Lo']]]]]].
  unfold MultiHeadAttention.forward in *.
  assert (Hbq : t3_batch query = B) by (destruct Hq as [_ [? _]]; assumption).
  rewrite Hbq in Hy.
  change (t3_batch (example query b)) with 1.
  destruct (@linear_ok_shape _ _ _ _ _ _ Lq' Hq) as [q1 [Eq1 Hq1]].
  destruct (@linear_ok_shape _ _ _ _ _ _ Lk' Hk) as [k1 [Ek1 Hk1]].
  destruct (@linear_ok_shape _ _ _ _ _ _ Lv' Hv) as [v1 [Ev1 Hv1]].
  rewrite Eq1, Ek1, Ev1 in Hy. cbn [bind] in Hy.
  rewrite (@Linear_example _ _ _ b Eq1), (@Linear_example _ _ _ b Ek1), (@Linear_example _ _ _ b Ev1).
  cbn [bind].
  rewrite <- HE in Hq1, Hk1, Hv1.
  destruct (@split_heads_shape _ _ _ _ _ HH HD HB Hq1) as [q4 [Eq4 Hq4]].
  destruct (@split_heads_shape _ _ _ _ _ HH HD HB Hk1) as [k4 [Ek4 Hk4]].
  destruct (@split_heads_shape _ _ _ _ _ HH HD HB Hv1) as [v4 [Ev4 Hv4]].
  rewrite Eq4, Ek4, Ev4 in Hy. cbn [bind] in Hy.
  rewrite (@split_heads_example _ _ _ _ _ _ _ HH HD HB Hq1 Hb Eq4).
  rewrite (@split_heads_example _ _ _ _ _ _ _ HH HD HB Hk1 Hb Ek4).
  rewrite (@split_heads_example _ _ _ _ _ _ _ HH HD HB Hv1 Hb Ev4).
  cbn [bind].
  destruct (@forward4_shape _ _ _ _ _ _ _ _ _ Hq4 Hk4 Hv4 Hm) as [oa [Eoa Hoa]].
  rewrite Eoa in Hy. cbn [bind] in Hy.
  rewrite (@forward4_example _ _ _ _ _ _ _ _ _ _ _ Hq4 Hk4 Hv4 Hb Eoa). cbn [bind map].
  destruct (@merge_heads_shape _ _ _ _ _ HH HD HB Hoa) as [mg [Emg Hmg]].
  rewrite Emg in Hy. cbn [bind] in Hy.
  pose proof (@merge_heads_example _ _ _ _ _ _ _ HH HD HB Hoa Hb Emg) as Eex.
  rewrite (nth_map_lt (map fst) oa b [] []) in Eex.
  2:{ destruct Hoa as [Lo _]. rewrite length_map in Lo. lia. }
  rewrite Eex. cbn [bind].
  now apply Linear_example.
Qed.

Lemma FeedForward_example f x y b :
  FeedForward.forward f Eval x = Ok y ->
  FeedForward.forward f Eval (example x b) = Ok (example y b).
Proof.
  unfold FeedForward.forward. intros H.
  destruct (Linear_forward (FeedForward.linear1 f) x) as [h |] eqn:Eh;
    cbn [bind] in H; [| discriminate].
  rewrite (@Linear_example _ _ _ b Eh). cbn [bind dropout] in *.
  rewrite t3_map_example. now apply Linear_example.
Qed.

Lemma TransformerBlock_example E blk query key value mask B Lq Lk y b :
  wfBlock E blk = true -> 0 < B ->
  has_shape query B Lq E -> has_shape key B Lk E -> has_shape value B Lk E ->
  mask_fits mask Lq Lk = true -> b < B ->
  TransformerBlock.forward blk Eval query key value mask = Ok y ->
  TransformerBlock.forward blk Eval (example query b) (example key b) (example value b)
    mask = Ok (example y b).
Proof.
  unfold wfBlock. rewrite !andb_true_iff.
  intros [[[Ha Hn1] Hn2] Hf] HB Hq Hk Hv Hm Hb Hy.
  unfold TransformerBlock.forward in *. cbn [dropout] in *.
  destruct (@MultiHeadAttention_forward_shape _ _ _ _ _ _ _ _ _ Ha HB Hq Hk Hv Hm)
    as [ao [Eao Hao]].
  rewrite Eao in Hy. cbn [bind] in Hy.
  rewrite (@MultiHeadAttention_example _ _ _ _ _ _ _ _ _ _ _ Ha HB Hq Hk Hv Hm Hb Eao). cbn [bind].
  destruct (@t3_add_same _ _ _ _ _ Hq Hao) as [s [Es Hs]].
  rewrite Es in Hy. cbn [bind] in Hy.
  rewrite (@add_example _ _ _ _ _ _ _ Hq Hao Hb Es). cbn [bind].
  destruct (@norm_ok_shape _ _ _ _ _ Hn1 Hs) as [x [Ex Hx]].
  rewrite Ex in Hy. cbn [bind] in Hy.
  rewrite (@LayerNorm_example _ _ _ b Ex). cbn [bind].
  destruct (@FeedForward_forward_shape _ _ Eval _ _ _ Hf Hx) as [ff [Eff Hff]].
  rewrite Eff in Hy. cbn [bind] in Hy.
  rewrite (@FeedForward_example _ _ _ b Eff). cbn [bind].
  destruct (@t3_add_same _ _ _ _ _ Hx Hff) as [s2 [Es2 Hs2]].
  rewrite Es2 in Hy. cbn [bind] in Hy.
  rewrite (@add_example _ _ _ _ _ _ _ Hx Hff Hb Es2). cbn [bind].
  now apply LayerNorm_example.
Qed.

Lemma encoder_loop_example E mask B L b :
  0 < B -> mask_fits mask L L = true -> b < B ->
  forall layers k k' src y,
    forallb (wfBlock E) layers = true -> has_shape src B L E ->
    Transformer.encoder_loop Eval k layers src mask = Ok y ->
    Transformer.encoder_loop Eval k' layers (example src b) mask = Ok (example y b).
Proof.
  intros HB Hm Hb. induction layers as [| layer rest IH]; intros k k' src y Hl Hs Hy;
    cbn [Transformer.encoder_loop] in *.
  - now inversion Hy.
  - cbn [forallb] in Hl. apply andb_true_iff in Hl. destruct Hl as [Hl Hrest].
    cbn [sub_mode] in *.
    destruct (@TransformerBlock_forward_shape _ _ Eval _ _ _ _ _ _ _ Hl HB Hs Hs Hs Hm)
      as [x [Ex Hx]].
    rewrite Ex in Hy. cbn [bind] in Hy.
    rewrite (@TransformerBlock_example _ _ _ _ _ _ _ _ _ _ _ Hl HB Hs Hs Hs Hm Hb Ex).
    cbn [bind]. now apply (IH (S k)).
Qed.

Lemma decoder_loop_example E mask B T Ls (src : T3) b :
  0 < B -> mask_fits mask T Ls = true -> has_shape src B Ls E -> b < B ->
  forall layers k k' tgt y,
    forallb (wfBlock E) layers = true -> has_shape tgt B T E ->
    Transformer.decoder_loop Eval k layers tgt src mask = Ok y ->
    Transformer.decoder_loop Eval k' layers (example tgt b) (example src b) mask
    = Ok (example y b).
Proof.
  intros HB Hm Hsrc Hb. induction layers as [| layer rest IH]; intros k k' tgt y Hl Ht Hy;
    cbn [Transformer.decoder_loop] in *.
  - now inversion Hy.
  - cbn [forallb] in Hl. apply andb_true_iff in Hl. destruct Hl as [Hl Hrest].
    cbn [sub_mode] in *.
    destruct (@TransformerBlock_forward_shape _ _ Eval _ _ _ _ _ _ _ Hl HB Ht Hsrc Hsrc Hm)
      as [x [Ex Hx]].
    rewrite Ex in Hy. cbn [bind] in Hy.
    rewrite (@TransformerBlock_example _ _ _ _ _ _ _ _ _ _ _ Hl HB Ht Hsrc Hsrc Hm Hb Ex).
    cbn [bind]. now apply (IH (S k)).
Qed.

Lemma Embedding_example e ids y b :
  Embedding_forward e ids = Ok y ->
  Embedding_forward e (zexample ids b) = Ok (example y b).
Proof.
  unfold Embedding_forward, zexample, example. cbn [zrows zcols].
  destruct (forallb (forallb (id_in_range (num_embeddings e))) (zrows ids)) eqn:Hr;
    [| discriminate].
  intros H. inversion H. cbn [t3_len t3_width t3_items forallb map].
  assert (Hb : forallb (id_in_range (num_embeddings e)) (nth b (zrows ids) []) = true).
  { destruct (Nat.lt_ge_cases b (length (zrows ids))) as [Hlt | Hge].
    - rewrite forallb_forall in Hr. apply Hr. now apply nth_In.
    - now rewrite nth_overflow. }
  rewrite Hb. cbn [andb].
  now rewrite <- (map_nth (map (fun i => nth (Z.to_nat i) (emb_weight e) []))).
Qed.

Lemma PositionalEncoding_example pe x y B L b :
  rows_ok (PositionalEncoding.max_len pe) (PositionalEncoding.embed_size pe)
          (PositionalEncoding.pe pe) ->
  has_shape x B L (PositionalEncoding.embed_size pe) ->
  L <= PositionalEncoding.max_len pe -> b < B ->
  PositionalEncoding.forward pe x = Ok y ->
  PositionalEncoding.forward pe (example x b) = Ok (example y b).
Proof.
  intros Hpe Hx HL Hb Hy.
  destruct (@PositionalEncoding_forward_shape pe x B L Hpe Hx HL) as [E _].
  rewrite E in Hy. inversion Hy; subst y.
  destruct (@PositionalEncoding_forward_shape pe _ 1 L Hpe
              (@example_shape _ _ _ _ _ Hx Hb) HL) as [E' _].
  rewrite E'. unfold example. cbn [t3_len t3_width t3_items map].
  destruct (@has_shape_items x B L _ Hx) as [_ Lx].
  now rewrite (nth_map_lt
                 (fun it => add_rows it (firstn L (PositionalEncoding.pe pe)))
                 (t3_items x) b [] []) by lia.
Qed.

(** X28. In evaluation mode the examples of a batch do not interact: on
    a well-formed model, the logits [Transformer.forward] returns for
    example [b] of a batch are exactly the logits it returns for that
    example passed alone, as a batch of one. *)
Theorem Transformer_forward_batch_independent (m : Transformer.t) (src tgt : ZMat)
    (src_mask tgt_mask : option ZMat) :
  wfTransformer m = true ->
  wfZMat src = true -> wfZMat tgt = true ->
  ids_in_range (num_embeddings (Transformer.src_embedding m)) src = true ->
  ids_in_range (num_embeddings (Transformer.tgt_embedding m)) tgt = true ->
  znrows tgt = znrows src -> 0 < znrows src ->
  zcols src <= PositionalEncoding.max_len (Transformer.positional_encoding m) ->
  zcols tgt <= PositionalEncoding.max_len (Transformer.positional_encoding m) ->
  mask_fits src_mask (zcols src) (zcols src) = true ->
  mask_fits tgt_mask (zcols tgt) (zcols src) = true ->
  exists out,
    Transformer.forward m Eval src tgt src_mask tgt_mask = Ok out /\
    forall b, b < znrows src ->
      Transformer.forward m Eval (zexample src b) (zexample tgt b) src_mask tgt_mask
      = Ok (example out b).
Proof.
  intros Hm Hsrc Htgt Hrs Hrt HBt HB HSm HTm Hsm Htm.
  destruct (@wfTransformer_facts m Hm) as [He1 [He2 [HE2 [HEp [Hpe [Henc [Hdec Hfc]]]]]]].
  cbv zeta in *. set (E := embedding_dim (Transformer.src_embedding m)) in *.
  unfold Transformer.forward.
  destruct (@Embedding_forward_shape _ _ He1 Hsrc Hrs) as [se [Ese Hse]].
  fold E in Hse.
  assert (Hpe' : rows_ok (PositionalEncoding.max_len (Transformer.positional_encoding m))
                         (PositionalEncoding.embed_size (Transformer.positional_encoding m))
                         (PositionalEncoding.pe (Transformer.positional_encoding m))).
  { rewrite HEp. now apply wfItem_iff. }
  rewrite <- HEp in Hse.
  destruct (PositionalEncoding_forward_shape Hpe' Hse HSm) as [Es0 Hs0].
  match type of Es0 with _ = Ok ?t => set (s0 := t) in * end.
  destruct (@Embedding_forward_shape _ _ He2 Htgt Hrt) as [te [Ete Hte]].
  rewrite HBt, HE2, <- HEp in Hte.
  destruct (PositionalEncoding_forward_shape Hpe' Hte HTm) as [Et0 Ht0].
  match type of Et0 with _ = Ok ?t => set (t0 := t) in * end.
  pose proof Hs0 as Hs0'. pose proof Ht0 as Ht0'.
  rewrite HEp in Hs0', Ht0'.
  destruct (encoder_loop_shape Eval HB Hsm (Transformer.encoder_layers m) 0 Henc Hs0')
    as [enc [Eenc Henc']].
  destruct (decoder_loop_shape Eval HB Htm Henc' (Transformer.decoder_layers m)
              (length (Transformer.encoder_layers m)) Hdec Ht0')
    as [dec [Edec Hdec']].
  destruct (@linear_ok_shape _ _ _ _ _ _ Hfc Hdec') as [out [Eout Hout]].
  exists out. split.
  - rewrite Ese. cbn [bind]. rewrite Es0. cbn [bind]. rewrite Ete. cbn [bind].
    rewrite Et0. cbn [bind]. rewrite Eenc. cbn [bind]. rewrite Edec. cbn [bind].
    exact Eout.
  - intros b Hb.
    rewrite (@Embedding_example _ _ _ b Ese). cbn [bind].
    rewrite (@PositionalEncoding_example _ _ _ _ _ b Hpe' Hse HSm Hb Es0). cbn [bind].
    rewrite (@Embedding_example _ _ _ b Ete). cbn [bind].
    rewrite (@PositionalEncoding_example _ _ _ _ _ b Hpe' Hte HTm Hb Et0). cbn [bind].
    rewrite (@encoder_loop_example E src_mask _ _ b HB Hsm Hb
               (Transformer.encoder_layers m) 0 0 _ enc Henc Hs0' Eenc).
    cbn [bind].
    rewrite (@decoder_loop_example E tgt_mask _ _ _ enc b HB Htm Henc' Hb
               (Transformer.decoder_layers m) (length (Transformer.encoder_layers m))
               (length (Transformer.encoder_layers m)) _ dec Hdec Ht0' Edec).
    cbn [bind].
    now apply Linear_example.
Qed.

Lemma Transformer_forward_batch_independent_witness :
  exists out,
    Transformer.forward sample_model Eval (mkZMat 2 [[1; 1]%Z; [2; 3]%Z])
      (mkZMat 3 [[2; 1; 3]%Z; [2; 0; 0]%Z]) None None = Ok out /\
    forall b, b < znrows (mkZMat 2 [[1; 1]%Z; [2; 3]%Z]) ->
      Transformer.forward sample_model Eval
        (zexample (mkZMat 2 [[1; 1]%Z; [2; 3]%Z]) b)
        (zexample (mkZMat 3 [[2; 1; 3]%Z; [2; 0; 0]%Z]) b) None None
      = Ok (example out b).
Proof.
  apply (@Transformer_forward_batch_independent sample_model
           (mkZMat 2 [[1; 1]%Z; [2; 3]%Z]) (mkZMat 3 [[2; 1; 3]%Z; [2; 0; 0]%Z])
           None None); try reflexivity; cbn; lia.
Defined.

(** ** translate_validation_data: a sentence longer than the table *)

Section LongSentence.
Variable m : Transformer.t.
Hypothesis Hm : wfTransformer m = true.
Hypothesis HM : 1 < PositionalEncoding.max_len (Transformer.positional_encoding m).

Lemma greedy_decode_long_source (src : ZMat) (max_len start_token_id end_token_id : Z) :
  wfZMat src = true ->
  ids_in_range (num_embeddings (Transformer.src_embedding m)) src = true ->
  PositionalEncoding.max_len (Transformer.positional_encoding m) < zcols src ->
  id_in_range (num_embeddings (Transformer.tgt_embedding m)) start_token_id = true ->
  (1 <= max_len)%Z ->
  greedy_decode (transformer_model m Eval) src max_len start_token_id end_token_id
  = Raise RuntimeError.
Proof.
  intros Hw Hr Hlong Hstart Hml. unfold greedy_decode.
  destruct (Z.to_nat max_len) as [| n] eqn:En; [lia |].
  cbn [decode_loop]. unfold next_token, transformer_model.
  rewrite Transformer_forward_long_sequence; auto.
  - unfold ids_in_range, row_tensor. cbn [zrows forallb]. now rewrite Hstart.
Qed.

End LongSentence.

(** X29. Validation sentences are not truncated: on a well-formed model
    (with the defaults of the decoder within the table), one validation
    sentence with more tokens than the positional-encoding table holds
    positions makes [translate_validation_data] raise RuntimeError, and no
    translation is returned, of that sentence or of any other. *)
Theorem translate_validation_data_too_long (m : Transformer.t)
    (encode : String.string -> list Z) (decode : list Z -> String.string)
    (val_sentences : list (String.string * String.string)) :
  wfTransformer m = true ->
  1 < PositionalEncoding.max_len (Transformer.positional_encoding m) ->
  (forall kv, In kv val_sentences ->
     forallb (id_in_range (num_embeddings (Transformer.src_embedding m)))
       (encode (snd kv)) = true) ->
  Exists (fun kv => PositionalEncoding.max_len (Transformer.positional_encoding m)
                    < length (encode (snd kv))) val_sentences ->
  0 < out_features (Transformer.fc_out m) ->
  out_features (Transformer.fc_out m) <= num_embeddings (Transformer.tgt_embedding m) ->
  id_in_range (num_embeddings (Transformer.tgt_embedding m)) BOS = true ->
  Z.to_nat default_decode_max_len
  <= PositionalEncoding.max_len (Transformer.positional_encoding m) ->
  translate_validation_data encode decode (transformer_model m Eval) val_sentences
  = Raise RuntimeError.
Proof.
  intros Hm HM Hids Hex HV0 HV Hbos Hmax. unfold translate_validation_data.
  generalize (@nil (String.string * String.string)) as acc.
  induction val_sentences as [| [key sentence] rest IH]; intros acc.
  - inversion Hex.
  - cbn [translate_loop]. unfold translate_sentence.
    assert (Hw : wfZMat (row_tensor (encode sentence)) = true).
    { unfold row_tensor, wfZMat. cbn. now rewrite Nat.eqb_refl. }
    assert (Hr : ids_in_range (num_embeddings (Transformer.src_embedding m))
                   (row_tensor (encode sentence)) = true).
    { rewrite ids_in_range_row. apply (Hids (key, sentence)). now left. }
    destruct (Nat.lt_ge_cases
                (PositionalEncoding.max_len (Transformer.positional_encoding m))
                (length (encode sentence))) as [Hlong | Hshort].
    + rewrite (@greedy_decode_long_source m Hm HM); auto.
      unfold default_decode_max_len. lia.
    + destruct (@decode_loop_in_vocab m (row_tensor (encode sentence)) Hm Hw eq_refl Hr
                  Hshort HV0 HV EOS (Z.to_nat default_decode_max_len) [BOS])
        as [gen [Eg _]].
      * discriminate.
      * cbn [length]. lia.
      * cbn [forallb]. now rewrite Hbos.
      * unfold greedy_decode. rewrite Eg. cbn [bind]. apply IH.
        -- intros kv Hkv. apply Hids. now right.
        -- inversion Hex as [? ? Hh | ? ? Ht]; subst; [cbn [snd] in Hh; lia | exact Ht].
Qed.

Lemma translate_validation_data_too_long_witness :
  translate_validation_data (fun _ => repeat 1%Z 51) (fun _ => "x"%string)
    (transformer_model
       (Transformer.mk sample_embedding sample_embedding
          (PositionalEncoding.mk 50 2
             (map (fun p => map (spec_pe_entry 2 p) (seq 0 2)) (seq 0 50)))
          [sample_block] [sample_block] (zero_linear 2 4)) Eval)
    [("7"%string, "e"%string)]
  = Raise RuntimeError.
Proof.
  apply (@translate_validation_data_too_long
           (Transformer.mk sample_embedding sample_embedding
              (PositionalEncoding.mk 50 2
                 (map (fun p => map (spec_pe_entry 2 p) (seq 0 2)) (seq 0 50)))
              [sample_block] [sample_block] (zero_linear 2 4))
           (fun _ => repeat 1%Z 51) (fun _ => "x"%string) [("7"%string, "e"%string)]).
  - reflexivity.
  - cbn. lia.
  - intros kv _. reflexivity.
  - left. cbn. lia.
  - cbn. lia.
  - cbn. lia.
  - reflexivity.
  - cbn. lia.
Defined.

(** ** train_model runs to completion *)

Section Completion.
Variables Grads OptState : Type.
Variable grad_of : Transformer.t -> (Transformer.t -> result R) -> Grads.
Variable g_zero : Grads.
Variable g_add : Grads -> Grads -> Grads.
Variable opt_step : OptState -> Transformer.t -> Grads -> OptState * Transformer.t.
Variable draws : nat -> nat -> nat -> nat -> nat -> bool.

(** The optimizer changes the values of the parameters, not their shapes. *)
Hypothesis opt_step_shapes : forall o p g,
  wfTransformer p = true ->
  wfTransformer (snd (opt_step o p g)) = true /\
  model_sizes (snd (opt_step o p g)) = model_sizes p.

Local Abbreviation tb := (train_batch transformer_model criterion grad_of g_zero g_add
                            opt_step draws).
Local Abbreviation bl := (batch_loop transformer_model criterion grad_of g_zero g_add
                            opt_step draws).
Local Abbreviation el := (epoch_loop transformer_model criterion grad_of g_zero g_add
                            opt_step draws).

Lemma train_batch_fits (s : TrainState Transformer.t Grads OptState) (b : ZMat * ZMat) :
  wfTransformer (params s) = true ->
  0 < out_features (Transformer.fc_out (params s)) ->
  batch_fits (model_sizes (params s)) b ->
  exists s' loss,
    tb (fst b) (snd b) s = (s', Ok loss) /\
    wfTransformer (params s') = true /\
    model_sizes (params s') = model_sizes (params s) /\
    steps s' = S (steps s) /\ printed s' = printed s.
Proof.
  intros Hw HV Hfit. unfold batch_fits, model_sizes in Hfit.
  destruct Hfit as [H1 [H2 [H3 [H4 [H5 [H6 [H7 [H8 H9]]]]]]]].
  destruct (@batch_loss_ok (params s) (Train (draws (passes s))) (fst b) (snd b))
    as [loss El]; auto.
  rewrite (train_batch_ok transformer_model criterion grad_of g_zero g_add opt_step draws
             s (fst b) (snd b) El).
  eexists. exists loss. split; [reflexivity |]. cbn [params steps printed].
  destruct (opt_step_shapes (opt_state s) (params s)
              (g_add g_zero
                 (grad_of (params s)
                    (batch_loss transformer_model criterion (Train (draws (passes s)))
                       (fst b) (snd b)))) Hw) as [Hw' Hs'].
  repeat split; assumption.
Qed.

Lemma batch_loop_fits : forall (batches : list (ZMat * ZMat)) total
    (s : TrainState Transformer.t Grads OptState),
  wfTransformer (params s) = true ->
  0 < out_features (Transformer.fc_out (params s)) ->
  Forall (batch_fits (model_sizes (params s))) batches ->
  exists s' r,
    bl batches total s = (s', Ok r) /\
    wfTransformer (params s') = true /\
    model_sizes (params s') = model_sizes (params s) /\
    steps s' = steps s + length batches /\ printed s' = printed s.
Proof.
  induction batches as [| [src tgt] rest IH]; intros total s Hw HV Hall.
  - exists s, total. cbn. repeat split; try reflexivity; try assumption; lia.
  - cbn [batch_loop]. unfold bindS.
    destruct (@train_batch_fits s (src, tgt) Hw HV (Forall_inv Hall))
      as [s1 [loss [E [Hw1 [Hs1 [Hst1 Hp1]]]]]].
    cbn [fst snd] in E. rewrite E.
    destruct (IH (total + loss)%R s1 Hw1) as [s' [r [E' [Hw' [Hs' [Hst' Hp']]]]]].
    + unfold model_sizes in Hs1. inversion Hs1 as [[Ha Hb Hc Hd]]. now rewrite Hc.
    + rewrite Hs1. exact (Forall_inv_tail Hall).
    + exists s', r. split; [exact E' |]. cbn [length].
      repeat split; try congruence. lia.
Qed.

Lemma epoch_loop_fits : forall n (batches : list (ZMat * ZMat))
    (s : TrainState Transformer.t Grads OptState),
  wfTransformer (params s) = true ->
  0 < out_features (Transformer.fc_out (params s)) ->
  batches <> [] ->
  Forall (batch_fits (model_sizes (params s))) batches ->
  exists s',
    el n batches s = (s', Ok tt) /\
    wfTransformer (params s') = true /\
    model_sizes (params s') = model_sizes (params s) /\
    steps s' = steps s + n * length batches /\
    length (printed s') = length (printed s) + n.
Proof.
  induction n as [| n IH]; intros batches s Hw HV Hne Hall.
  - exists s. cbn. repeat split; try reflexivity; try assumption; lia.
  - cbn [epoch_loop]. unfold bindS, train_epoch, bindS.
    destruct (@batch_loop_fits batches 0%R s Hw HV Hall)
      as [s1 [total [E [Hw1 [Hs1 [Hst1 Hp1]]]]]].
    rewrite E.
    destruct batches as [| b0 rest] eqn:Eb; [congruence |].
    cbn [length]. unfold getS, putS.
    set (s2 := mkTrainState (params s1) (grads s1) (opt_state s1) (steps s1) (passes s1)
                 (printed s1 ++ [(total / INR (S (length rest)))%R])).
    destruct (IH (b0 :: rest) s2) as [s' [E' [Hw' [Hs' [Hst' Hp']]]]].
    + exact Hw1.
    + subst s2. cbn [params]. unfold model_sizes in Hs1.
      inversion Hs1 as [[Ha Hb Hc Hd]]. now rewrite Hc.
    + discriminate.
    + subst s2. cbn [params]. rewrite Hs1. exact Hall.
    + exists s'. split; [exact E' |].
      subst s2. cbn [params steps printed] in *.
      rewrite length_app, Hp1 in Hp'. cbn [length] in *.
      repeat split; try congruence; lia.
Qed.

End Completion.

(** X30. With an optimizer that keeps the shapes of the parameters,
    [train_model] runs to completion on every non-empty dataloader whose
    batches fit the model (one example or more each, ids inside the
    vocabularies, lengths within the positional-encoding table): no
    forward pass, loss or division raises, the model stays well formed,
    and it is updated exactly [num_epochs * len(dataloader)] times. *)
Theorem train_model_completes :
  forall (Grads OptState : Type)
         (grad_of : Transformer.t -> (Transformer.t -> result R) -> Grads)
         (g_zero : Grads) (g_add : Grads -> Grads -> Grads)
         (opt_step : OptState -> Transformer.t -> Grads -> OptState * Transformer.t)
         (draws : nat -> nat -> nat -> nat -> nat -> bool)
         (dataloader : list (ZMat * ZMat)) (num_epochs : Z)
         (s : TrainState Transformer.t Grads OptState),
    (forall o p g,
       wfTransformer p = true ->
       wfTransformer (snd (opt_step o p g)) = true /\
       model_sizes (snd (opt_step o p g)) = model_sizes p) ->
    wfTransformer (params s) = true ->
    0 < out_features (Transformer.fc_out (params s)) ->
    dataloader <> [] ->
    Forall (batch_fits (model_sizes (params s))) dataloader ->
    exists s',
      train_model transformer_model criterion grad_of g_zero g_add opt_step draws
        dataloader num_epochs s = (s', Ok tt) /\
      wfTransformer (params s') = true /\
      steps s' = steps s + Z.to_nat num_epochs * length dataloader /\
      length (printed s') = length (printed s) + Z.to_nat num_epochs.
Proof.
  intros Grads OptState grad_of g_zero g_add opt_step draws dataloader num_epochs s
         Hopt Hw HV Hne Hall.
  unfold train_model.
  destruct (@epoch_loop_fits Grads OptState grad_of g_zero g_add opt_step draws Hopt
              (Z.to_nat num_epochs) dataloader s Hw HV Hne Hall)
    as [s' [E [Hw' [_ [Hst Hp]]]]].
  exists s'. repeat split; assumption.
Qed.

Lemma train_model_completes_witness :
  exists s',
    train_model transformer_model criterion (fun _ _ => tt) tt (fun _ _ => tt)
      (fun (o : unit) p _ => (o, p)) (fun _ _ _ _ _ => true)
      [(sample_src, sample_tgt); (sample_src, sample_tgt)] 3 sample_state = (s', Ok tt) /\
    wfTransformer (params s') = true /\
    steps s' = steps sample_state + Z.to_nat 3 * 2 /\
    length (printed s') = length (printed sample_state) + Z.to_nat 3.
Proof.
  apply (@train_model_completes unit unit (fun _ _ => tt) tt (fun _ _ => tt)
           (fun o p _ => (o, p)) (fun _ _ _ _ _ => true)
           [(sample_src, sample_tgt); (sample_src, sample_tgt)] 3 sample_state).
  - intros o p g Hp. split; [exact Hp | reflexivity].
  - reflexivity.
  - cbn. lia.
  - discriminate.
  - repeat constructor; cbn; lia.
Defined.
